(** * Yakeen API batch tester: a shallow embedding of the batch engine

    The development follows the TypeScript sources of the repository:

    - [app/page.tsx]: the current front end (sequential batch runner,
      [statsRef] running statistics, buffered graph updates);
    - the earlier front end kept next to it (sequential and parallel batch
      modes, [addGraphDataPoint], counters [successCount]/[errorCount]/
      [totalTime]); it is referred to as the legacy page below;
    - [app/api/proxy/route.ts]: the server side proxy ([GET]);
    - [lib/utils/retry.ts]: [withRetry].

    JavaScript numbers that are integers by construction (ids, counters,
    HTTP status codes, results of [Math.floor]) are modelled as [Z].
    Durations, totals of durations and averages are IEEE 754 binary64
    numbers ([spec_float]), and so is the value of [Math.random()]; sums,
    products and quotients of such numbers are the binary64 operations,
    rounding to nearest with ties to even.  Rationals [Q] only serve to
    state how far a computed average is from the exact mean.  Logging, time
    stamps ([Date.now()]) and response payloads do not influence any of the
    properties below and are left out of the records.

    [next.config.js] sets [reactStrictMode: true]: in a development build
    React may invoke a state updater twice and keep the result of the
    second invocation.  The updaters of the response time graph empty
    [graphDataBufferRef] while they run, so the outcome depends on it; the
    environment of a run says for each graph update whether its updater
    runs once or twice. *)

From Stdlib Require Import ZArith QArith Qpower Qabs Lqa List String Ascii Bool Lia Arith.
From Stdlib Require Import Floats.SpecFloat.
Import ListNotations.

Local Open Scope string_scope.
Local Open Scope Z_scope.

(* ===================================================================== *)
(** * Part I: definitions                                                  *)
(* ===================================================================== *)

(** ** JavaScript primitives used by the sources *)

Module JS.

  (** The decimal digit [d] (0..9) as a character. *)
Definition digit_char (d : Z) : ascii := ascii_of_nat (48 + Z.to_nat d).

  (** Digits of a non-negative integer, most significant first. *)
Fixpoint decimal_digits (fuel : nat) (n : Z) (acc : string) : string :=
    match fuel with
    | O => acc
    | S fuel' =>
        let acc' := String (digit_char (n mod 10)) acc in
        if n <? 10 then acc' else decimal_digits fuel' (n / 10) acc'
    end.

  (** [String(n)] / [n.toString()] / [`${n}`] for an integer valued number. *)
Definition String_ (n : Z) : string :=
    if n <? 0
    then String "-" (decimal_digits (S (Z.to_nat (Z.log2 (- n)))) (- n) "")
    else decimal_digits (S (Z.to_nat (Z.log2 n))) n "".

Fixpoint repeat_char (c : ascii) (n : nat) : string :=
    match n with
    | O => ""
    | S n' => String c (repeat_char c n')
    end.

  (** [s.padStart(targetLength, c)] for a one character pad string. *)
Definition padStart (s : string) (targetLength : nat) (c : ascii) : string :=
    repeat_char c (targetLength - String.length s) ++ s.

  (** Truthiness of a string: the empty string is falsy. *)
Definition truthy_string (s : string) : bool :=
    match s with
    | EmptyString => false
    | String _ _ => true
    end.

  (** [a || b] on strings. *)
Definition or_string (a b : string) : string :=
    if truthy_string a then a else b.

  (** [a || b] on numbers where [a] may be [undefined]: [undefined] and [0]
      are falsy. *)
Definition or_number (a : option Z) (b : Z) : Z :=
    match a with
    | Some v => if v =? 0 then b else v
    | None => b
    end.

  (** Falsy numbers: [0], [-0] and [NaN]. *)
Definition falsy_number (x : spec_float) : bool :=
    match x with
    | S754_zero _ | S754_nan => true
    | S754_infinity _ | S754_finite _ _ _ => false
    end.

  (** [a || b] on numbers that need not be integers. *)
Definition or_duration (a : option spec_float) (b : spec_float) : spec_float :=
    match a with
    | Some v => if falsy_number v then b else v
    | None => b
    end.

  (** [Array.prototype.slice(start)] with a single, possibly negative,
      argument: a negative [start] counts from the end, [-0] is [0]. *)
Definition slice {A : Type} (l : list A) (start : Z) : list A :=
    let len := Z.of_nat (List.length l) in
    let from := if start <? 0 then Z.max (len + start) 0 else Z.min start len in
    skipn (Z.to_nat from) l.

  (** [Array.prototype.includes] on numbers and on strings. *)
Definition includes_number (l : list Z) (x : Z) : bool :=
    existsb (Z.eqb x) l.

Definition includes_string (l : list string) (x : string) : bool :=
    existsb (String.eqb x) l.

  (** *** Binary64 arithmetic and [Math.floor]

      Binary64 has a 53 bit significand and exponent bound 1024. *)
Definition prec : Z := 53.
Definition emax : Z := 1024.

  (** [x * y], [x + y] and [x / y] on binary64 numbers, rounding to
      nearest, ties to even. *)
Definition mul (x y : spec_float) : spec_float := SFmul prec emax x y.
Definition add (x y : spec_float) : spec_float := SFadd prec emax x y.
Definition div (x y : spec_float) : spec_float := SFdiv prec emax x y.

  (** The integer [n] as a binary64 number; exact for [|n| < 2^53]. *)
Definition of_int (n : Z) : spec_float :=
    match n with
    | Zpos p => binary_round prec emax false p 0
    | Zneg p => binary_round prec emax true p 0
    | Z0 => S754_zero false
    end.

  (** [Math.floor(x)] for a finite [x]; the result is an integer valued
      number, given here as an integer.  [None] stands for NaN and the
      infinities, which [Math.floor] returns unchanged. *)
Definition Math_floor (x : spec_float) : option Z :=
    match x with
    | S754_zero _ => Some 0
    | S754_finite s m e =>
        let v := if s then Z.neg m else Z.pos m in
        Some (if 0 <=? e then v * 2 ^ e else v / 2 ^ (- e))
    | S754_infinity _ | S754_nan => None
    end.

  (** What [Math.random()] may return: a binary64 number [r] with
      [+0 <= r < 1]. *)
Definition is_random_value (r : spec_float) : bool :=
    match r with
    | S754_zero s => negb s
    | S754_finite s m e =>
        negb s && bounded prec emax m e && SFltb r (of_int 1)
    | S754_infinity _ | S754_nan => false
    end.

End JS.

(** ** Data model ([ApiResult], [ResponseTimeData], statistics) *)

(** [status: 'success' | 'error'] *)
Inductive Status : Type := success | error.

Definition Status_eqb (a b : Status) : bool :=
  match a, b with
  | success, success | error, error => true
  | _, _ => false
  end.

Module ApiResult.
  (** [interface ApiResult]; [response] and [timestamp] are not modelled. *)
Record t : Type := make {
    id : Z;
    dateString : string;
    nin : string;
    status : Status;
    error : option string;
    duration : spec_float;
    statusCode : option Z
  }.
End ApiResult.

Module ResponseTimeData.
  (** [interface ResponseTimeData]: one point of the response time graph. *)
Record t : Type := make {
    time : string;
    duration : spec_float;
    success : Z;
    error : Z
  }.
End ResponseTimeData.

Module Stats.
  (** The object held by [statsRef] and by the [stats] state. *)
Record t : Type := make {
    total : Z;
    success : Z;
    error : Z;
    averageTime : spec_float
  }.

  (** [{ total: 0, success: 0, error: 0, averageTime: 0 }] *)
Definition zero : t := make 0 0 0 (JS.of_int 0).
End Stats.

(** ** Random parameters ([generateRandomDateString], [generateRandomNIN]) *)

Module Params.

  (** [Math.floor(r * n) + k], printed; a non-finite product prints as
      [NaN] (it does not occur for values of [Math.random()]). *)
Definition floor_scaled (r : spec_float) (n : Z) : option Z :=
    JS.Math_floor (JS.mul r (JS.of_int n)).

Definition print (v : option Z) : string :=
    match v with
    | Some z => JS.String_ z
    | None => "NaN"
    end.

  (** [[
      const year = Math.floor(Math.random() * 100) + 1400
      const month = String(Math.floor(Math.random() * 12) + 1).padStart(2, '0')
      return `${year}-${month}`
      ]]
      [ry] and [rm] are the two successive values of [Math.random()]. *)
Definition generateRandomDateString (ry rm : spec_float) : string :=
    let year := option_map (fun k => k + 1400) (floor_scaled ry 100) in
    let month :=
      JS.padStart (print (option_map (fun k => k + 1) (floor_scaled rm 12))) 2 "0" in
    print year ++ "-" ++ month.

  (** [[ return String(Math.floor(Math.random() * 900000000) + 100000000) ]] *)
Definition generateRandomNIN (rn : spec_float) : string :=
    print (option_map (fun k => k + 100000000) (floor_scaled rn 900000000)).

  (** A number written with exactly [width] decimal digits, zero padded:
      the reading of "a 4-digit year", "a zero-padded month", "a 9-digit
      integer" against which the generators are checked. *)
Fixpoint fixed_width (width : nat) (n : Z) : string :=
    match width with
    | O => ""
    | S w => fixed_width w (n / 10) ++ String (JS.digit_char (n mod 10)) ""
    end.

End Params.

(** ** The call executor ([makeApiCallWithParams]) *)

Module Response.
  (** The part of a fetch [Response] the executor reads.  [ok] is
      [200 <= status <= 299], as the fetch standard defines it. *)
Record t : Type := make {
    status : Z;
    statusText : string
  }.

Definition ok (r : t) : bool := (200 <=? status r) && (status r <=? 299).
End Response.

Module ProxyData.
  (** The JSON body returned by the proxy, as read by the executor:
      [status], [ok], [error] and [responseTime] may each be missing. *)
Record t : Type := make {
    status : option Z;
    ok : bool;
    error : string;            (* "" when absent *)
    responseTime : option spec_float
  }.
End ProxyData.

Module JsError.
  (** A thrown value as the [catch] block reads it: [error.name],
      [error.message] (empty when absent or falsy) and the result of
      [error.toString()] when the method exists. *)
Record t : Type := make {
    name : string;
    message : string;
    toString : option string
  }.

  (** The [DOMException] thrown by [fetch] for an aborted signal. *)
Definition AbortError : t :=
    make "AbortError" "The operation was aborted." (Some "AbortError: The operation was aborted.").
End JsError.

(** What [await fetch(...)] followed by [await response.json()] does. *)
Inductive FetchOutcome : Type :=
| FetchRejected (e : JsError.t)                      (* [fetch] throws *)
| JsonRejected (r : Response.t)                      (* [response.json()] throws *)
| JsonParsed (r : Response.t) (proxyData : ProxyData.t).

Module Executor.

  (** [fetch(proxyUrl, { signal })]: with an already aborted signal the
      platform rejects with [AbortError] without any network activity;
      otherwise the outcome is whatever the network produces. *)
Definition fetch (signalAborted : bool) (network : FetchOutcome) : FetchOutcome :=
    if signalAborted then FetchRejected JsError.AbortError else network.

  (** The [catch (error)] block of [makeApiCallWithParams]. *)
Definition errorMessageOf (e : JsError.t) : string :=
    if String.eqb (JsError.name e) "AbortError" then "Request aborted"
    else if JS.truthy_string (JsError.message e) then JsError.message e
    else match JsError.toString e with
         | Some s => s
         | None => "Unknown error"
         end.

  (** [makeApiCallWithParams(id, dateString, nin, signal, ...)], as a
      function of what the fetch did. *)
Definition makeApiCallWithParams
      (id : Z) (dateString nin : string) (o : FetchOutcome) : ApiResult.t :=
    match o with
    | JsonRejected response =>
        (* const statusCode = response.status || 500 *)
        let statusCode := JS.or_number (Some (Response.status response)) 500 in
        ApiResult.make id dateString nin error
          (Some ("Failed to parse response: " ++ JS.String_ (Response.status response)
                 ++ " " ++ Response.statusText response))
          (JS.of_int 0) (Some statusCode)
    | JsonParsed response proxyData =>
        (* const apiResponseTime = proxyData.responseTime || 0
           const statusCode = proxyData.status || response.status || 500 *)
        let apiResponseTime :=
          JS.or_duration (ProxyData.responseTime proxyData) (JS.of_int 0) in
        let statusCode :=
          JS.or_number
            (Some (JS.or_number (ProxyData.status proxyData) (Response.status response)))
            500 in
        if negb (Response.ok response) || JS.truthy_string (ProxyData.error proxyData)
        then
          ApiResult.make id dateString nin error
            (Some (JS.or_string (ProxyData.error proxyData)
                     ("Proxy error: " ++ JS.String_ (Response.status response)
                      ++ " " ++ Response.statusText response)))
            apiResponseTime (Some statusCode)
        else
          ApiResult.make id dateString nin
            (if ProxyData.ok proxyData then success else error)
            None apiResponseTime (Some statusCode)
    | FetchRejected e =>
        ApiResult.make id dateString nin error
          (Some (errorMessageOf e)) (JS.of_int 0) (Some 0)
    end.

End Executor.

(** ** The proxy route ([GET] in [app/api/proxy/route.ts]) *)

Module Proxy.

  (** The error raised by the upstream request, as the [catch] block of
      [GET] reads it ([actualError.message], [actualError.code]). *)
Record NodeError : Type := mkNodeError {
    message : string;
    code : string                (* "" when absent *)
  }.

  (** [[
      let detailedError = errorMessage
      if (code === 'CERT_HAS_EXPIRED' || code === 'UNABLE_TO_VERIFY_LEAF_SIGNATURE') ...
      else if (code === 'ENOTFOUND' || code === 'ECONNREFUSED') ...
      ]] *)
Definition detailedError (e : NodeError) : string :=
    let errorMessage := JS.or_string (message e) "Failed to fetch" in
    if String.eqb (code e) "CERT_HAS_EXPIRED"
       || String.eqb (code e) "UNABLE_TO_VERIFY_LEAF_SIGNATURE"
    then "SSL Certificate Error: " ++ errorMessage
         ++ ". The API may be using a self-signed certificate."
    else if String.eqb (code e) "ENOTFOUND" || String.eqb (code e) "ECONNREFUSED"
    then "Connection Error: " ++ errorMessage ++ ". Cannot reach the API server."
    else errorMessage.

  (** What the browser receives when the upstream request fails:
      [NextResponse.json({ error: detailedError, ..., responseTime },
      { status: 500 })].  The body has no [status] and no [ok] field. *)
Definition GET_upstream_failure (e : NodeError) (responseTime : spec_float)
      : FetchOutcome :=
    JsonParsed
      (Response.make 500 "Internal Server Error")
      (ProxyData.make None false (detailedError e) (Some responseTime)).

  (** What the browser receives when the upstream answers with HTTP status
      [statusCode]: the proxy itself answers 200 and reports the upstream
      status in the body. *)
Definition GET_upstream_response (statusCode : Z) (responseTime : spec_float)
      : FetchOutcome :=
    let s := JS.or_number (Some statusCode) 200 in
    JsonParsed
      (Response.make 200 "OK")
      (ProxyData.make (Some s) ((200 <=? s) && (s <? 300)) "" (Some responseTime)).

End Proxy.

(** ** The response time series *)

Module Graph.

  (** [graphDataBufferRef], [graphSequenceRef] and the [responseTimeData]
      state; [graphUpdateTimer] is [graphUpdateTimerRef.current !== null]
      (legacy page only). *)
Record t : Type := make {
    responseTimeData : list ResponseTimeData.t;
    graphDataBuffer : list ResponseTimeData.t;
    graphSequence : Z;
    graphUpdateTimer : bool
  }.

Definition empty : t := make [] [] 0 false.

  (** The point pushed for [result] when the sequence counter is [seq]. *)
Definition point (seq : Z) (result : ApiResult.t) : ResponseTimeData.t :=
    ResponseTimeData.make
      (JS.String_ seq)
      (ApiResult.duration result)
      (if Status_eqb (ApiResult.status result) success then 1 else 0)
      (if Status_eqb (ApiResult.status result) error then 1 else 0).

  (** [app/page.tsx], [addGraphDataPointToRef]: count and buffer the point.
      (Reaching [BATCH_UPDATE_THRESHOLD] only requests an animation frame;
      the frame itself is [updateUI] below.) *)
Definition addGraphDataPointToRef (g : t) (result : ApiResult.t) : t :=
    let seq := graphSequence g + 1 in
    make (responseTimeData g) (graphDataBuffer g ++ [point seq result])%list seq
         (graphUpdateTimer g).

  (** The updaters passed to [setResponseTimeData] read
      [graphDataBufferRef.current] and empty it.  React runs such an
      updater once, or twice with the same [prev], keeping the result of
      the second run ([reactStrictMode: true], development build, when the
      update is processed while rendering).  The run whose result is kept
      then finds the buffer that the first run has emptied. *)
Definition seenByUpdater (twice : bool) (buffer : list ResponseTimeData.t)
      : list ResponseTimeData.t :=
    if twice then [] else buffer.

  (** [app/page.tsx], the [requestAnimationFrame] callback of
      [updateUIAsync], graph part:
      [[
      if (graphDataBufferRef.current.length > 0) {
        setResponseTimeData(prev => {
          const buffer = graphDataBufferRef.current
          graphDataBufferRef.current = []
          const totalLength = prev.length + buffer.length
          if (totalLength <= graphMaxPoints) return [...prev, ...buffer]
          const trimmed = prev.slice(-(graphMaxPoints - buffer.length))
          return [...trimmed, ...buffer]
        })
      }
      ]]
      [twice]: React runs the updater twice. *)
Definition updateUI (twice : bool) (graphMaxPoints : Z) (g : t) : t :=
    match graphDataBuffer g with
    | [] => g
    | _ :: _ =>
        let prev := responseTimeData g in
        let buffer := seenByUpdater twice (graphDataBuffer g) in
        let totalLength := Z.of_nat (List.length prev) + Z.of_nat (List.length buffer) in
        let next :=
          if totalLength <=? graphMaxPoints then (prev ++ buffer)%list
          else (JS.slice prev (- (graphMaxPoints - Z.of_nat (List.length buffer))) ++ buffer)%list in
        make next [] (graphSequence g) (graphUpdateTimer g)
    end.

  (** The flush in the [finally] block of [runBatchCalls] (both pages):
      [[
      if (graphDataBufferRef.current.length > 0) {
        setResponseTimeData(prev => {
          const newData = [...prev, ...graphDataBufferRef.current]
          graphDataBufferRef.current = []
          return newData.slice(-100)
        })
      }
      ]] *)
Definition finalFlush (twice : bool) (g : t) : t :=
    match graphDataBuffer g with
    | [] => g
    | _ :: _ =>
        make (JS.slice (responseTimeData g
                        ++ seenByUpdater twice (graphDataBuffer g))%list (-100)) []
             (graphSequence g) (graphUpdateTimer g)
    end.

  (** Legacy page, [addGraphDataPoint]: the point is buffered, and the
      buffer is merged into the state when it holds five points or when no
      timer is pending; otherwise ([else if (!graphUpdateTimerRef.current)],
      which cannot hold there) nothing more happens. *)
Definition addGraphDataPoint (twice : bool) (g : t) (result : ApiResult.t) : t :=
    let seq := graphSequence g + 1 in
    let buffer := (graphDataBuffer g ++ [point seq result])%list in
    if (5 <=? Z.of_nat (List.length buffer)) || negb (graphUpdateTimer g)
    then make (JS.slice (responseTimeData g ++ seenByUpdater twice buffer)%list (-100))
              [] seq false
    else if negb (graphUpdateTimer g)
    then make (responseTimeData g) buffer seq true
    else make (responseTimeData g) buffer seq (graphUpdateTimer g).

  (** Legacy page, end of the sequential loop: the locally collected
      [graphDataPoints] are merged at once,
      [[ setResponseTimeData(prev => [...prev, ...graphDataPoints].slice(-100)) ]]
      This updater reads no ref and changes nothing: running it twice
      gives the same state. *)
Definition setCollected (g : t) (graphDataPoints : list ResponseTimeData.t) : t :=
    match graphDataPoints with
    | [] => g
    | _ :: _ =>
        make (JS.slice (responseTimeData g ++ graphDataPoints)%list (-100))
             (graphDataBuffer g) (graphSequence g) (graphUpdateTimer g)
    end.

End Graph.

(** ** The environment of a batch run *)

(** What [fetch('/api/test-values')] brings. *)
Inductive TestValues : Type :=
| TestValuesThrows                      (* the fetch or its [json()] throws *)
| TestValuesNotOk                       (* [testValuesResponse.ok] is false *)
| TestValuesJson (dateString nin : string).   (* "" for a missing field *)

(** Everything a run reads from outside: the configured canary, the
    network, the values of [Math.random()] in the order they are drawn, the
    moments at which the user presses the stop button, an animation frame
    runs, or (parallel mode) the calls of a batch settle, and what React
    does with the updaters of the graph. *)
Record World : Type := mkWorld {
  testValues : TestValues;
  stopDuringSetup : bool;       (* stop pressed while the test values are awaited *)
  network : Z -> string -> string -> FetchOutcome;  (* the answer to call #id *)
  stopDuring : Z -> bool;       (* stop pressed while call #id is awaited *)
  frameDuring : Z -> bool;      (* the UI update runs while call #id is awaited *)
  random : nat -> spec_float;   (* the n-th value of [Math.random()] *)
  completionOrder : list Z -> list Z;  (* order in which a batch settles *)
  updaterTwice : Z -> bool      (* React runs twice the updater of the graph
                                   update made for call #id (0: the update
                                   that ends the run) *)
}.

(** The observable steps of a run. *)
Inductive Event : Type :=
| Issued (id : Z) (dateString nin : string)   (* the fetch of call #id starts *)
| Settled (id : Z)                            (* call #id has produced its result *)
| Recorded (id : Z).                          (* the result is pushed and counted *)

(** [[
    if (!correctDateString || !correctNIN) { addLog('Error: ...'); setIsRunning(false); return }
    ]]
    [Some] holds the canary parameters when both are available. *)
Definition correctTestValues (tv : TestValues) : option (string * string) :=
  match tv with
  | TestValuesJson correctDateString correctNIN =>
      if negb (JS.truthy_string correctDateString) || negb (JS.truthy_string correctNIN)
      then None
      else Some (correctDateString, correctNIN)
  | TestValuesThrows | TestValuesNotOk => None
  end.

(** ** [runBatchCalls] in [app/page.tsx] *)

Module Page.

Record RunState : Type := mkState {
    batchResults : list ApiResult.t;    (* batchResultsRef.current *)
    stats : Stats.t;                    (* statsRef.current *)
    graph : Graph.t;
    aborted : bool;                     (* signal.aborted *)
    draws : nat;                        (* values of Math.random() used so far *)
    events : list Event;
    snapshots : list Stats.t            (* statsRef.current after each recording *)
  }.

  (** The state right after the resets at the top of [runBatchCalls]. *)
Definition initial : RunState :=
    mkState [] Stats.zero Graph.empty false 0 [] [].

  (** [[
      statsRef.current.total++
      if (result.status === 'success') statsRef.current.success++
      else statsRef.current.error++
      ]] *)
Definition count (s : Stats.t) (result : ApiResult.t) : Stats.t :=
    Stats.make
      (Stats.total s + 1)
      (if Status_eqb (ApiResult.status result) success
       then Stats.success s + 1 else Stats.success s)
      (if Status_eqb (ApiResult.status result) success
       then Stats.error s else Stats.error s + 1)
      (Stats.averageTime s).

  (** First call: [statsRef.current.averageTime = correctTestResult.duration] *)
Definition recordFirst (s : Stats.t) (result : ApiResult.t) : Stats.t :=
    let s1 := count s result in
    Stats.make (Stats.total s1) (Stats.success s1) (Stats.error s1)
               (ApiResult.duration result).

  (** Later calls:
      [[
      const currentTotal = statsRef.current.total
      statsRef.current.averageTime =
        (statsRef.current.averageTime * (currentTotal - 1) + apiResult.duration) / currentTotal
      ]] *)
Definition recordNext (s : Stats.t) (result : ApiResult.t) : Stats.t :=
    let s1 := count s result in
    let currentTotal := Stats.total s1 in
    Stats.make (Stats.total s1) (Stats.success s1) (Stats.error s1)
      (JS.div
         (JS.add (JS.mul (Stats.averageTime s1) (JS.of_int (currentTotal - 1)))
                 (ApiResult.duration result))
         (JS.of_int currentTotal)).

  (** The statistics after recording a whole sequence of results the way
      [runBatchCalls] does: the first with [recordFirst], the others with
      [recordNext]. *)
Definition recordAll (results : list ApiResult.t) : Stats.t :=
    match results with
    | [] => Stats.zero
    | first :: rest => fold_left recordNext rest (recordFirst Stats.zero first)
    end.

  (** One awaited call: the fetch is issued with the current signal, the
      UI may update and the stop button may be pressed while it is awaited,
      then the result comes back. *)
Definition call (graphMaxPoints : Z) (w : World) (id : Z) (dateString nin : string)
      (st : RunState) : ApiResult.t * RunState :=
    let result :=
      Executor.makeApiCallWithParams id dateString nin
        (Executor.fetch (aborted st) (network w id dateString nin)) in
    (result,
     mkState (batchResults st) (stats st)
       (if frameDuring w id
        then Graph.updateUI (updaterTwice w id) graphMaxPoints (graph st)
        else graph st)
       (aborted st || stopDuring w id)
       (draws st)
       (events st ++ [Issued id dateString nin; Settled id])%list
       (snapshots st)).

  (** [makeApiCall(id, signal, false)]: random parameters, then the call. *)
Definition makeApiCall (graphMaxPoints : Z) (w : World) (id : Z) (st : RunState)
      : ApiResult.t * RunState :=
    let dateString :=
      Params.generateRandomDateString (random w (draws st)) (random w (S (draws st))) in
    let nin := Params.generateRandomNIN (random w (S (S (draws st)))) in
    call graphMaxPoints w id dateString nin
      (mkState (batchResults st) (stats st) (graph st) (aborted st)
               (3 + draws st) (events st) (snapshots st)).

  (** Push, count, average, graph point: what follows each awaited call. *)
Definition record (update : Stats.t -> ApiResult.t -> Stats.t)
      (result : ApiResult.t) (st : RunState) : RunState :=
    let stats' := update (stats st) result in
    mkState (batchResults st ++ [result])%list stats'
      (Graph.addGraphDataPointToRef (graph st) result)
      (aborted st) (draws st)
      (events st ++ [Recorded (ApiResult.id result)])%list
      (snapshots st ++ [stats'])%list.

  (** [[
      for (let i = 0; i < remainingCalls; i++) {
        if (signal.aborted) break
        const apiResult = await makeApiCall(i + 2, signal, false)
        ... record ...
      }
      ]]
      [todo] is the number of iterations still to run, [i] the loop index. *)
Fixpoint loop (graphMaxPoints : Z) (w : World) (todo : nat) (i : Z) (st : RunState)
      : RunState :=
    match todo with
    | O => st
    | S todo' =>
        if aborted st then st
        else
          let '(apiResult, st1) := makeApiCall graphMaxPoints w (i + 2) st in
          loop graphMaxPoints w todo' (i + 1) (record recordNext apiResult st1)
    end.

  (** The [finally] block: the remaining buffered points are merged. *)
Definition finally (w : World) (st : RunState) : RunState :=
    mkState (batchResults st) (stats st)
            (Graph.finalFlush (updaterTwice w 0) (graph st))
            (aborted st) (draws st) (events st) (snapshots st).

  (** The state once the test values have been awaited: everything is
      reset, and the stop button may already have been pressed. *)
Definition start (w : World) : RunState :=
    mkState [] Stats.zero Graph.empty (stopDuringSetup w) 0 [] [].

  (** [[
      if (!signal.aborted) {
        const correctTestResult =
          await makeApiCallWithParams(1, correctDateString, correctNIN, signal, false, false)
        ... push, count, averageTime = duration, graph point ...
      }
      ]] *)
Definition firstCall (graphMaxPoints : Z) (w : World)
      (correctDateString correctNIN : string) (st : RunState) : RunState :=
    if aborted st then st
    else
      let '(correctTestResult, st1) :=
        call graphMaxPoints w 1 correctDateString correctNIN st in
      record recordFirst correctTestResult st1.

  (** [runBatchCalls(count)] with the [graphMaxPoints] setting.  [None]:
      the run stopped at the configuration check, before the first call. *)
Definition runBatchCalls (graphMaxPoints : Z) (w : World) (count : Z)
      : option RunState :=
    match correctTestValues (testValues w) with
    | None => None
    | Some (correctDateString, correctNIN) =>
        let st1 := firstCall graphMaxPoints w correctDateString correctNIN (start w) in
        let remainingCalls := count - 1 in
        Some (finally w (loop graphMaxPoints w (Z.to_nat remainingCalls) 0 st1))
    end.

  (** The state a failed start leaves behind: the resets at the top of
      [runBatchCalls] and nothing else. *)
Definition afterRun (graphMaxPoints : Z) (w : World) (count : Z) : RunState :=
    match runBatchCalls graphMaxPoints w count with
    | Some st => st
    | None => initial
    end.

End Page.

(** ** [runBatchCalls] in the legacy page (sequential and parallel modes) *)

Module Legacy.

  (** [batchMode: 'sequential' | 'parallel'] *)
Inductive BatchMode : Type := sequential | parallel.

Definition isSequential (m : BatchMode) : bool :=
    match m with sequential => true | parallel => false end.

Record RunState : Type := mkState {
    batchResults : list ApiResult.t;
    successCount : Z;
    errorCount : Z;
    totalTime : spec_float;
    graphDataPoints : list ResponseTimeData.t;  (* collected in sequential mode *)
    stats : Stats.t;                            (* the [stats] state, via setStats *)
    graph : Graph.t;
    aborted : bool;
    draws : nat;
    events : list Event;
    snapshots : list Stats.t                    (* the counters after each recording *)
  }.

Definition initial : RunState :=
    mkState [] 0 0 (JS.of_int 0) [] Stats.zero Graph.empty false 0 [] [].

  (** [totalTime / batchResults.length || 0]; [n] is the length. *)
Definition averageOf (totalTime : spec_float) (n : nat) : spec_float :=
    let a := JS.div totalTime (JS.of_int (Z.of_nat n)) in
    if JS.falsy_number a then JS.of_int 0 else a.

  (** [[
      { total: batchResults.length, success: successCount, error: errorCount,
        averageTime: totalTime / batchResults.length || 0 }
      ]] *)
Definition counters (st : RunState) : Stats.t :=
    Stats.make (Z.of_nat (List.length (batchResults st)))
               (successCount st) (errorCount st)
               (averageOf (totalTime st) (List.length (batchResults st))).

  (** [setStats({...})] *)
Definition setStats (st : RunState) : RunState :=
    mkState (batchResults st) (successCount st) (errorCount st) (totalTime st)
            (graphDataPoints st) (counters st) (graph st) (aborted st) (draws st)
            (events st) (snapshots st).

  (** Push and count one result.  The sequential loop and the first call
      write [successCount += status === 'success' ? 1 : 0] and
      [errorCount += status === 'error' ? 1 : 0]; the parallel loop writes
      [if (status === 'success') successCount++ else errorCount++].
      [plot] is what happens to the graph. *)
Definition push (plot : RunState -> ApiResult.t -> Graph.t * list ResponseTimeData.t)
      (result : ApiResult.t) (st : RunState) : RunState :=
    let st' :=
      mkState (batchResults st ++ [result])%list
        (successCount st + (if Status_eqb (ApiResult.status result) success then 1 else 0))
        (errorCount st + (if Status_eqb (ApiResult.status result) error then 1 else 0))
        (JS.add (totalTime st) (ApiResult.duration result))
        (snd (plot st result)) (stats st) (fst (plot st result))
        (aborted st) (draws st)
        (events st ++ [Recorded (ApiResult.id result)])%list
        (snapshots st) in
    mkState (batchResults st') (successCount st') (errorCount st') (totalTime st')
            (graphDataPoints st') (stats st') (graph st') (aborted st') (draws st')
            (events st') (snapshots st ++ [counters st'])%list.

  (** Sequential mode: [graphSequenceRef.current += 1; graphDataPoints.push(...)] *)
Definition collectPoint (st : RunState) (result : ApiResult.t)
      : Graph.t * list ResponseTimeData.t :=
    let seq := Graph.graphSequence (graph st) + 1 in
    (Graph.make (Graph.responseTimeData (graph st)) (Graph.graphDataBuffer (graph st))
                seq (Graph.graphUpdateTimer (graph st)),
     (graphDataPoints st ++ [Graph.point seq result])%list).

  (** Parallel mode: [addGraphDataPoint(result)] *)
Definition plotPoint (w : World) (st : RunState) (result : ApiResult.t)
      : Graph.t * list ResponseTimeData.t :=
    (Graph.addGraphDataPoint (updaterTwice w (ApiResult.id result)) (graph st) result,
     graphDataPoints st).

  (** The [else] branch of the [forEach] over [Promise.allSettled]: a
      rejected promise is recorded as an error with fresh random parameters;
      [totalTime] and the graph are left alone.  [makeApiCallWithParams]
      catches every exception, so [runBatchCalls] below never takes it. *)
Definition pushRejected (w : World) (startIdx idx : Z) (reason : string)
      (st : RunState) : RunState :=
    let errorResult :=
      ApiResult.make (startIdx + idx + 2)
        (Params.generateRandomDateString (random w (draws st)) (random w (S (draws st))))
        (Params.generateRandomNIN (random w (S (S (draws st)))))
        error (Some (JS.or_string reason "Promise rejected")) (JS.of_int 0) None in
    let st' :=
      mkState (batchResults st ++ [errorResult])%list
        (successCount st) (errorCount st + 1) (totalTime st)
        (graphDataPoints st) (stats st) (graph st) (aborted st) (3 + draws st)
        (events st ++ [Recorded (ApiResult.id errorResult)])%list (snapshots st) in
    mkState (batchResults st') (successCount st') (errorCount st') (totalTime st')
            (graphDataPoints st') (stats st') (graph st') (aborted st') (draws st')
            (events st') (snapshots st ++ [counters st'])%list.

  (** The fetch of call [id] starts: parameters are fixed, the event is
      logged, and the result the network will give is computed. *)
Definition issue (w : World) (id : Z) (dateString nin : string) (st : RunState)
      : ApiResult.t * RunState :=
    (Executor.makeApiCallWithParams id dateString nin
       (Executor.fetch (aborted st) (network w id dateString nin)),
     mkState (batchResults st) (successCount st) (errorCount st) (totalTime st)
             (graphDataPoints st) (stats st) (graph st) (aborted st) (draws st)
             (events st ++ [Issued id dateString nin])%list (snapshots st)).

  (** [makeApiCall(id, signal, ...)] up to its first [await]. *)
Definition makeApiCall (w : World) (id : Z) (st : RunState) : ApiResult.t * RunState :=
    let dateString :=
      Params.generateRandomDateString (random w (draws st)) (random w (S (draws st))) in
    let nin := Params.generateRandomNIN (random w (S (S (draws st)))) in
    issue w id dateString nin
      (mkState (batchResults st) (successCount st) (errorCount st) (totalTime st)
               (graphDataPoints st) (stats st) (graph st) (aborted st) (3 + draws st)
               (events st) (snapshots st)).

  (** The calls [ids] are awaited: they settle in some [order], and the
      stop button may be pressed meanwhile. *)
Definition settle (w : World) (ids order : list Z) (st : RunState) : RunState :=
    mkState (batchResults st) (successCount st) (errorCount st) (totalTime st)
            (graphDataPoints st) (stats st) (graph st)
            (aborted st || existsb (stopDuring w) ids) (draws st)
            (events st ++ map Settled order)%list (snapshots st).

  (** [await] of a single call. *)
Definition await (w : World) (id : Z) (st : RunState) : RunState :=
    settle w [id] [id] st.

  (** [await Promise.allSettled(batchPromises)]: the calls of the batch
      settle in the order the world chooses. *)
Definition awaitAll (w : World) (ids : list Z) (st : RunState) : RunState :=
    settle w ids (completionOrder w ids) st.

  (** Sequential mode:
      [[
      for (let i = 0; i < remainingCalls; i++) {
        if (signal.aborted) break
        const apiResult = await makeApiCall(i + 2, signal, true, ...)
        ... push, count, collect the graph point ...
        if ((i + 1) % updateInterval === 0 || i === remainingCalls - 1) { setStats(...) }
      }
      ]] *)
Definition updateInterval : Z := 100.

Fixpoint sequentialLoop (w : World) (remainingCalls : Z) (todo : nat) (i : Z)
      (st : RunState) : RunState :=
    match todo with
    | O => st
    | S todo' =>
        if aborted st then st
        else
          let '(apiResult, st1) := makeApiCall w (i + 2) st in
          let st2 := await w (i + 2) st1 in
          let st3 := push collectPoint apiResult st2 in
          let st4 :=
            if ((i + 1) mod updateInterval =? 0) || (i =? remainingCalls - 1)
            then setStats st3 else st3 in
          sequentialLoop w remainingCalls todo' (i + 1) st4
    end.

  (** [Math.ceil(a / b)] for integers with [b <> 0]. *)
Definition ceilDiv (a b : Z) : Z := - ((- a) / b).

  (** Parallel mode, the inner loop that starts the calls of one batch:
      [[
      for (let i = startIdx; i < endIdx; i++) {
        if (signal.aborted) break
        batchPromises.push(makeApiCall(i + 2, signal))
      }
      ]] *)
Fixpoint dispatch (w : World) (todo : nat) (i : Z)
      (batchPromises : list ApiResult.t) (st : RunState)
      : list ApiResult.t * RunState :=
    match todo with
    | O => (batchPromises, st)
    | S todo' =>
        if aborted st then (batchPromises, st)
        else
          let '(promise, st1) := makeApiCall w (i + 2) st in
          dispatch w todo' (i + 1) (batchPromises ++ [promise])%list st1
    end.

  (** Parallel mode, the loop over the batches:
      [[
      for (let batch = 0; batch < totalBatches; batch++) {
        if (signal.aborted) break
        ... start the calls startIdx .. endIdx - 1 ...
        const batchResultsChunk = await Promise.allSettled(batchPromises)
        batchResultsChunk.forEach(... push, count, addGraphDataPoint ...)
        setStats(...)
      }
      ]] *)
Fixpoint parallelLoop (threadCount : Z) (w : World) (remainingCalls : Z)
      (todo : nat) (batch : Z) (st : RunState) : RunState :=
    match todo with
    | O => st
    | S todo' =>
        if aborted st then st
        else
          let startIdx := batch * threadCount in
          let endIdx := Z.min (startIdx + threadCount) remainingCalls in
          let '(batchResultsChunk, st1) :=
            dispatch w (Z.to_nat (endIdx - startIdx)) startIdx [] st in
          let st2 := awaitAll w (map ApiResult.id batchResultsChunk) st1 in
          let st3 :=
            fold_left (fun s apiResult => push (plotPoint w) apiResult s)
                      batchResultsChunk st2 in
          parallelLoop threadCount w remainingCalls todo' (batch + 1) (setStats st3)
    end.

  (** The [finally] block. *)
Definition finally (w : World) (st : RunState) : RunState :=
    mkState (batchResults st) (successCount st) (errorCount st) (totalTime st)
            (graphDataPoints st) (stats st)
            (Graph.finalFlush (updaterTwice w 0) (graph st))
            (aborted st) (draws st) (events st) (snapshots st).

  (** The state once the test values have been awaited. *)
Definition start (w : World) : RunState :=
    mkState [] 0 0 (JS.of_int 0) [] Stats.zero Graph.empty (stopDuringSetup w) 0 [] [].

  (** [[
      if (!signal.aborted) {
        const correctTestResult =
          await makeApiCallWithParams(1, correctDateString, correctNIN, signal, ...)
        ... push, count, graph point ...
        setStats({...})
      }
      ]] *)
Definition firstCall (batchMode : BatchMode) (w : World)
      (correctDateString correctNIN : string) (st : RunState) : RunState :=
    if aborted st then st
    else
      let '(correctTestResult, st1) := issue w 1 correctDateString correctNIN st in
      setStats
        (push (if isSequential batchMode then collectPoint else plotPoint w)
              correctTestResult (await w 1 st1)).

  (** After the sequential loop the collected graph points are merged. *)
Definition mergeCollected (st : RunState) : RunState :=
    mkState (batchResults st) (successCount st) (errorCount st)
            (totalTime st) (graphDataPoints st) (stats st)
            (Graph.setCollected (graph st) (graphDataPoints st))
            (aborted st) (draws st) (events st) (snapshots st).

  (** [runBatchCalls(count)] with the [batchMode] and [threadCount]
      settings.  [None]: the run stopped at the configuration check. *)
Definition runBatchCalls (batchMode : BatchMode) (threadCount : Z)
      (w : World) (count : Z) : option RunState :=
    match correctTestValues (testValues w) with
    | None => None
    | Some (correctDateString, correctNIN) =>
        let st1 := firstCall batchMode w correctDateString correctNIN (start w) in
        let remainingCalls := count - 1 in
        Some (finally w
          match batchMode with
          | sequential =>
              mergeCollected
                (sequentialLoop w remainingCalls (Z.to_nat remainingCalls) 0 st1)
          | parallel =>
              let totalBatches := ceilDiv remainingCalls threadCount in
              parallelLoop threadCount w remainingCalls (Z.to_nat totalBatches) 0 st1
          end)
    end.

Definition afterRun (batchMode : BatchMode) (threadCount : Z)
      (w : World) (count : Z) : RunState :=
    match runBatchCalls batchMode threadCount w count with
    | Some st => st
    | None => initial
    end.

End Legacy.

(** ** [withRetry] in [lib/utils/retry.ts] *)

Module Retry.

  (** [interface RetryConfig] *)
Record RetryConfig : Type := mkConfig {
    maxRetries : Z;
    retryDelay : Z;
    retryableStatusCodes : list Z
  }.

  (** [API_CONFIG] defaults and [DEFAULT_RETRY_CONFIG]. *)
Definition DEFAULT_RETRY_CONFIG : RetryConfig :=
    mkConfig 3 1000 [500; 502; 503; 504; 408].

  (** A thrown value read [as { statusCode?: number; code?: string }]. *)
Record ErrorObj : Type := mkError {
    statusCode : option Z;
    code : option string
  }.

  (** [[
      const isRetryable =
        config.retryableStatusCodes.includes(errorObj.statusCode || 0) ||
        (errorObj.code && ['ETIMEDOUT', 'ECONNRESET', 'ENOTFOUND'].includes(errorObj.code))
      ]] *)
Definition isRetryable (config : RetryConfig) (errorObj : ErrorObj) : bool :=
    JS.includes_number (retryableStatusCodes config) (JS.or_number (statusCode errorObj) 0)
    || match code errorObj with
       | Some c =>
           JS.truthy_string c
           && JS.includes_string ["ETIMEDOUT"; "ECONNRESET"; "ENOTFOUND"] c
       | None => false
       end.

Section WithFn.

    (** [fn: () => Promise<T>] acts on some state [Env] of the outside world;
        one invocation either resolves to a [T] or throws. *)
Context {T Env : Type}.
Variable fn : Env -> (T + ErrorObj) * Env.

    (** How [withRetry] ends. *)
Inductive Outcome : Type :=
    | Returned (result : T) (retryCount : Z)
    | Thrown (lastError : option ErrorObj).      (* [None]: [undefined] *)

    (** What happened during one [withRetry]: its outcome, the results of
        the successive invocations of [fn], the delays slept, and the
        world afterwards. *)
Record Run : Type := mkRun {
      outcome : Outcome;
      attempts : list (T + ErrorObj);
      sleeps : list Z;
      world : Env
    }.

    (** The body of the [for (attempt = 0; attempt <= maxRetries; attempt++)]
        loop; [todo] is the number of iterations left. *)
Fixpoint loop (config : RetryConfig) (todo : nat) (attempt retryCount : Z)
        (lastError : option ErrorObj) (attempts : list (T + ErrorObj))
        (sleeps : list Z) (s : Env) : Run :=
      match todo with
      | O => mkRun (Thrown lastError) attempts sleeps s
      | S todo' =>
          let '(r, s') := fn s in
          let attempts' := (attempts ++ [r])%list in
          match r with
          | inl result => mkRun (Returned result retryCount) attempts' sleeps s'
          | inr e =>
              if maxRetries config <=? attempt
              then mkRun (Thrown (Some e)) attempts' sleeps s'
              else if negb (isRetryable config e)
              then mkRun (Thrown (Some e)) attempts' sleeps s'
              else
                let delay := retryDelay config * 2 ^ attempt in
                loop config todo' (attempt + 1) (retryCount + 1) (Some e)
                     attempts' (sleeps ++ [delay])%list s'
          end
      end.

    (** [withRetry(fn, config)] *)
Definition withRetry (config : RetryConfig) (s : Env) : Run :=
      loop config (Z.to_nat (maxRetries config + 1)) 0 0 None [] [] s.

End WithFn.

End Retry.

(** ** Binary64 numbers as quantities *)

Module Binary64.

  (** The rational value of a finite number (0 for the others). *)
Definition value (x : spec_float) : Q :=
    match x with
    | S754_finite s m e =>
        ((if s then inject_Z (Z.neg m) else inject_Z (Z.pos m)) * 2 ^ e)%Q
    | _ => 0%Q
    end.

  (** A positive normal number [m * 2^e] with a 53 bit significand. *)
Definition positiveNormal (x : spec_float) : bool :=
    match x with
    | S754_finite false m e =>
        (2 ^ 52 <=? Z.pos m) && (Z.pos m <? 2 ^ 53) && (-1074 <=? e) && (e <=? 971)
    | _ => false
    end.

  (** The unit roundoff [2^-53]. *)
Definition u : Q := 1 # 9007199254740992.

End Binary64.

(** ** Observations on runs, used in the statements below *)

(** The statistics add up. *)
Definition consistent (s : Stats.t) : Prop :=
  Stats.success s + Stats.error s = Stats.total s.

(** The arithmetic mean [(d1 + ... + dn) / n], recomputed from scratch. *)
Definition mean (durations : list Q) : Q :=
  (fold_right Qplus 0 durations / inject_Z (Z.of_nat (List.length durations)))%Q.

(** The durations of the results, as quantities. *)
Definition durationsOf (results : list ApiResult.t) : list Q :=
  map (fun r => Binary64.value (ApiResult.duration r)) results.

(** Durations as they occur: [0], or a normal binary64 number
    [m * 2^e] with [2^52 <= m < 2^53] and [-500 <= e <= 400], which lies
    between [2^-448] and [2^453] milliseconds.  Every whole number of
    milliseconds below [2^53] is of this kind. *)
Definition usualDuration (x : spec_float) : bool :=
  match x with
  | S754_zero false => true
  | S754_finite false m e => Binary64.positiveNormal x && (-500 <=? e) && (e <=? 400)
  | _ => false
  end.

Definition usualDurations (results : list ApiResult.t) : bool :=
  forallb (fun r => usualDuration (ApiResult.duration r)) results.

(** The distance between a computed average of [n] durations and their
    mean [m] is at most [6 * n * 2^-53] times the mean. *)
Definition withinTolerance (n : nat) (average : spec_float) (m : Q) : Prop :=
  (Qabs (Binary64.value average - m)
   <= inject_Z (6 * Z.of_nat n) * Binary64.u * m)%Q.

(** A result with the given id, status and duration in milliseconds, for
    the examples. *)
Definition resultOf (id : Z) (status : Status) (milliseconds : Z) : ApiResult.t :=
  ApiResult.make id "1444-01" "1234567890" status None (JS.of_int milliseconds)
                 (Some 200).

(** Eight calls: the first takes 29 ms, the others less than one. *)
Definition oneSlowCall : list ApiResult.t :=
  resultOf 1 success 29
  :: map (fun id => resultOf id success 0) [2; 3; 4; 5; 6; 7; 8].

(** The number of results with the given status. *)
Definition countStatus (status : Status) (results : list ApiResult.t) : Z :=
  Z.of_nat
    (List.length (filter (fun r => Status_eqb (ApiResult.status r) status) results)).

(** The statistics [s] count the [results]: [total] is their number,
    [success] and [error] the numbers of those that succeeded and of those
    that failed. *)
Definition counts (results : list ApiResult.t) (s : Stats.t) : Prop :=
  Stats.total s = Z.of_nat (List.length results)
  /\ Stats.success s = countStatus success results
  /\ Stats.error s = countStatus error results.

(** The statistics taken after each recording count the results recorded
    up to then: there is one per result, and the one taken after the
    recording number [k + 1] counts the first [k + 1] results. *)
Definition countAtEveryPoint (results : list ApiResult.t) (snapshots : list Stats.t)
    : Prop :=
  List.length snapshots = List.length results
  /\ forall k s, nth_error snapshots k = Some s -> counts (firstn (S k) results) s.

(** Every updater of the graph runs once: a production build, or a
    development build in which React computes each update eagerly. *)
Definition updatersRunOnce (w : World) : Prop :=
  forall id, updaterTwice w id = false.

(** The total of the durations, accumulated the way the legacy page does
    ([let totalTime = 0], then [totalTime += result.duration]). *)
Definition sumDurations (results : list ApiResult.t) : spec_float :=
  fold_left (fun t r => JS.add t (ApiResult.duration r)) results (JS.of_int 0).

(** The statistics of the legacy page, recomputed from the results alone. *)
Definition summary (results : list ApiResult.t) : Stats.t :=
  Stats.make (Z.of_nat (List.length results))
             (countStatus success results) (countStatus error results)
             (Legacy.averageOf (sumDurations results) (List.length results)).

(** The ids [1; 2; ...; count]. *)
Definition idsUpTo (count : Z) : list Z :=
  map Z.of_nat (seq 1 (Z.to_nat count)).

(** An event without its parameters. *)
Inductive Step : Type := issue | settle | record.

Definition shape (e : Event) : Step * Z :=
  match e with
  | Issued id _ _ => (issue, id)
  | Settled id => (settle, id)
  | Recorded id => (record, id)
  end.

(** The trace of calls made strictly one after the other. *)
Definition oneByOne (ids : list Z) : list (Step * Z) :=
  flat_map (fun id => [(issue, id); (settle, id); (record, id)]) ids.

(** The calls issued, in issue order. *)
Fixpoint issuedCalls (evs : list Event) : list (Z * string * string) :=
  match evs with
  | [] => []
  | Issued id dateString nin :: rest => (id, dateString, nin) :: issuedCalls rest
  | _ :: rest => issuedCalls rest
  end.

(** [dateString] and [nin] come out of the two generators, applied to
    consecutive values of the random source of [w]. *)
Definition randomlyGenerated (w : World) (dateString nin : string) : Prop :=
  exists k : nat,
    dateString = Params.generateRandomDateString (random w k) (random w (S k))
    /\ nin = Params.generateRandomNIN (random w (S (S k))).

(** The canary comes first: unless the run was stopped before its first
    call (and then nothing is issued), the first event is the call with id
    1 and the configured parameters; every other call issued has an id in
    [2 .. count] and randomly generated parameters. *)
Definition canaryFirst (w : World) (count : Z) (correctDateString correctNIN : string)
    (evs : list Event) : Prop :=
  (if stopDuringSetup w then evs = []
   else exists rest, evs = Issued 1 correctDateString correctNIN :: rest)
  /\ forall id dateString nin,
       In (Issued id dateString nin) evs ->
       (id = 1 /\ dateString = correctDateString /\ nin = correctNIN)
       \/ (2 <= id <= count /\ randomlyGenerated w dateString nin).

(** Calls issued and not yet recorded after the events [evs]. *)
Fixpoint inFlight (evs : list Event) : Z :=
  match evs with
  | [] => 0
  | Issued _ _ _ :: rest => inFlight rest + 1
  | Settled _ :: rest => inFlight rest
  | Recorded _ :: rest => inFlight rest - 1
  end.

(** Calls issued and not yet settled: the size of the pool. *)
Fixpoint poolSize (evs : list Event) : Z :=
  match evs with
  | [] => 0
  | Issued _ _ _ :: rest => poolSize rest + 1
  | Settled _ :: rest => poolSize rest - 1
  | Recorded _ :: rest => poolSize rest
  end.

(** The number of [Issued] events at the very end of [evs]: the calls
    started by the dispatch loop that is running. *)
Definition countJustIssued (n : Z) (e : Event) : Z :=
  match e with
  | Issued _ _ _ => n + 1
  | Settled _ | Recorded _ => 0
  end.

Definition justIssued (evs : list Event) : Z := fold_left countJustIssued evs 0.

(** The batch discipline, checked along a trace: [inflight] calls are
    issued and not recorded, [just] of them by the dispatch loop that is
    running.  A call may be issued only when every call in flight comes
    from this same loop and the pool has room; a recording needs a call in
    flight. *)
Fixpoint batchDiscipline (K inflight just : Z) (evs : list Event) : Prop :=
  match evs with
  | [] => True
  | Issued _ _ _ :: rest =>
      inflight = just /\ inflight + 1 <= K
      /\ batchDiscipline K (inflight + 1) (just + 1) rest
  | Settled _ :: rest => batchDiscipline K inflight 0 rest
  | Recorded _ :: rest => 1 <= inflight /\ batchDiscipline K (inflight - 1) 0 rest
  end.

(** A world for the examples: the canary is configured, every call is
    answered with HTTP 200 after [id] milliseconds, nobody presses stop,
    the UI updates while calls 11, 21, 31, ... are awaited, every random
    value is 1/2, the calls of a batch settle in issue order, and every
    updater runs once. *)
Definition exampleWorld : World :=
  mkWorld (TestValuesJson "1444-01" "1234567890") false
    (fun id _ _ => Proxy.GET_upstream_response 200 (JS.of_int id))
    (fun _ => false)
    (fun id => id mod 10 =? 1)
    (fun _ => S754_finite false 4503599627370496 (-53))
    (fun ids => ids)
    (fun _ => false).

(** The same world in a development build: the updater of the UI update
    made while call 11 is awaited runs twice. *)
Definition rerunWorld : World :=
  mkWorld (testValues exampleWorld) false
    (network exampleWorld) (stopDuring exampleWorld) (frameDuring exampleWorld)
    (random exampleWorld) (completionOrder exampleWorld) (fun id => id =? 11).

(** The same world without the canary configuration. *)
Definition unconfiguredWorld : World :=
  mkWorld (TestValuesJson "1444-01" "") false
    (network exampleWorld) (stopDuring exampleWorld) (frameDuring exampleWorld)
    (random exampleWorld) (completionOrder exampleWorld) (updaterTwice exampleWorld).

(** The pool discipline: the step that follows a completion, with calls
    still to be issued, starts the next call (possibly after recording the
    completed one). *)
Definition startsNextCall (following : list Event) : Prop :=
  match following with
  | Issued _ _ _ :: _ => True
  | Recorded _ :: Issued _ _ _ :: _ => True
  | _ => False
  end.

Definition refillsOnCompletion (count : Z) (evs : list Event) : Prop :=
  forall before id following,
    evs = (before ++ Settled id :: following)%list ->
    Z.of_nat (List.length (issuedCalls before)) < count ->
    startsNextCall following.

(** The outcome of a call executed with an already aborted signal. *)
Definition cancelledOutcome (id : Z) (dateString nin : string) (network : FetchOutcome)
    : ApiResult.t :=
  Executor.makeApiCallWithParams id dateString nin (Executor.fetch true network).

(** "A cancelled outcome is ignored by the statistics and by the time
    series": recording it changes neither. *)
Definition cancelledIsIgnored : Prop :=
  forall id dateString nin network (s : Stats.t) (g : Graph.t),
    Page.recordNext s (cancelledOutcome id dateString nin network) = s
    /\ Graph.addGraphDataPointToRef g (cancelledOutcome id dateString nin network) = g.

(** A world in which the stop button is pressed while call 2 is in flight,
    so that its fetch rejects with [AbortError]. *)
Definition stoppedWorld : World :=
  mkWorld (testValues exampleWorld) false
    (fun id ds nin =>
       if id =? 2 then FetchRejected JsError.AbortError
       else network exampleWorld id ds nin)
    (fun id => id =? 2)
    (frameDuring exampleWorld) (random exampleWorld) (completionOrder exampleWorld)
    (updaterTwice exampleWorld).

(** A world in which the upstream connection of call 2 is refused: the
    proxy answers that call with HTTP 500 after 3 ms. *)
Definition failingWorld : World :=
  mkWorld (testValues exampleWorld) false
    (fun id ds nin =>
       if id =? 2
       then Proxy.GET_upstream_failure
              (Proxy.mkNodeError "connect ECONNREFUSED 10.0.0.1:5543" "ECONNREFUSED")
              (JS.of_int 3)
       else network exampleWorld id ds nin)
    (stopDuring exampleWorld) (frameDuring exampleWorld) (random exampleWorld)
    (completionOrder exampleWorld) (updaterTwice exampleWorld).


(** The time series obeys its capacity. *)
Definition withinCapacity (capacity : Z) (g : Graph.t) : Prop :=
  Z.of_nat (List.length (Graph.responseTimeData g)) <= capacity.

(** ** Single steps of the loops and shorthands used in the proofs *)

Definition Page_stats_ok (st : Page.RunState) : Prop :=
  consistent (Page.stats st) /\ Forall consistent (Page.snapshots st).

Definition Legacy_stats_ok (st : Legacy.RunState) : Prop :=
  consistent (Legacy.counters st) /\ consistent (Legacy.stats st)
  /\ Forall consistent (Legacy.snapshots st).

Definition sumQ (ds : list Q) : Q := fold_right Qplus 0%Q ds.

(** The counters of a run count its results, at the end and after each
    recording; the statistics shown by the legacy page count the results
    recorded when they were last set. *)
Definition Page_counts_follow (st : Page.RunState) : Prop :=
  counts (Page.batchResults st) (Page.stats st)
  /\ countAtEveryPoint (Page.batchResults st) (Page.snapshots st).

Definition Legacy_counts_follow (st : Legacy.RunState) : Prop :=
  counts (Legacy.batchResults st) (Legacy.counters st)
  /\ countAtEveryPoint (Legacy.batchResults st) (Legacy.snapshots st)
  /\ exists k, counts (firstn k (Legacy.batchResults st)) (Legacy.stats st).

(** What the statistics of a run of [app/page.tsx] are: the fold of the
    two updates over the recorded results. *)
Definition Page_stats_follow (st : Page.RunState) : Prop :=
  Page.stats st = Page.recordAll (Page.batchResults st)
  /\ (Page.batchResults st = [] -> Page.aborted st = true).

Definition Legacy_total_follows (st : Legacy.RunState) : Prop :=
  Legacy.totalTime st = sumDurations (Legacy.batchResults st).

(** One turn of the loop: the random call [id], then its recording. *)
Definition Page_turn (gmp : Z) (w : World) (id : Z) (st : Page.RunState) : Page.RunState :=
  Page.record Page.recordNext
    (fst (Page.makeApiCall gmp w id st)) (snd (Page.makeApiCall gmp w id st)).

(** The ids [from; from + 1; ...], [n] of them. *)
Definition idsFrom (from : Z) (n : nat) : list Z :=
  map (fun k => from + Z.of_nat k) (seq 0 n).

(** One turn of the sequential loop. *)
Definition Legacy_turn (w : World) (remainingCalls i : Z) (st : Legacy.RunState)
    : Legacy.RunState :=
  let st3 :=
    Legacy.push Legacy.collectPoint (fst (Legacy.makeApiCall w (i + 2) st))
      (Legacy.await w (i + 2) (snd (Legacy.makeApiCall w (i + 2) st))) in
  if ((i + 1) mod Legacy.updateInterval =? 0) || (i =? remainingCalls - 1)
  then Legacy.setStats st3 else st3.

(** The calls a dispatch loop starts, as events. *)
Definition issuedEvents (calls : list (Z * string * string)) : list Event :=
  map (fun c => Issued (fst (fst c)) (snd (fst c)) (snd c)) calls.

(** One turn of the loop over the batches. *)
Definition Legacy_batch (threadCount : Z) (w : World) (remainingCalls batch : Z)
    (st : Legacy.RunState) : Legacy.RunState :=
  let startIdx := batch * threadCount in
  let endIdx := Z.min (startIdx + threadCount) remainingCalls in
  let d := Legacy.dispatch w (Z.to_nat (endIdx - startIdx)) startIdx [] st in
  Legacy.setStats
    (fold_left (fun s apiResult => Legacy.push (Legacy.plotPoint w) apiResult s) (fst d)
       (Legacy.awaitAll w (map ApiResult.id (fst d)) (snd d))).

Definition Legacy_disciplined (K : Z) (st : Legacy.RunState) : Prop :=
  batchDiscipline K 0 0 (Legacy.events st)
  /\ inFlight (Legacy.events st) = 0
  /\ justIssued (Legacy.events st) = 0.

(** ** Shorthands of the rounding analysis *)

(** The location of [m + r / d] between [m] and [m + 1], for [0 <= r < d]. *)
Definition locationOf (r d : Z) : location :=
  if r =? 0 then loc_Exact else loc_Inexact (2 * r ?= d).

(** The record [mrs] stands for the quantity [num / den]. *)
Definition standsFor (mrs : shr_record) (num den : Z) : Prop :=
  0 <= num - shr_m mrs * den < den
  /\ loc_of_shr_record mrs = locationOf (num - shr_m mrs * den) den.

(** [x] lies between [2^a] and [2^b]. *)
Definition within (a b : Z) (x : Q) : Prop := (2 ^ a <= x /\ x <= 2 ^ b)%Q.

(** [v] is [X] up to the relative error [c]. *)
Definition closeTo (c : Q) (v X : Q) : Prop :=
  ((1 - c) * X <= v /\ v <= (1 + c) * X)%Q.

(** [+0], or a positive normal number whose value lies between [2^a] and
    [2^b]. *)
Definition zeroOrWithin (a b : Z) (x : spec_float) : Prop :=
  x = S754_zero false
  \/ (Binary64.positiveNormal x = true /\ within a b (Binary64.value x)).

(** What is known of the exact sum [X] of [k] usual durations. *)
Definition sumOf (k : Z) (X : Q) : Prop :=
  ((X == 0 \/ 2 ^ (-448) <= X) /\ 0 <= X /\ X <= inject_Z k * 2 ^ 453)%Q.

(** The average [a] kept by [app/page.tsx] after [k] results whose
    durations add up to [X], and the total [t] kept by the legacy page. *)
Definition averageFollows (k : Z) (a : spec_float) (X : Q) : Prop :=
  zeroOrWithin (-490) 495 a
  /\ sumOf k X
  /\ closeTo (inject_Z (6 * k) * Binary64.u) (inject_Z k * Binary64.value a) X.

Definition totalFollows (k : Z) (t : spec_float) (X : Q) : Prop :=
  zeroOrWithin (-490) 495 t
  /\ sumOf k X
  /\ closeTo (inject_Z (2 * k) * Binary64.u) (Binary64.value t) X.

(** ** Further parts of the sources

    The definitions that follow embed the code next to the batch engine:
    the proxy route as a whole, the validators of [lib/utils/validation.ts],
    [isRetryableError] of [lib/utils/errors.ts], the previews and time
    stamps of [lib/utils/format.ts] (also found in [app/page.tsx]), and
    [runManualTests] of [app/page.tsx]. *)

(** ** The proxy route as a whole ([GET]) *)

Module ProxyRoute.

  (** What the upstream request of [GET] does: the API answers with an
      HTTP status ([res.statusCode], 0 standing for [undefined]) after
      [responseTime] milliseconds, or the request fails after
      [responseTime] milliseconds. *)
Inductive Upstream : Type :=
| Answered (statusCode : Z) (responseTime : spec_float)
| Failed (e : Proxy.NodeError) (responseTime : spec_float).

  (** [[
      if (!dateString || !nin) {
        return NextResponse.json(
          { error: 'Missing required parameters: dateString and nin' }, { status: 400 })
      }
      ]] *)
Definition GET_missing_parameters : FetchOutcome :=
    JsonParsed
      (Response.make 400 "Bad Request")
      (ProxyData.make None false "Missing required parameters: dateString and nin" None).

  (** [GET(request)] as the page sees it, for the query parameters
      [dateString] and [nin] of the request ("" for a missing one: [null]
      and the empty string are both falsy).  In the [catch] block the
      response time is [error.responseTime || 0]. *)
Definition GET (dateString nin : string) (upstream : Upstream) : FetchOutcome :=
    if negb (JS.truthy_string dateString) || negb (JS.truthy_string nin)
    then GET_missing_parameters
    else
      match upstream with
      | Answered statusCode responseTime =>
          Proxy.GET_upstream_response statusCode responseTime
      | Failed e responseTime =>
          Proxy.GET_upstream_failure e (JS.or_duration (Some responseTime) (JS.of_int 0))
      end.

End ProxyRoute.

(** ** String primitives used by the validators and the manual runner

    A string is a sequence of code units below 256 here, which covers the
    digits, the dash and the white space the validators deal with; the
    further Unicode white space that [trim] also removes lies outside. *)

Module JSString.

  (** White space and line terminators below 256: tab, line feed, vertical
      tab, form feed, carriage return, space and no-break space. *)
Definition isWhiteSpace (c : ascii) : bool :=
    let n := nat_of_ascii c in
    (Nat.leb 9 n && Nat.leb n 13) || Nat.eqb n 32 || Nat.eqb n 160.

Fixpoint trimStart (s : string) : string :=
    match s with
    | EmptyString => EmptyString
    | String c s' => if isWhiteSpace c then trimStart s' else s
    end.

Fixpoint trimEnd (s : string) : string :=
    match s with
    | EmptyString => EmptyString
    | String c s' =>
        match trimEnd s' with
        | EmptyString => if isWhiteSpace c then EmptyString else String c EmptyString
        | rest => String c rest
        end
    end.

  (** [s.trim()] *)
Definition trim (s : string) : string := trimEnd (trimStart s).

  (** The class [\d] of a regular expression: the ten ASCII digits. *)
Definition isDigit (c : ascii) : bool :=
    let n := nat_of_ascii c in Nat.leb 48 n && Nat.leb n 57.

  (** [/^\d*$/.test(s)] *)
Fixpoint digits (s : string) : bool :=
    match s with
    | EmptyString => true
    | String c s' => isDigit c && digits s'
    end.

  (** [s.split(sep)] for a one character separator. *)
Fixpoint split (sep : ascii) (s : string) : list string :=
    match s with
    | EmptyString => [EmptyString]
    | String c s' =>
        if Ascii.eqb c sep then EmptyString :: split sep s'
        else
          match split sep s' with
          | piece :: pieces => String c piece :: pieces
          | [] => [String c EmptyString]
          end
    end.

Definition digit_value (c : ascii) : Z := Z.of_nat (nat_of_ascii c) - 48.

Fixpoint Number_from (acc : Z) (s : string) : Z :=
    match s with
    | EmptyString => acc
    | String c s' => Number_from (10 * acc + digit_value c) s'
    end.

  (** [Number(s)] for a string [s] of decimal digits, the only strings it
      is applied to below (after the pattern test). *)
Definition Number_ (s : string) : Z := Number_from 0 s.

End JSString.

(** ** Input validation ([lib/utils/validation.ts]) *)

Module Validation.

  (** [{ valid: boolean; error?: string }] *)
Record Result : Type := mkResult {
    valid : bool;
    error : option string
  }.

  (** [VALIDATION.DATE_STRING_PATTERN], [/^\d{4}-\d{2}$/], tested. *)
Definition DATE_STRING_PATTERN_test (s : string) : bool :=
    match s with
    | String y1 (String y2 (String y3 (String y4
        (String dash (String m1 (String m2 EmptyString)))))) =>
        JSString.isDigit y1 && JSString.isDigit y2 && JSString.isDigit y3
        && JSString.isDigit y4 && Ascii.eqb dash "-"
        && JSString.isDigit m1 && JSString.isDigit m2
    | _ => false
    end.

  (** [VALIDATION.NIN_PATTERN], [/^\d{9,10}$/], tested. *)
Definition NIN_PATTERN_test (s : string) : bool :=
    JSString.digits s
    && Nat.leb 9 (String.length s) && Nat.leb (String.length s) 10.

  (** [[
      if (!dateString || !dateString.trim()) return { valid: false, error: 'DateString is required' }
      const trimmed = dateString.trim()
      if (!VALIDATION.DATE_STRING_PATTERN.test(trimmed)) return { valid: false, error: '...' }
      const [year, month] = trimmed.split('-').map(Number)
      if (year < 1400 || year > 1499) return { valid: false, error: '...' }
      if (month < 1 || month > 12) return { valid: false, error: '...' }
      return { valid: true }
      ]] *)
Definition validateDateString (dateString : string) : Result :=
    if negb (JS.truthy_string dateString)
       || negb (JS.truthy_string (JSString.trim dateString))
    then mkResult false (Some "DateString is required")
    else
      let trimmed := JSString.trim dateString in
      if negb (DATE_STRING_PATTERN_test trimmed)
      then mkResult false (Some "DateString must be in YYYY-MM format (e.g., 1444-01)")
      else
        let parts := map JSString.Number_ (JSString.split "-" trimmed) in
        let year := nth 0 parts 0 in
        let month := nth 1 parts 0 in
        if (year <? 1400) || (year >? 1499)
        then mkResult false (Some "Year must be between 1400 and 1499")
        else if (month <? 1) || (month >? 12)
        then mkResult false (Some "Month must be between 01 and 12")
        else mkResult true None.

  (** [[
      if (!nin || !nin.trim()) return { valid: false, error: 'NIN is required' }
      const trimmed = nin.trim()
      if (!VALIDATION.NIN_PATTERN.test(trimmed)) return { valid: false, error: 'NIN must be 9-10 digits' }
      return { valid: true }
      ]] *)
Definition validateNIN (nin : string) : Result :=
    if negb (JS.truthy_string nin) || negb (JS.truthy_string (JSString.trim nin))
    then mkResult false (Some "NIN is required")
    else
      let trimmed := JSString.trim nin in
      if negb (NIN_PATTERN_test trimmed)
      then mkResult false (Some "NIN must be 9-10 digits")
      else mkResult true None.

  (** [{ valid: boolean; errors: string[] }]; the field [valid] is named
      [allValid] here, [valid] being the field of [Result]. *)
Record ParamsResult : Type := mkParamsResult {
    allValid : bool;
    errors : list string
  }.

  (** [validation.error || fallback] *)
Definition errorOr (e : option string) (fallback : string) : string :=
    match e with
    | Some s => JS.or_string s fallback
    | None => fallback
    end.

  (** [validateApiParams(dateString, nin)] *)
Definition validateApiParams (dateString nin : string) : ParamsResult :=
    let dateValidation := validateDateString dateString in
    let errors1 :=
      if negb (valid dateValidation)
      then [errorOr (error dateValidation) "Invalid dateString"] else [] in
    let ninValidation := validateNIN nin in
    let errors2 :=
      if negb (valid ninValidation)
      then (errors1 ++ [errorOr (error ninValidation) "Invalid NIN"])%list else errors1 in
    mkParamsResult (Nat.eqb (List.length errors2) 0) errors2.

End Validation.

(** ** Error classification ([lib/utils/errors.ts]) *)

Module Errors.

  (** [[
      const errorCode = 'code' in error ? error.code : undefined
      const statusCode = 'statusCode' in error ? error.statusCode : undefined
      const retryableErrorCodes = ['ETIMEDOUT', 'ECONNRESET', 'ENOTFOUND', 'ECONNREFUSED']
      if (errorCode && retryableErrorCodes.includes(errorCode)) return true
      const retryableStatusCodes = [500, 502, 503, 504, 408]
      if (statusCode && retryableStatusCodes.includes(statusCode)) return true
      return false
      ]] *)
Definition isRetryableError (error : Retry.ErrorObj) : bool :=
    let errorCode := Retry.code error in
    let statusCode := Retry.statusCode error in
    let retryableErrorCodes := ["ETIMEDOUT"; "ECONNRESET"; "ENOTFOUND"; "ECONNREFUSED"] in
    if match errorCode with
       | Some c => JS.truthy_string c && JS.includes_string retryableErrorCodes c
       | None => false
       end
    then true
    else
      let retryableStatusCodes := [500; 502; 503; 504; 408] in
      if match statusCode with
         | Some s => negb (s =? 0) && JS.includes_number retryableStatusCodes s
         | None => false
         end
      then true
      else false.

End Errors.

(** ** Formatting ([lib/utils/format.ts], [addApiLog], [formatTimeHHMMSS]) *)

Module Format.

  (** A value as [formatResponsePreview] reads it. *)
Inductive Value : Type :=
| Nullish                       (* [null] or [undefined] *)
| Str (s : string)              (* [typeof response === 'string'] *)
| Obj (stringified : option string) (printed : string)
    (* [typeof response === 'object']: [JSON.stringify(response)], [None]
       when it throws or gives no string, and [String(response)] *)
| Other (printed : string).     (* any other type: [String(response)] *)

  (** [s.substring(0, maxLength)]: a negative bound counts as 0, a bound
      beyond the end as the end. *)
Definition substring0 (s : string) (maxLength : Z) : string :=
    String.substring 0 (Z.to_nat maxLength) s.

  (** [[ s.length > maxLength ? `${s.substring(0, maxLength)}...` : s ]] *)
Definition shorten (s : string) (maxLength : Z) : string :=
    if Z.of_nat (String.length s) >? maxLength
    then substring0 s maxLength ++ "..."
    else s.

  (** [formatResponsePreview(response, maxLength)]; with [maxLength = 50]
      these are also the previews of [addApiLog]. *)
Definition formatResponsePreview (response : Value) (maxLength : Z) : string :=
    match response with
    | Nullish => ""
    | Str s => shorten s maxLength
    | Obj (Some responseStr) _ => shorten responseStr maxLength
    | Obj None printed => substring0 printed maxLength
    | Other responseStr => shorten responseStr maxLength
    end.

  (** The part of a [Date] that [formatTimeHHMMSS] reads. *)
Record Date : Type := mkDate {
    getHours : Z;
    getMinutes : Z;
    getSeconds : Z
  }.

  (** [[
      const hours = String(date.getHours()).padStart(2, '0')
      const minutes = String(date.getMinutes()).padStart(2, '0')
      const seconds = String(date.getSeconds()).padStart(2, '0')
      return `${hours}${minutes}${seconds}`
      ]] *)
Definition formatTimeHHMMSS (date : Date) : string :=
    let hours := JS.padStart (JS.String_ (getHours date)) 2 "0" in
    let minutes := JS.padStart (JS.String_ (getMinutes date)) 2 "0" in
    let seconds := JS.padStart (JS.String_ (getSeconds date)) 2 "0" in
    hours ++ minutes ++ seconds.

End Format.

(** ** [runManualTests] in [app/page.tsx] *)

Module Manual.

  (** [interface ManualParams]: one row of the manual form. *)
Record ManualParams : Type := mkParams {
    dateString : string;
    nin : string
  }.

Record RunState : Type := mkState {
    manualResults : list ApiResult.t;   (* manualResultsRef.current *)
    stats : Stats.t;                    (* statsRef.current *)
    graph : Graph.t;
    callId : Z
  }.

  (** The state after the resets at the top of [runManualTests], with
      [let callId = 1]. *)
Definition initial : RunState := mkState [] Stats.zero Graph.empty 1.

  (** [[ params.dateString.trim() && params.nin.trim() ]] *)
Definition filled (params : ManualParams) : bool :=
    JS.truthy_string (JSString.trim (dateString params))
    && JS.truthy_string (JSString.trim (nin params)).

  (** The body of the inner loop: the call with the trimmed parameters and
      without a signal is awaited (the UI update may run meanwhile), its
      result is pushed and counted, the average is updated, the graph
      point is buffered, and [callId] moves on. *)
Definition test (graphMaxPoints : Z) (w : World) (params : ManualParams)
      (st : RunState) : RunState :=
    let trimmedDateString := JSString.trim (dateString params) in
    let trimmedNin := JSString.trim (nin params) in
    let result :=
      Executor.makeApiCallWithParams (callId st) trimmedDateString trimmedNin
        (network w (callId st) trimmedDateString trimmedNin) in
    let shown :=
      if frameDuring w (callId st)
      then Graph.updateUI (updaterTwice w (callId st)) graphMaxPoints (graph st)
      else graph st in
    mkState (manualResults st ++ [result])%list
            (Page.recordNext (stats st) result)
            (Graph.addGraphDataPointToRef shown result)
            (callId st + 1).

  (** [[ for (let repeat = 0; repeat < manualRepeatCount; repeat++) { ... } ]] *)
Fixpoint repeatLoop (graphMaxPoints : Z) (w : World) (params : ManualParams)
      (todo : nat) (st : RunState) : RunState :=
    match todo with
    | O => st
    | S todo' =>
        repeatLoop graphMaxPoints w params todo' (test graphMaxPoints w params st)
    end.

  (** One turn of the outer loop: rows with a blank parameter are skipped. *)
Definition row (graphMaxPoints : Z) (w : World) (manualRepeatCount : Z)
      (st : RunState) (params : ManualParams) : RunState :=
    if filled params
    then repeatLoop graphMaxPoints w params (Z.to_nat manualRepeatCount) st
    else st.

  (** [runManualTests()] with the settings [graphMaxPoints] and
      [manualRepeatCount] and the rows [manualParams]; [stopUIUpdateLoop]
      ends it with a last UI update. *)
Definition runManualTests (graphMaxPoints : Z) (w : World) (manualRepeatCount : Z)
      (manualParams : list ManualParams) : RunState :=
    let st := fold_left (row graphMaxPoints w manualRepeatCount) manualParams initial in
    mkState (manualResults st) (stats st)
            (Graph.updateUI (updaterTwice w 0) graphMaxPoints (graph st)) (callId st).

End Manual.


(** ** Further observations on runs *)

(** The graph points of the recorded [results], numbered from [seq + 1]
    the way [graphSequenceRef] numbers them. *)
Fixpoint pointsFrom (seq : Z) (results : list ApiResult.t) : list ResponseTimeData.t :=
  match results with
  | [] => []
  | r :: rest => Graph.point (seq + 1) r :: pointsFrom (seq + 1) rest
  end.

(** The graph of a run of [app/page.tsx] follows its results: the counter
    is the number of results, and as long as no more results are recorded
    than the capacity holds, the points shown and the points buffered are
    together the points of all results. *)
Definition Page_graph_follows (graphMaxPoints : Z) (st : Page.RunState) : Prop :=
  Graph.graphSequence (Page.graph st) = Z.of_nat (List.length (Page.batchResults st))
  /\ (Z.of_nat (List.length (Page.batchResults st)) <= graphMaxPoints ->
      (Graph.responseTimeData (Page.graph st) ++ Graph.graphDataBuffer (Page.graph st))%list
      = pointsFrom 0 (Page.batchResults st)).

(** The graph of a run of the legacy page follows its results: nothing is
    buffered, no timer is pending, and the points shown followed by the
    points collected for the end of the sequential loop are the last 100
    points of all results; one of the two lists is empty, depending on the
    mode. *)
Definition Legacy_graph_follows (batchMode : Legacy.BatchMode) (st : Legacy.RunState)
    : Prop :=
  Graph.graphSequence (Legacy.graph st) = Z.of_nat (List.length (Legacy.batchResults st))
  /\ Graph.graphDataBuffer (Legacy.graph st) = []
  /\ Graph.graphUpdateTimer (Legacy.graph st) = false
  /\ if Legacy.isSequential batchMode
     then Graph.responseTimeData (Legacy.graph st) = []
          /\ Legacy.graphDataPoints st = pointsFrom 0 (Legacy.batchResults st)
     else Legacy.graphDataPoints st = []
          /\ Graph.responseTimeData (Legacy.graph st)
             = JS.slice (pointsFrom 0 (Legacy.batchResults st)) (-100).

(** A world in which the stop button is pressed while call [k] is awaited,
    and not before. *)
Definition stoppedDuring (w : World) (k : Z) : Prop :=
  stopDuringSetup w = false
  /\ (forall id, 1 <= id < k -> stopDuring w id = false)
  /\ stopDuring w k = true.

(** Nobody presses the stop button. *)
Definition neverStopped (w : World) : Prop :=
  stopDuringSetup w = false /\ forall id, stopDuring w id = false.

(** ** Further observations on [withRetry] *)

(** The delay slept after the failed attempt number [attempt] (counted
    from 0): [config.retryDelay * Math.pow(2, attempt)]. *)
Definition backoffDelay (config : Retry.RetryConfig) (attempt : nat) : Z :=
  Retry.retryDelay config * 2 ^ Z.of_nat attempt.

(** The time spent sleeping. *)
Definition totalSleep (sleeps : list Z) : Z := fold_right Z.add 0 sleeps.

(** The function never succeeds, and always fails with an error that
    [config] makes retryable. *)
Definition alwaysRetryable {T Env : Type}
    (fn : Env -> (T + Retry.ErrorObj) * Env) (config : Retry.RetryConfig) : Prop :=
  forall s, exists e s', fn s = (inr e, s') /\ Retry.isRetryable config e = true.

(** An API that answers 503 whenever it is called; the state counts the
    calls. *)
Definition unavailableFn (calls : nat) : (nat + Retry.ErrorObj) * nat :=
  (inr (Retry.mkError (Some 503) None), S calls).

(** The tests a manual run is expected to make: for every filled row in
    turn, its trimmed parameters [manualRepeatCount] times. *)
Definition plannedTests (manualRepeatCount : Z) (manualParams : list Manual.ManualParams)
    : list (string * string) :=
  flat_map
    (fun params =>
       if Manual.filled params
       then repeat (JSString.trim (Manual.dateString params),
                    JSString.trim (Manual.nin params))
                   (Z.to_nat manualRepeatCount)
       else [])
    manualParams.

(** The parameters a result was obtained with. *)
Definition paramsOf (result : ApiResult.t) : string * string :=
  (ApiResult.dateString result, ApiResult.nin result).

(** The state of a manual run follows the tests made so far; the graph
    does when every updater runs once. *)
Definition Manual_follows (graphMaxPoints : Z) (w : World)
    (tests : list (string * string)) (st : Manual.RunState) : Prop :=
  map paramsOf (Manual.manualResults st) = tests
  /\ map ApiResult.id (Manual.manualResults st) = idsFrom 1 (List.length tests)
  /\ Manual.callId st = 1 + Z.of_nat (List.length tests)
  /\ Manual.stats st = fold_left Page.recordNext (Manual.manualResults st) Stats.zero
  /\ Graph.graphSequence (Manual.graph st)
     = Z.of_nat (List.length (Manual.manualResults st))
  /\ (updatersRunOnce w ->
      Z.of_nat (List.length (Manual.manualResults st)) <= graphMaxPoints ->
      (Graph.responseTimeData (Manual.graph st)
       ++ Graph.graphDataBuffer (Manual.graph st))%list
      = pointsFrom 0 (Manual.manualResults st)).

(** A form with a blank row between two filled ones. *)
Definition exampleRows : list Manual.ManualParams :=
  [Manual.mkParams " 1444-01" "1234567890 ";
   Manual.mkParams "   " "1234567890";
   Manual.mkParams "1445-12" "987654321"].

(** No character of the string is white space. *)
Definition noWhiteSpace (s : string) : Prop :=
  forall c, In c (list_ascii_of_string s) -> JSString.isWhiteSpace c = false.

(* ===================================================================== *)
(** * Part II: properties                                                  *)
(* ===================================================================== *)

(** ** Running statistics *)

Lemma Status_eqb_success_error (s : Status) :
  Status_eqb s error = negb (Status_eqb s success).
Proof. destruct s; reflexivity. Qed.

Lemma count_consistent (s : Stats.t) (r : ApiResult.t) :
  consistent s -> consistent (Page.count s r).
Proof.
  unfold consistent, Page.count; cbn.
  destruct (Status_eqb (ApiResult.status r) success); lia.
Qed.

Lemma recordFirst_consistent (s : Stats.t) (r : ApiResult.t) :
  consistent s -> consistent (Page.recordFirst s r).
Proof. intros H. apply (count_consistent s r) in H. exact H. Qed.

Lemma recordNext_consistent (s : Stats.t) (r : ApiResult.t) :
  consistent s -> consistent (Page.recordNext s r).
Proof. intros H. apply (count_consistent s r) in H. exact H. Qed.

(** An invariant of the state that every recording keeps is kept by the
    whole loop of [app/page.tsx]. *)
Lemma Page_loop_invariant (P : Page.RunState -> Prop) (gmp : Z) (w : World) :
  (forall id st,
      P st -> Page.aborted st = false ->
      P (Page.record Page.recordNext
           (fst (Page.makeApiCall gmp w id st)) (snd (Page.makeApiCall gmp w id st)))) ->
  forall todo i st, P st -> P (Page.loop gmp w todo i st).
Proof.
  intros Hstep todo; induction todo as [|todo IH]; intros i st HP; cbn [Page.loop].
  - exact HP.
  - destruct (Page.aborted st) eqn:Hab; [exact HP|].
    destruct (Page.makeApiCall gmp w (i + 2) st) as [r st1] eqn:Hcall.
    apply IH. specialize (Hstep (i + 2) st HP Hab).
    rewrite Hcall in Hstep. exact Hstep.
Qed.

Lemma Page_record_stats_ok update r st :
  (forall s, consistent s -> consistent (update s r)) ->
  Page_stats_ok st -> Page_stats_ok (Page.record update r st).
Proof.
  intros Hup [Hs Hall]; split; cbn.
  - now apply Hup.
  - apply Forall_app; split; [exact Hall|]. constructor; [now apply Hup|constructor].
Qed.

Lemma Page_run_stats_ok gmp w count :
  Page_stats_ok (Page.afterRun gmp w count).
Proof.
  unfold Page.afterRun, Page.runBatchCalls.
  destruct (correctTestValues (testValues w)) as [[ds nin]|].
  2:{ split; [reflexivity|constructor]. }
  assert (Hfin : forall st, Page_stats_ok st -> Page_stats_ok (Page.finally w st)).
  { intros st [H1 H2]; split; assumption. }
  apply Hfin. apply Page_loop_invariant.
  - intros id st HP _. apply Page_record_stats_ok; [intros s; apply recordNext_consistent|].
    destruct HP as [H1 H2]; split; assumption.
  - unfold Page.firstCall, Page.start; cbn [Page.aborted].
    destruct (stopDuringSetup w).
    + split; [reflexivity|constructor].
    + apply Page_record_stats_ok; [intros s; apply recordFirst_consistent|].
      split; [reflexivity|constructor].
Qed.

(** The same for the legacy page: a property of the run state kept by the
    four primitive steps is kept by both loops. *)
Section LegacyInvariant.

Variable P : Legacy.RunState -> Prop.
Variable w : World.

Hypothesis P_makeApiCall :
    forall id st, P st -> P (snd (Legacy.makeApiCall w id st)).
Hypothesis P_settle :
    forall ids order st, P st -> P (Legacy.settle w ids order st).
Hypothesis P_push :
    forall plot r st,
      plot = Legacy.collectPoint \/ plot = Legacy.plotPoint w ->
      P st -> P (Legacy.push plot r st).
Hypothesis P_setStats : forall st, P st -> P (Legacy.setStats st).

Lemma Legacy_sequentialLoop_invariant remainingCalls todo :
    forall i st, P st -> P (Legacy.sequentialLoop w remainingCalls todo i st).
Proof.
    induction todo as [|todo IH]; intros i st HP; cbn [Legacy.sequentialLoop].
    - exact HP.
    - destruct (Legacy.aborted st); [exact HP|].
      destruct (Legacy.makeApiCall w (i + 2) st) as [r st1] eqn:Hcall.
      apply IH.
      assert (H1 : P st1).
      { pose proof (P_makeApiCall (i + 2) st HP) as H. now rewrite Hcall in H. }
      assert (H3 : P (Legacy.push Legacy.collectPoint r (Legacy.await w (i + 2) st1))).
      { apply P_push; [now left|]. now apply P_settle. }
      destruct (((i + 1) mod Legacy.updateInterval =? 0) || (i =? remainingCalls - 1));
        [now apply P_setStats|exact H3].
Qed.

Lemma Legacy_dispatch_invariant todo :
    forall i promises st, P st -> P (snd (Legacy.dispatch w todo i promises st)).
Proof.
    induction todo as [|todo IH]; intros i promises st HP; cbn [Legacy.dispatch].
    - exact HP.
    - destruct (Legacy.aborted st); [exact HP|].
      destruct (Legacy.makeApiCall w (i + 2) st) as [r st1] eqn:Hcall.
      apply IH. pose proof (P_makeApiCall (i + 2) st HP) as H. now rewrite Hcall in H.
Qed.

Lemma Legacy_pushAll_invariant chunk :
    forall st, P st ->
      P (fold_left (fun s apiResult => Legacy.push (Legacy.plotPoint w) apiResult s) chunk st).
Proof.
    induction chunk as [|r chunk IH]; intros st HP; cbn [fold_left].
    - exact HP.
    - apply IH. apply P_push; [now right|exact HP].
Qed.

Lemma Legacy_parallelLoop_invariant threadCount remainingCalls todo :
    forall batch st,
      P st -> P (Legacy.parallelLoop threadCount w remainingCalls todo batch st).
Proof.
    induction todo as [|todo IH]; intros batch st HP; cbn [Legacy.parallelLoop].
    - exact HP.
    - destruct (Legacy.aborted st); [exact HP|].
      match goal with
      | |- context [Legacy.dispatch w ?n ?i ?l st] =>
          pose proof (Legacy_dispatch_invariant n i l st HP) as Hd;
          destruct (Legacy.dispatch w n i l st) as [chunk st1]
      end.
      apply IH. apply P_setStats. apply Legacy_pushAll_invariant.
      apply P_settle. exact Hd.
Qed.

Hypothesis P_issue :
    forall id ds nin st, P st -> P (snd (Legacy.issue w id ds nin st)).
Hypothesis P_finally : forall st, P st -> P (Legacy.finally w st).
Hypothesis P_mergeCollected : forall st, P st -> P (Legacy.mergeCollected st).
Hypothesis P_start : P (Legacy.start w).

Lemma Legacy_run_invariant batchMode threadCount count st :
    Legacy.runBatchCalls batchMode threadCount w count = Some st -> P st.
Proof.
    unfold Legacy.runBatchCalls.
    destruct (correctTestValues (testValues w)) as [[ds nin]|]; [|discriminate].
    intros [= <-].
    apply P_finally.
    assert (H1 : P (Legacy.firstCall batchMode w ds nin (Legacy.start w))).
    { unfold Legacy.firstCall.
      destruct (Legacy.aborted (Legacy.start w)); [exact P_start|].
      pose proof (P_issue 1 ds nin (Legacy.start w) P_start) as H.
      destruct (Legacy.issue w 1 ds nin (Legacy.start w)) as [r st']. cbn [snd] in H.
      apply P_setStats. apply P_push.
      - destruct batchMode; cbn; [now left|now right].
      - apply P_settle. exact H. }
    destruct batchMode.
    - apply P_mergeCollected. now apply Legacy_sequentialLoop_invariant.
    - now apply Legacy_parallelLoop_invariant.
Qed.

End LegacyInvariant.

Lemma Legacy_push_stats_ok plot r st :
  Legacy_stats_ok st -> Legacy_stats_ok (Legacy.push plot r st).
Proof.
  intros (Hc & Hs & Hall).
  assert (Hc' : consistent (Legacy.counters (Legacy.push plot r st))).
  { unfold consistent, Legacy.counters in *; cbn in *.
    rewrite length_app; cbn [List.length].
    rewrite Status_eqb_success_error.
    destruct (Status_eqb (ApiResult.status r) success); cbn; lia. }
  repeat split; [exact Hc'|exact Hs|].
  cbn [Legacy.push Legacy.snapshots].
  apply Forall_app; split; [exact Hall|]. constructor; [exact Hc'|constructor].
Qed.

Lemma Legacy_pushRejected_stats_ok w startIdx idx reason st :
  Legacy_stats_ok st -> Legacy_stats_ok (Legacy.pushRejected w startIdx idx reason st).
Proof.
  intros (Hc & Hs & Hall).
  assert (Hc' : consistent (Legacy.counters (Legacy.pushRejected w startIdx idx reason st))).
  { unfold consistent, Legacy.counters in *; cbn in *.
    rewrite length_app; cbn [List.length]. lia. }
  repeat split; [exact Hc'|exact Hs|].
  cbn [Legacy.pushRejected Legacy.snapshots].
  apply Forall_app; split; [exact Hall|]. constructor; [exact Hc'|constructor].
Qed.

Lemma Legacy_run_stats_ok batchMode threadCount w count :
  Legacy_stats_ok (Legacy.afterRun batchMode threadCount w count).
Proof.
  unfold Legacy.afterRun.
  destruct (Legacy.runBatchCalls batchMode threadCount w count) as [st|] eqn:Hrun.
  2:{ repeat split; constructor. }
  revert Hrun. apply Legacy_run_invariant.
  - intros id st0 H; exact H.
  - intros ids order st0 H; exact H.
  - intros plot r st0 _ H. now apply Legacy_push_stats_ok.
  - intros st0 (Hc & Hs & Hall). repeat split; assumption.
  - intros id ds nin st0 H; exact H.
  - intros st0 H; exact H.
  - intros st0 H; exact H.
  - repeat split; constructor.
Qed.

(** *** Counting the recorded results *)

Lemma countStatus_snoc (status : Status) (results : list ApiResult.t) (r : ApiResult.t) :
  countStatus status (results ++ [r])
  = countStatus status results
    + (if Status_eqb (ApiResult.status r) status then 1 else 0).
Proof.
  unfold countStatus. rewrite filter_app, length_app. cbn [filter].
  destruct (Status_eqb (ApiResult.status r) status); cbn [List.length]; lia.
Qed.

Lemma counts_snoc (update : Stats.t -> ApiResult.t -> Stats.t)
    (results : list ApiResult.t) (s : Stats.t) (r : ApiResult.t) :
  (Stats.total (update s r), Stats.success (update s r), Stats.error (update s r))
  = (Stats.total (Page.count s r), Stats.success (Page.count s r),
     Stats.error (Page.count s r)) ->
  counts results s -> counts (results ++ [r]) (update s r).
Proof.
  intros [= H1 H2 H3] (Ht & Hs & He). unfold counts. rewrite H1, H2, H3.
  unfold Page.count. cbn [Stats.total Stats.success Stats.error].
  rewrite !countStatus_snoc, length_app, Status_eqb_success_error, Ht, Hs, He.
  cbn [List.length].
  destruct (Status_eqb (ApiResult.status r) success); cbn [negb]; repeat split; lia.
Qed.

Lemma countAtEveryPoint_snoc (results : list ApiResult.t) (snapshots : list Stats.t)
    (r : ApiResult.t) (s : Stats.t) :
  countAtEveryPoint results snapshots ->
  counts (results ++ [r]) s ->
  countAtEveryPoint (results ++ [r]) (snapshots ++ [s]).
Proof.
  intros [Hlen Hall] Hs. split.
  - rewrite !length_app, Hlen. reflexivity.
  - intros k s' Hk.
    destruct (Nat.lt_ge_cases k (List.length snapshots)) as [Hlt|Hge].
    + rewrite nth_error_app1 in Hk by exact Hlt.
      rewrite firstn_app. replace (S k - List.length results)%nat with 0%nat by lia.
      cbn [firstn]. rewrite app_nil_r. now apply Hall.
    + rewrite nth_error_app2 in Hk by exact Hge.
      destruct (k - List.length snapshots)%nat as [|j] eqn:Hj.
      * injection Hk as <-.
        rewrite firstn_all2 by (rewrite length_app; cbn [List.length]; lia).
        exact Hs.
      * destruct j; discriminate Hk.
Qed.

Lemma Page_record_counts_follow update r st :
  (forall s,
      (Stats.total (update s r), Stats.success (update s r), Stats.error (update s r))
      = (Stats.total (Page.count s r), Stats.success (Page.count s r),
         Stats.error (Page.count s r))) ->
  Page_counts_follow st -> Page_counts_follow (Page.record update r st).
Proof.
  intros Hup [Hs Hall].
  assert (Hc : counts (Page.batchResults st ++ [r]) (update (Page.stats st) r))
    by now apply counts_snoc.
  split; cbn [Page.record Page.batchResults Page.stats Page.snapshots]; [exact Hc|].
  now apply countAtEveryPoint_snoc.
Qed.

Lemma countAtEveryPoint_nil : countAtEveryPoint [] [].
Proof. split; [reflexivity|]. intros [|k] s H; discriminate H. Qed.

Lemma Page_run_counts_follow gmp w count :
  Page_counts_follow (Page.afterRun gmp w count).
Proof.
  unfold Page.afterRun, Page.runBatchCalls.
  destruct (correctTestValues (testValues w)) as [[ds nin]|].
  2:{ split; [repeat split|apply countAtEveryPoint_nil]. }
  assert (Hfin : forall st, Page_counts_follow st -> Page_counts_follow (Page.finally w st)).
  { intros st [H1 H2]; split; assumption. }
  apply Hfin. apply Page_loop_invariant.
  - intros id st HP _. apply Page_record_counts_follow; [intros s; reflexivity|].
    destruct HP as [H1 H2]; split; assumption.
  - unfold Page.firstCall, Page.start; cbn [Page.aborted].
    destruct (stopDuringSetup w).
    + split; [repeat split|apply countAtEveryPoint_nil].
    + apply Page_record_counts_follow; [intros s; reflexivity|].
      split; [repeat split|apply countAtEveryPoint_nil].
Qed.

Lemma Legacy_push_counts (plot : Legacy.RunState -> ApiResult.t ->
                                 Graph.t * list ResponseTimeData.t) r st :
  counts (Legacy.batchResults st) (Legacy.counters st) ->
  counts (Legacy.batchResults (Legacy.push plot r st))
         (Legacy.counters (Legacy.push plot r st)).
Proof.
  intros (Ht & Hs & He). unfold counts, Legacy.counters in *.
  cbn [Legacy.push Legacy.batchResults Legacy.successCount Legacy.errorCount
       Stats.total Stats.success Stats.error] in *.
  rewrite !countStatus_snoc, Hs, He. repeat split.
Qed.

Lemma Legacy_pushRejected_counts w startIdx idx reason st :
  counts (Legacy.batchResults st) (Legacy.counters st) ->
  counts (Legacy.batchResults (Legacy.pushRejected w startIdx idx reason st))
         (Legacy.counters (Legacy.pushRejected w startIdx idx reason st)).
Proof.
  intros (Ht & Hs & He). unfold counts, Legacy.counters in *.
  cbn [Legacy.pushRejected Legacy.batchResults Legacy.successCount Legacy.errorCount
       Stats.total Stats.success Stats.error] in *.
  rewrite !countStatus_snoc, Hs, He. cbn [ApiResult.status Status_eqb].
  repeat split. lia.
Qed.

Lemma counts_firstn_snoc (k : nat) (results : list ApiResult.t) (r : ApiResult.t)
    (s : Stats.t) :
  counts (firstn k results) s ->
  exists k', counts (firstn k' (results ++ [r])) s.
Proof.
  intros H. exists (Nat.min k (List.length results)).
  rewrite firstn_app.
  replace (Nat.min k (List.length results) - List.length results)%nat with 0%nat by lia.
  cbn [firstn]. rewrite app_nil_r.
  destruct (Nat.le_ge_cases k (List.length results)) as [Hle|Hge].
  - now rewrite Nat.min_l.
  - rewrite Nat.min_r by exact Hge. rewrite firstn_all. rewrite firstn_all2 in H; assumption.
Qed.

Lemma Legacy_push_counts_follow (plot : Legacy.RunState -> ApiResult.t ->
                                        Graph.t * list ResponseTimeData.t) r st :
  Legacy_counts_follow st -> Legacy_counts_follow (Legacy.push plot r st).
Proof.
  intros (Hc & Hall & k & Hk).
  pose proof (Legacy_push_counts plot r st Hc) as Hc'.
  split; [exact Hc'|]. split.
  - cbn [Legacy.push Legacy.batchResults Legacy.snapshots] in *.
    now apply countAtEveryPoint_snoc.
  - cbn [Legacy.push Legacy.batchResults Legacy.stats].
    now apply (counts_firstn_snoc k).
Qed.

Lemma Legacy_run_counts_follow batchMode threadCount w count :
  Legacy_counts_follow (Legacy.afterRun batchMode threadCount w count).
Proof.
  assert (Hstart : Legacy_counts_follow (Legacy.start w)).
  { split; [repeat split|]. split; [apply countAtEveryPoint_nil|].
    exists 0%nat. repeat split. }
  unfold Legacy.afterRun.
  destruct (Legacy.runBatchCalls batchMode threadCount w count) as [st|] eqn:Hrun.
  2:{ exact Hstart. }
  revert Hrun. apply Legacy_run_invariant.
  - intros id st0 H; exact H.
  - intros ids order st0 H; exact H.
  - intros plot r st0 _ H. now apply Legacy_push_counts_follow.
  - intros st0 (Hc & Hall & _). split; [exact Hc|]. split; [exact Hall|].
    exists (List.length (Legacy.batchResults st0)).
    cbn [Legacy.setStats Legacy.batchResults Legacy.stats]. rewrite firstn_all. exact Hc.
  - intros id ds nin st0 H; exact H.
  - intros st0 H; exact H.
  - intros st0 H; exact H.
  - exact Hstart.
Qed.

(** C5.  At every point of a batch run, in [app/page.tsx] (sequential) and
    in the legacy page (sequential and parallel mode), the running
    statistics satisfy [success + error = total], where [total] counts all
    recorded outcomes.  The statistics taken after each recording
    ([snapshots]) count the outcomes recorded up to then: [total] is their
    number, [success] and [error] are the numbers of successes and of
    errors among them; so do the statistics at the end of the run.  The
    [stats] state that the legacy page shows to the user counts the
    outcomes recorded when it was last set.  The branch of the parallel
    loop for a rejected promise keeps both properties. *)
Theorem stats_add_up_at_every_point :
  forall (graphMaxPoints threadCount : Z) (batchMode : Legacy.BatchMode)
         (w : World) (count : Z),
    let page := Page.afterRun graphMaxPoints w count in
    let legacy := Legacy.afterRun batchMode threadCount w count in
    (Forall consistent (Page.snapshots page)
     /\ consistent (Page.stats page)
     /\ countAtEveryPoint (Page.batchResults page) (Page.snapshots page)
     /\ counts (Page.batchResults page) (Page.stats page))
    /\ (Forall consistent (Legacy.snapshots legacy)
        /\ consistent (Legacy.counters legacy)
        /\ consistent (Legacy.stats legacy)
        /\ countAtEveryPoint (Legacy.batchResults legacy) (Legacy.snapshots legacy)
        /\ counts (Legacy.batchResults legacy) (Legacy.counters legacy)
        /\ exists k, counts (firstn k (Legacy.batchResults legacy)) (Legacy.stats legacy))
    /\ (forall startIdx idx reason st,
          (consistent (Legacy.counters st) ->
           consistent (Legacy.counters (Legacy.pushRejected w startIdx idx reason st)))
          /\ (counts (Legacy.batchResults st) (Legacy.counters st) ->
              counts (Legacy.batchResults (Legacy.pushRejected w startIdx idx reason st))
                     (Legacy.counters (Legacy.pushRejected w startIdx idx reason st)))).
Proof.
  intros gmp threadCount batchMode w count page legacy. split; [|split].
  - destruct (Page_run_stats_ok gmp w count) as [H1 H2].
    destruct (Page_run_counts_follow gmp w count) as [H3 H4].
    subst page. split; [|split; [|split]]; assumption.
  - destruct (Legacy_run_stats_ok batchMode threadCount w count) as (H1 & H2 & H3).
    destruct (Legacy_run_counts_follow batchMode threadCount w count) as (H4 & H5 & H6).
    subst legacy. split; [|split; [|split; [|split; [|split]]]]; assumption.
  - intros startIdx idx reason st. split; [|apply Legacy_pushRejected_counts].
    intros H. unfold consistent, Legacy.counters in *; cbn in *.
    rewrite length_app; cbn [List.length]. lia.
Qed.

(** ** The running average *)

Lemma recordNext_total (s : Stats.t) (r : ApiResult.t) :
  Stats.total (Page.recordNext s r) = Stats.total s + 1.
Proof. reflexivity. Qed.

Lemma Page_recordAll_snoc (results : list ApiResult.t) (r : ApiResult.t) :
  results <> [] ->
  Page.recordAll (results ++ [r]) = Page.recordNext (Page.recordAll results) r.
Proof.
  destruct results as [|first rest]; [congruence|]. intros _.
  cbn [app Page.recordAll]. now rewrite fold_left_app.
Qed.

Lemma Page_run_stats_follow gmp w count :
  Page.stats (Page.afterRun gmp w count)
  = Page.recordAll (Page.batchResults (Page.afterRun gmp w count)).
Proof.
  unfold Page.afterRun, Page.runBatchCalls.
  destruct (correctTestValues (testValues w)) as [[ds nin]|]; [|reflexivity].
  cbn [Page.finally Page.stats Page.batchResults].
  apply (Page_loop_invariant Page_stats_follow).
  - intros id st [Hs Hne] Hab. split.
    + cbn. rewrite Hs. rewrite Page_recordAll_snoc; [reflexivity|].
      intros Hnil. rewrite (Hne Hnil) in Hab. discriminate.
    + cbn. intros Hnil. now apply app_eq_nil in Hnil.
  - unfold Page.firstCall, Page.start; cbn [Page.aborted].
    destruct (stopDuringSetup w); split; cbn; try reflexivity.
    intros Hnil; discriminate.
Qed.

Lemma Legacy_run_total_follows batchMode threadCount w count :
  Legacy_total_follows (Legacy.afterRun batchMode threadCount w count).
Proof.
  unfold Legacy.afterRun.
  destruct (Legacy.runBatchCalls batchMode threadCount w count) as [st|] eqn:Hrun.
  2:{ reflexivity. }
  revert Hrun. apply Legacy_run_invariant; try (intros; assumption).
  - intros plot r st0 _ H. unfold Legacy_total_follows in *; cbn.
    unfold sumDurations. rewrite fold_left_app. cbn [fold_left].
    fold (sumDurations (Legacy.batchResults st0)). now rewrite H.
  - reflexivity.
Qed.

(** ** Traces of the sequential runner of [app/page.tsx] *)

Lemma makeApiCallWithParams_id id ds nin o :
  ApiResult.id (Executor.makeApiCallWithParams id ds nin o) = id.
Proof.
  destruct o as [e|r|r pd]; cbn; try reflexivity.
  destruct (negb (Response.ok r) || JS.truthy_string (ProxyData.error pd)); reflexivity.
Qed.

Lemma makeApiCallWithParams_params id ds nin o :
  ApiResult.dateString (Executor.makeApiCallWithParams id ds nin o) = ds
  /\ ApiResult.nin (Executor.makeApiCallWithParams id ds nin o) = nin.
Proof.
  destruct o as [e|r|r pd]; cbn; try (split; reflexivity).
  destruct (negb (Response.ok r) || JS.truthy_string (ProxyData.error pd));
    split; reflexivity.
Qed.

Lemma Page_loop_unfold gmp w todo i st :
  Page.loop gmp w (S todo) i st
  = if Page.aborted st then st
    else Page.loop gmp w todo (i + 1) (Page_turn gmp w (i + 2) st).
Proof.
  cbn [Page.loop]. destruct (Page.aborted st); [reflexivity|].
  unfold Page_turn. destruct (Page.makeApiCall gmp w (i + 2) st); reflexivity.
Qed.

Lemma Page_turn_events gmp w id st :
  exists ds nin,
    randomlyGenerated w ds nin
    /\ Page.events (Page_turn gmp w id st)
       = (Page.events st ++ [Issued id ds nin; Settled id; Recorded id])%list.
Proof.
  eexists _, _. split.
  - exists (Page.draws st). split; reflexivity.
  - unfold Page_turn, Page.makeApiCall, Page.call, Page.record; cbn.
    rewrite makeApiCallWithParams_id. rewrite <- app_assoc. reflexivity.
Qed.

Lemma Page_turn_results gmp w id st :
  map ApiResult.id (Page.batchResults (Page_turn gmp w id st))
  = (map ApiResult.id (Page.batchResults st) ++ [id])%list.
Proof.
  unfold Page_turn, Page.makeApiCall, Page.call, Page.record; cbn.
  rewrite map_app; cbn. now rewrite makeApiCallWithParams_id.
Qed.

Lemma Page_turn_aborted gmp w id st :
  Page.aborted (Page_turn gmp w id st) = Page.aborted st || stopDuring w id.
Proof. reflexivity. Qed.

Lemma idsFrom_S from n : idsFrom from (S n) = from :: idsFrom (from + 1) n.
Proof.
  unfold idsFrom. cbn [seq map]. rewrite Z.add_0_r. f_equal.
  rewrite <- seq_shift, map_map. apply map_ext. intros k. lia.
Qed.

Lemma idsUpTo_idsFrom count : idsUpTo count = idsFrom 1 (Z.to_nat count).
Proof.
  unfold idsUpTo, idsFrom. rewrite <- seq_shift, map_map.
  apply map_ext. intros k. lia.
Qed.

Lemma In_idsFrom from n id : In id (idsFrom from n) <-> from <= id < from + Z.of_nat n.
Proof.
  unfold idsFrom. rewrite in_map_iff. split.
  - intros (k & <- & Hk). apply in_seq in Hk. lia.
  - intros H. exists (Z.to_nat (id - from)). split; [lia|]. apply in_seq. lia.
Qed.

(** Without a stop, the loop makes its calls one by one, in id order. *)
Lemma Page_loop_uncancelled gmp w :
  (forall id, stopDuring w id = false) ->
  forall todo i st,
    Page.aborted st = false ->
    map shape (Page.events (Page.loop gmp w todo i st))
    = (map shape (Page.events st) ++ oneByOne (idsFrom (i + 2) todo))%list
    /\ map ApiResult.id (Page.batchResults (Page.loop gmp w todo i st))
       = (map ApiResult.id (Page.batchResults st) ++ idsFrom (i + 2) todo)%list.
Proof.
  intros Hstop todo; induction todo as [|todo IH]; intros i st Hab.
  - cbn. now rewrite !app_nil_r.
  - rewrite Page_loop_unfold, Hab.
    destruct (IH (i + 1) (Page_turn gmp w (i + 2) st)) as [He Hr].
    { rewrite Page_turn_aborted, Hab, Hstop. reflexivity. }
    rewrite He, Hr, Page_turn_results.
    destruct (Page_turn_events gmp w (i + 2) st) as (ds & nin & _ & ->).
    rewrite idsFrom_S. replace (i + 1 + 2) with (i + 2 + 1) by lia.
    rewrite map_app; cbn [map shape oneByOne flat_map].
    rewrite <- !app_assoc. split; reflexivity.
Qed.

(** With or without a stop: the events so far stay, and what the loop adds
    are calls with ids from [i + 2] on, below [i + 2 + todo], with randomly
    generated parameters. *)
Lemma Page_loop_issued gmp w :
  forall todo i st,
    exists added,
      Page.events (Page.loop gmp w todo i st) = (Page.events st ++ added)%list
      /\ forall id ds nin,
           In (Issued id ds nin) added ->
           i + 2 <= id < i + 2 + Z.of_nat todo /\ randomlyGenerated w ds nin.
Proof.
  intros todo; induction todo as [|todo IH]; intros i st.
  - exists []. cbn. rewrite app_nil_r. split; [reflexivity|]. intros ? ? ? [].
  - rewrite Page_loop_unfold. destruct (Page.aborted st).
    + exists []. rewrite app_nil_r. split; [reflexivity|]. intros ? ? ? [].
    + destruct (IH (i + 1) (Page_turn gmp w (i + 2) st)) as (added & He & Hin).
      destruct (Page_turn_events gmp w (i + 2) st) as (ds & nin & Hrand & Hev).
      exists ([Issued (i + 2) ds nin; Settled (i + 2); Recorded (i + 2)] ++ added)%list.
      split.
      * rewrite He, Hev, <- app_assoc. reflexivity.
      * intros id d n [H|[H|[H|H]]]; try discriminate.
        -- injection H as <- <- <-. split; [lia|exact Hrand].
        -- destruct (Hin id d n H) as [Hr Hg]. split; [lia|exact Hg].
Qed.

(** ** Traces of the legacy runner *)

Lemma Legacy_sequentialLoop_unfold w remainingCalls todo i st :
  Legacy.sequentialLoop w remainingCalls (S todo) i st
  = if Legacy.aborted st then st
    else Legacy.sequentialLoop w remainingCalls todo (i + 1)
           (Legacy_turn w remainingCalls i st).
Proof.
  cbn [Legacy.sequentialLoop]. destruct (Legacy.aborted st); [reflexivity|].
  unfold Legacy_turn. destruct (Legacy.makeApiCall w (i + 2) st); reflexivity.
Qed.

Lemma Legacy_turn_events w remainingCalls i st :
  exists ds nin,
    randomlyGenerated w ds nin
    /\ Legacy.events (Legacy_turn w remainingCalls i st)
       = (Legacy.events st
          ++ [Issued (i + 2) ds nin; Settled (i + 2); Recorded (i + 2)])%list.
Proof.
  eexists _, _. split.
  - exists (Legacy.draws st). split; reflexivity.
  - unfold Legacy_turn.
    destruct (((i + 1) mod Legacy.updateInterval =? 0) || (i =? remainingCalls - 1));
      cbn; rewrite makeApiCallWithParams_id, <- !app_assoc; reflexivity.
Qed.

Lemma Legacy_turn_results w remainingCalls i st :
  map ApiResult.id (Legacy.batchResults (Legacy_turn w remainingCalls i st))
  = (map ApiResult.id (Legacy.batchResults st) ++ [i + 2])%list.
Proof.
  unfold Legacy_turn.
  destruct (((i + 1) mod Legacy.updateInterval =? 0) || (i =? remainingCalls - 1));
    cbn; rewrite map_app; cbn; now rewrite makeApiCallWithParams_id.
Qed.

Lemma Legacy_turn_aborted w remainingCalls i st :
  Legacy.aborted (Legacy_turn w remainingCalls i st)
  = Legacy.aborted st || (stopDuring w (i + 2) || false).
Proof.
  unfold Legacy_turn.
  destruct (((i + 1) mod Legacy.updateInterval =? 0) || (i =? remainingCalls - 1));
    reflexivity.
Qed.

Lemma Legacy_sequentialLoop_uncancelled w remainingCalls :
  (forall id, stopDuring w id = false) ->
  forall todo i st,
    Legacy.aborted st = false ->
    map shape (Legacy.events (Legacy.sequentialLoop w remainingCalls todo i st))
    = (map shape (Legacy.events st) ++ oneByOne (idsFrom (i + 2) todo))%list
    /\ map ApiResult.id
         (Legacy.batchResults (Legacy.sequentialLoop w remainingCalls todo i st))
       = (map ApiResult.id (Legacy.batchResults st) ++ idsFrom (i + 2) todo)%list.
Proof.
  intros Hstop todo; induction todo as [|todo IH]; intros i st Hab.
  - cbn. now rewrite !app_nil_r.
  - rewrite Legacy_sequentialLoop_unfold, Hab.
    destruct (IH (i + 1) (Legacy_turn w remainingCalls i st)) as [He Hr].
    { rewrite Legacy_turn_aborted, Hab, Hstop. reflexivity. }
    rewrite He, Hr, Legacy_turn_results.
    destruct (Legacy_turn_events w remainingCalls i st) as (ds & nin & _ & ->).
    rewrite idsFrom_S. replace (i + 1 + 2) with (i + 2 + 1) by lia.
    rewrite map_app; cbn [map shape oneByOne flat_map].
    rewrite <- !app_assoc. split; reflexivity.
Qed.

Lemma Legacy_sequentialLoop_issued w remainingCalls :
  forall todo i st,
    exists added,
      Legacy.events (Legacy.sequentialLoop w remainingCalls todo i st)
      = (Legacy.events st ++ added)%list
      /\ forall id ds nin,
           In (Issued id ds nin) added ->
           i + 2 <= id < i + 2 + Z.of_nat todo /\ randomlyGenerated w ds nin.
Proof.
  intros todo; induction todo as [|todo IH]; intros i st.
  - exists []. cbn. rewrite app_nil_r. split; [reflexivity|]. intros ? ? ? [].
  - rewrite Legacy_sequentialLoop_unfold. destruct (Legacy.aborted st).
    + exists []. rewrite app_nil_r. split; [reflexivity|]. intros ? ? ? [].
    + destruct (IH (i + 1) (Legacy_turn w remainingCalls i st)) as (added & He & Hin).
      destruct (Legacy_turn_events w remainingCalls i st) as (ds & nin & Hrand & Hev).
      exists ([Issued (i + 2) ds nin; Settled (i + 2); Recorded (i + 2)] ++ added)%list.
      split.
      * rewrite He, Hev, <- app_assoc. reflexivity.
      * intros id d n [H|[H|[H|H]]]; try discriminate.
        -- injection H as <- <- <-. split; [lia|exact Hrand].
        -- destruct (Hin id d n H) as [Hr Hg]. split; [lia|exact Hg].
Qed.

(** The dispatch loop of a batch that is not stopped starts [todo] calls
    with consecutive ids and random parameters and touches nothing else
    that the later lemmas look at. *)
Lemma Legacy_dispatch_spec w :
  forall todo i promises st,
    Legacy.aborted st = false ->
    exists calls,
      Legacy.events (snd (Legacy.dispatch w todo i promises st))
      = (Legacy.events st ++ issuedEvents calls)%list
      /\ map (fun c => fst (fst c)) calls = idsFrom (i + 2) todo
      /\ (forall c, In c calls -> randomlyGenerated w (snd (fst c)) (snd c))
      /\ map ApiResult.id (fst (Legacy.dispatch w todo i promises st))
         = (map ApiResult.id promises ++ idsFrom (i + 2) todo)%list
      /\ Legacy.aborted (snd (Legacy.dispatch w todo i promises st)) = false.
Proof.
  intros todo; induction todo as [|todo IH]; intros i promises st Hab.
  - exists []. cbn. rewrite !app_nil_r. repeat split; try assumption.
    intros c [].
  - cbn [Legacy.dispatch]. rewrite Hab.
    destruct (Legacy.makeApiCall w (i + 2) st) as [r st1] eqn:Hcall.
    unfold Legacy.makeApiCall, Legacy.issue in Hcall. injection Hcall as Hr Hst1.
    destruct (IH (i + 1) (promises ++ [r])%list st1) as (calls & He & Hids & Hrand & Hch & Hab').
    { subst st1. exact Hab. }
    exists ((i + 2,
             Params.generateRandomDateString (random w (Legacy.draws st))
               (random w (S (Legacy.draws st))),
             Params.generateRandomNIN (random w (S (S (Legacy.draws st))))) :: calls).
    repeat split.
    + rewrite He. subst st1. cbn. rewrite <- app_assoc. reflexivity.
    + cbn [map fst]. rewrite idsFrom_S, Hids.
      replace (i + 1 + 2) with (i + 2 + 1) by lia. reflexivity.
    + intros c [<-|Hc]; [|now apply Hrand].
      exists (Legacy.draws st). split; reflexivity.
    + rewrite Hch, map_app, <- app_assoc. cbn [map app].
      rewrite idsFrom_S. replace (i + 1 + 2) with (i + 2 + 1) by lia.
      subst r. now rewrite makeApiCallWithParams_id.
    + exact Hab'.
Qed.

Lemma Legacy_pushAll_events plot chunk :
  forall st,
    Legacy.events (fold_left (fun s apiResult => Legacy.push plot apiResult s) chunk st)
    = (Legacy.events st ++ map Recorded (map ApiResult.id chunk))%list
    /\ Legacy.aborted (fold_left (fun s apiResult => Legacy.push plot apiResult s) chunk st)
       = Legacy.aborted st.
Proof.
  induction chunk as [|r chunk IH]; intros st; cbn [fold_left map].
  - now rewrite app_nil_r.
  - destruct (IH (Legacy.push plot r st)) as [He Ha]. rewrite He, Ha.
    cbn. rewrite <- app_assoc. split; reflexivity.
Qed.

Lemma Legacy_parallelLoop_unfold threadCount w remainingCalls todo batch st :
  Legacy.parallelLoop threadCount w remainingCalls (S todo) batch st
  = if Legacy.aborted st then st
    else Legacy.parallelLoop threadCount w remainingCalls todo (batch + 1)
           (Legacy_batch threadCount w remainingCalls batch st).
Proof.
  cbn [Legacy.parallelLoop]. destruct (Legacy.aborted st); [reflexivity|].
  unfold Legacy_batch.
  destruct (Legacy.dispatch w
              (Z.to_nat (Z.min (batch * threadCount + threadCount) remainingCalls
                         - batch * threadCount))
              (batch * threadCount) [] st); reflexivity.
Qed.

(** The events of one batch: the calls are started, they settle in some
    order, and only then they are recorded, in issue order. *)
Lemma Legacy_batch_events threadCount w remainingCalls batch st :
  Legacy.aborted st = false ->
  exists calls order,
    Legacy.events (Legacy_batch threadCount w remainingCalls batch st)
    = (Legacy.events st ++ issuedEvents calls ++ map Settled order
       ++ map Recorded (map (fun c => fst (fst c)) calls))%list
    /\ map (fun c => fst (fst c)) calls
       = idsFrom (batch * threadCount + 2)
           (Z.to_nat (Z.min (batch * threadCount + threadCount) remainingCalls
                      - batch * threadCount))
    /\ (forall c, In c calls -> randomlyGenerated w (snd (fst c)) (snd c)).
Proof.
  intros Hab. unfold Legacy_batch.
  set (n := Z.to_nat (Z.min (batch * threadCount + threadCount) remainingCalls
                      - batch * threadCount)).
  destruct (Legacy_dispatch_spec w n (batch * threadCount) [] st Hab)
    as (calls & He & Hids & Hrand & Hch & _).
  exists calls, (completionOrder w (map ApiResult.id (fst (Legacy.dispatch w n (batch * threadCount) [] st)))).
  split; [|split; assumption].
  cbn [Legacy.setStats Legacy.events].
  destruct (Legacy_pushAll_events (Legacy.plotPoint w)
              (fst (Legacy.dispatch w n (batch * threadCount) [] st))
              (Legacy.awaitAll w
                 (map ApiResult.id (fst (Legacy.dispatch w n (batch * threadCount) [] st)))
                 (snd (Legacy.dispatch w n (batch * threadCount) [] st)))) as [Hp _].
  rewrite Hp. cbn [Legacy.awaitAll Legacy.settle Legacy.events].
  rewrite He, Hch, Hids. cbn [map app]. rewrite <- !app_assoc. reflexivity.
Qed.

Lemma In_Issued_issuedEvents id ds nin calls :
  In (Issued id ds nin) (issuedEvents calls) -> In (id, ds, nin) calls.
Proof.
  unfold issuedEvents. rewrite in_map_iff. intros ([[i d] n] & H & Hin).
  cbn in H. injection H as -> -> ->. exact Hin.
Qed.

Lemma Legacy_parallelLoop_issued threadCount w remainingCalls :
  forall todo batch st,
    0 <= batch ->
    exists added,
      Legacy.events (Legacy.parallelLoop threadCount w remainingCalls todo batch st)
      = (Legacy.events st ++ added)%list
      /\ forall id ds nin,
           In (Issued id ds nin) added ->
           2 <= id <= remainingCalls + 1 /\ randomlyGenerated w ds nin.
Proof.
  intros todo; induction todo as [|todo IH]; intros batch st Hb.
  - exists []. cbn. rewrite app_nil_r. split; [reflexivity|]. intros ? ? ? [].
  - rewrite Legacy_parallelLoop_unfold. destruct (Legacy.aborted st) eqn:Hab.
    + exists []. rewrite app_nil_r. split; [reflexivity|]. intros ? ? ? [].
    + destruct (IH (batch + 1) (Legacy_batch threadCount w remainingCalls batch st))
        as (added & He & Hin); [lia|].
      destruct (Legacy_batch_events threadCount w remainingCalls batch st Hab)
        as (calls & order & Hev & Hids & Hrand).
      eexists. split.
      * rewrite He, Hev, <- app_assoc. reflexivity.
      * intros id d n H.
        apply in_app_or in H as [H|H]; [|now apply Hin].
        apply in_app_or in H as [H|H].
        2:{ apply in_app_or in H as [H|H]; apply in_map_iff in H as (x & Hx & _);
            discriminate. }
        apply In_Issued_issuedEvents in H.
        split; [|exact (Hrand _ H)].
        assert (Hid : In id (map (fun c => fst (fst c)) calls)).
        { apply in_map_iff. exists (id, d, n). split; [reflexivity|exact H]. }
        rewrite Hids in Hid. apply In_idsFrom in Hid.
        assert (0 < threadCount) by lia.
        nia.
Qed.

Lemma Page_firstCall_events gmp w ds nin :
  Page.events (Page.firstCall gmp w ds nin (Page.start w))
  = if stopDuringSetup w then [] else [Issued 1 ds nin; Settled 1; Recorded 1].
Proof.
  unfold Page.firstCall, Page.start; cbn [Page.aborted].
  destruct (stopDuringSetup w); [reflexivity|].
  cbn. now rewrite makeApiCallWithParams_id.
Qed.

Lemma Legacy_firstCall_events batchMode w ds nin :
  Legacy.events (Legacy.firstCall batchMode w ds nin (Legacy.start w))
  = if stopDuringSetup w then [] else [Issued 1 ds nin; Settled 1; Recorded 1].
Proof.
  unfold Legacy.firstCall, Legacy.start; cbn [Legacy.aborted].
  destruct (stopDuringSetup w); [reflexivity|].
  cbn. now rewrite makeApiCallWithParams_id.
Qed.

(** When the run is stopped before its first call, the loops do nothing. *)
Lemma Page_loop_aborted gmp w todo i st :
  Page.aborted st = true -> Page.loop gmp w todo i st = st.
Proof. intros H. destruct todo; cbn [Page.loop]; [reflexivity|now rewrite H]. Qed.

Lemma Legacy_sequentialLoop_aborted w rem todo i st :
  Legacy.aborted st = true -> Legacy.sequentialLoop w rem todo i st = st.
Proof.
  intros H. destruct todo; cbn [Legacy.sequentialLoop]; [reflexivity|now rewrite H].
Qed.

Lemma Legacy_parallelLoop_aborted K w rem todo b st :
  Legacy.aborted st = true -> Legacy.parallelLoop K w rem todo b st = st.
Proof.
  intros H. destruct todo; cbn [Legacy.parallelLoop]; [reflexivity|now rewrite H].
Qed.

Lemma canaryFirst_intro w count ds nin added :
  (forall id d n,
      In (Issued id d n) added -> 2 <= id <= count /\ randomlyGenerated w d n) ->
  (stopDuringSetup w = true -> added = []) ->
  canaryFirst w count ds nin
    ((if stopDuringSetup w then [] else [Issued 1 ds nin; Settled 1; Recorded 1])
     ++ added)%list.
Proof.
  intros Hin Hstop. unfold canaryFirst. destruct (stopDuringSetup w).
  - rewrite (Hstop eq_refl). split; [reflexivity|]. intros ? ? ? [].
  - split; [eexists; reflexivity|].
    intros id d n [H|[H|[H|H]]]; try discriminate.
    + injection H as <- <- <-. left. repeat split.
    + right. now apply Hin.
Qed.

Lemma Page_run_canaryFirst gmp w count ds nin :
  correctTestValues (testValues w) = Some (ds, nin) ->
  canaryFirst w count ds nin (Page.events (Page.afterRun gmp w count)).
Proof.
  intros Hcfg. unfold Page.afterRun, Page.runBatchCalls. rewrite Hcfg.
  cbn [Page.finally Page.events].
  destruct (Page_loop_issued gmp w (Z.to_nat (count - 1)) 0
              (Page.firstCall gmp w ds nin (Page.start w))) as (added & He & Hin).
  assert (Hstop : stopDuringSetup w = true -> added = []).
  { intros Hs. rewrite Page_loop_aborted in He.
    - rewrite <- (app_nil_r (Page.events _)) in He at 1.
      apply app_inv_head in He. now symmetry.
    - unfold Page.firstCall, Page.start; cbn. now rewrite Hs. }
  rewrite He, Page_firstCall_events. apply canaryFirst_intro; [|exact Hstop].
  intros id d n H. destruct (Hin id d n H) as [Hr Hg]. split; [lia|exact Hg].
Qed.

Lemma Legacy_run_canaryFirst batchMode threadCount w count ds nin :
  correctTestValues (testValues w) = Some (ds, nin) ->
  canaryFirst w count ds nin
    (Legacy.events (Legacy.afterRun batchMode threadCount w count)).
Proof.
  intros Hcfg. unfold Legacy.afterRun, Legacy.runBatchCalls. rewrite Hcfg.
  cbn [Legacy.finally Legacy.events].
  assert (Hfirst : stopDuringSetup w = true ->
                   Legacy.aborted (Legacy.firstCall batchMode w ds nin (Legacy.start w))
                   = true).
  { intros Hs. unfold Legacy.firstCall, Legacy.start; cbn. now rewrite Hs. }
  destruct batchMode.
  - cbn [Legacy.mergeCollected Legacy.events].
    destruct (Legacy_sequentialLoop_issued w (count - 1) (Z.to_nat (count - 1)) 0
                (Legacy.firstCall Legacy.sequential w ds nin (Legacy.start w)))
      as (added & He & Hin).
    assert (Hstop : stopDuringSetup w = true -> added = []).
    { intros Hs. rewrite Legacy_sequentialLoop_aborted in He by now apply Hfirst.
      rewrite <- (app_nil_r (Legacy.events _)) in He at 1.
      apply app_inv_head in He. now symmetry. }
    rewrite He, Legacy_firstCall_events. apply canaryFirst_intro; [|exact Hstop].
    intros id d n H. destruct (Hin id d n H) as [Hr Hg]. split; [lia|exact Hg].
  - destruct (Legacy_parallelLoop_issued threadCount w (count - 1)
                (Z.to_nat (Legacy.ceilDiv (count - 1) threadCount)) 0
                (Legacy.firstCall Legacy.parallel w ds nin (Legacy.start w)))
      as (added & He & Hin); [lia|].
    assert (Hstop : stopDuringSetup w = true -> added = []).
    { intros Hs. rewrite Legacy_parallelLoop_aborted in He by now apply Hfirst.
      rewrite <- (app_nil_r (Legacy.events _)) in He at 1.
      apply app_inv_head in He. now symmetry. }
    rewrite He, Legacy_firstCall_events. apply canaryFirst_intro; [|exact Hstop].
    intros id d n H. destruct (Hin id d n H) as [Hr Hg]. split; [lia|exact Hg].
Qed.

(** C1.  For every batch run ([app/page.tsx], and both modes of the legacy
    page), whatever [count] is: when the known-good parameters are
    configured, the first call issued has id 1 and uses exactly these
    parameters, and every other call issued has an id in [2 .. count] and
    uses parameters produced by [generateRandomDateString] and
    [generateRandomNIN] from the random source; when they cannot be
    obtained (the fetch fails, is not ok, or a value is missing or empty),
    the run ends at the configuration check: no call is issued, no outcome
    is recorded and the statistics stay all zero. *)
Theorem canary_first_then_random :
  forall (graphMaxPoints threadCount : Z) (batchMode : Legacy.BatchMode)
         (w : World) (count : Z),
    (forall correctDateString correctNIN,
        correctTestValues (testValues w) = Some (correctDateString, correctNIN) ->
        canaryFirst w count correctDateString correctNIN
          (Page.events (Page.afterRun graphMaxPoints w count))
        /\ canaryFirst w count correctDateString correctNIN
             (Legacy.events (Legacy.afterRun batchMode threadCount w count)))
    /\ (correctTestValues (testValues w) = None ->
        (Page.runBatchCalls graphMaxPoints w count = None
         /\ Page.events (Page.afterRun graphMaxPoints w count) = []
         /\ Page.batchResults (Page.afterRun graphMaxPoints w count) = []
         /\ Page.stats (Page.afterRun graphMaxPoints w count) = Stats.zero)
        /\ (Legacy.runBatchCalls batchMode threadCount w count = None
            /\ Legacy.events (Legacy.afterRun batchMode threadCount w count) = []
            /\ Legacy.batchResults (Legacy.afterRun batchMode threadCount w count) = []
            /\ Legacy.stats (Legacy.afterRun batchMode threadCount w count)
               = Stats.zero)).
Proof.
  intros gmp threadCount batchMode w count. split.
  - intros ds nin Hcfg. split.
    + now apply Page_run_canaryFirst.
    + now apply Legacy_run_canaryFirst.
  - intros Hcfg. unfold Page.afterRun, Legacy.afterRun, Page.runBatchCalls,
      Legacy.runBatchCalls. rewrite Hcfg. repeat split.
Qed.

Lemma idsUpTo_split count :
  1 <= count -> idsUpTo count = 1 :: idsFrom 2 (Z.to_nat (count - 1)).
Proof.
  intros H. rewrite idsUpTo_idsFrom.
  replace (Z.to_nat count) with (S (Z.to_nat (count - 1))) by lia.
  now rewrite idsFrom_S.
Qed.

(** An uncancelled sequential run records every call, whatever the
    network answers. *)
Lemma Page_run_uncancelled gmp w count :
  1 <= count ->
  correctTestValues (testValues w) <> None ->
  stopDuringSetup w = false ->
  (forall id, stopDuring w id = false) ->
  map ApiResult.id (Page.batchResults (Page.afterRun gmp w count)) = idsUpTo count
  /\ map shape (Page.events (Page.afterRun gmp w count)) = oneByOne (idsUpTo count).
Proof.
  intros Hcount Hcfg Hsetup Hstop.
  destruct (correctTestValues (testValues w)) as [[ds nin]|] eqn:Hc; [|congruence].
  rewrite (idsUpTo_split count Hcount).
  unfold Page.afterRun, Page.runBatchCalls. rewrite Hc.
  cbn [Page.finally Page.events Page.batchResults].
  destruct (Page_loop_uncancelled gmp w Hstop (Z.to_nat (count - 1)) 0
              (Page.firstCall gmp w ds nin (Page.start w))) as [He Hr].
  { unfold Page.firstCall, Page.start; cbn. rewrite Hsetup. cbn.
    now rewrite Hstop. }
  rewrite He, Hr, Page_firstCall_events, Hsetup.
  unfold Page.firstCall, Page.start; cbn [Page.aborted]. rewrite Hsetup.
  cbn. rewrite makeApiCallWithParams_id. split; reflexivity.
Qed.

Lemma Legacy_sequential_run_uncancelled threadCount w count :
  1 <= count ->
  correctTestValues (testValues w) <> None ->
  stopDuringSetup w = false ->
  (forall id, stopDuring w id = false) ->
  map ApiResult.id
    (Legacy.batchResults (Legacy.afterRun Legacy.sequential threadCount w count))
  = idsUpTo count
  /\ map shape (Legacy.events (Legacy.afterRun Legacy.sequential threadCount w count))
     = oneByOne (idsUpTo count).
Proof.
  intros Hcount Hcfg Hsetup Hstop.
  destruct (correctTestValues (testValues w)) as [[ds nin]|] eqn:Hc; [|congruence].
  rewrite (idsUpTo_split count Hcount).
  unfold Legacy.afterRun, Legacy.runBatchCalls. rewrite Hc.
  cbn [Legacy.finally Legacy.mergeCollected Legacy.events Legacy.batchResults].
  destruct (Legacy_sequentialLoop_uncancelled w (count - 1) Hstop
              (Z.to_nat (count - 1)) 0
              (Legacy.firstCall Legacy.sequential w ds nin (Legacy.start w)))
    as [He Hr].
  { unfold Legacy.firstCall, Legacy.start; cbn. rewrite Hsetup. cbn.
    now rewrite Hstop. }
  rewrite He, Hr, Legacy_firstCall_events, Hsetup.
  unfold Legacy.firstCall, Legacy.start; cbn [Legacy.aborted]. rewrite Hsetup.
  cbn. rewrite makeApiCallWithParams_id. split; reflexivity.
Qed.

(** C8.  In sequential mode, an uncancelled run of [count >= 1] calls
    records the outcomes with ids 1, 2, ..., [count] in this order, and
    every call is issued, settled and recorded before the next one is
    issued: issue order, completion order and recording order are the
    same.  This holds for [app/page.tsx] and for the sequential mode of the
    legacy page. *)
Theorem sequential_ids_in_order :
  forall (graphMaxPoints threadCount : Z) (w : World) (count : Z),
    1 <= count ->
    correctTestValues (testValues w) <> None ->
    stopDuringSetup w = false ->
    (forall id, stopDuring w id = false) ->
    (map ApiResult.id (Page.batchResults (Page.afterRun graphMaxPoints w count))
     = idsUpTo count
     /\ map shape (Page.events (Page.afterRun graphMaxPoints w count))
        = oneByOne (idsUpTo count))
    /\ (map ApiResult.id
          (Legacy.batchResults (Legacy.afterRun Legacy.sequential threadCount w count))
        = idsUpTo count
        /\ map shape
             (Legacy.events (Legacy.afterRun Legacy.sequential threadCount w count))
           = oneByOne (idsUpTo count)).
Proof.
  intros gmp threadCount w count Hcount Hcfg Hsetup Hstop. split.
  - now apply Page_run_uncancelled.
  - now apply Legacy_sequential_run_uncancelled.
Qed.

Lemma canary_first_then_random_witness :
  canaryFirst exampleWorld 3 "1444-01" "1234567890"
    (Page.events (Page.afterRun 100 exampleWorld 3))
  /\ Legacy.stats (Legacy.afterRun Legacy.parallel 2 unconfiguredWorld 3) = Stats.zero.
Proof.
  split.
  - apply (proj1 (canary_first_then_random 100 2 Legacy.parallel exampleWorld 3)
             "1444-01" "1234567890").
    reflexivity.
  - apply (proj2 (canary_first_then_random 100 2 Legacy.parallel unconfiguredWorld 3)).
    reflexivity.
Defined.

Lemma sequential_ids_in_order_witness :
  map ApiResult.id (Page.batchResults (Page.afterRun 100 exampleWorld 3)) = [1; 2; 3]
  /\ map shape (Legacy.events (Legacy.afterRun Legacy.sequential 5 exampleWorld 3))
     = [(issue, 1); (settle, 1); (record, 1);
        (issue, 2); (settle, 2); (record, 2);
        (issue, 3); (settle, 3); (record, 3)].
Proof.
  assert (H1 : 1 <= 3) by lia.
  assert (H2 : correctTestValues (testValues exampleWorld) <> None)
    by (vm_compute; discriminate).
  assert (H3 : stopDuringSetup exampleWorld = false) by reflexivity.
  assert (H4 : forall id, stopDuring exampleWorld id = false) by reflexivity.
  destruct (sequential_ids_in_order 100 5 exampleWorld 3 H1 H2 H3 H4)
    as [[Hp _] [_ Hl]].
  split; [exact Hp|exact Hl].
Defined.

(** ** The parallel mode of the legacy page *)

Lemma inFlight_app l1 l2 : inFlight (l1 ++ l2) = inFlight l1 + inFlight l2.
Proof.
  induction l1 as [|[id d n|id|id] l1 IH]; cbn [app inFlight]; lia.
Qed.

Lemma batchDiscipline_app K l1 :
  forall a j l2,
    batchDiscipline K a j (l1 ++ l2)
    <-> batchDiscipline K a j l1
        /\ batchDiscipline K (a + inFlight l1) (fold_left countJustIssued l1 j) l2.
Proof.
  induction l1 as [|[id d n|id|id] l1 IH]; intros a j l2;
    cbn [app batchDiscipline inFlight fold_left countJustIssued].
  - rewrite Z.add_0_r. tauto.
  - rewrite IH. replace (a + (inFlight l1 + 1)) with (a + 1 + inFlight l1) by lia. tauto.
  - rewrite IH. tauto.
  - rewrite IH. replace (a + (inFlight l1 - 1)) with (a - 1 + inFlight l1) by lia. tauto.
Qed.

Lemma batchDiscipline_bounds K evs :
  forall a j,
    batchDiscipline K a j evs -> 0 <= a <= K -> 0 <= a + inFlight evs <= K.
Proof.
  induction evs as [|[id d n|id|id] evs IH]; intros a j H Ha;
    cbn [batchDiscipline inFlight] in *.
  - lia.
  - destruct H as (_ & Hk & H). specialize (IH _ _ H). lia.
  - specialize (IH _ _ H). lia.
  - destruct H as (H1 & H). specialize (IH _ _ H). lia.
Qed.

(** What the discipline says about every moment of a trace. *)
Lemma batchDiscipline_at_every_point K evs :
  0 <= K ->
  batchDiscipline K 0 0 evs ->
  forall before after,
    evs = (before ++ after)%list ->
    0 <= inFlight before <= K
    /\ forall id ds nin rest,
         after = Issued id ds nin :: rest -> inFlight before = justIssued before.
Proof.
  intros HK H before after ->. apply batchDiscipline_app in H as [Hb Ha]. split.
  - pose proof (batchDiscipline_bounds K before 0 0 Hb). lia.
  - intros id ds nin rest ->. cbn in Ha. unfold justIssued. lia.
Qed.

Lemma issuedEvents_discipline K calls :
  forall a,
    a + Z.of_nat (List.length calls) <= K ->
    batchDiscipline K a a (issuedEvents calls)
    /\ inFlight (issuedEvents calls) = Z.of_nat (List.length calls)
    /\ forall j, fold_left countJustIssued (issuedEvents calls) j
                 = j + Z.of_nat (List.length calls).
Proof.
  induction calls as [|c calls IH]; intros a Ha.
  - cbn. repeat split; intros; lia.
  - cbn [List.length issuedEvents map batchDiscipline inFlight fold_left countJustIssued]
      in *.
    destruct (IH (a + 1)) as (H1 & H2 & H3); [lia|].
    fold (issuedEvents calls). repeat split; try lia; try assumption.
    intros j. rewrite H3. lia.
Qed.

Lemma settled_discipline K order :
  forall a j,
    batchDiscipline K a j (map Settled order)
    /\ inFlight (map Settled order) = 0
    /\ (fold_left countJustIssued (map Settled order) j = 0
        \/ fold_left countJustIssued (map Settled order) j = j).
Proof.
  induction order as [|id order IH]; intros a j; cbn.
  - repeat split. now right.
  - destruct (IH a 0) as (H1 & H2 & H3). repeat split; try assumption.
    left. destruct H3 as [H3|H3]; exact H3.
Qed.

Lemma recorded_discipline K ids :
  forall a j,
    Z.of_nat (List.length ids) <= a ->
    batchDiscipline K a j (map Recorded ids)
    /\ inFlight (map Recorded ids) = - Z.of_nat (List.length ids)
    /\ (ids <> [] -> fold_left countJustIssued (map Recorded ids) j = 0).
Proof.
  induction ids as [|id ids IH]; intros a j Ha.
  - cbn. repeat split. congruence.
  - cbn [List.length map batchDiscipline inFlight fold_left countJustIssued] in *.
    destruct (IH (a - 1) 0) as (H1 & H2 & H3); [lia|].
    repeat split; try lia; try assumption.
    intros _. destruct ids as [|id' ids]; [reflexivity|]. apply H3. congruence.
Qed.

(** A whole batch keeps the discipline and leaves nothing in flight. *)
Lemma batch_discipline K calls order :
  Z.of_nat (List.length calls) <= K ->
  let block :=
    (issuedEvents calls ++ map Settled order
     ++ map Recorded (map (fun c => fst (fst c)) calls))%list in
  batchDiscipline K 0 0 block /\ inFlight block = 0 /\ justIssued block = 0.
Proof.
  intros Hn block. subst block.
  destruct (issuedEvents_discipline K calls 0) as (Hi1 & Hi2 & Hi3); [lia|].
  set (n := Z.of_nat (List.length calls)) in *.
  set (ids := map (fun c => fst (fst c)) calls).
  assert (Hlen : Z.of_nat (List.length ids) = n) by (unfold ids; now rewrite length_map).
  destruct (settled_discipline K order (0 + n) (0 + n)) as (Hs1 & Hs2 & Hs3).
  split; [|split].
  - apply batchDiscipline_app. split; [exact Hi1|].
    rewrite Hi2, Hi3. apply batchDiscipline_app. split; [exact Hs1|].
    rewrite Hs2. apply recorded_discipline. lia.
  - rewrite !inFlight_app, Hi2, Hs2.
    destruct (recorded_discipline K ids n 0) as (_ & Hr & _); [lia|]. rewrite Hr. lia.
  - unfold justIssued. rewrite !fold_left_app, Hi3.
    destruct calls as [|c calls].
    + cbn. cbn in Hs3. destruct Hs3 as [H|H]; exact H.
    + destruct (recorded_discipline K ids n
                  (fold_left countJustIssued (map Settled order) (0 + n)))
        as (_ & _ & Hr); [lia|].
      apply Hr. unfold ids; cbn; congruence.
Qed.

Lemma Legacy_disciplined_app K st evs block :
  Legacy_disciplined K st ->
  batchDiscipline K 0 0 block /\ inFlight block = 0 /\ justIssued block = 0 ->
  evs = (Legacy.events st ++ block)%list ->
  batchDiscipline K 0 0 evs /\ inFlight evs = 0 /\ justIssued evs = 0.
Proof.
  intros (H1 & H2 & H3) (B1 & B2 & B3) ->. split; [|split].
  - apply batchDiscipline_app. split; [exact H1|].
    rewrite H2. unfold justIssued in H3. rewrite H3. exact B1.
  - rewrite inFlight_app. lia.
  - unfold justIssued in *. rewrite fold_left_app, H3. exact B3.
Qed.

Lemma Legacy_parallelLoop_disciplined K w remainingCalls :
  0 <= K ->
  forall todo batch st,
    Legacy_disciplined K st ->
    Legacy_disciplined K (Legacy.parallelLoop K w remainingCalls todo batch st).
Proof.
  intros HK todo; induction todo as [|todo IH]; intros batch st Hst.
  - exact Hst.
  - rewrite Legacy_parallelLoop_unfold. destruct (Legacy.aborted st) eqn:Hab; [exact Hst|].
    apply IH.
    destruct (Legacy_batch_events K w remainingCalls batch st Hab)
      as (calls & order & Hev & Hids & _).
    refine (Legacy_disciplined_app K st _ _ Hst _ Hev).
    apply batch_discipline.
    assert (Hlen : List.length calls
                   = Z.to_nat (Z.min (batch * K + K) remainingCalls - batch * K)).
    { rewrite <- (length_map (fun c => fst (fst c)) calls), Hids.
      unfold idsFrom. now rewrite length_map, length_seq. }
    rewrite Hlen. lia.
Qed.

Lemma Legacy_parallel_run_disciplined K w count :
  1 <= K ->
  batchDiscipline K 0 0 (Legacy.events (Legacy.afterRun Legacy.parallel K w count)).
Proof.
  intros HK. unfold Legacy.afterRun, Legacy.runBatchCalls.
  destruct (correctTestValues (testValues w)) as [[ds nin]|]; [|exact I].
  cbn [Legacy.finally Legacy.events].
  apply Legacy_parallelLoop_disciplined; [lia|].
  unfold Legacy_disciplined. rewrite Legacy_firstCall_events.
  destruct (stopDuringSetup w); cbn; repeat split; lia.
Qed.

(** C2, as the code has it.  In parallel mode with [threadCount = K >= 1],
    at every point of a run the number of calls issued and not yet recorded
    is between 0 and K; and whenever a call is issued, the calls in flight
    are exactly those started just before it by the same dispatch loop:
    calls are started batch by batch, a batch only after every call of the
    previous one has settled and has been recorded. *)
Theorem parallel_in_flight_bounded :
  forall (K : Z) (w : World) (count : Z),
    1 <= K ->
    forall before after,
      Legacy.events (Legacy.afterRun Legacy.parallel K w count)
      = (before ++ after)%list ->
      0 <= inFlight before <= K
      /\ forall id ds nin rest,
           after = Issued id ds nin :: rest -> inFlight before = justIssued before.
Proof.
  intros K w count HK before after Hev.
  apply (batchDiscipline_at_every_point K
           (Legacy.events (Legacy.afterRun Legacy.parallel K w count)));
    [lia| |exact Hev].
  now apply Legacy_parallel_run_disciplined.
Qed.

Lemma parallel_in_flight_bounded_witness :
  1 <= 2
  /\ 0 <= inFlight
            (firstn 5 (Legacy.events (Legacy.afterRun Legacy.parallel 2 exampleWorld 4)))
       <= 2.
Proof.
  split; [lia|].
  apply (parallel_in_flight_bounded 2 exampleWorld 4 ltac:(lia)
           (firstn 5 (Legacy.events (Legacy.afterRun Legacy.parallel 2 exampleWorld 4)))
           (skipn 5 (Legacy.events (Legacy.afterRun Legacy.parallel 2 exampleWorld 4)))).
  vm_compute. reflexivity.
Defined.

(** C2, as stated, fails: with two threads and four calls, when call 2
    settles, call 4 is still to be issued and only call 3 is running, yet
    the next step is not the start of call 4: the run waits for call 3, and
    the pool stays below two although work remains. *)
Lemma parallel_pool_not_refilled :
  ~ refillsOnCompletion 4
      (Legacy.events (Legacy.afterRun Legacy.parallel 2 exampleWorld 4))
  /\ map shape (Legacy.events (Legacy.afterRun Legacy.parallel 2 exampleWorld 4))
     = [(issue, 1); (settle, 1); (record, 1);
        (issue, 2); (issue, 3); (settle, 2); (settle, 3); (record, 2); (record, 3);
        (issue, 4); (settle, 4); (record, 4)]
  /\ poolSize
       (firstn 6 (Legacy.events (Legacy.afterRun Legacy.parallel 2 exampleWorld 4)))
     = 1.
Proof.
  split; [|split; vm_compute; reflexivity].
  intros H.
  specialize
    (H (firstn 5 (Legacy.events (Legacy.afterRun Legacy.parallel 2 exampleWorld 4)))
       2
       (skipn 6 (Legacy.events (Legacy.afterRun Legacy.parallel 2 exampleWorld 4)))).
  vm_compute in H. apply H; [reflexivity|reflexivity].
Qed.

(** ** The call executor *)

Lemma detailedError_truthy (e : Proxy.NodeError) :
  JS.truthy_string (Proxy.detailedError e) = true.
Proof.
  unfold Proxy.detailedError.
  destruct (String.eqb (Proxy.code e) "CERT_HAS_EXPIRED"
            || String.eqb (Proxy.code e) "UNABLE_TO_VERIFY_LEAF_SIGNATURE");
    [reflexivity|].
  destruct (String.eqb (Proxy.code e) "ENOTFOUND"
            || String.eqb (Proxy.code e) "ECONNREFUSED"); [reflexivity|].
  unfold JS.or_string. destruct (Proxy.message e); reflexivity.
Qed.

Lemma or_number_not_zero (a : option Z) (b : Z) : b <> 0 -> JS.or_number a b <> 0.
Proof.
  intros Hb. unfold JS.or_number. destruct a as [v|]; [|exact Hb].
  destruct (v =? 0) eqn:Hv; [exact Hb|]. now apply Z.eqb_neq.
Qed.

(** C6, as stated, fails: the outcome of a call made with an aborted
    signal is an ordinary error, and recording it changes the statistics
    (one more call, one more error) and the time series (one more point).
    In a run stopped while call 2 is in flight, the aborted call is in the
    results and counts as an error; the average of the durations 1 and 0
    is 0.5, that is [4503599627370496 * 2^-53]. *)
Lemma cancelled_outcome_is_counted :
  ~ cancelledIsIgnored
  /\ Page.recordNext Stats.zero
       (cancelledOutcome 2 "1450-07" "550000000" (network exampleWorld 2 "" ""))
     = Stats.make 1 0 1 (JS.of_int 0)
  /\ Page.stats (Page.afterRun 100 stoppedWorld 5)
     = Stats.make 2 1 1 (S754_finite false 4503599627370496 (-53))
  /\ map ApiResult.error (Page.batchResults (Page.afterRun 100 stoppedWorld 5))
     = [None; Some "Request aborted"].
Proof.
  split; [|split; [|split]]; [|vm_compute; reflexivity..].
  intros H.
  destruct (H 2 "1450-07" "550000000" (network exampleWorld 2 "" "")
              Stats.zero Graph.empty) as [Hs _].
  vm_compute in Hs. discriminate Hs.
Qed.

(** C6, as the code has it.  A call executed with an already aborted signal
    does not reach the network (its outcome does not depend on it) and
    yields an ordinary error outcome: status [error], status code 0, error
    "Request aborted", duration 0.  Recording it counts one more call and
    one more error and buffers an error point for the graph.  The batch
    loops never execute such a call: once the signal is aborted they issue
    nothing and record nothing. *)
Theorem aborted_call_is_an_error_outcome :
  forall (id : Z) (dateString nin : string) (network : FetchOutcome),
    (forall network', cancelledOutcome id dateString nin network
                      = cancelledOutcome id dateString nin network')
    /\ cancelledOutcome id dateString nin network
       = ApiResult.make id dateString nin error (Some "Request aborted")
           (JS.of_int 0) (Some 0)
    /\ (forall s : Stats.t,
          Stats.total (Page.recordNext s (cancelledOutcome id dateString nin network))
          = Stats.total s + 1
          /\ Stats.error (Page.recordNext s (cancelledOutcome id dateString nin network))
             = Stats.error s + 1
          /\ Stats.success (Page.recordNext s (cancelledOutcome id dateString nin network))
             = Stats.success s)
    /\ (forall g : Graph.t,
          Graph.graphDataBuffer
            (Graph.addGraphDataPointToRef g (cancelledOutcome id dateString nin network))
          = (Graph.graphDataBuffer g
             ++ [ResponseTimeData.make (JS.String_ (Graph.graphSequence g + 1))
                   (JS.of_int 0) 0 1])%list)
    /\ (forall graphMaxPoints threadCount w remainingCalls todo i,
          (forall st, Page.aborted st = true ->
                      Page.loop graphMaxPoints w todo i st = st)
          /\ (forall st, Legacy.aborted st = true ->
                         Legacy.sequentialLoop w remainingCalls todo i st = st
                         /\ Legacy.parallelLoop threadCount w remainingCalls todo i st
                            = st)).
Proof.
  intros id ds nin network. repeat split; intros.
  - now apply Page_loop_aborted.
  - now apply Legacy_sequentialLoop_aborted.
  - now apply Legacy_parallelLoop_aborted.
Qed.

Lemma aborted_call_is_an_error_outcome_witness :
  Page.loop 100 exampleWorld 3 0
    (Page.mkState [] Stats.zero Graph.empty true 0 [] [])
  = Page.mkState [] Stats.zero Graph.empty true 0 [] [].
Proof.
  apply (proj1 (proj2 (proj2 (proj2 (proj2
           (aborted_call_is_an_error_outcome 2 "1450-07" "550000000"
              (network exampleWorld 2 "" ""))))) 100 2 exampleWorld 4 3%nat 0)).
  reflexivity.
Defined.

(** C7, as stated, fails: the status code is 0 only when [fetch] itself
    rejects.  A response that cannot be parsed is recorded with the HTTP
    status of the response (here 200), and an upstream connection failure
    reaches the page as the proxy's HTTP 500 and is recorded with status
    code 500. *)
Lemma transport_failure_status_code_not_zero :
  ApiResult.statusCode
    (Executor.makeApiCallWithParams 2 "1450-07" "550000000"
       (JsonRejected (Response.make 200 "OK")))
  = Some 200
  /\ ApiResult.statusCode
       (Executor.makeApiCallWithParams 2 "1450-07" "550000000"
          (Proxy.GET_upstream_failure
             (Proxy.mkNodeError "connect ECONNREFUSED 10.0.0.1:5543" "ECONNREFUSED")
             (JS.of_int 3)))
     = Some 500.
Proof. split; reflexivity. Qed.

(** C7, as the code has it.  Every failure is recorded as an outcome with
    status [error] and an error description, and does not end the run; the
    status code depends on where the failure happens.  When [fetch] itself
    rejects (the page cannot reach the proxy, or the call is aborted) the
    status code is 0 and the description is the message of the exception.
    When the body of the response cannot be parsed, the status code is the
    HTTP status of the response (500 when that is 0), never 0.  When the
    upstream request of the proxy fails (timeout, refused connection, DNS,
    certificate), the proxy answers HTTP 500 with its description of the
    error, and the outcome has status code 500.  Whatever the network
    does, a sequential run that is not stopped records all its calls. *)
Theorem transport_failures_are_error_outcomes :
  forall (id : Z) (dateString nin : string),
    (forall e : JsError.t,
        let o := Executor.makeApiCallWithParams id dateString nin (FetchRejected e) in
        ApiResult.status o = error
        /\ ApiResult.statusCode o = Some 0
        /\ ApiResult.error o = Some (Executor.errorMessageOf e))
    /\ (forall r : Response.t,
          let o := Executor.makeApiCallWithParams id dateString nin (JsonRejected r) in
          ApiResult.status o = error
          /\ ApiResult.statusCode o
             = Some (if Response.status r =? 0 then 500 else Response.status r)
          /\ ApiResult.statusCode o <> Some 0
          /\ ApiResult.error o
             = Some ("Failed to parse response: " ++ JS.String_ (Response.status r)
                     ++ " " ++ Response.statusText r)%string)
    /\ (forall (e : Proxy.NodeError) (responseTime : spec_float),
          let o := Executor.makeApiCallWithParams id dateString nin
                     (Proxy.GET_upstream_failure e responseTime) in
          ApiResult.status o = error
          /\ ApiResult.statusCode o = Some 500
          /\ ApiResult.error o = Some (Proxy.detailedError e))
    /\ (forall graphMaxPoints threadCount w count,
          1 <= count ->
          correctTestValues (testValues w) <> None ->
          stopDuringSetup w = false ->
          (forall id, stopDuring w id = false) ->
          map ApiResult.id (Page.batchResults (Page.afterRun graphMaxPoints w count))
          = idsUpTo count
          /\ map ApiResult.id
               (Legacy.batchResults
                  (Legacy.afterRun Legacy.sequential threadCount w count))
             = idsUpTo count).
Proof.
  intros id ds nin. split; [|split; [|split]].
  - intros e; cbn. repeat split.
  - intros r; cbn. repeat split.
    intros H. injection H as H.
    destruct (Response.status r =? 0) eqn:E; [lia|]. apply Z.eqb_neq in E. lia.
  - intros e t; cbn. unfold JS.or_string. rewrite detailedError_truthy.
    repeat split.
  - intros gmp threadCount w count H1 H2 H3 H4. split.
    + now apply Page_run_uncancelled.
    + now apply Legacy_sequential_run_uncancelled.
Qed.

Lemma transport_failures_are_error_outcomes_witness :
  map ApiResult.id (Page.batchResults (Page.afterRun 100 failingWorld 3)) = [1; 2; 3]
  /\ map ApiResult.status (Page.batchResults (Page.afterRun 100 failingWorld 3))
     = [success; error; success]
  /\ map ApiResult.statusCode (Page.batchResults (Page.afterRun 100 failingWorld 3))
     = [Some 200; Some 500; Some 200].
Proof.
  assert (H1 : 1 <= 3) by lia.
  assert (H2 : correctTestValues (testValues failingWorld) <> None)
    by (vm_compute; discriminate).
  assert (H3 : stopDuringSetup failingWorld = false) by reflexivity.
  assert (H4 : forall id, stopDuring failingWorld id = false) by reflexivity.
  split; [|split; vm_compute; reflexivity].
  exact (proj1 (proj2 (proj2 (proj2
           (transport_failures_are_error_outcomes 2 "1450-07" "550000000")))
           100 2 failingWorld 3 H1 H2 H3 H4)).
Defined.

(** ** The time series buffer *)

Lemma slice_last_length {A : Type} (l : list A) (n : Z) :
  0 < n -> Z.of_nat (List.length (JS.slice l (- n))) = Z.min (Z.of_nat (List.length l)) n.
Proof.
  intros Hn. unfold JS.slice.
  destruct (- n <? 0) eqn:E; [|apply Z.ltb_ge in E; lia].
  rewrite length_skipn. lia.
Qed.

Lemma seenByUpdater_length (twice : bool) (buffer : list ResponseTimeData.t) :
  (List.length (Graph.seenByUpdater twice buffer) <= List.length buffer)%nat.
Proof. destruct twice; cbn; lia. Qed.

(** The legacy page keeps its fixed capacity of 100 points. *)
Lemma addGraphDataPoint_withinCapacity (twice : bool) (g : Graph.t) (r : ApiResult.t) :
  withinCapacity 100 g -> withinCapacity 100 (Graph.addGraphDataPoint twice g r).
Proof.
  unfold withinCapacity, Graph.addGraphDataPoint. intros H.
  destruct ((5 <=? _) || negb (Graph.graphUpdateTimer g)).
  - cbn [Graph.responseTimeData].
    match goal with
    | |- context [JS.slice ?l _] =>
        pose proof (slice_last_length l 100 ltac:(lia)) as Hs
    end.
    cbn [Z.opp] in Hs. lia.
  - destruct (negb (Graph.graphUpdateTimer g)); exact H.
Qed.

(** [app/page.tsx] keeps the capacity as long as fewer points than the
    capacity are merged at once. *)
Lemma updateUI_withinCapacity (twice : bool) (graphMaxPoints : Z) (g : Graph.t) :
  withinCapacity graphMaxPoints g ->
  Z.of_nat (List.length (Graph.graphDataBuffer g)) < graphMaxPoints ->
  withinCapacity graphMaxPoints (Graph.updateUI twice graphMaxPoints g).
Proof.
  unfold withinCapacity, Graph.updateUI. intros H Hb.
  destruct (Graph.graphDataBuffer g) as [|p buffer] eqn:Hbuf; [exact H|].
  cbn [Graph.responseTimeData].
  pose proof (seenByUpdater_length twice (p :: buffer)) as Hseen.
  set (seen := Graph.seenByUpdater twice (p :: buffer)) in *.
  destruct (_ <=? graphMaxPoints) eqn:E.
  - apply Z.leb_le in E. rewrite length_app. lia.
  - rewrite length_app.
    set (k := graphMaxPoints - Z.of_nat (List.length seen)) in *.
    pose proof (slice_last_length (Graph.responseTimeData g) k ltac:(lia)). lia.
Qed.

(** C4, where the code goes wrong.  With [graphMaxPoints = 50], a batch
    run of 55 calls whose graph is updated every ten calls ends with 55
    points on the graph: the flush of the [finally] block trims to the
    constant 100, not to the configured capacity.  And a UI update that
    merges as many buffered points as the capacity holds (here 50 onto 50)
    trims nothing at all, since [prev.slice(-0)] is the whole of [prev].
    (Both with updaters that run once; the points last 1 ms each.) *)
Theorem graph_exceeds_configured_capacity :
  List.length
    (Graph.responseTimeData (Page.graph (Page.afterRun 50 exampleWorld 55)))
  = 55%nat
  /\ ~ withinCapacity 50 (Page.graph (Page.afterRun 50 exampleWorld 55))
  /\ (let points :=
        map (fun n => ResponseTimeData.make (JS.String_ n) (JS.of_int 1) 1 0) in
      let g := Graph.make (points (idsFrom 1 50)) (points (idsFrom 51 50)) 100 false in
      withinCapacity 50 g
      /\ List.length (Graph.responseTimeData (Graph.updateUI false 50 g)) = 100%nat).
Proof.
  split; [vm_compute; reflexivity|]. split.
  - unfold withinCapacity. vm_compute. intros H. apply H. reflexivity.
  - split; [unfold withinCapacity; vm_compute; discriminate|vm_compute; reflexivity].
Qed.

(** ** [withRetry] *)




Section RetryLoop.

Context {T Env : Type}.
Variable fn : Env -> (T + Retry.ErrorObj) * Env.
Variable config : Retry.RetryConfig.


End RetryLoop.



(** ** Random parameters *)

(** *** Binary64 rounding *)

Lemma digits2_pos_bounds (p : positive) :
  2 ^ (Z.pos (digits2_pos p) - 1) <= Z.pos p < 2 ^ Z.pos (digits2_pos p).
Proof.
  induction p as [p IH|p IH|]; cbn [digits2_pos].
  - rewrite Pos2Z.inj_succ.
    replace (Z.succ (Z.pos (digits2_pos p)) - 1) with (Z.succ (Z.pos (digits2_pos p) - 1)) by lia.
    rewrite !Z.pow_succ_r by lia. lia.
  - rewrite Pos2Z.inj_succ.
    replace (Z.succ (Z.pos (digits2_pos p)) - 1) with (Z.succ (Z.pos (digits2_pos p) - 1)) by lia.
    rewrite !Z.pow_succ_r by lia. lia.
  - cbn. lia.
Qed.

Lemma iter_pos_nat {A : Type} (f : A -> A) (p : positive) :
  forall x, iter_pos f p x = Nat.iter (Pos.to_nat p) f x.
Proof.
  induction p as [p IH|p IH|]; intros x; cbn [iter_pos].
  - rewrite !IH, Pos2Nat.inj_xI.
    replace (S (2 * Pos.to_nat p)) with (Pos.to_nat p + (Pos.to_nat p + 1))%nat by lia.
    rewrite !Nat.iter_add. reflexivity.
  - rewrite !IH, Pos2Nat.inj_xO.
    replace (2 * Pos.to_nat p)%nat with (Pos.to_nat p + Pos.to_nat p)%nat by lia.
    rewrite Nat.iter_add. reflexivity.
  - reflexivity.
Qed.

Lemma shr_1_spec (mrs : shr_record) :
  0 <= shr_m mrs ->
  shr_m (shr_1 mrs) = shr_m mrs / 2
  /\ shr_r (shr_1 mrs) = Z.odd (shr_m mrs).
Proof.
  destruct mrs as [m r s]; cbn [shr_m]. intros Hm.
  destruct m as [|[p|p|]|p]; try lia; cbn [shr_1 shr_m shr_r].
  - split; reflexivity.
  - split; [|reflexivity]. rewrite Pos2Z.inj_xI.
    apply Z.div_unique with (r := 1); lia.
  - split; [|reflexivity]. rewrite Pos2Z.inj_xO.
    apply Z.div_unique with (r := 0); lia.
  - split; reflexivity.
Qed.

Lemma iter_shr_1_spec (n : nat) (mrs : shr_record) :
  0 <= shr_m mrs ->
  shr_m (Nat.iter (S n) shr_1 mrs) = shr_m mrs / 2 ^ Z.of_nat (S n)
  /\ shr_r (Nat.iter (S n) shr_1 mrs) = Z.odd (shr_m mrs / 2 ^ Z.of_nat n).
Proof.
  intros Hm. induction n as [|n IH].
  - change (Nat.iter 1 shr_1 mrs) with (shr_1 mrs). destruct (shr_1_spec mrs Hm) as [H1 H2].
    rewrite H1, H2. change (2 ^ Z.of_nat 1) with 2. change (2 ^ Z.of_nat 0) with 1.
    now rewrite Z.div_1_r.
  - destruct IH as [IH1 IH2].
    change (Nat.iter (S (S n)) shr_1 mrs) with (shr_1 (Nat.iter (S n) shr_1 mrs)).
    assert (Hpos : 0 <= shr_m (Nat.iter (S n) shr_1 mrs)).
    { rewrite IH1. apply Z.div_pos; [exact Hm|]. apply Z.pow_pos_nonneg; lia. }
    destruct (shr_1_spec _ Hpos) as [H1 H2]. rewrite H1, H2, IH1. split; [|reflexivity].
    rewrite Z.div_div by (try apply Z.pow_pos_nonneg; lia).
    f_equal. rewrite (Nat2Z.inj_succ (S n)), Z.pow_succ_r by lia. lia.
Qed.

Lemma round_nearest_even_cases (mrs : shr_record) :
  let m' := round_nearest_even (shr_m mrs) (loc_of_shr_record mrs) in
  m' = shr_m mrs \/ (m' = shr_m mrs + 1 /\ shr_r mrs = true).
Proof.
  destruct mrs as [q [|] [|]]; cbn; auto.
  destruct (Z.even q); auto.
Qed.

(** One rounding step: the significand [P] at exponent [E] is shifted right
    by [k] bits (when [k > 0]) and rounded to nearest, ties to even. *)
Lemma shr_round (P E k : Z) :
  0 <= P ->
  let mrs := fst (shr (Build_shr_record P false false) E k) in
  let m' := round_nearest_even (shr_m mrs) (loc_of_shr_record mrs) in
  snd (shr (Build_shr_record P false false) E k) = E + Z.max k 0
  /\ shr_m mrs = P / 2 ^ Z.max k 0
  /\ P / 2 ^ Z.max k 0 <= m' <= P / 2 ^ Z.max k 0 + 1
  /\ (m' = P / 2 ^ Z.max k 0 + 1 -> 0 < k /\ 2 ^ (k - 1) * (2 * m' - 1) <= P).
Proof.
  intros HP. destruct k as [|p|p]; cbn [shr fst snd].
  - cbn. rewrite Z.div_1_r. repeat split; try lia.
  - rewrite iter_pos_nat.
    destruct (Pos.to_nat p) as [|n] eqn:Hn; [lia|].
    destruct (iter_shr_1_spec n (Build_shr_record P false false) HP) as [Hm Hr].
    cbn [shr_m] in Hm, Hr.
    assert (Hp : Z.pos p = Z.of_nat (S n)) by lia.
    rewrite Z.max_l by lia. rewrite Hp.
    set (mrs := Nat.iter (S n) shr_1 (Build_shr_record P false false)) in *.
    split; [lia|]. split; [exact Hm|].
    destruct (round_nearest_even_cases mrs) as [H|[H Hr']]; rewrite H, Hm.
    + split; [lia|]. intros Habs. lia.
    + split; [lia|]. intros _. split; [lia|].
      rewrite Hr in Hr'.
      replace (Z.of_nat (S n) - 1) with (Z.of_nat n) by lia.
      assert (H2n : 0 < 2 ^ Z.of_nat n) by (apply Z.pow_pos_nonneg; lia).
      assert (Hq : P / 2 ^ Z.of_nat (S n) = P / 2 ^ Z.of_nat n / 2).
      { rewrite Z.div_div by lia. f_equal.
        rewrite Nat2Z.inj_succ, Z.pow_succ_r by lia. lia. }
      rewrite Hq.
      pose proof (Z.div_mod (P / 2 ^ Z.of_nat n) 2 ltac:(lia)) as Hdm.
      rewrite Zmod_odd, Hr' in Hdm.
      pose proof (Z.mul_div_le P (2 ^ Z.of_nat n) H2n) as Hle.
      replace (2 * (P / 2 ^ Z.of_nat n / 2 + 1) - 1) with (P / 2 ^ Z.of_nat n) by lia.
      exact Hle.
  - cbn. rewrite Z.div_1_r. repeat split; try lia.
Qed.

Lemma pow2_pos (x : Z) : 0 <= x -> 0 < 2 ^ x.
Proof. intros. apply Z.pow_pos_nonneg; lia. Qed.

Lemma pow2_le (x y : Z) : 0 <= x <= y -> 2 ^ x <= 2 ^ y.
Proof. intros. apply Z.pow_le_mono_r; lia. Qed.

Lemma pow2_lt_inv (x y : Z) : 0 <= y -> 2 ^ x < 2 ^ y -> x < y.
Proof. intros Hy H. apply (Z.pow_lt_mono_r_iff 2); lia. Qed.

Section ScaledFloor.

(** [n] is the integer factor ([100], [12], [900000000]); as a binary64
    number it is [n * 2^a] at exponent [- a]. *)
Variables n a : Z.
Hypothesis Hn : 1 <= n.
Hypothesis Ha : 2 <= a <= 52.
Hypothesis Hmn : 2 ^ 52 < n * 2 ^ a < 2 ^ 53.

(** The significand after the first rounding step stays below [n]. *)
Lemma rounded_product_below (m b d m' : Z) :
  1 <= m < 2 ^ 53 ->
  53 <= b <= 1074 ->
  2 ^ (d - 1) <= m * (n * 2 ^ a) < 2 ^ d ->
  let P := m * (n * 2 ^ a) in
  let k1 := Z.max (d - 53) (a + b - 1074) in
  let k := Z.max k1 0 in
  P / 2 ^ k <= m' <= P / 2 ^ k + 1 ->
  (m' = P / 2 ^ k + 1 -> 0 < k1 /\ 2 ^ (k1 - 1) * (2 * m' - 1) <= P) ->
  m' < n * 2 ^ (a + b - k) /\ 0 <= m' <= 2 ^ 53 /\ a <= a + b - k <= 1074.
Proof.
  intros Hm Hb Hd P k1 k Hm' Hup.
  assert (HA : 0 < 2 ^ a) by (apply pow2_pos; lia).
  assert (HB : 2 ^ 53 <= 2 ^ b) by (apply pow2_le; lia).
  assert (HP106 : P < 2 ^ 106).
  { subst P. change (2 ^ 106) with (2 ^ 53 * 2 ^ 53). nia. }
  assert (HP52 : 2 ^ 52 < P) by (subst P; nia).
  assert (Hd106 : d <= 106).
  { assert (d - 1 < 106); [|lia]. apply pow2_lt_inv; lia. }
  assert (Hd53 : 53 <= d).
  { assert (52 < d); [|lia]. apply pow2_lt_inv; [|lia].
    destruct (Z.le_gt_cases 0 d) as [H|H]; [exact H|].
    rewrite (Z.pow_neg_r 2 d H) in Hd. lia. }
  assert (Hk : 0 <= k <= b) by lia.
  assert (HK : 0 < 2 ^ k) by (apply pow2_pos; lia).
  set (g := a + b - k).
  assert (Hg : a <= g <= 1074) by (unfold g; lia).
  assert (HG : 0 < 2 ^ g) by (apply pow2_pos; lia).
  assert (Hsplit : 2 ^ a * 2 ^ b = 2 ^ g * 2 ^ k).
  { rewrite <- !Z.pow_add_r by lia. f_equal. unfold g. lia. }
  assert (HPlt : P <= (2 ^ b - 1) * (n * 2 ^ a)) by (subst P; nia).
  assert (Hq : P / 2 ^ k < n * 2 ^ g).
  { apply Z.div_lt_upper_bound; [exact HK|]. nia. }
  assert (Hq53 : P / 2 ^ k < 2 ^ 53).
  { apply Z.div_lt_upper_bound; [exact HK|].
    assert (2 ^ d <= 2 ^ k * 2 ^ 53); [|lia].
    rewrite <- Z.pow_add_r by lia. apply pow2_le. lia. }
  assert (Hq0 : 0 <= P / 2 ^ k) by (apply Z.div_pos; lia).
  split; [|split; [lia|exact Hg]].
  destruct (Z.eq_dec m' (P / 2 ^ k + 1)) as [Heq|Hne]; [|lia].
  destruct (Hup Heq) as [Hk1 Hround].
  assert (Hkk : k = k1) by lia.
  destruct (Z.lt_ge_cases m' (n * 2 ^ g)) as [Hlt|Hge]; [exact Hlt|exfalso].
  assert (Hm'eq : m' = n * 2 ^ g) by lia.
  assert (HK' : 2 ^ k = 2 * 2 ^ (k1 - 1)).
  { rewrite Hkk. replace k1 with (Z.succ (k1 - 1)) at 1 by lia.
    rewrite Z.pow_succ_r by lia. reflexivity. }
  assert (HK'pos : 0 < 2 ^ (k1 - 1)) by (apply pow2_pos; lia).
  assert (Hmn' : n * 2 ^ a <= 2 ^ (k1 - 1)) by nia.
  destruct (Z.max_spec (d - 53) (a + b - 1074)) as [[Hc Hmax]|[Hc Hmax]];
    fold k1 in Hmax.
  - (* subnormal result: the grid is 2^-1074 *)
    assert (Hg1074 : g = 1074) by (unfold g; lia).
    assert (2 ^ 53 < 2 ^ g) by (rewrite Hg1074; apply Z.pow_lt_mono_r; lia).
    nia.
  - assert (2 ^ (k1 - 1) <= 2 ^ 52) by (apply pow2_le; lia).
    lia.
Qed.

End ScaledFloor.

Lemma Zdigits2_le (m k : Z) : 0 <= m <= 2 ^ k -> 0 <= k -> 0 <= Zdigits2 m <= k + 1.
Proof.
  intros Hm Hk. destruct m as [|p|p]; cbn [Zdigits2]; try lia.
  pose proof (digits2_pos_bounds p) as [Hlo _].
  assert (Z.pos (digits2_pos p) - 1 < k + 1); [|lia].
  apply pow2_lt_inv; [lia|].
  rewrite Z.pow_add_r by lia. change (2 ^ 1) with 2. lia.
Qed.

(** The second step of [binary_round_aux] (renormalisation after the
    rounding) and [Math.floor]: a rounded significand below [n * 2^g] at
    exponent [- g] gives a floor below [n]. *)
Lemma renormalised_floor_below (n a g m' : Z) (sx : bool) :
  1 <= n -> 2 <= a <= g -> g <= 1074 ->
  0 <= m' <= 2 ^ 53 -> m' < n * 2 ^ g ->
  let r := shr_fexp JS.prec JS.emax m' (- g) loc_Exact in
  exists k,
    JS.Math_floor
      match shr_m (fst r) with
      | Z0 => S754_zero false
      | Zpos m3 =>
          if snd r <=? JS.emax - JS.prec then S754_finite false m3 (snd r)
          else S754_infinity false
      | Zneg _ => S754_nan
      end = Some k
    /\ 0 <= k < n.
Proof.
  intros Hn Ha Hg Hm' Hlt r.
  unfold shr_fexp, shr_record_of_loc, fexp, emin, JS.prec, JS.emax in r.
  set (k2 := Z.max (Zdigits2 m' + - g - 53) (3 - 1024 - 53) - - g) in r.
  destruct (shr_round m' (- g) k2 ltac:(lia)) as (He & Hm & _).
  fold r in He, Hm. rewrite He, Hm.
  pose proof (Zdigits2_le m' 53 Hm' ltac:(lia)) as Hdig.
  assert (Hk2 : 0 <= Z.max k2 0 <= 1) by (unfold k2; lia).
  set (k := Z.max k2 0) in *.
  assert (HK : 0 < 2 ^ k) by (apply pow2_pos; lia).
  assert (Hm3 : 0 <= m' / 2 ^ k) by (apply Z.div_pos; lia).
  assert (HG : 2 ^ g = 2 ^ (g - k) * 2 ^ k).
  { rewrite <- Z.pow_add_r by lia. f_equal. lia. }
  assert (HGk : 0 < 2 ^ (g - k)) by (apply pow2_pos; lia).
  assert (Hm3lt : m' / 2 ^ k < n * 2 ^ (g - k)).
  { apply Z.div_lt_upper_bound; [exact HK|]. nia. }
  destruct (m' / 2 ^ k) as [|m3|m3] eqn:Hm3eq; try lia.
  - exists 0. split; [reflexivity|lia].
  - unfold JS.emax, JS.prec.
    destruct (- g + k <=? 1024 - 53) eqn:Hle; [|apply Z.leb_gt in Hle; lia].
    cbn [JS.Math_floor].
    destruct (0 <=? - g + k) eqn:Hsign; [apply Z.leb_le in Hsign; lia|].
    eexists. split; [reflexivity|].
    replace (- (- g + k)) with (g - k) by lia. split.
    + apply Z.div_pos; lia.
    + apply Z.div_lt_upper_bound; [exact HGk|]. lia.
Qed.

Lemma bounded_facts (m : positive) (e : Z) :
  bounded JS.prec JS.emax m e = true ->
  Z.pos m < 2 ^ 53 /\ -1074 <= e.
Proof.
  unfold bounded, canonical_mantissa, fexp, emin, JS.prec, JS.emax.
  intros H. apply andb_true_iff in H as [H _]. apply Z.eqb_eq in H.
  pose proof (digits2_pos_bounds m) as [_ Hhi].
  split; [|lia].
  assert (2 ^ Z.pos (digits2_pos m) <= 2 ^ 53); [|lia].
  apply pow2_le. lia.
Qed.

Lemma random_value_facts (m : positive) (e : Z) :
  JS.is_random_value (S754_finite false m e) = true ->
  Z.pos m < 2 ^ 53 /\ -1074 <= e <= -53.
Proof.
  cbn [JS.is_random_value negb andb]. intros H.
  apply andb_true_iff in H as [Hb Hlt].
  pose proof (bounded_facts m e Hb) as [Hm He]. split; [exact Hm|]. split; [exact He|].
  revert Hlt. unfold SFltb.
  replace (JS.of_int 1) with (S754_finite false 4503599627370496 (-52)) by reflexivity.
  cbn [SFcompare].
  destruct (e ?= -52) eqn:Hc; intros Hlt.
  - apply Z.compare_eq in Hc. subst e.
    unfold bounded, canonical_mantissa, fexp, emin, JS.prec, JS.emax in Hb.
    apply andb_true_iff in Hb as [Hb _]. apply Z.eqb_eq in Hb.
    assert (Hdig : Z.pos (digits2_pos m) = 53) by lia.
    pose proof (digits2_pos_bounds m) as [Hlo _]. rewrite Hdig in Hlo.
    change (2 ^ (53 - 1)) with 4503599627370496 in Hlo.
    destruct (PosDef.Pos.compare_cont Eq m 4503599627370496) eqn:Hcmp; try discriminate.
    rewrite Pos.compare_cont_spec in Hcmp.
    destruct (Pos.compare m 4503599627370496) eqn:Hc2; try discriminate Hcmp.
    apply Pos.compare_lt_iff in Hc2. apply Pos2Z.pos_lt_pos in Hc2. exfalso. clear - Hc2 Hlo. lia.
  - rewrite Z.compare_lt_iff in Hc. lia.
  - discriminate.
Qed.

(** [Math.floor(r * n)] is one of [0 .. n - 1] for every value [r] of
    [Math.random()], when [n] is the binary64 number [mn * 2^(- a)] with
    [2^52 < mn < 2^53] (so [n] is not a power of two). *)
Lemma floor_of_scaled_random (n a : Z) (mn : positive) (r : spec_float) :
  1 <= n -> 2 <= a <= 52 ->
  Z.pos mn = n * 2 ^ a -> 2 ^ 52 < Z.pos mn < 2 ^ 53 ->
  JS.is_random_value r = true ->
  exists k,
    JS.Math_floor (JS.mul r (S754_finite false mn (- a))) = Some k /\ 0 <= k < n.
Proof.
  intros Hn Ha Hmn Hrange Hr.
  destruct r as [s| |  |s m e]; try discriminate.
  - exists 0. split; [reflexivity|lia].
  - destruct s; [discriminate|].
    destruct (random_value_facts m e Hr) as [Hm He].
    unfold JS.mul, SFmul, binary_round_aux. cbn [xorb].
    set (P := Z.pos (m * mn)). set (E := e + - a).
    assert (HPeq : P = Z.pos m * (n * 2 ^ a)) by (unfold P; rewrite Pos2Z.inj_mul; lia).
    unfold shr_fexp, shr_record_of_loc, fexp, emin.
    set (d := Zdigits2 P).
    set (k1' := Z.max (d + E - JS.prec) (3 - JS.emax - JS.prec) - E).
    destruct (shr_round P E k1' ltac:(unfold P; lia)) as (He' & _ & Hm' & Hup).
    destruct (shr (Build_shr_record P false false) E k1') as [mrs' e'] eqn:Hshr.
    cbn [fst snd] in He', Hm', Hup.
    set (m' := round_nearest_even (shr_m mrs') (loc_of_shr_record mrs')) in *.
    assert (Hk1 : k1' = Z.max (d - 53) (a + - e - 1074))
      by (unfold k1', E, JS.prec, JS.emax; lia).
    assert (Hd : 2 ^ (d - 1) <= Z.pos m * (n * 2 ^ a) < 2 ^ d).
    { rewrite <- HPeq. unfold d, P. cbn [Zdigits2]. apply digits2_pos_bounds. }
    rewrite HPeq, Hk1 in Hm', Hup. rewrite Hmn in Hrange.
    destruct (rounded_product_below n a Hn Ha Hrange
                (Z.pos m) (- e) d m' ltac:(lia) ltac:(lia) Hd Hm' Hup)
      as (Hlt & Hm'53 & Hg).
    set (g := a + - e - Z.max (Z.max (d - 53) (a + - e - 1074)) 0) in *.
    assert (He'g : e' = - g) by (unfold g; rewrite He', Hk1; unfold E; lia).
    pose proof (renormalised_floor_below n a g m' false Hn ltac:(lia) ltac:(lia)
                  Hm'53 Hlt) as Hfin.
    cbn zeta in Hfin. rewrite <- He'g in Hfin.
    unfold shr_fexp, shr_record_of_loc, fexp, emin in Hfin.
    match type of Hfin with
    | context [shr ?x ?y ?z] => destruct (shr x y z) as [mrs'' e'']
    end.
    cbn [fst snd] in Hfin. exact Hfin.
Qed.

(** *** Printing numbers *)

Lemma string_app_assoc (s1 s2 s3 : string) : (s1 ++ s2) ++ s3 = s1 ++ (s2 ++ s3).
Proof. induction s1 as [|c s1 IH]; cbn; [reflexivity|now rewrite IH]. Qed.

(** Enough fuel prints a number of exactly [w] digits in full. *)
Lemma decimal_digits_fixed_width (w : nat) :
  forall fuel n acc,
    10 ^ Z.of_nat w <= n < 10 ^ Z.of_nat (S w) ->
    (w < fuel)%nat ->
    JS.decimal_digits fuel n acc = Params.fixed_width (S w) n ++ acc.
Proof.
  induction w as [|w IH]; intros fuel n acc Hn Hfuel.
  - destruct fuel as [|fuel]; [lia|]. cbn [JS.decimal_digits Params.fixed_width].
    change (10 ^ Z.of_nat 1) with 10 in Hn.
    destruct (n <? 10) eqn:E; [reflexivity|apply Z.ltb_ge in E; lia].
  - destruct fuel as [|fuel]; [lia|]. cbn [JS.decimal_digits].
    rewrite (Nat2Z.inj_succ (S w)), Z.pow_succ_r in Hn by lia.
    rewrite (Nat2Z.inj_succ w), Z.pow_succ_r in Hn by lia.
    assert (H10 : 0 < 10 ^ Z.of_nat w) by (apply Z.pow_pos_nonneg; lia).
    destruct (n <? 10) eqn:E; [apply Z.ltb_lt in E; lia|].
    rewrite IH.
    + change (Params.fixed_width (S (S w)) n)
        with (Params.fixed_width (S w) (n / 10) ++ String (JS.digit_char (n mod 10)) "").
      now rewrite string_app_assoc.
    + rewrite (Nat2Z.inj_succ w), Z.pow_succ_r by lia. split.
      * apply Z.div_le_lower_bound; lia.
      * apply Z.div_lt_upper_bound; lia.
    + lia.
Qed.

(** [String(n)] of a number with exactly [w + 1] digits is these digits. *)
Lemma String_fixed_width (w : nat) (n : Z) :
  10 ^ Z.of_nat w <= n < 10 ^ Z.of_nat (S w) ->
  JS.String_ n = Params.fixed_width (S w) n.
Proof.
  intros Hn.
  assert (H10 : 0 < 10 ^ Z.of_nat w) by (apply Z.pow_pos_nonneg; lia).
  unfold JS.String_. destruct (n <? 0) eqn:E; [apply Z.ltb_lt in E; lia|].
  rewrite (decimal_digits_fixed_width w _ n "" Hn).
  - induction (Params.fixed_width (S w) n) as [|c s IH]; cbn; [reflexivity|now rewrite IH].
  - assert (Z.of_nat w <= Z.log2 n); [|lia].
    apply Z.log2_le_pow2; [lia|].
    apply Z.le_trans with (10 ^ Z.of_nat w); [|lia].
    apply Z.pow_le_mono_l. lia.
Qed.

Lemma month_padded (month : Z) :
  1 <= month <= 12 ->
  JS.padStart (JS.String_ month) 2 "0" = Params.fixed_width 2 month.
Proof.
  intros H.
  assert (Hc : month = 1 \/ month = 2 \/ month = 3 \/ month = 4 \/ month = 5
               \/ month = 6 \/ month = 7 \/ month = 8 \/ month = 9 \/ month = 10
               \/ month = 11 \/ month = 12) by lia.
  repeat (destruct Hc as [->|Hc]; [reflexivity|]). subst month. reflexivity.
Qed.

(** C9.  Whatever the random source returns (any binary64 values in
    [0, 1)), the generated [dateString] is a year between 1400 and 1499
    written with its four digits, a dash, and a month between 1 and 12
    written with two digits (zero padded), and the generated [nin] is an
    integer between 100000000 and 999999999 written with its nine digits. *)
Theorem random_parameters_in_range :
  forall ry rm rn : spec_float,
    JS.is_random_value ry = true ->
    JS.is_random_value rm = true ->
    JS.is_random_value rn = true ->
    (exists year month,
        1400 <= year <= 1499 /\ 1 <= month <= 12
        /\ Params.generateRandomDateString ry rm
           = Params.fixed_width 4 year ++ "-" ++ Params.fixed_width 2 month)
    /\ (exists n,
          100000000 <= n <= 999999999
          /\ Params.generateRandomNIN rn = Params.fixed_width 9 n).
Proof.
  intros ry rm rn Hy Hm Hn.
  destruct (floor_of_scaled_random 100 46 7036874417766400 ry
              ltac:(lia) ltac:(lia) ltac:(reflexivity) ltac:(cbn; lia) Hy)
    as (ky & Hky & Hyr).
  destruct (floor_of_scaled_random 12 49 6755399441055744 rm
              ltac:(lia) ltac:(lia) ltac:(reflexivity) ltac:(cbn; lia) Hm)
    as (km & Hkm & Hmr).
  destruct (floor_of_scaled_random 900000000 23 7549747200000000 rn
              ltac:(lia) ltac:(lia) ltac:(reflexivity) ltac:(cbn; lia) Hn)
    as (kn & Hkn & Hnr).
  change (S754_finite false 7036874417766400 (- (46))) with (JS.of_int 100) in Hky.
  change (S754_finite false 6755399441055744 (- (49))) with (JS.of_int 12) in Hkm.
  change (S754_finite false 7549747200000000 (- (23))) with (JS.of_int 900000000) in Hkn.
  split.
  - exists (ky + 1400), (km + 1). split; [lia|]. split; [lia|].
    unfold Params.generateRandomDateString, Params.floor_scaled.
    rewrite Hky, Hkm. cbn [option_map Params.print].
    rewrite (String_fixed_width 3 (ky + 1400)) by (cbn; lia).
    rewrite (month_padded (km + 1)) by lia. reflexivity.
  - exists (kn + 100000000). split; [lia|].
    unfold Params.generateRandomNIN, Params.floor_scaled.
    rewrite Hkn. cbn [option_map Params.print].
    apply (String_fixed_width 8). cbn; lia.
Qed.

Lemma random_parameters_in_range_witness :
  exists year month,
    1400 <= year <= 1499 /\ 1 <= month <= 12
    /\ Params.generateRandomDateString
         (S754_finite false 4503599627370496 (-53)) (S754_zero false)
       = Params.fixed_width 4 year ++ "-" ++ Params.fixed_width 2 month.
Proof.
  exact (proj1 (random_parameters_in_range
                  (S754_finite false 4503599627370496 (-53)) (S754_zero false)
                  (S754_finite false 9007199254740991 (-53))
                  ltac:(reflexivity) ltac:(reflexivity) ltac:(reflexivity))).
Defined.

(** ** The running average

    The averages are computed in binary64 arithmetic; what follows bounds
    their distance to the exact mean. *)

(** ** Rounding to nearest in binary64

    A quantity [num / den] lies between the integers [m] and [m + 1]; the
    round and sticky bits of a shift record say where. *)

Lemma loc_of_shr_record_of_loc (m : Z) (l : location) :
  loc_of_shr_record (shr_record_of_loc m l) = l
  /\ shr_m (shr_record_of_loc m l) = m.
Proof. destruct l as [|[| |]]; split; reflexivity. Qed.

Lemma standsFor_start (m r d : Z) :
  0 <= r < d ->
  standsFor (shr_record_of_loc m (locationOf r d)) (m * d + r) d.
Proof.
  intros H. unfold standsFor.
  destruct (loc_of_shr_record_of_loc m (locationOf r d)) as [Hl Hm].
  rewrite Hl, Hm. replace (m * d + r - m * d) with r by lia. split; [lia|reflexivity].
Qed.

Lemma locationOf_cases (r d : Z) :
  0 <= r < d ->
  (locationOf r d = loc_Exact /\ r = 0)
  \/ (locationOf r d = loc_Inexact Lt /\ 0 < r /\ 2 * r < d)
  \/ (locationOf r d = loc_Inexact Eq /\ 0 < r /\ 2 * r = d)
  \/ (locationOf r d = loc_Inexact Gt /\ 0 < r /\ d < 2 * r).
Proof.
  intros H. unfold locationOf. destruct (r =? 0) eqn:E.
  - apply Z.eqb_eq in E. left. split; [reflexivity|exact E].
  - apply Z.eqb_neq in E. right.
    destruct (2 * r ?= d) eqn:C.
    + apply Z.compare_eq in C. right; left. repeat split; lia.
    + rewrite Z.compare_lt_iff in C. left. repeat split; lia.
    + rewrite Z.compare_gt_iff in C. right; right. repeat split; lia.
Qed.

(** One more bit is shifted out. *)
Lemma shr_1_standsFor (mrs : shr_record) (num den : Z) :
  0 <= shr_m mrs -> 0 < den ->
  standsFor mrs num den ->
  standsFor (shr_1 mrs) num (2 * den)
  /\ shr_m (shr_1 mrs) = shr_m mrs / 2.
Proof.
  destruct mrs as [m r s]. cbn [shr_m]. intros Hm Hden [Hrange Hloc].
  cbn [shr_m] in Hrange, Hloc.
  set (rho := num - m * den) in *.
  assert (Hhalf : shr_m (shr_1 (Build_shr_record m r s)) = m / 2
                  /\ shr_r (shr_1 (Build_shr_record m r s)) = Z.odd m
                  /\ shr_s (shr_1 (Build_shr_record m r s)) = r || s).
  { destruct m as [|[p|p|]|p]; try lia; cbn [shr_1 shr_m shr_r shr_s].
    - repeat split.
    - rewrite Pos2Z.inj_xI. repeat split. apply Z.div_unique with (r := 1); lia.
    - rewrite Pos2Z.inj_xO. repeat split. apply Z.div_unique with (r := 0); lia.
    - repeat split. }
  destruct Hhalf as (Hm' & Hr' & Hs').
  split; [|exact Hm'].
  pose proof (Z.div_mod m 2 ltac:(lia)) as Hdm.
  rewrite Zmod_odd in Hdm.
  destruct (shr_1 (Build_shr_record m r s)) as [m' r' s'].
  cbn [shr_m shr_r shr_s] in Hm', Hr', Hs'. subst m' r' s'.
  unfold standsFor. cbn [shr_m].
  assert (Hrs : r || s = negb (rho =? 0)).
  { destruct (locationOf_cases rho den Hrange) as [[Hl H0]|[[Hl H0]|[[Hl H0]|[Hl H0]]]];
      rewrite Hl in Hloc;
      destruct r, s; cbn in Hloc; try discriminate Hloc;
      cbn [orb]; symmetry;
      [apply Bool.negb_false_iff, Z.eqb_eq; lia
      |apply Bool.negb_true_iff, Z.eqb_neq; lia..]. }
  destruct (Z.odd m) eqn:Hodd.
  - assert (Hnum : num - m / 2 * (2 * den) = rho + den) by (unfold rho; lia).
    rewrite Hnum. split; [lia|].
    unfold locationOf. destruct (rho + den =? 0) eqn:E; [apply Z.eqb_eq in E; lia|].
    rewrite Hrs. destruct (rho =? 0) eqn:E0.
    + apply Z.eqb_eq in E0. cbn [negb loc_of_shr_record].
      replace (2 * (rho + den) ?= 2 * den) with Eq; [reflexivity|].
      symmetry. apply Z.compare_eq_iff. lia.
    + apply Z.eqb_neq in E0. cbn [negb loc_of_shr_record].
      replace (2 * (rho + den) ?= 2 * den) with Gt; [reflexivity|].
      symmetry. apply Z.compare_gt_iff. lia.
  - assert (Hnum : num - m / 2 * (2 * den) = rho) by (unfold rho; lia).
    rewrite Hnum. split; [lia|].
    unfold locationOf. rewrite Hrs. destruct (rho =? 0) eqn:E0; [reflexivity|].
    apply Z.eqb_neq in E0. cbn [negb loc_of_shr_record].
    replace (2 * rho ?= 2 * den) with Lt; [reflexivity|].
    symmetry. apply Z.compare_lt_iff. lia.
Qed.

Lemma iter_shr_1_standsFor (n : nat) (mrs : shr_record) (num den : Z) :
  0 <= shr_m mrs -> 0 < den ->
  standsFor mrs num den ->
  standsFor (Nat.iter n shr_1 mrs) num (2 ^ Z.of_nat n * den)
  /\ shr_m (Nat.iter n shr_1 mrs) = shr_m mrs / 2 ^ Z.of_nat n.
Proof.
  intros Hm Hden H. induction n as [|n [IH1 IH2]].
  - change (Nat.iter 0 shr_1 mrs) with mrs. change (2 ^ Z.of_nat 0) with 1. rewrite Z.mul_1_l, Z.div_1_r.
    split; [exact H|reflexivity].
  - change (Nat.iter (S n) shr_1 mrs) with (shr_1 (Nat.iter n shr_1 mrs)).
    assert (H2n : 0 < 2 ^ Z.of_nat n) by (apply pow2_pos; lia).
    assert (Hpos : 0 <= shr_m (Nat.iter n shr_1 mrs)).
    { rewrite IH2. apply Z.div_pos; lia. }
    destruct (shr_1_standsFor _ num (2 ^ Z.of_nat n * den) Hpos ltac:(lia) IH1) as [S1 S2].
    rewrite Nat2Z.inj_succ, Z.pow_succ_r by lia. split.
    + now rewrite <- Z.mul_assoc.
    + rewrite S2, IH2, Z.div_div by lia. f_equal. lia.
Qed.

(** [shr] by [k] bits, [k >= 0]. *)
Lemma shr_standsFor (mrs : shr_record) (e k num den : Z) :
  0 <= shr_m mrs -> 0 < den -> 0 <= k ->
  standsFor mrs num den ->
  standsFor (fst (shr mrs e k)) num (2 ^ k * den)
  /\ shr_m (fst (shr mrs e k)) = shr_m mrs / 2 ^ k
  /\ snd (shr mrs e k) = e + k.
Proof.
  intros Hm Hden Hk H. destruct k as [|p|p]; [| |lia]; cbn [shr fst snd].
  - change (2 ^ 0) with 1. rewrite Z.mul_1_l, Z.div_1_r, Z.add_0_r.
    split; [exact H|split; reflexivity].
  - rewrite iter_pos_nat.
    destruct (iter_shr_1_standsFor (Pos.to_nat p) mrs num den Hm Hden H) as [S1 S2].
    rewrite positive_nat_Z in S1, S2. split; [exact S1|split; [exact S2|reflexivity]].
Qed.

(** Rounding to nearest moves the quantity by at most half a unit. *)
Lemma round_nearest_even_standsFor (mrs : shr_record) (num den : Z) :
  0 < den ->
  standsFor mrs num den ->
  let m' := round_nearest_even (shr_m mrs) (loc_of_shr_record mrs) in
  2 * Z.abs (m' * den - num) <= den
  /\ shr_m mrs <= m' <= shr_m mrs + 1.
Proof.
  intros Hden [Hrange Hloc] m'. subst m'. rewrite Hloc.
  set (rho := num - shr_m mrs * den) in *.
  destruct (locationOf_cases rho den Hrange) as [[Hl H0]|[[Hl H0]|[[Hl H0]|[Hl H0]]]];
    rewrite Hl; cbn [round_nearest_even].
  - split; lia.
  - split; lia.
  - destruct (Z.even (shr_m mrs)); split; lia.
  - split; lia.
Qed.

Lemma Zdigits2_unique (m n : Z) :
  0 < n -> 2 ^ (n - 1) <= m < 2 ^ n -> Zdigits2 m = n.
Proof.
  intros Hn Hm.
  assert (H0 : 0 < 2 ^ (n - 1)) by (apply pow2_pos; lia).
  destruct m as [|p|p]; try lia. cbn [Zdigits2].
  pose proof (digits2_pos_bounds p) as [Hlo Hhi].
  assert (Z.pos (digits2_pos p) - 1 < n) by (apply pow2_lt_inv; lia).
  assert (n - 1 < Z.pos (digits2_pos p)) by (apply pow2_lt_inv; lia).
  lia.
Qed.

(** [binary_round_aux] on a positive quantity [(m + r/d) * 2^e] whose
    significand has at least 53 bits, in the range of the normal numbers:
    the result is a normal number within a relative distance [2^-53] of
    the quantity. *)
Lemma binary_round_aux_normal (m e r d : Z) :
  0 <= r < d ->
  53 <= Zdigits2 m -> 0 < m ->
  -1021 <= Zdigits2 m + e <= 1023 ->
  exists (m'' : positive) (e'' : Z),
    binary_round_aux JS.prec JS.emax false m e (locationOf r d)
    = S754_finite false m'' e''
    /\ 2 ^ 52 <= Z.pos m'' < 2 ^ 53
    /\ -1074 <= e'' <= 971
    /\ e <= e''
    /\ 2 ^ 53 * Z.abs (Z.pos m'' * 2 ^ (e'' - e) * d - (m * d + r)) <= m * d + r
    /\ (r = 0 -> Zdigits2 m = 53 -> Z.pos m'' = m /\ e'' = e).
Proof.
  intros Hr Hdig Hm Hrange.
  set (dg := Zdigits2 m) in *.
  assert (Hmb : 2 ^ (dg - 1) <= m < 2 ^ dg).
  { destruct m as [|p|p]; try lia. apply digits2_pos_bounds. }
  set (k := dg - 53).
  assert (Hk : 0 <= k) by (unfold k; lia).
  unfold binary_round_aux, shr_fexp, fexp, emin, JS.prec, JS.emax.
  fold dg.
  replace (Z.max (dg + e - 53) (3 - 1024 - 53) - e) with k by (unfold k; lia).
  pose proof (standsFor_start m r d Hr) as Hstart.
  destruct (loc_of_shr_record_of_loc m (locationOf r d)) as [_ Hm0].
  destruct (shr_standsFor (shr_record_of_loc m (locationOf r d)) e k (m * d + r) d
              ltac:(rewrite Hm0; lia) ltac:(lia) Hk Hstart) as (S1 & S2 & S3).
  rewrite Hm0 in S2.
  destruct (shr (shr_record_of_loc m (locationOf r d)) e k) as [mrs' e'].
  cbn [fst snd] in S1, S2, S3. subst e'.
  assert (H2k : 0 < 2 ^ k) by (apply pow2_pos; lia).
  assert (Hsplit : 2 ^ dg = 2 ^ 53 * 2 ^ k).
  { rewrite <- Z.pow_add_r by lia. f_equal. unfold k. lia. }
  assert (Hsplit' : 2 ^ (dg - 1) = 2 ^ 52 * 2 ^ k).
  { rewrite <- Z.pow_add_r by lia. f_equal. unfold k. lia. }
  assert (Hm'lo : 2 ^ 52 <= m / 2 ^ k) by (apply Z.div_le_lower_bound; lia).
  assert (Hm'hi : m / 2 ^ k < 2 ^ 53) by (apply Z.div_lt_upper_bound; lia).
  destruct (round_nearest_even_standsFor mrs' (m * d + r) (2 ^ k * d) ltac:(nia) S1)
    as [Herr Hnear].
  set (mr := round_nearest_even (shr_m mrs') (loc_of_shr_record mrs')) in *.
  rewrite S2 in Hnear.
  assert (Hbound : 2 ^ 53 * Z.abs (mr * 2 ^ k * d - (m * d + r)) <= m * d + r).
  { replace (mr * 2 ^ k * d) with (mr * (2 ^ k * d)) by lia.
    assert (2 ^ 52 * (2 ^ k * d) <= m * d) by nia.
    change (2 ^ 53) with (2 * 2 ^ 52). nia. }
  destruct (Z.eq_dec mr (2 ^ 53)) as [Hcarry|Hnocarry].
  - (* the rounding carried into a 54th bit *)
    rewrite Hcarry.
    replace (Zdigits2 (2 ^ 53)) with 54 by reflexivity.
    replace (Z.max (54 + (e + k) - 53) (3 - 1024 - 53) - (e + k)) with 1
      by (unfold k; lia).
    cbn [shr shr_record_of_loc iter_pos fst snd].
    replace (shr_m (shr_1 {| shr_m := 2 ^ 53; shr_r := false; shr_s := false |}))
      with (2 ^ 52) by reflexivity.
    change (2 ^ 52) with (Z.pos 4503599627370496) at 1. cbv iota.
    destruct (e + k + 1 <=? 1024 - 53) eqn:Hle; [|apply Z.leb_gt in Hle; unfold k in Hle; lia].
    exists 4503599627370496%positive, (e + k + 1).
    split; [reflexivity|]. split; [change (Z.pos 4503599627370496) with (2 ^ 52); lia|].
    split; [unfold k; lia|]. split; [lia|]. split.
    + replace (e + k + 1 - e) with (k + 1) by lia.
      rewrite Z.pow_add_r by lia. change (2 ^ 1) with 2.
      change (Z.pos 4503599627370496) with (2 ^ 52).
      replace (2 ^ 52 * (2 ^ k * 2) * d) with (mr * 2 ^ k * d)
        by (rewrite Hcarry; change (2 ^ 53) with (2 ^ 52 * 2); lia).
      exact Hbound.
    + intros Hr0 Hd53. exfalso.
      assert (k = 0) by (unfold k; lia).
      assert (Hk1 : 2 ^ k = 1) by (subst k; replace (dg - 53) with 0 by lia; reflexivity).
      rewrite Hk1, Z.div_1_r in *. subst r. nia.
  - assert (Hmr : 2 ^ 52 <= mr < 2 ^ 53) by lia.
    rewrite (Zdigits2_unique mr 53 ltac:(lia) Hmr).
    replace (Z.max (53 + (e + k) - 53) (3 - 1024 - 53) - (e + k)) with 0
      by (unfold k; lia).
    cbn [shr shr_record_of_loc fst snd shr_m].
    destruct mr as [|p|p] eqn:Hp; try lia.
    destruct (e + k <=? 1024 - 53) eqn:Hle; [|apply Z.leb_gt in Hle; unfold k in Hle; lia].
    exists p, (e + k).
    split; [reflexivity|]. split; [exact Hmr|].
    split; [unfold k; lia|]. split; [lia|]. split.
    + replace (e + k - e) with k by lia. exact Hbound.
    + intros Hr0 Hd53.
      assert (k = 0) by (unfold k; lia).
      assert (Hk1 : 2 ^ k = 1) by (subst k; replace (dg - 53) with 0 by lia; reflexivity).
      rewrite Hk1, Z.div_1_r in *. subst r. split; [nia|lia].
Qed.

(** ** Values of binary64 numbers *)

Lemma positiveNormal_inv (x : spec_float) :
  Binary64.positiveNormal x = true ->
  exists m e, x = S754_finite false m e
              /\ 2 ^ 52 <= Z.pos m < 2 ^ 53 /\ -1074 <= e <= 971.
Proof.
  destruct x as [| | |[|] m e]; try discriminate. unfold Binary64.positiveNormal.
  intros H.
  apply andb_true_iff in H as [H H4]. apply andb_true_iff in H as [H H3].
  apply andb_true_iff in H as [H1 H2].
  apply Z.leb_le in H1, H3, H4. apply Z.ltb_lt in H2.
  exists m, e. split; [reflexivity|]. lia.
Qed.

Lemma positiveNormal_intro (m : positive) (e : Z) :
  2 ^ 52 <= Z.pos m < 2 ^ 53 -> -1074 <= e <= 971 ->
  Binary64.positiveNormal (S754_finite false m e) = true.
Proof.
  intros Hm He. unfold Binary64.positiveNormal.
  repeat (apply andb_true_iff; split); try apply Z.leb_le; try apply Z.ltb_lt; lia.
Qed.

Lemma Qpow2_pos (e : Z) : (0 < 2 ^ e)%Q.
Proof. apply Qpower_0_lt. reflexivity. Qed.

Lemma Qpow2_add (a b : Z) : (2 ^ (a + b) == 2 ^ a * 2 ^ b)%Q.
Proof. apply Qpower_plus. discriminate. Qed.

Lemma Qpow2_inject (k : Z) : 0 <= k -> (inject_Z (2 ^ k) == 2 ^ k)%Q.
Proof. intros Hk. now rewrite (Zpower_Qpower 2 k Hk). Qed.

Lemma Qpow2_lt_inv (a b : Z) : (2 ^ a < 2 ^ b)%Q -> a < b.
Proof. intros H. apply (Qpower_lt_compat_l_inv 2); [exact H|reflexivity]. Qed.

Lemma Qpow2_le_inv (a b : Z) : (2 ^ a <= 2 ^ b)%Q -> a <= b.
Proof. intros H. apply (Qpower_le_compat_l_inv 2); [exact H|reflexivity]. Qed.

Lemma Qpow2_le (a b : Z) : a <= b -> (2 ^ a <= 2 ^ b)%Q.
Proof. intros H. apply Qpower_le_compat_l; [exact H|discriminate]. Qed.

Lemma inject_Z_le (a b : Z) : a <= b -> (inject_Z a <= inject_Z b)%Q.
Proof. intros H. now rewrite <- Zle_Qle. Qed.

Lemma inject_Z_lt (a b : Z) : a < b -> (inject_Z a < inject_Z b)%Q.
Proof. intros H. now rewrite <- Zlt_Qlt. Qed.

(** Where a positive quantity [(n / d) * 2^e] lies tells how many bits the
    integer part [m] of [n / d] has. *)
Lemma digits_of_quantity (m e n d lo hi : Z) :
  0 < d -> 0 < m -> m * d <= n < (m + 1) * d ->
  (2 ^ lo <= inject_Z n / inject_Z d * 2 ^ e)%Q ->
  (inject_Z n / inject_Z d * 2 ^ e <= 2 ^ hi)%Q ->
  lo < Zdigits2 m + e <= hi + 1.
Proof.
  intros Hd Hm Hn Hlo Hhi.
  set (dg := Zdigits2 m).
  assert (Hmb : 2 ^ (dg - 1) <= m < 2 ^ dg).
  { destruct m as [|p|p]; try lia. apply digits2_pos_bounds. }
  assert (Hdg : 0 < dg) by (destruct m; try lia; unfold dg; cbn; lia).
  assert (HdQ : (0 < inject_Z d)%Q) by (now apply (inject_Z_lt 0 d)).
  pose proof (Qpow2_pos e) as He.
  assert (Hq1 : (inject_Z m <= inject_Z n / inject_Z d)%Q).
  { apply Qle_shift_div_l; [exact HdQ|]. rewrite <- inject_Z_mult. apply inject_Z_le. lia. }
  assert (Hq2 : (inject_Z n / inject_Z d < inject_Z (m + 1))%Q).
  { apply Qlt_shift_div_r; [exact HdQ|]. rewrite <- inject_Z_mult. apply inject_Z_lt. lia. }
  split.
  - apply Qpow2_lt_inv. rewrite Qpow2_add.
    apply Qle_lt_trans with (1 := Hlo).
    apply Qlt_le_trans with (inject_Z (m + 1) * 2 ^ e)%Q.
    + apply Qmult_lt_compat_r; assumption.
    + apply Qmult_le_compat_r; [|apply Qlt_le_weak, He].
      rewrite <- (Qpow2_inject dg) by lia. apply inject_Z_le. lia.
  - assert (dg - 1 + e <= hi); [|lia].
    apply Qpow2_le_inv. rewrite Qpow2_add.
    apply Qle_trans with (2 := Hhi).
    apply Qle_trans with (inject_Z m * 2 ^ e)%Q.
    + apply Qmult_le_compat_r; [|apply Qlt_le_weak, He].
      rewrite <- (Qpow2_inject (dg - 1)) by lia. apply inject_Z_le. lia.
    + apply Qmult_le_compat_r; [exact Hq1|apply Qlt_le_weak, He].
Qed.

(** From the integer bound of [binary_round_aux_normal] to values. *)
Lemma rounded_value_close (m'' : positive) (e e'' n d : Z) :
  0 < d -> 0 <= n -> e <= e'' ->
  2 ^ 53 * Z.abs (Z.pos m'' * 2 ^ (e'' - e) * d - n) <= n ->
  let X := (inject_Z n / inject_Z d * 2 ^ e)%Q in
  ((1 - Binary64.u) * X <= Binary64.value (S754_finite false m'' e'')
   /\ Binary64.value (S754_finite false m'' e'') <= (1 + Binary64.u) * X)%Q.
Proof.
  intros Hd Hn He Hb X. cbn [Binary64.value].
  set (K := e'' - e) in *.
  assert (HK : 0 <= K) by (unfold K; lia).
  replace e'' with (K + e) by (unfold K; lia).
  rewrite Qpow2_add, <- (Qpow2_inject K HK).
  set (A := Z.pos m'' * 2 ^ K * d) in *.
  assert (HdQ : (0 < inject_Z d)%Q) by (now apply (inject_Z_lt 0 d)).
  pose proof (Qpow2_pos e) as Hpe.
  set (s := (2 ^ e / inject_Z d)%Q).
  assert (Hs : (0 < s)%Q) by (apply Qlt_shift_div_l; [exact HdQ|now rewrite Qmult_0_l]).
  assert (HX : (X == inject_Z n * s)%Q).
  { unfold X, s. field. intros H0. rewrite H0 in HdQ. discriminate HdQ. }
  assert (HV : (inject_Z (Z.pos m'') * (inject_Z (2 ^ K) * 2 ^ e) == inject_Z A * s)%Q).
  { unfold A, s. rewrite !inject_Z_mult. field.
    intros H0. rewrite H0 in HdQ. discriminate HdQ. }
  rewrite HV, HX.
  assert (HA : (inject_Z (2 ^ 53) * (inject_Z A - inject_Z n) <= inject_Z n
                /\ inject_Z (2 ^ 53) * (inject_Z n - inject_Z A) <= inject_Z n)%Q).
  { unfold Qminus. rewrite <- !inject_Z_opp, <- !inject_Z_plus, <- !inject_Z_mult.
    split; apply inject_Z_le; lia. }
  destruct HA as [HA1 HA2].
  change (inject_Z (2 ^ 53)) with (9007199254740992 # 1)%Q in HA1, HA2.
  unfold Binary64.u.
  set (a := inject_Z A) in *. set (nn := inject_Z n) in *.
  assert (Hlow : ((1 - (1 # 9007199254740992)) * nn <= a)%Q) by lra.
  assert (Hup : (a <= (1 + (1 # 9007199254740992)) * nn)%Q) by lra.
  split.
  - rewrite Qmult_assoc. apply Qmult_le_compat_r; [exact Hlow|apply Qlt_le_weak, Hs].
  - rewrite Qmult_assoc. apply Qmult_le_compat_r; [exact Hup|apply Qlt_le_weak, Hs].
Qed.

(** ** The operations on positive normal numbers *)

Ltac Qnonzero :=
  first [ apply Qpower_not_0; discriminate
        | discriminate
        | let H := fresh in intros H; unfold Qeq in H; cbn in H; lia ].

Lemma Zdigits2_bounds (m : Z) : 0 < m -> 2 ^ (Zdigits2 m - 1) <= m < 2 ^ Zdigits2 m.
Proof. intros H. destruct m as [|p|p]; try lia. apply digits2_pos_bounds. Qed.

Lemma Zdigits2_pos (m : Z) : 0 < m -> 0 < Zdigits2 m.
Proof. intros H. destruct m as [|p|p]; try lia. cbn. lia. Qed.

Lemma Zdigits2_shift (m j : Z) :
  0 < m -> 0 <= j -> Zdigits2 (m * 2 ^ j) = Zdigits2 m + j.
Proof.
  intros Hm Hj. pose proof (Zdigits2_bounds m Hm) as Hb.
  pose proof (Zdigits2_pos m Hm) as Hp.
  assert (H2j : 0 < 2 ^ j) by (apply pow2_pos; lia).
  apply Zdigits2_unique; [lia|].
  replace (Zdigits2 m + j - 1) with (Zdigits2 m - 1 + j) by lia.
  rewrite !Z.pow_add_r by lia. nia.
Qed.

Lemma Zdigits2_ge (m n : Z) : 0 < m -> 0 <= n -> 2 ^ n <= m -> n < Zdigits2 m.
Proof.
  intros Hm Hn H. pose proof (Zdigits2_bounds m Hm) as Hb.
  pose proof (Zdigits2_pos m Hm). apply pow2_lt_inv; lia.
Qed.

Lemma iter_xO_shift (m d : positive) :
  Z.pos (Pos.iter xO m d) = Z.pos m * 2 ^ Z.pos d.
Proof.
  induction d as [|d IH] using Pos.peano_ind.
  - cbn [Pos.iter]. rewrite Pos2Z.inj_xO. change (2 ^ 1) with 2. lia.
  - rewrite Pos.iter_succ, Pos2Z.inj_xO, IH, Pos2Z.inj_succ, Z.pow_succ_r by lia. lia.
Qed.

Lemma shl_align_spec (mx : positive) (ex ex' : Z) :
  snd (shl_align mx ex ex') = Z.min ex ex'
  /\ Z.pos (fst (shl_align mx ex ex')) = Z.pos mx * 2 ^ (ex - Z.min ex ex').
Proof.
  unfold shl_align. destruct (ex' - ex) as [|d|d] eqn:E; cbn [fst snd].
  - rewrite Z.min_l by lia. rewrite Z.sub_diag. cbn. split; lia.
  - rewrite Z.min_l by lia. rewrite Z.sub_diag. cbn. split; lia.
  - rewrite Z.min_r by lia. split; [reflexivity|].
    rewrite iter_xO_shift. f_equal. f_equal. lia.
Qed.

Lemma value_finite (m : positive) (e : Z) :
  (Binary64.value (S754_finite false m e) == inject_Z (Z.pos m) * 2 ^ e)%Q.
Proof. reflexivity. Qed.

Lemma value_positiveNormal (x : spec_float) :
  Binary64.positiveNormal x = true -> (0 < Binary64.value x)%Q.
Proof.
  intros H. destruct (positiveNormal_inv x H) as (m & e & -> & _ & _).
  cbn [Binary64.value]. apply Qmult_lt_0_compat; [reflexivity|apply Qpow2_pos].
Qed.

Lemma Qpow2_split (e ez : Z) :
  ez <= e -> (2 ^ e == inject_Z (2 ^ (e - ez)) * 2 ^ ez)%Q.
Proof.
  intros H. rewrite (Qpow2_inject (e - ez)) by lia. rewrite <- Qpow2_add.
  replace (e - ez + ez) with e by lia. reflexivity.
Qed.

(** [binary_round] of a positive integer significand, in the range of the
    normal numbers. *)
Lemma binary_round_normal (p : positive) (e : Z) :
  (2 ^ (-1000) <= inject_Z (Z.pos p) * 2 ^ e)%Q ->
  (inject_Z (Z.pos p) * 2 ^ e <= 2 ^ 1000)%Q ->
  let x := binary_round JS.prec JS.emax false p e in
  let X := (inject_Z (Z.pos p) * 2 ^ e)%Q in
  Binary64.positiveNormal x = true
  /\ ((1 - Binary64.u) * X <= Binary64.value x)%Q
  /\ (Binary64.value x <= (1 + Binary64.u) * X)%Q
  /\ (Z.pos p < 2 ^ 53 -> (Binary64.value x == X)%Q).
Proof.
  intros Hlo Hhi x X. subst x. unfold binary_round.
  set (f := fexp JS.prec JS.emax (Z.pos (digits2_pos p) + e)).
  destruct (shl_align_spec p e f) as [He' Hm'].
  destruct (shl_align p e f) as [mz ez]. cbn [fst snd] in He', Hm'.
  assert (Hq : (inject_Z (Z.pos p) / inject_Z 1 * 2 ^ e == X)%Q)
    by (unfold X; field).
  destruct (digits_of_quantity (Z.pos p) e (Z.pos p) 1 (-1000) 1000
              ltac:(lia) ltac:(lia) ltac:(lia)
              ltac:(now rewrite Hq) ltac:(now rewrite Hq)) as [Hd1 Hd2].
  change (Zdigits2 (Z.pos p)) with (Z.pos (digits2_pos p)) in Hd1, Hd2.
  set (dg := Z.pos (digits2_pos p)) in *.
  assert (Hf : f = dg + e - 53) by (unfold f, fexp, emin, JS.prec, JS.emax; lia).
  assert (Hshift : 0 <= e - ez) by lia.
  assert (Hdz : Zdigits2 (Z.pos mz) = dg + (e - ez)).
  { rewrite Hm'. rewrite He'. apply Zdigits2_shift; lia. }
  assert (Hdz53 : 53 <= Zdigits2 (Z.pos mz)) by lia.
  change loc_Exact with (locationOf 0 1).
  destruct (binary_round_aux_normal (Z.pos mz) ez 0 1 ltac:(lia) Hdz53 ltac:(lia)
              ltac:(lia)) as (m'' & e'' & Hres & Hm'' & He'' & Hee & Hb & Hexact).
  rewrite Hres.
  assert (HXz : (inject_Z (Z.pos mz * 1 + 0) / inject_Z 1 * 2 ^ ez == X)%Q).
  { unfold X. rewrite (Qpow2_split e ez) by lia.
    rewrite Hm', <- He'. rewrite inject_Z_plus, !inject_Z_mult.
    change (inject_Z 1) with 1%Q. change (inject_Z 0) with 0%Q. field. }
  destruct (rounded_value_close m'' ez e'' (Z.pos mz * 1 + 0) 1
              ltac:(lia) ltac:(lia) Hee Hb) as [Hl Hu].
  rewrite HXz in Hl, Hu.
  split; [now apply positiveNormal_intro|]. split; [exact Hl|]. split; [exact Hu|].
  intros Hp53.
  assert (Hdg : dg <= 53).
  { pose proof (digits2_pos_bounds p) as [Hb1 _]. fold dg in Hb1.
    assert (dg - 1 < 53); [|lia]. apply pow2_lt_inv; lia. }
  assert (Hz53 : Zdigits2 (Z.pos mz) = 53) by lia.
  destruct (Hexact eq_refl Hz53) as [Hmeq Heeq].
  rewrite value_finite, Hmeq, Heeq. rewrite <- HXz.
  rewrite Z.mul_1_r, Z.add_0_r. change (inject_Z 1) with 1%Q. field.
Qed.

(** Integers below [2^53] are binary64 numbers. *)
Lemma of_int_exact (n : Z) :
  1 <= n < 2 ^ 53 ->
  Binary64.positiveNormal (JS.of_int n) = true
  /\ (Binary64.value (JS.of_int n) == inject_Z n)%Q.
Proof.
  intros Hn. destruct n as [|p|p]; try lia. cbn [JS.of_int].
  assert (Hv : (inject_Z (Z.pos p) * 2 ^ 0 == inject_Z (Z.pos p))%Q)
    by (change (2 ^ 0)%Q with 1%Q; ring).
  destruct (binary_round_normal p 0) as (H1 & _ & _ & H4).
  - rewrite Hv. apply Qle_trans with 1%Q; [discriminate|].
    apply (inject_Z_le 1 (Z.pos p)). lia.
  - rewrite Hv. apply Qle_trans with (2 ^ 53)%Q; [|apply Qpow2_le; lia].
    rewrite <- (Qpow2_inject 53) by lia. apply inject_Z_le. lia.
  - split; [exact H1|]. rewrite H4 by lia. exact Hv.
Qed.

(** The product. *)
Lemma SFmul_normal (x y : spec_float) :
  Binary64.positiveNormal x = true -> Binary64.positiveNormal y = true ->
  let X := (Binary64.value x * Binary64.value y)%Q in
  (2 ^ (-1000) <= X)%Q -> (X <= 2 ^ 1000)%Q ->
  Binary64.positiveNormal (SFmul JS.prec JS.emax x y) = true
  /\ ((1 - Binary64.u) * X <= Binary64.value (SFmul JS.prec JS.emax x y))%Q
  /\ (Binary64.value (SFmul JS.prec JS.emax x y) <= (1 + Binary64.u) * X)%Q.
Proof.
  intros Hx Hy X Hlo Hhi.
  destruct (positiveNormal_inv x Hx) as (mx & ex & -> & Hmx & Hex).
  destruct (positiveNormal_inv y Hy) as (my & ey & -> & Hmy & Hey).
  cbn [SFmul xorb]. set (P := Z.pos (mx * my)).
  assert (HP : P = Z.pos mx * Z.pos my) by reflexivity.
  assert (HPlo : 2 ^ 104 <= P) by (change (2 ^ 104) with (2 ^ 52 * 2 ^ 52); nia).
  assert (HX : (inject_Z (P * 1 + 0) / inject_Z 1 * 2 ^ (ex + ey) == X)%Q).
  { unfold X. rewrite !value_finite, Qpow2_add, Z.mul_1_r, Z.add_0_r, HP, inject_Z_mult.
    change (inject_Z 1) with 1%Q. field. }
  destruct (digits_of_quantity P (ex + ey) (P * 1 + 0) 1 (-1000) 1000
              ltac:(lia) ltac:(lia) ltac:(lia)
              ltac:(now rewrite HX) ltac:(now rewrite HX)) as [Hd1 Hd2].
  pose proof (Zdigits2_ge P 104 ltac:(lia) ltac:(lia) HPlo) as Hdg.
  change loc_Exact with (locationOf 0 1).
  destruct (binary_round_aux_normal P (ex + ey) 0 1 ltac:(lia) ltac:(lia) ltac:(lia)
              ltac:(lia)) as (m'' & e'' & Hres & Hm'' & He'' & Hee & Hb & _).
  fold P. rewrite Hres.
  destruct (rounded_value_close m'' (ex + ey) e'' (P * 1 + 0) 1
              ltac:(lia) ltac:(lia) Hee Hb) as [Hl Hu].
  rewrite HX in Hl, Hu.
  split; [now apply positiveNormal_intro|]. split; assumption.
Qed.

(** The sum. *)
Lemma SFadd_normal (x y : spec_float) :
  Binary64.positiveNormal x = true -> Binary64.positiveNormal y = true ->
  let X := (Binary64.value x + Binary64.value y)%Q in
  (2 ^ (-1000) <= X)%Q -> (X <= 2 ^ 1000)%Q ->
  Binary64.positiveNormal (SFadd JS.prec JS.emax x y) = true
  /\ ((1 - Binary64.u) * X <= Binary64.value (SFadd JS.prec JS.emax x y))%Q
  /\ (Binary64.value (SFadd JS.prec JS.emax x y) <= (1 + Binary64.u) * X)%Q.
Proof.
  intros Hx Hy X Hlo Hhi.
  destruct (positiveNormal_inv x Hx) as (mx & ex & -> & Hmx & Hex).
  destruct (positiveNormal_inv y Hy) as (my & ey & -> & Hmy & Hey).
  cbn [SFadd cond_Zopp].
  destruct (shl_align_spec mx ex (Z.min ex ey)) as [_ Hax].
  destruct (shl_align_spec my ey (Z.min ex ey)) as [_ Hay].
  rewrite (Z.min_r ex (Z.min ex ey)) in Hax by lia.
  rewrite (Z.min_r ey (Z.min ex ey)) in Hay by lia.
  set (ez := Z.min ex ey) in *.
  set (ax := fst (shl_align mx ex ez)) in *. set (ay := fst (shl_align my ey ez)) in *.
  change (Z.pos ax + Z.pos ay) with (Z.pos (ax + ay)).
  cbn [binary_normalize].
  assert (HX : (inject_Z (Z.pos (ax + ay)) * 2 ^ ez == X)%Q).
  { unfold X. rewrite !value_finite, Pos2Z.inj_add, inject_Z_plus, Hax, Hay.
    rewrite !inject_Z_mult.
    rewrite (Qpow2_split ex ez), (Qpow2_split ey ez) by lia. ring. }
  destruct (binary_round_normal (ax + ay) ez ltac:(now rewrite HX) ltac:(now rewrite HX))
    as (H1 & H2 & H3 & _).
  rewrite HX in H2, H3. split; [exact H1|]. split; assumption.
Qed.

Lemma new_location_locationOf (d r : Z) :
  0 < d -> 0 <= r < d -> new_location d r = locationOf r d.
Proof.
  intros Hd Hr. unfold new_location, new_location_even, new_location_odd, locationOf.
  destruct (Z.even d) eqn:Hev; [reflexivity|].
  destruct (r =? 0); [reflexivity|]. f_equal.
  assert (Hodd : Z.odd d = true) by (rewrite <- Z.negb_even, Hev; reflexivity).
  apply Z.odd_spec in Hodd. destruct Hodd as [j Hj].
  destruct (2 * r + 1 ?= d) eqn:C.
  - apply Z.compare_eq in C. symmetry. apply Z.compare_lt_iff. lia.
  - rewrite Z.compare_lt_iff in C. symmetry. apply Z.compare_lt_iff. lia.
  - rewrite Z.compare_gt_iff in C. symmetry. apply Z.compare_gt_iff. lia.
Qed.

(** The quotient. *)
Lemma SFdiv_normal (x y : spec_float) :
  Binary64.positiveNormal x = true -> Binary64.positiveNormal y = true ->
  let X := (Binary64.value x / Binary64.value y)%Q in
  (2 ^ (-1000) <= X)%Q -> (X <= 2 ^ 1000)%Q ->
  Binary64.positiveNormal (SFdiv JS.prec JS.emax x y) = true
  /\ ((1 - Binary64.u) * X <= Binary64.value (SFdiv JS.prec JS.emax x y))%Q
  /\ (Binary64.value (SFdiv JS.prec JS.emax x y) <= (1 + Binary64.u) * X)%Q.
Proof.
  intros Hx Hy X Hlo Hhi.
  destruct (positiveNormal_inv x Hx) as (mx & ex & -> & Hmx & Hex).
  destruct (positiveNormal_inv y Hy) as (my & ey & -> & Hmy & Hey).
  cbn [SFdiv xorb]. unfold SFdiv_core_binary.
  rewrite (Zdigits2_unique (Z.pos mx) 53 ltac:(lia) Hmx).
  rewrite (Zdigits2_unique (Z.pos my) 53 ltac:(lia) Hmy).
  set (a := ex - ey).
  (* the quotient lies in [2^(a-1), 2^(a+1)] *)
  assert (Hpy : (0 < inject_Z (Z.pos my))%Q) by reflexivity.
  assert (HXq : (X == inject_Z (Z.pos mx) / inject_Z (Z.pos my) * 2 ^ a)%Q).
  { unfold X, a. rewrite !value_finite.
    assert (Hpw : (2 ^ ex == 2 ^ (ex - ey) * 2 ^ ey)%Q).
    { rewrite <- Qpow2_add. replace (ex - ey + ey) with ex by lia. reflexivity. }
    rewrite Hpw.
    field. split; Qnonzero. }
  assert (Ha : -1001 <= a <= 1000).
  { assert (Hq1 : (inject_Z (Z.pos mx) / inject_Z (Z.pos my) < 2)%Q).
    { apply Qlt_shift_div_r; [exact Hpy|].
      change 2%Q with (inject_Z 2). rewrite <- inject_Z_mult. apply inject_Z_lt. lia. }
    assert (Hq2 : (1 # 2 < inject_Z (Z.pos mx) / inject_Z (Z.pos my))%Q).
    { apply Qlt_shift_div_l; [exact Hpy|].
      assert (Hh : (inject_Z (Z.pos my) < inject_Z 2 * inject_Z (Z.pos mx))%Q)
        by (rewrite <- inject_Z_mult; apply inject_Z_lt; lia).
      change (inject_Z 2) with 2%Q in Hh. lra. }
    pose proof (Qpow2_pos a) as Hpa.
    split.
    - assert (-1000 < a + 1); [|lia]. apply Qpow2_lt_inv. rewrite Qpow2_add.
      apply Qle_lt_trans with (1 := Hlo). rewrite HXq.
      rewrite (Qmult_comm (2 ^ a)). change (2 ^ 1)%Q with 2%Q.
      apply Qmult_lt_compat_r; assumption.
    - assert (a - 1 < 1000 + 0); [|lia]. apply Qpow2_lt_inv.
      apply Qlt_le_trans with (2 := Hhi). rewrite HXq.
      replace (a - 1) with (-1 + a) by lia. rewrite Qpow2_add.
      change (2 ^ (-1))%Q with (1 # 2)%Q.
      apply Qmult_lt_compat_r; assumption. }
  replace (53 + ex - (53 + ey)) with a by (unfold a; lia). fold a.
  assert (He' : Z.min (fexp JS.prec JS.emax a) a = a - 53)
    by (unfold fexp, emin, JS.prec, JS.emax; lia).
  rewrite He'. replace (a - (a - 53)) with 53 by lia.
  rewrite Z.shiftl_mul_pow2 by lia.
  set (m' := Z.pos mx * 2 ^ 53).
  pose proof (Z.div_eucl_eq m' (Z.pos my) ltac:(lia)) as Heq.
  pose proof (Z.mod_pos_bound m' (Z.pos my) ltac:(lia)) as Hmod.
  unfold Z.modulo in Hmod.
  destruct (Z.div_eucl m' (Z.pos my)) as [q r]. 
  rewrite (new_location_locationOf (Z.pos my) r ltac:(lia) Hmod).
  assert (Hq : 2 ^ 52 <= q < 2 ^ 54).
  { unfold m' in Heq. change (2 ^ 54) with (2 ^ 53 * 2) in *.
    change (2 ^ 53) with (2 ^ 52 * 2) in Heq. nia. }
  assert (HXn : (inject_Z (q * Z.pos my + r) / inject_Z (Z.pos my) * 2 ^ (a - 53) == X)%Q).
  { rewrite HXq. replace (q * Z.pos my + r) with m' by lia. unfold m'.
    rewrite inject_Z_mult. rewrite (Qpow2_split a (a - 53)) by lia.
    replace (a - (a - 53)) with 53 by lia.
    field. discriminate. }
  pose proof (Zdigits2_ge q 52 ltac:(lia) ltac:(lia) ltac:(lia)) as Hdg.
  destruct (digits_of_quantity q (a - 53) (q * Z.pos my + r) (Z.pos my) (-1000) 1000
              ltac:(lia) ltac:(lia) ltac:(lia)
              ltac:(now rewrite HXn) ltac:(now rewrite HXn)) as [Hd1 Hd2].
  destruct (binary_round_aux_normal q (a - 53) r (Z.pos my) Hmod ltac:(lia) ltac:(lia)
              ltac:(lia)) as (m'' & e'' & Hres & Hm'' & He'' & Hee & Hb & _).
  rewrite Hres.
  destruct (rounded_value_close m'' (a - 53) e'' (q * Z.pos my + r) (Z.pos my)
              ltac:(lia) ltac:(lia) Hee Hb) as [Hl Hu].
  rewrite HXn in Hl, Hu.
  split; [now apply positiveNormal_intro|]. split; assumption.
Qed.

(** ** Ranges and relative errors *)

Lemma within_weaken (a b a' b' : Z) (x : Q) :
  within a b x -> a' <= a -> b <= b' -> within a' b' x.
Proof.
  intros [H1 H2] Ha Hb. split.
  - apply Qle_trans with (2 := H1). now apply Qpow2_le.
  - apply Qle_trans with (1 := H2). now apply Qpow2_le.
Qed.

Lemma within_pos (a b : Z) (x : Q) : within a b x -> (0 < x)%Q.
Proof. intros [H _]. apply Qlt_le_trans with (2 := H). apply Qpow2_pos. Qed.

Lemma within_mul (a b c d : Z) (x y : Q) :
  within a b x -> within c d y -> within (a + c) (b + d) (x * y).
Proof.
  intros Hx Hy. pose proof (within_pos _ _ _ Hx). pose proof (within_pos _ _ _ Hy).
  destruct Hx as [H1 H2], Hy as [H3 H4].
  pose proof (Qpow2_pos a). pose proof (Qpow2_pos c).
  split; rewrite Qpow2_add.
  - apply Qle_trans with (2 ^ a * y)%Q.
    + apply Qmult_le_l; assumption.
    + apply Qmult_le_compat_r; [assumption|now apply Qlt_le_weak].
  - apply Qle_trans with (x * 2 ^ d)%Q.
    + apply Qmult_le_l; assumption.
    + apply Qmult_le_compat_r; [assumption|apply Qlt_le_weak, Qpow2_pos].
Qed.

Lemma within_inv (c d : Z) (y : Q) : within c d y -> within (- d) (- c) (/ y).
Proof.
  intros Hy. pose proof (within_pos _ _ _ Hy) as Hp. destruct Hy as [H3 H4].
  pose proof (Qpow2_pos c) as Hc. pose proof (Qpow2_pos d) as Hd.
  split; rewrite Qpower_opp.
  - apply Qle_shift_inv_r; [exact Hd|].
    rewrite Qmult_comm. apply Qle_shift_div_l; [exact Hp|].
    now rewrite Qmult_1_l.
  - apply Qle_shift_inv_r; [exact Hp|].
    rewrite Qmult_comm. apply Qle_shift_div_l; [exact Hc|].
    now rewrite Qmult_1_l.
Qed.

Lemma within_div (a b c d : Z) (x y : Q) :
  within a b x -> within c d y -> within (a - d) (b - c) (x / y).
Proof.
  intros Hx Hy. unfold Qdiv.
  replace (a - d) with (a + - d) by lia. replace (b - c) with (b + - c) by lia.
  apply within_mul; [exact Hx|now apply within_inv].
Qed.

Lemma within_add (a b : Z) (x y : Q) :
  within a b x -> (0 <= y)%Q -> (y <= 2 ^ b)%Q -> within a (b + 1) (x + y).
Proof.
  intros [H1 H2] H0 Hy. split.
  - lra.
  - rewrite Qpow2_add. change (2 ^ 1)%Q with 2%Q. lra.
Qed.

Lemma within_closeTo (a b : Z) (c v X : Q) :
  within a b X -> closeTo c v X -> (0 <= c)%Q -> (c <= 1 # 2)%Q ->
  within (a - 1) (b + 1) v.
Proof.
  intros HX [H1 H2] Hc0 Hc. pose proof (within_pos _ _ _ HX) as Hp.
  destruct HX as [H3 H4].
  assert (Hlow : ((1 # 2) * X <= (1 - c) * X)%Q)
    by (apply Qmult_le_compat_r; lra).
  assert (Hup : ((1 + c) * X <= 2 * X)%Q)
    by (apply Qmult_le_compat_r; lra).
  split.
  - replace (a - 1) with (-1 + a) by lia. rewrite Qpow2_add.
    change (2 ^ (-1))%Q with (1 # 2)%Q. lra.
  - rewrite Qpow2_add. change (2 ^ 1)%Q with 2%Q. lra.
Qed.

Lemma within_range (a b : Z) (x : Q) :
  within a b x -> -1000 <= a -> b <= 1000 ->
  (2 ^ (-1000) <= x)%Q /\ (x <= 2 ^ 1000)%Q.
Proof. intros H Ha Hb. exact (within_weaken a b (-1000) 1000 x H Ha Hb). Qed.

Lemma closeTo_exact (c X : Q) : (0 <= c)%Q -> (0 <= X)%Q -> closeTo c X X.
Proof.
  intros Hc HX. pose proof (Qmult_le_0_compat c X Hc HX) as H. split; lra.
Qed.

Lemma closeTo_zero (c Y : Q) : closeTo c 0 (0 * Y).
Proof. unfold closeTo. split; lra. Qed.

Lemma closeTo_plus_0_l (c X : Q) : (0 <= c)%Q -> (0 <= X)%Q -> closeTo c X (0 + X).
Proof.
  intros Hc HX. pose proof (Qmult_le_0_compat c X Hc HX) as H. unfold closeTo. split; lra.
Qed.

Lemma closeTo_plus_0_r (c X : Q) : (0 <= c)%Q -> (0 <= X)%Q -> closeTo c X (X + 0).
Proof.
  intros Hc HX. pose proof (Qmult_le_0_compat c X Hc HX) as H. unfold closeTo. split; lra.
Qed.

Lemma u_small : (0 < Binary64.u)%Q /\ (Binary64.u <= 1 # 2)%Q.
Proof. split; [reflexivity|discriminate]. Qed.

(** ** The operations on non-negative numbers *)

Lemma zeroOrWithin_weaken (a b a' b' : Z) (x : spec_float) :
  zeroOrWithin a b x -> a' <= a -> b <= b' -> zeroOrWithin a' b' x.
Proof.
  intros [H|[H1 H2]] Ha Hb; [now left|right].
  split; [exact H1|]. now apply (within_weaken a b).
Qed.

Lemma zeroOrWithin_nonneg (a b : Z) (x : spec_float) :
  zeroOrWithin a b x -> (0 <= Binary64.value x)%Q.
Proof.
  intros [->|[_ H]]; [discriminate|]. apply Qlt_le_weak. exact (within_pos _ _ _ H).
Qed.

Lemma zeroOrWithin_le (a b : Z) (x : spec_float) :
  zeroOrWithin a b x -> (Binary64.value x <= 2 ^ b)%Q.
Proof.
  intros [->|[_ [_ H]]]; [|exact H]. apply Qlt_le_weak, Qpow2_pos.
Qed.

Lemma zeroOrWithin_zero (a b : Z) (x : spec_float) :
  zeroOrWithin a b x -> (Binary64.value x <= 0)%Q -> x = S754_zero false.
Proof.
  intros [->|[_ H]] H0; [reflexivity|].
  pose proof (within_pos _ _ _ H). lra.
Qed.

Lemma positiveNormal_shape (x : spec_float) :
  Binary64.positiveNormal x = true -> exists m e, x = S754_finite false m e.
Proof.
  intros H. destruct (positiveNormal_inv x H) as (m & e & -> & _). now exists m, e.
Qed.

(** [x * y] for [x >= 0] and [y > 0]. *)
Lemma mul_zeroOrWithin (a b c d : Z) (x y : spec_float) :
  zeroOrWithin a b x ->
  Binary64.positiveNormal y = true -> within c d (Binary64.value y) ->
  -1000 <= a + c -> b + d <= 1000 ->
  zeroOrWithin (a + c - 1) (b + d + 1) (JS.mul x y)
  /\ closeTo Binary64.u (Binary64.value (JS.mul x y))
       (Binary64.value x * Binary64.value y).
Proof.
  intros Hx Hy Hyr Hlo Hhi. unfold JS.mul.
  destruct Hx as [->|[Hx Hxr]].
  - destruct (positiveNormal_shape y Hy) as (m & e & ->). cbn [SFmul xorb].
    split; [now left|]. cbn [Binary64.value]. apply closeTo_zero.
  - pose proof (within_mul _ _ _ _ _ _ Hxr Hyr) as Hr.
    destruct (within_range _ _ _ Hr Hlo Hhi) as [R1 R2].
    destruct (SFmul_normal x y Hx Hy R1 R2) as (N & C1 & C2).
    split; [|split; assumption].
    right. split; [exact N|].
    apply (within_closeTo _ _ Binary64.u _ _ Hr); [split; assumption| |];
      [apply Qlt_le_weak, u_small|apply u_small].
Qed.

(** [x + y] for [x >= 0] and [y >= 0]. *)
Lemma add_zeroOrWithin (a b : Z) (x y : spec_float) :
  zeroOrWithin a b x -> zeroOrWithin a b y ->
  -1000 <= a -> b + 1 <= 1000 ->
  zeroOrWithin (a - 1) (b + 2) (JS.add x y)
  /\ closeTo Binary64.u (Binary64.value (JS.add x y))
       (Binary64.value x + Binary64.value y).
Proof.
  intros Hx Hy Hlo Hhi. unfold JS.add.
  pose proof (proj1 u_small) as Hu.
  destruct Hx as [->|[Hx Hxr]]; destruct Hy as [->|[Hy Hyr]].
  - cbn [SFadd]. split; [now left|]. cbn [Binary64.value].
    apply closeTo_plus_0_l; [lra|apply Qle_refl].
  - destruct (positiveNormal_shape y Hy) as (m & e & ->). cbn [SFadd].
    split; [right; split; [exact Hy|]; apply (within_weaken a b); [exact Hyr|lia..]|].
    change (Binary64.value (S754_zero false)) with 0%Q.
    apply closeTo_plus_0_l; [lra|]. apply Qlt_le_weak. exact (within_pos _ _ _ Hyr).
  - destruct (positiveNormal_shape x Hx) as (m & e & ->). cbn [SFadd].
    split; [right; split; [exact Hx|]; apply (within_weaken a b); [exact Hxr|lia..]|].
    change (Binary64.value (S754_zero false)) with 0%Q.
    apply closeTo_plus_0_r; [lra|]. apply Qlt_le_weak. exact (within_pos _ _ _ Hxr).
  - assert (Hr : within a (b + 1) (Binary64.value x + Binary64.value y)).
    { apply within_add; [exact Hxr| |apply Hyr].
      apply Qlt_le_weak. exact (within_pos _ _ _ Hyr). }
    destruct (within_range _ _ _ Hr Hlo Hhi) as [R1 R2].
    destruct (SFadd_normal x y Hx Hy R1 R2) as (N & C1 & C2).
    split; [|split; assumption].
    right. split; [exact N|].
    replace (b + 2) with (b + 1 + 1) by lia.
    apply (within_closeTo _ _ Binary64.u _ _ Hr); [split; assumption|lra|apply u_small].
Qed.

(** [x / y] for [x >= 0] and [y > 0]. *)
Lemma div_zeroOrWithin (a b c d : Z) (x y : spec_float) :
  zeroOrWithin a b x ->
  Binary64.positiveNormal y = true -> within c d (Binary64.value y) ->
  -1000 <= a - d -> b - c <= 1000 ->
  zeroOrWithin (a - d - 1) (b - c + 1) (JS.div x y)
  /\ closeTo Binary64.u (Binary64.value (JS.div x y))
       (Binary64.value x / Binary64.value y).
Proof.
  intros Hx Hy Hyr Hlo Hhi. unfold JS.div.
  pose proof (proj1 u_small) as Hu.
  destruct Hx as [->|[Hx Hxr]].
  - destruct (positiveNormal_shape y Hy) as (m & e & ->). cbn [SFdiv xorb].
    split; [now left|]. cbn [Binary64.value]. unfold Qdiv. apply closeTo_zero.
  - pose proof (within_div _ _ _ _ _ _ Hxr Hyr) as Hr.
    destruct (within_range _ _ _ Hr Hlo Hhi) as [R1 R2].
    destruct (SFdiv_normal x y Hx Hy R1 R2) as (N & C1 & C2).
    split; [|split; assumption].
    right. split; [exact N|].
    apply (within_closeTo _ _ Binary64.u _ _ Hr); [split; assumption|lra|apply u_small].
Qed.

(** An integer between 1 and [2^40], as a number. *)
Lemma of_int_within (k : Z) :
  1 <= k <= 2 ^ 40 ->
  Binary64.positiveNormal (JS.of_int k) = true
  /\ (Binary64.value (JS.of_int k) == inject_Z k)%Q
  /\ within 0 40 (Binary64.value (JS.of_int k)).
Proof.
  intros Hk. destruct (of_int_exact k) as [H1 H2].
  { split; [lia|]. apply Z.le_lt_trans with (2 ^ 40); [lia|reflexivity]. }
  split; [exact H1|]. split; [exact H2|]. unfold within. rewrite H2. split.
  - change (2 ^ 0)%Q with (inject_Z 1). apply inject_Z_le. lia.
  - rewrite <- (Qpow2_inject 40) by lia. apply inject_Z_le. lia.
Qed.

(** ** The two ways of averaging *)

Lemma closeTo_scale (c K v X : Q) :
  (0 < K)%Q -> closeTo c v (X / K) -> closeTo c (K * v) X.
Proof.
  intros HK [H1 H2]. unfold closeTo.
  assert (E1 : ((1 - c) * X == K * ((1 - c) * (X / K)))%Q) by (field; lra).
  assert (E2 : ((1 + c) * X == K * ((1 + c) * (X / K)))%Q) by (field; lra).
  rewrite E1, E2. split; apply Qmult_le_l; assumption.
Qed.

Lemma closeTo_unscale (c K v X : Q) :
  (0 < K)%Q -> closeTo c (K * v) X -> closeTo c v (X / K).
Proof.
  intros HK [H1 H2]. unfold closeTo.
  assert (E1 : ((1 - c) * X == K * ((1 - c) * (X / K)))%Q) by (field; lra).
  assert (E2 : ((1 + c) * X == K * ((1 + c) * (X / K)))%Q) by (field; lra).
  rewrite E1 in H1. rewrite E2 in H2.
  split; apply (Qmult_le_l _ _ K HK); assumption.
Qed.

(** Relative errors add up along
    [average = (average * (total - 1) + duration) / total]. *)
Lemma incremental_chain (c T S d v1 v2 t : Q) :
  (0 <= S)%Q -> (0 <= d)%Q -> (0 <= c)%Q -> (c <= 1 # 2)%Q ->
  closeTo c T S ->
  closeTo Binary64.u v1 T ->
  closeTo Binary64.u v2 (v1 + d) ->
  closeTo Binary64.u t v2 ->
  closeTo (c + 6 * Binary64.u) t (S + d).
Proof.
  unfold closeTo, Binary64.u. intros HS Hd Hc0 Hc [A1 A2] [B1 B2] [C1 C2] [D1 D2].
  pose proof (Qmult_le_0_compat c S Hc0 HS) as Hcs.
  pose proof (Qmult_le_0_compat c d Hc0 Hd) as Hcd.
  assert (Hcs2 : (c * S <= (1 # 2) * S)%Q) by (apply Qmult_le_compat_r; assumption).
  split; lra.
Qed.

(** Relative errors add up along [totalTime += duration]. *)
Lemma sum_chain (c T S d v : Q) :
  (0 <= S)%Q -> (0 <= d)%Q -> (0 <= c)%Q -> (c <= 1 # 2)%Q ->
  closeTo c T S ->
  closeTo Binary64.u v (T + d) ->
  closeTo (c + 2 * Binary64.u) v (S + d).
Proof.
  unfold closeTo, Binary64.u. intros HS Hd Hc0 Hc [A1 A2] [C1 C2].
  pose proof (Qmult_le_0_compat c S Hc0 HS) as Hcs.
  pose proof (Qmult_le_0_compat c d Hc0 Hd) as Hcd.
  assert (Hcs2 : (c * S <= (1 # 2) * S)%Q) by (apply Qmult_le_compat_r; assumption).
  split; lra.
Qed.

Lemma quotient_chain (c T S v : Q) :
  (0 <= S)%Q -> (0 <= c)%Q -> (c <= 1 # 2)%Q ->
  closeTo c T S ->
  closeTo Binary64.u v T ->
  closeTo (c + 2 * Binary64.u) v S.
Proof.
  unfold closeTo, Binary64.u. intros HS Hc0 Hc [A1 A2] [C1 C2].
  pose proof (Qmult_le_0_compat c S Hc0 HS) as Hcs.
  assert (Hcs2 : (c * S <= (1 # 2) * S)%Q) by (apply Qmult_le_compat_r; assumption).
  split; lra.
Qed.

(** The multiples of the unit roundoff that occur are small. *)
Lemma roundoff_small (j : Z) :
  0 <= j <= 6 * 2 ^ 40 ->
  (0 <= inject_Z j * Binary64.u)%Q /\ (inject_Z j * Binary64.u <= 1 # 2)%Q.
Proof.
  intros Hj. unfold Binary64.u.
  assert (H0 : (inject_Z 0 <= inject_Z j)%Q) by (apply inject_Z_le; lia).
  assert (H1 : (inject_Z j <= inject_Z (6 * 2 ^ 40))%Q) by (apply inject_Z_le; lia).
  change (inject_Z 0) with 0%Q in H0.
  change (inject_Z (6 * 2 ^ 40)) with (6597069766656 # 1)%Q in H1.
  split; lra.
Qed.

(** A value pinned by a positive quantity is itself in range. *)
Lemma zeroOrWithin_tight (a0 b0 a b : Z) (c K S : Q) (x : spec_float) :
  zeroOrWithin a0 b0 x ->
  (0 <= c)%Q -> (c <= 1 # 2)%Q ->
  within 0 40 K ->
  (S == 0 \/ within a b S)%Q ->
  closeTo c (K * Binary64.value x) S ->
  zeroOrWithin (a - 41) (b + 1) x.
Proof.
  intros Hx Hc0 Hc HK HS Hclose.
  destruct Hx as [->|[Hn Hr]]; [now left|right]. split; [exact Hn|].
  pose proof (within_pos _ _ _ Hr) as Hv. pose proof (within_pos _ _ _ HK) as HKp.
  destruct HS as [HS|HS].
  - exfalso. destruct Hclose as [_ H2]. rewrite HS in H2.
    pose proof (Qmult_lt_0_compat _ _ HKp Hv). lra.
  - apply closeTo_unscale in Hclose; [|exact HKp].
    pose proof (within_div _ _ _ _ _ _ HS HK) as Hq.
    pose proof (within_closeTo _ _ c _ _ Hq Hclose Hc0 Hc) as Ht.
    apply (within_weaken _ _ _ _ _ Ht); lia.
Qed.

Lemma usualDuration_zeroOrWithin (d : spec_float) :
  usualDuration d = true -> zeroOrWithin (-448) 453 d.
Proof.
  destruct d as [[|]| | |[|] m e]; try discriminate; intros H; [now left|right].
  cbn [usualDuration] in H.
  apply andb_true_iff in H as [H H2]. apply andb_true_iff in H as [Hn H1].
  apply Z.leb_le in H1, H2. split; [exact Hn|].
  destruct (positiveNormal_inv _ Hn) as (m' & e' & [= <- <-] & Hm & He).
  unfold within. rewrite value_finite. split.
  - apply Qle_trans with (2 ^ 52 * 2 ^ e)%Q.
    + rewrite <- Qpow2_add. apply Qpow2_le. lia.
    + apply Qmult_le_compat_r; [|apply Qlt_le_weak, Qpow2_pos].
      rewrite <- (Qpow2_inject 52) by lia. apply inject_Z_le. lia.
  - apply Qle_trans with (2 ^ 53 * 2 ^ e)%Q.
    + apply Qmult_le_compat_r; [|apply Qlt_le_weak, Qpow2_pos].
      rewrite <- (Qpow2_inject 53) by lia. apply inject_Z_le. lia.
    + rewrite <- Qpow2_add. apply Qpow2_le. lia.
Qed.

(** Every whole number of milliseconds below [2^53] is a usual duration. *)
Lemma usualDuration_of_int (n : Z) :
  0 <= n < 2 ^ 53 -> usualDuration (JS.of_int n) = true.
Proof.
  intros Hn. destruct (Z.eq_dec n 0) as [->|Hn0]; [reflexivity|].
  destruct (of_int_exact n ltac:(lia)) as [Hp Hv].
  destruct (positiveNormal_inv _ Hp) as (m & e & E & Hm & He).
  rewrite E in *. cbn [usualDuration]. rewrite Hp. cbn [andb].
  rewrite value_finite in Hv.
  assert (Hm1 : (2 ^ 52 <= inject_Z (Z.pos m))%Q).
  { rewrite <- (Qpow2_inject 52) by lia. apply inject_Z_le. lia. }
  assert (Hm2 : (inject_Z (Z.pos m) < 2 ^ 53)%Q).
  { rewrite <- (Qpow2_inject 53) by lia. apply inject_Z_lt. lia. }
  assert (Hn1 : (1 <= inject_Z n)%Q) by (apply (inject_Z_le 1); lia).
  assert (Hn2 : (inject_Z n < 2 ^ 53)%Q).
  { rewrite <- (Qpow2_inject 53) by lia. apply inject_Z_lt. lia. }
  assert (Hpos : (0 < inject_Z (Z.pos m))%Q) by (apply (inject_Z_lt 0); lia).
  change (2 ^ 52)%Q with (4503599627370496 # 1)%Q in Hm1.
  change (2 ^ 53)%Q with (9007199254740992 # 1)%Q in Hm2, Hn2.
  assert (H1 : e <= 0).
  { destruct (Z_le_gt_dec e 0) as [H|H]; [exact H|exfalso].
    assert (Hb : (2 ^ 1 <= 2 ^ e)%Q) by (apply Qpow2_le; lia).
    change (2 ^ 1)%Q with 2%Q in Hb.
    assert (Hc : (inject_Z (Z.pos m) * 2 <= inject_Z (Z.pos m) * 2 ^ e)%Q)
      by (apply Qmult_le_l; assumption).
    lra. }
  assert (H2 : -53 < e).
  { destruct (Z_lt_le_dec (-53) e) as [H|H]; [exact H|exfalso].
    assert (Hb : (2 ^ e <= 2 ^ (-53))%Q) by (apply Qpow2_le; lia).
    change (2 ^ (-53))%Q with (1 # 9007199254740992)%Q in Hb.
    assert (Hc : (inject_Z (Z.pos m) * 2 ^ e
                  <= inject_Z (Z.pos m) * (1 # 9007199254740992))%Q)
      by (apply Qmult_le_l; assumption).
    lra. }
  apply andb_true_iff. split; apply Z.leb_le; lia.
Qed.

Lemma sumOf_next (k : Z) (S : Q) (d : spec_float) :
  0 <= k -> sumOf k S -> zeroOrWithin (-448) 453 d ->
  sumOf (k + 1) (S + Binary64.value d).
Proof.
  intros Hk (H1 & H2 & H3) Hd.
  pose proof (zeroOrWithin_nonneg _ _ _ Hd) as Hd0.
  pose proof (zeroOrWithin_le _ _ _ Hd) as Hd1.
  unfold sumOf. rewrite inject_Z_plus. change (inject_Z 1) with 1%Q.
  split; [|split; [lra|]].
  - destruct Hd as [->|[_ [Hlo _]]].
    + change (Binary64.value (S754_zero false)) with 0%Q.
      destruct H1 as [H1|H1]; [left|right]; lra.
    + right. lra.
  - set (h := (2 ^ 453)%Q) in *. lra.
Qed.

Lemma sumOf_within (k : Z) (S : Q) :
  0 <= k <= 2 ^ 40 -> sumOf k S -> (S == 0 \/ within (-448) 493 S)%Q.
Proof.
  intros Hk (H1 & H2 & H3). destruct H1 as [H1|H1]; [now left|right].
  split; [exact H1|]. apply Qle_trans with (1 := H3).
  replace 493 with (40 + 453) by lia. rewrite Qpow2_add.
  apply Qmult_le_compat_r; [|apply Qlt_le_weak, Qpow2_pos].
  rewrite <- (Qpow2_inject 40) by lia. apply inject_Z_le. lia.
Qed.

(** One step of the incremental average of [app/page.tsx]; at the very
    first step (manual runs) the average is still the initial [0]. *)
Lemma incremental_average_step (k : Z) (a d : spec_float) (S : Q) :
  1 <= k <= 2 ^ 40 ->
  (k = 1 -> a = S754_zero false) ->
  zeroOrWithin (-490) 495 a ->
  zeroOrWithin (-448) 453 d ->
  sumOf (k - 1) S ->
  closeTo (inject_Z (6 * (k - 1)) * Binary64.u)
    (inject_Z (k - 1) * Binary64.value a) S ->
  let a' := JS.div (JS.add (JS.mul a (JS.of_int (k - 1))) d) (JS.of_int k) in
  zeroOrWithin (-490) 495 a'
  /\ closeTo (inject_Z (6 * k) * Binary64.u)
       (inject_Z k * Binary64.value a') (S + Binary64.value d).
Proof.
  intros Hk Hfirst Ha Hd HS Hinv a'.
  destruct (of_int_within k ltac:(lia)) as (N & V & R).
  assert (H1 : exists p1,
             zeroOrWithin (-491) 536 p1
             /\ p1 = JS.mul a (JS.of_int (k - 1))
             /\ closeTo Binary64.u (Binary64.value p1)
                  (inject_Z (k - 1) * Binary64.value a)).
  { exists (JS.mul a (JS.of_int (k - 1))).
    destruct (Z.eq_dec k 1) as [->|Hk1].
    - rewrite (Hfirst eq_refl). split; [now left|]. split; [reflexivity|].
      apply closeTo_zero.
    - destruct (of_int_within (k - 1) ltac:(lia)) as (N1 & V1 & R1).
      destruct (mul_zeroOrWithin (-490) 495 0 40 a (JS.of_int (k - 1)) Ha N1 R1
                  ltac:(lia) ltac:(lia)) as [Z1 C1].
      split; [exact Z1|]. split; [reflexivity|].
      unfold closeTo in *. rewrite V1 in C1.
      rewrite (Qmult_comm (inject_Z (k - 1))). exact C1. }
  destruct H1 as (p1 & Z1 & E1 & C1).
  destruct (add_zeroOrWithin (-491) 536 p1 d Z1
              (zeroOrWithin_weaken _ _ (-491) 536 _ Hd ltac:(lia) ltac:(lia))
              ltac:(lia) ltac:(lia)) as [Z2 C2].
  destruct (div_zeroOrWithin _ _ 0 40 _ (JS.of_int k) Z2 N R ltac:(lia) ltac:(lia))
    as [Z3 C3].
  rewrite E1 in Z3, C3, C2. fold a' in Z3, C3.
  destruct (roundoff_small (6 * (k - 1)) ltac:(lia)) as [Hc0 Hc].
  pose proof (sumOf_next (k - 1) S d ltac:(lia) HS Hd) as HS'.
  replace (k - 1 + 1) with k in HS' by lia.
  pose proof (sumOf_within k _ ltac:(lia) HS') as HSw.
  destruct HS as (_ & HS0 & _).
  pose proof (zeroOrWithin_nonneg _ _ _ Hd) as Hd0.
  assert (Hclose : closeTo (inject_Z (6 * k) * Binary64.u)
                     (inject_Z k * Binary64.value a') (S + Binary64.value d)).
  { assert (Hc6 : (inject_Z (6 * k) * Binary64.u
                   == inject_Z (6 * (k - 1)) * Binary64.u + 6 * Binary64.u)%Q).
    { replace (6 * k) with (6 * (k - 1) + 6) by lia.
      rewrite inject_Z_plus. change (inject_Z 6) with 6%Q. ring. }
    assert (Hchain : closeTo (inject_Z (6 * (k - 1)) * Binary64.u + 6 * Binary64.u)
                       (inject_Z k * Binary64.value a') (S + Binary64.value d)).
    { apply (incremental_chain _ (inject_Z (k - 1) * Binary64.value a) S
               (Binary64.value d)
               (Binary64.value p1)
               (Binary64.value (JS.add (JS.mul a (JS.of_int (k - 1))) d)));
        try assumption.
      - rewrite E1. exact C2.
      - apply closeTo_scale.
        + apply (inject_Z_lt 0 k). lia.
        + unfold closeTo in *. rewrite V in C3. exact C3. }
    unfold closeTo in *. rewrite Hc6. exact Hchain. }
  split; [|exact Hclose].
  destruct (roundoff_small (6 * k) ltac:(lia)) as [Hc0' Hc'].
  assert (RK : within 0 40 (inject_Z k)).
  { unfold within in *. rewrite <- V. exact R. }
  pose proof (zeroOrWithin_tight _ _ (-448) 493 _ _ _ a' Z3 Hc0' Hc' RK HSw Hclose) as Ht.
  apply (zeroOrWithin_weaken _ _ _ _ _ Ht); lia.
Qed.

(** One step of the running total of the legacy page. *)
Lemma running_total_step (k : Z) (t d : spec_float) (S : Q) :
  1 <= k <= 2 ^ 40 ->
  zeroOrWithin (-490) 495 t ->
  zeroOrWithin (-448) 453 d ->
  sumOf (k - 1) S ->
  closeTo (inject_Z (2 * (k - 1)) * Binary64.u) (Binary64.value t) S ->
  zeroOrWithin (-490) 495 (JS.add t d)
  /\ closeTo (inject_Z (2 * k) * Binary64.u)
       (Binary64.value (JS.add t d)) (S + Binary64.value d).
Proof.
  intros Hk Ht Hd HS Hinv.
  destruct (add_zeroOrWithin (-490) 495 t d Ht
              (zeroOrWithin_weaken _ _ (-490) 495 _ Hd ltac:(lia) ltac:(lia))
              ltac:(lia) ltac:(lia)) as [Z2 C2].
  destruct (roundoff_small (2 * (k - 1)) ltac:(lia)) as [Hc0 Hc].
  pose proof (sumOf_next (k - 1) S d ltac:(lia) HS Hd) as HS'.
  replace (k - 1 + 1) with k in HS' by lia.
  pose proof (sumOf_within k _ ltac:(lia) HS') as HSw.
  destruct HS as (_ & HS0 & _).
  pose proof (zeroOrWithin_nonneg _ _ _ Hd) as Hd0.
  assert (Hclose : closeTo (inject_Z (2 * k) * Binary64.u)
                     (Binary64.value (JS.add t d)) (S + Binary64.value d)).
  { assert (Hc2 : (inject_Z (2 * k) * Binary64.u
                   == inject_Z (2 * (k - 1)) * Binary64.u + 2 * Binary64.u)%Q).
    { replace (2 * k) with (2 * (k - 1) + 2) by lia.
      rewrite inject_Z_plus. change (inject_Z 2) with 2%Q. ring. }
    pose proof (sum_chain _ _ _ _ _ HS0 Hd0 Hc0 Hc Hinv C2) as Hchain.
    unfold closeTo in *. rewrite Hc2. exact Hchain. }
  split; [|exact Hclose].
  destruct (roundoff_small (2 * k) ltac:(lia)) as [Hc0' Hc'].
  assert (R1 : within 0 40 1%Q).
  { split; [apply Qle_refl|]. change 1%Q with (2 ^ 0)%Q. apply Qpow2_le. lia. }
  assert (Hclose1 : closeTo (inject_Z (2 * k) * Binary64.u)
                      (1 * Binary64.value (JS.add t d)) (S + Binary64.value d)).
  { unfold closeTo in *. rewrite Qmult_1_l. exact Hclose. }
  pose proof (zeroOrWithin_tight _ _ (-448) 493 _ _ _ _ Z2 Hc0' Hc' R1 HSw Hclose1) as Hx.
  apply (zeroOrWithin_weaken _ _ _ _ _ Hx); lia.
Qed.

Lemma usualDurations_cons (r : ApiResult.t) (rest : list ApiResult.t) :
  usualDurations (r :: rest) = true ->
  usualDuration (ApiResult.duration r) = true /\ usualDurations rest = true.
Proof. unfold usualDurations. cbn [forallb]. intros H. now apply andb_true_iff in H. Qed.

Lemma sumOf_Qeq (k : Z) (S S' : Q) : (S == S')%Q -> sumOf k S -> sumOf k S'.
Proof. intros E H. unfold sumOf in *. rewrite <- E. exact H. Qed.

Lemma closeTo_Qeq (c v X X' : Q) : (X == X')%Q -> closeTo c v X -> closeTo c v X'.
Proof. intros E H. unfold closeTo in *. rewrite <- E. exact H. Qed.

Lemma closeTo_weaken (c c' v X : Q) :
  (0 <= X)%Q -> (c <= c')%Q -> closeTo c v X -> closeTo c' v X.
Proof.
  intros HX Hc [H1 H2].
  assert (H : (c * X <= c' * X)%Q) by (apply Qmult_le_compat_r; assumption).
  unfold closeTo. split; lra.
Qed.

Lemma sumOf_zero : sumOf 0 0.
Proof. unfold sumOf. split; [left; reflexivity|]. split; [apply Qle_refl|discriminate]. Qed.

Lemma sumQ_durations_cons (r : ApiResult.t) (rest : list ApiResult.t) :
  sumQ (durationsOf (r :: rest))
  = (Binary64.value (ApiResult.duration r) + sumQ (durationsOf rest))%Q.
Proof. reflexivity. Qed.

Lemma averageFollows_Qeq (k : Z) (a : spec_float) (X X' : Q) :
  (X == X')%Q -> averageFollows k a X -> averageFollows k a X'.
Proof.
  intros E (H1 & H2 & H3). split; [exact H1|].
  split; [apply (sumOf_Qeq _ X)|apply (closeTo_Qeq _ _ X)]; assumption.
Qed.

Lemma totalFollows_Qeq (k : Z) (a : spec_float) (X X' : Q) :
  (X == X')%Q -> totalFollows k a X -> totalFollows k a X'.
Proof.
  intros E (H1 & H2 & H3). split; [exact H1|].
  split; [apply (sumOf_Qeq _ X)|apply (closeTo_Qeq _ _ X)]; assumption.
Qed.

(** The incremental average follows the exact sum, whatever the number of
    results folded in. *)
Lemma fold_recordNext_follows (rest : list ApiResult.t) :
  forall (s : Stats.t) (X : Q),
    0 <= Stats.total s ->
    (Stats.total s = 0 -> Stats.averageTime s = S754_zero false) ->
    Stats.total s + Z.of_nat (List.length rest) <= 2 ^ 40 ->
    usualDurations rest = true ->
    averageFollows (Stats.total s) (Stats.averageTime s) X ->
    Stats.total (fold_left Page.recordNext rest s)
    = Stats.total s + Z.of_nat (List.length rest)
    /\ averageFollows (Stats.total s + Z.of_nat (List.length rest))
         (Stats.averageTime (fold_left Page.recordNext rest s))
         (X + sumQ (durationsOf rest)).
Proof.
  induction rest as [|r rest IH]; intros s X Hk Hzero Hn Hus Hinv.
  - cbn [fold_left List.length durationsOf map sumQ fold_right].
    rewrite Z.add_0_r. split; [reflexivity|].
    apply (averageFollows_Qeq _ _ X); [ring|exact Hinv].
  - cbn [fold_left List.length]. cbn [List.length] in Hn.
    apply usualDurations_cons in Hus as [Hr Hrest].
    destruct Hinv as (H1 & H2 & H3).
    pose proof (usualDuration_zeroOrWithin _ Hr) as Hd.
    destruct (incremental_average_step (Stats.total s + 1) (Stats.averageTime s)
                (ApiResult.duration r) X) as [A1 A2].
    + lia.
    + intros E. apply Hzero. lia.
    + exact H1.
    + exact Hd.
    + replace (Stats.total s + 1 - 1) with (Stats.total s) by lia. exact H2.
    + replace (Stats.total s + 1 - 1) with (Stats.total s) by lia. exact H3.
    + destruct (IH (Page.recordNext s r) (X + Binary64.value (ApiResult.duration r))%Q)
        as [T1 T2].
      * cbn. lia.
      * cbn. lia.
      * cbn [Page.recordNext Page.count Stats.total]. lia.
      * exact Hrest.
      * split; [exact A1|]. split; [|exact A2].
        cbn [Page.recordNext Page.count Stats.total].
        replace (Stats.total s + 1) with (Stats.total s + 1 - 1 + 1) at 1 by lia.
        apply sumOf_next; [lia| |exact Hd].
        replace (Stats.total s + 1 - 1) with (Stats.total s) by lia. exact H2.
      * cbn [Page.recordNext Page.count Stats.total] in T1, T2.
        replace (Stats.total s + Z.of_nat (S (List.length rest)))
          with (Stats.total s + 1 + Z.of_nat (List.length rest)) by lia.
        split; [exact T1|]. rewrite sumQ_durations_cons.
        apply (averageFollows_Qeq _ _ _ _ (Qeq_sym _ _ (Qplus_assoc _ _ _))).
        exact T2.
Qed.

(** The running total of the legacy page follows the exact sum. *)
Lemma fold_add_follows (results : list ApiResult.t) :
  forall (t : spec_float) (k : Z) (X : Q),
    0 <= k ->
    k + Z.of_nat (List.length results) <= 2 ^ 40 ->
    usualDurations results = true ->
    totalFollows k t X ->
    totalFollows (k + Z.of_nat (List.length results))
      (fold_left (fun t r => JS.add t (ApiResult.duration r)) results t)
      (X + sumQ (durationsOf results)).
Proof.
  induction results as [|r rest IH]; intros t k X Hk Hn Hus Hinv.
  - cbn [fold_left List.length durationsOf map sumQ fold_right].
    rewrite Z.add_0_r. apply (totalFollows_Qeq _ _ X); [ring|exact Hinv].
  - cbn [fold_left List.length]. cbn [List.length] in Hn.
    apply usualDurations_cons in Hus as [Hr Hrest].
    destruct Hinv as (H1 & H2 & H3).
    pose proof (usualDuration_zeroOrWithin _ Hr) as Hd.
    destruct (running_total_step (k + 1) t (ApiResult.duration r) X) as [A1 A2].
    + lia.
    + exact H1.
    + exact Hd.
    + replace (k + 1 - 1) with k by lia. exact H2.
    + replace (k + 1 - 1) with k by lia. exact H3.
    + replace (k + Z.of_nat (S (List.length rest)))
        with (k + 1 + Z.of_nat (List.length rest)) by lia.
      rewrite sumQ_durations_cons.
      apply (totalFollows_Qeq _ _ _ _ (Qeq_sym _ _ (Qplus_assoc _ _ _))).
      apply IH; [lia|lia|exact Hrest|].
      split; [exact A1|]. split; [|exact A2].
      replace (k + 1) with (k + 1 - 1 + 1) at 1 by lia.
      apply sumOf_next; [lia| |exact Hd].
      replace (k + 1 - 1) with k by lia. exact H2.
Qed.

Lemma mean_durations (results : list ApiResult.t) :
  mean (durationsOf results)
  = (sumQ (durationsOf results) / inject_Z (Z.of_nat (List.length results)))%Q.
Proof. unfold mean, durationsOf. now rewrite length_map. Qed.

(** From the invariant to the distance between average and mean. *)
Lemma closeTo_tolerance (n : nat) (c v X : Q) :
  (1 <= n)%nat ->
  (0 <= X)%Q -> (0 <= c)%Q ->
  (c <= inject_Z (6 * Z.of_nat n) * Binary64.u)%Q ->
  closeTo c (inject_Z (Z.of_nat n) * v) X ->
  (Qabs (v - X / inject_Z (Z.of_nat n))
   <= inject_Z (6 * Z.of_nat n) * Binary64.u * (X / inject_Z (Z.of_nat n)))%Q.
Proof.
  intros Hn HX Hc0 Hc Hclose.
  assert (HK : (0 < inject_Z (Z.of_nat n))%Q) by (apply (inject_Z_lt 0); lia).
  apply closeTo_unscale in Hclose; [|exact HK].
  set (M := (X / inject_Z (Z.of_nat n))%Q) in *.
  assert (HM : (0 <= M)%Q).
  { unfold M. apply Qle_shift_div_l; [exact HK|]. lra. }
  apply (closeTo_weaken _ (inject_Z (6 * Z.of_nat n) * Binary64.u)) in Hclose;
    [|exact HM|exact Hc].
  destruct Hclose as [H1 H2].
  apply Qabs_Qle_condition. split; lra.
Qed.

(** The incremental average of [app/page.tsx] against the mean. *)
Lemma Page_recordAll_tolerance (results : list ApiResult.t) :
  Z.of_nat (List.length results) <= 2 ^ 40 ->
  usualDurations results = true ->
  withinTolerance (List.length results)
    (Stats.averageTime (Page.recordAll results)) (mean (durationsOf results)).
Proof.
  intros Hn Hus. unfold withinTolerance. destruct results as [|first rest].
  - cbn. discriminate.
  - apply usualDurations_cons in Hus as [Hr Hrest].
    pose proof (usualDuration_zeroOrWithin _ Hr) as Hd.
    pose proof (zeroOrWithin_nonneg _ _ _ Hd) as Hd0.
    cbn [List.length] in Hn.
    destruct (fold_recordNext_follows rest (Page.recordFirst Stats.zero first)
                (0 + Binary64.value (ApiResult.duration first))%Q) as [_ F].
    + cbn. lia.
    + cbn. lia.
    + cbn [Page.recordFirst Page.count Stats.total Stats.zero]. lia.
    + exact Hrest.
    + cbn [Page.recordFirst Page.count Stats.total Stats.zero Stats.averageTime].
      split; [apply (zeroOrWithin_weaken _ _ _ _ _ Hd); lia|].
      split; [apply (sumOf_next 0 0 _ ltac:(lia) sumOf_zero Hd)|].
      change (inject_Z (0 + 1)) with 1%Q.
      pose proof (Qmult_le_0_compat (inject_Z (6 * (0 + 1)) * Binary64.u)
                    (Binary64.value (ApiResult.duration first))) as Hp.
      unfold closeTo. unfold Binary64.u in *.
      change (inject_Z (6 * (0 + 1))) with 6%Q in *.
      assert (Hp' := Hp ltac:(lra) Hd0). split; lra.
    + cbn [Page.recordFirst Page.count Stats.total Stats.zero] in F.
      destruct F as (F1 & F2 & F3).
      rewrite mean_durations. unfold Page.recordAll.
      replace (0 + 1 + Z.of_nat (List.length rest))
        with (Z.of_nat (List.length (first :: rest))) in F3
        by (cbn [List.length]; lia).
      assert (E : (0 + Binary64.value (ApiResult.duration first) + sumQ (durationsOf rest)
                   == sumQ (durationsOf (first :: rest)))%Q).
      { rewrite sumQ_durations_cons. ring. }
      apply (closeTo_Qeq _ _ _ _ E) in F3.
      destruct F2 as (_ & F2 & _). rewrite E in F2.
      apply (closeTo_tolerance (List.length (first :: rest)) _ _ _
               ltac:(cbn [List.length]; lia) F2
               (proj1 (roundoff_small (6 * Z.of_nat (List.length (first :: rest)))
                         ltac:(cbn [List.length]; lia)))
               (Qle_refl _) F3).
Qed.

Lemma sumDurations_follows (results : list ApiResult.t) :
  Z.of_nat (List.length results) <= 2 ^ 40 ->
  usualDurations results = true ->
  totalFollows (Z.of_nat (List.length results)) (sumDurations results)
    (sumQ (durationsOf results)).
Proof.
  intros Hn Hus.
  pose proof (fold_add_follows results (S754_zero false) 0 0 ltac:(lia) ltac:(lia) Hus) as H.
  apply (totalFollows_Qeq _ _ (0 + sumQ (durationsOf results))); [ring|].
  apply H. split; [now left|]. split; [exact sumOf_zero|].
  unfold closeTo. cbn. split; discriminate.
Qed.

(** The average of the legacy page against the mean. *)
Lemma Legacy_averageOf_tolerance (results : list ApiResult.t) :
  Z.of_nat (List.length results) <= 2 ^ 40 ->
  usualDurations results = true ->
  withinTolerance (List.length results)
    (Legacy.averageOf (sumDurations results) (List.length results))
    (mean (durationsOf results)).
Proof.
  intros Hn Hus. unfold withinTolerance.
  destruct results as [|first rest] eqn:Eres.
  - cbn. discriminate.
  - rewrite <- Eres in *.
    assert (Hlen : (1 <= List.length results)%nat) by (rewrite Eres; cbn; lia).
    clear Eres first rest.
    destruct (sumDurations_follows results Hn Hus) as (T1 & T2 & T3).
    set (n := Z.of_nat (List.length results)) in *.
    destruct (of_int_within n ltac:(lia)) as (N & V & R).
    destruct (div_zeroOrWithin _ _ 0 40 (sumDurations results) (JS.of_int n) T1 N R
                ltac:(lia) ltac:(lia)) as [Z3 C3].
    assert (Eavg : Legacy.averageOf (sumDurations results) (List.length results)
                   = JS.div (sumDurations results) (JS.of_int n)).
    { unfold Legacy.averageOf. fold n.
      destruct Z3 as [->|[Hq _]]; [reflexivity|].
      destruct (positiveNormal_inv _ Hq) as (m & e & -> & _). reflexivity. }
    rewrite Eavg, mean_durations. fold n.
    destruct T2 as (_ & HX & _).
    destruct (roundoff_small (2 * n) ltac:(lia)) as [Hc0 Hc].
    assert (HK : (0 < inject_Z n)%Q) by (apply (inject_Z_lt 0); lia).
    assert (Hclose : closeTo (inject_Z (2 * n) * Binary64.u + 2 * Binary64.u)
                       (inject_Z n * Binary64.value (JS.div (sumDurations results) (JS.of_int n)))
                       (sumQ (durationsOf results))).
    { apply (quotient_chain _ (Binary64.value (sumDurations results))); try assumption.
      apply closeTo_scale; [exact HK|].
      unfold closeTo in *. rewrite V in C3. exact C3. }
    apply (closeTo_tolerance (List.length results) _ _ _ Hlen HX) in Hclose.
    + exact Hclose.
    + unfold Binary64.u in *. lra.
    + fold n. rewrite !inject_Z_mult.
      assert (H1 : (1 <= inject_Z n)%Q) by (apply (inject_Z_le 1); lia).
      unfold Binary64.u. change (inject_Z 2) with 2%Q. change (inject_Z 6) with 6%Q.
      lra.
Qed.

(** C3, as stated, fails in binary64 arithmetic: after eight calls of which
    the first took 29 ms and the others 0 ms, the average kept
    incrementally by [app/page.tsx] is [8162774324609025 * 2^-51]
    (3.6250000000000004), while the mean is 29/8 = 3.625; the average
    recomputed from the total, as the legacy page does, is exactly the
    mean here. *)
Lemma incremental_average_is_not_the_mean :
  Stats.averageTime (Page.recordAll oneSlowCall)
  = S754_finite false 8162774324609025 (-51)
  /\ ~ (Binary64.value (Stats.averageTime (Page.recordAll oneSlowCall))
        == mean (durationsOf oneSlowCall))%Q
  /\ (Binary64.value (Legacy.averageOf (sumDurations oneSlowCall)
                        (List.length oneSlowCall))
      == mean (durationsOf oneSlowCall))%Q
  /\ Stats.averageTime (Page.recordAll oneSlowCall)
     <> Legacy.averageOf (sumDurations oneSlowCall) (List.length oneSlowCall).
Proof.
  split; [vm_compute; reflexivity|]. split; [|split].
  - vm_compute. discriminate.
  - vm_compute. reflexivity.
  - vm_compute. discriminate.
Qed.

(** C3, as the code has it.  For every sequence of at most [2^40] recorded
    outcomes with usual durations (0, or between [2^-448] and [2^453] ms),
    the average maintained incrementally by [app/page.tsx] (first
    [averageTime = duration], then
    [averageTime = (averageTime * (total - 1) + duration) / total], in
    binary64 arithmetic) differs from the arithmetic mean of the durations
    by at most [6 * n * 2^-53] times the mean, and so does the average of
    the legacy page ([totalTime / batchResults.length || 0]); the two need
    not be equal.  The statistics of every run are obtained in exactly
    this way from the results the run recorded.  Every duration that is a
    whole number of milliseconds below [2^53] is usual. *)
Theorem running_average_close_to_mean :
  forall results : list ApiResult.t,
    usualDurations results = true ->
    Z.of_nat (List.length results) <= 2 ^ 40 ->
    withinTolerance (List.length results)
      (Stats.averageTime (Page.recordAll results)) (mean (durationsOf results))
    /\ withinTolerance (List.length results)
         (Legacy.averageOf (sumDurations results) (List.length results))
         (mean (durationsOf results))
    /\ (forall graphMaxPoints w count,
          Page.stats (Page.afterRun graphMaxPoints w count)
          = Page.recordAll (Page.batchResults (Page.afterRun graphMaxPoints w count)))
    /\ (forall batchMode threadCount w count,
          Stats.averageTime
            (Legacy.counters (Legacy.afterRun batchMode threadCount w count))
          = Legacy.averageOf
              (sumDurations
                 (Legacy.batchResults (Legacy.afterRun batchMode threadCount w count)))
              (List.length
                 (Legacy.batchResults (Legacy.afterRun batchMode threadCount w count))))
    /\ (forall milliseconds,
          0 <= milliseconds < 2 ^ 53 ->
          usualDuration (JS.of_int milliseconds) = true).
Proof.
  intros results Hus Hn. split; [now apply Page_recordAll_tolerance|].
  split; [now apply Legacy_averageOf_tolerance|].
  split; [intros; apply Page_run_stats_follow|].
  split; [|apply usualDuration_of_int].
  intros batchMode threadCount w count.
  unfold Legacy.counters; cbn [Stats.averageTime].
  now rewrite (Legacy_run_total_follows batchMode threadCount w count).
Qed.

Lemma running_average_close_to_mean_witness :
  withinTolerance 8 (Stats.averageTime (Page.recordAll oneSlowCall))
    (mean (durationsOf oneSlowCall)).
Proof.
  exact (proj1 (running_average_close_to_mean oneSlowCall
                  ltac:(vm_compute; reflexivity) ltac:(vm_compute; discriminate))).
Defined.

(* ===================================================================== *)
(** * Part III: further properties of the sources                          *)
(* ===================================================================== *)

(** ** Stopping a sequential run *)

Lemma idsFrom_app from n m :
  (idsFrom from n ++ idsFrom (from + Z.of_nat n) m)%list = idsFrom from (n + m).
Proof.
  revert from. induction n as [|n IH]; intros from.
  - cbn [idsFrom seq map app Nat.add]. now rewrite Z.add_0_r.
  - cbn [Nat.add]. rewrite !idsFrom_S. cbn [app]. f_equal.
    rewrite <- IH. do 2 f_equal. lia.
Qed.

Lemma oneByOne_app l1 l2 : oneByOne (l1 ++ l2) = (oneByOne l1 ++ oneByOne l2)%list.
Proof. unfold oneByOne. apply flat_map_app. Qed.

(** As long as nobody presses stop during the calls it makes, the loop of
    [app/page.tsx] makes them one by one and is still running afterwards. *)
Lemma Page_loop_unstopped gmp w :
  forall todo i st,
    Page.aborted st = false ->
    (forall id, i + 2 <= id < i + 2 + Z.of_nat todo -> stopDuring w id = false) ->
    map shape (Page.events (Page.loop gmp w todo i st))
    = (map shape (Page.events st) ++ oneByOne (idsFrom (i + 2) todo))%list
    /\ map ApiResult.id (Page.batchResults (Page.loop gmp w todo i st))
       = (map ApiResult.id (Page.batchResults st) ++ idsFrom (i + 2) todo)%list
    /\ Page.aborted (Page.loop gmp w todo i st) = false.
Proof.
  intros todo; induction todo as [|todo IH]; intros i st Hab Hstop.
  - cbn. now rewrite !app_nil_r.
  - rewrite Page_loop_unfold, Hab.
    destruct (IH (i + 1) (Page_turn gmp w (i + 2) st)) as (He & Hr & Ha).
    { rewrite Page_turn_aborted, Hab, Hstop by lia. reflexivity. }
    { intros id Hid. apply Hstop. lia. }
    rewrite He, Hr, Ha, Page_turn_results.
    destruct (Page_turn_events gmp w (i + 2) st) as (ds & nin & _ & ->).
    rewrite idsFrom_S. replace (i + 1 + 2) with (i + 2 + 1) by lia.
    rewrite map_app; cbn [map shape oneByOne flat_map].
    rewrite <- !app_assoc. repeat split; reflexivity.
Qed.

Lemma Page_loop_split gmp w n m :
  forall i st,
    Page.loop gmp w (n + m) i st
    = Page.loop gmp w m (i + Z.of_nat n) (Page.loop gmp w n i st).
Proof.
  induction n as [|n IH]; intros i st.
  - cbn [Nat.add Page.loop]. now rewrite Z.add_0_r.
  - cbn [Nat.add]. rewrite !Page_loop_unfold.
    destruct (Page.aborted st) eqn:Hab.
    + now rewrite Page_loop_aborted.
    + rewrite IH. f_equal. lia.
Qed.

Lemma Legacy_sequentialLoop_unstopped w remainingCalls :
  forall todo i st,
    Legacy.aborted st = false ->
    (forall id, i + 2 <= id < i + 2 + Z.of_nat todo -> stopDuring w id = false) ->
    map shape (Legacy.events (Legacy.sequentialLoop w remainingCalls todo i st))
    = (map shape (Legacy.events st) ++ oneByOne (idsFrom (i + 2) todo))%list
    /\ map ApiResult.id
         (Legacy.batchResults (Legacy.sequentialLoop w remainingCalls todo i st))
       = (map ApiResult.id (Legacy.batchResults st) ++ idsFrom (i + 2) todo)%list
    /\ Legacy.aborted (Legacy.sequentialLoop w remainingCalls todo i st) = false.
Proof.
  intros todo; induction todo as [|todo IH]; intros i st Hab Hstop.
  - cbn. now rewrite !app_nil_r.
  - rewrite Legacy_sequentialLoop_unfold, Hab.
    destruct (IH (i + 1) (Legacy_turn w remainingCalls i st)) as (He & Hr & Ha).
    { rewrite Legacy_turn_aborted, Hab, Hstop by lia. reflexivity. }
    { intros id Hid. apply Hstop. lia. }
    rewrite He, Hr, Ha, Legacy_turn_results.
    destruct (Legacy_turn_events w remainingCalls i st) as (ds & nin & _ & ->).
    rewrite idsFrom_S. replace (i + 1 + 2) with (i + 2 + 1) by lia.
    rewrite map_app; cbn [map shape oneByOne flat_map].
    rewrite <- !app_assoc. repeat split; reflexivity.
Qed.

Lemma Legacy_sequentialLoop_split w remainingCalls n m :
  forall i st,
    Legacy.sequentialLoop w remainingCalls (n + m) i st
    = Legacy.sequentialLoop w remainingCalls m (i + Z.of_nat n)
        (Legacy.sequentialLoop w remainingCalls n i st).
Proof.
  induction n as [|n IH]; intros i st.
  - cbn [Nat.add Legacy.sequentialLoop]. now rewrite Z.add_0_r.
  - cbn [Nat.add]. rewrite !Legacy_sequentialLoop_unfold.
    destruct (Legacy.aborted st) eqn:Hab.
    + now rewrite Legacy_sequentialLoop_aborted.
    + rewrite IH. f_equal. lia.
Qed.

(** What the first call leaves behind when the run was not stopped before it. *)
Lemma Page_firstCall_started gmp w ds nin :
  stopDuringSetup w = false ->
  map shape (Page.events (Page.firstCall gmp w ds nin (Page.start w))) = oneByOne [1]
  /\ map ApiResult.id (Page.batchResults (Page.firstCall gmp w ds nin (Page.start w)))
     = [1]
  /\ Page.aborted (Page.firstCall gmp w ds nin (Page.start w)) = stopDuring w 1.
Proof.
  intros Hs. unfold Page.firstCall, Page.start; cbn [Page.aborted]. rewrite Hs.
  cbn. rewrite makeApiCallWithParams_id. repeat split.
Qed.

Lemma Legacy_firstCall_started batchMode w ds nin :
  stopDuringSetup w = false ->
  map shape (Legacy.events (Legacy.firstCall batchMode w ds nin (Legacy.start w)))
  = oneByOne [1]
  /\ map ApiResult.id
       (Legacy.batchResults (Legacy.firstCall batchMode w ds nin (Legacy.start w)))
     = [1]
  /\ Legacy.aborted (Legacy.firstCall batchMode w ds nin (Legacy.start w))
     = stopDuring w 1.
Proof.
  intros Hs. unfold Legacy.firstCall, Legacy.start; cbn [Legacy.aborted]. rewrite Hs.
  cbn. rewrite makeApiCallWithParams_id. rewrite !orb_false_r. repeat split.
Qed.

(** The sequential loops up to the call during which stop is pressed. *)
Lemma Page_loop_stopped_at gmp w k todo st :
  2 <= k < 2 + Z.of_nat todo ->
  Page.aborted st = false ->
  (forall id, 2 <= id < k -> stopDuring w id = false) ->
  stopDuring w k = true ->
  map shape (Page.events (Page.loop gmp w todo 0 st))
  = (map shape (Page.events st) ++ oneByOne (idsFrom 2 (Z.to_nat (k - 1))))%list
  /\ map ApiResult.id (Page.batchResults (Page.loop gmp w todo 0 st))
     = (map ApiResult.id (Page.batchResults st) ++ idsFrom 2 (Z.to_nat (k - 1)))%list.
Proof.
  intros Hk Hab Hbefore Hat.
  replace todo with (Z.to_nat (k - 2) + (1 + (todo - Z.to_nat (k - 1))))%nat by lia.
  rewrite Page_loop_split.
  destruct (Page_loop_unstopped gmp w (Z.to_nat (k - 2)) 0 st Hab) as (He & Hr & Ha).
  { intros id Hid. apply Hbefore. lia. }
  set (st1 := Page.loop gmp w (Z.to_nat (k - 2)) 0 st) in *.
  rewrite (Page_loop_split gmp w 1), Page_loop_aborted.
  2:{ rewrite Page_loop_unfold, Ha. cbn [Page.loop].
      rewrite Page_turn_aborted, Ha. cbn [orb].
      replace (0 + Z.of_nat (Z.to_nat (k - 2)) + 2) with k by lia. exact Hat. }
  rewrite Page_loop_unfold, Ha. cbn [Page.loop].
  replace (0 + Z.of_nat (Z.to_nat (k - 2)) + 2) with k by lia.
  rewrite Page_turn_results, Hr.
  destruct (Page_turn_events gmp w k st1) as (ds & nin & _ & ->).
  rewrite map_app, He. cbn [map shape].
  replace (Z.to_nat (k - 1)) with (Z.to_nat (k - 2) + 1)%nat by lia.
  rewrite <- idsFrom_app, oneByOne_app. change (0 + 2) with 2.
  replace (2 + Z.of_nat (Z.to_nat (k - 2))) with k by lia.
  change (idsFrom k 1) with [k + 0]. rewrite Z.add_0_r.
  cbn [oneByOne flat_map app]. rewrite <- !app_assoc.
  split; reflexivity.
Qed.

Lemma Legacy_sequentialLoop_stopped_at w remainingCalls k todo st :
  2 <= k < 2 + Z.of_nat todo ->
  Legacy.aborted st = false ->
  (forall id, 2 <= id < k -> stopDuring w id = false) ->
  stopDuring w k = true ->
  map shape (Legacy.events (Legacy.sequentialLoop w remainingCalls todo 0 st))
  = (map shape (Legacy.events st) ++ oneByOne (idsFrom 2 (Z.to_nat (k - 1))))%list
  /\ map ApiResult.id
       (Legacy.batchResults (Legacy.sequentialLoop w remainingCalls todo 0 st))
     = (map ApiResult.id (Legacy.batchResults st) ++ idsFrom 2 (Z.to_nat (k - 1)))%list.
Proof.
  intros Hk Hab Hbefore Hat.
  replace todo with (Z.to_nat (k - 2) + (1 + (todo - Z.to_nat (k - 1))))%nat by lia.
  rewrite Legacy_sequentialLoop_split.
  destruct (Legacy_sequentialLoop_unstopped w remainingCalls (Z.to_nat (k - 2)) 0 st Hab)
    as (He & Hr & Ha).
  { intros id Hid. apply Hbefore. lia. }
  set (st1 := Legacy.sequentialLoop w remainingCalls (Z.to_nat (k - 2)) 0 st) in *.
  rewrite (Legacy_sequentialLoop_split w remainingCalls 1), Legacy_sequentialLoop_aborted.
  2:{ rewrite Legacy_sequentialLoop_unfold, Ha. cbn [Legacy.sequentialLoop].
      rewrite Legacy_turn_aborted, Ha. cbn [orb].
      replace (0 + Z.of_nat (Z.to_nat (k - 2)) + 2) with k by lia.
      rewrite Hat. reflexivity. }
  rewrite Legacy_sequentialLoop_unfold, Ha. cbn [Legacy.sequentialLoop].
  rewrite Legacy_turn_results, Hr.
  destruct (Legacy_turn_events w remainingCalls (0 + Z.of_nat (Z.to_nat (k - 2))) st1)
    as (ds & nin & _ & ->).
  replace (0 + Z.of_nat (Z.to_nat (k - 2)) + 2) with k by lia.
  rewrite map_app, He. cbn [map shape].
  replace (Z.to_nat (k - 1)) with (Z.to_nat (k - 2) + 1)%nat by lia.
  rewrite <- idsFrom_app, oneByOne_app. change (0 + 2) with 2.
  replace (2 + Z.of_nat (Z.to_nat (k - 2))) with k by lia.
  change (idsFrom k 1) with [k + 0]. rewrite Z.add_0_r.
  cbn [oneByOne flat_map app]. rewrite <- !app_assoc.
  split; reflexivity.
Qed.

(** X1.  Stopping a sequential run ([app/page.tsx] and the sequential mode
    of the legacy page).  When the stop button is pressed while call [k] is
    awaited ([1 <= k <= count]) and not before, the call in flight is still
    recorded and no further call is issued: the run records exactly the
    ids 1 .. [k], each issued, settled and recorded in turn. *)
Theorem stop_ends_sequential_run_after_call_in_flight :
  forall (graphMaxPoints threadCount : Z) (w : World) (count k : Z),
    correctTestValues (testValues w) <> None ->
    1 <= k <= count ->
    stoppedDuring w k ->
    (map ApiResult.id (Page.batchResults (Page.afterRun graphMaxPoints w count))
     = idsUpTo k
     /\ map shape (Page.events (Page.afterRun graphMaxPoints w count))
        = oneByOne (idsUpTo k))
    /\ (map ApiResult.id
          (Legacy.batchResults (Legacy.afterRun Legacy.sequential threadCount w count))
        = idsUpTo k
        /\ map shape
             (Legacy.events (Legacy.afterRun Legacy.sequential threadCount w count))
           = oneByOne (idsUpTo k)).
Proof.
  intros gmp threadCount w count k Hcfg Hk (Hsetup & Hbefore & Hat).
  destruct (correctTestValues (testValues w)) as [[ds nin]|] eqn:Hc; [|congruence].
  rewrite (idsUpTo_split k) by lia.
  unfold Page.afterRun, Page.runBatchCalls, Legacy.afterRun, Legacy.runBatchCalls.
  rewrite Hc.
  cbn [Page.finally Page.events Page.batchResults
       Legacy.finally Legacy.mergeCollected Legacy.events Legacy.batchResults].
  destruct (Page_firstCall_started gmp w ds nin Hsetup) as (Pe & Pr & Pa).
  destruct (Legacy_firstCall_started Legacy.sequential w ds nin Hsetup) as (Le & Lr & La).
  destruct (Z.eq_dec k 1) as [->|Hk1].
  - rewrite Hat in Pa, La.
    rewrite Page_loop_aborted, Legacy_sequentialLoop_aborted by assumption.
    rewrite Pe, Pr, Le, Lr. repeat split.
  - rewrite Hbefore in Pa, La by lia.
    destruct (Page_loop_stopped_at gmp w k (Z.to_nat (count - 1)) _ ltac:(lia) Pa)
      as [He Hr]; [intros; apply Hbefore; lia|exact Hat|].
    destruct (Legacy_sequentialLoop_stopped_at w (count - 1) k (Z.to_nat (count - 1)) _
                ltac:(lia) La) as [He' Hr']; [intros; apply Hbefore; lia|exact Hat|].
    rewrite He, Hr, He', Hr', Pe, Pr, Le, Lr. repeat split.
Qed.

Lemma stop_ends_sequential_run_after_call_in_flight_witness :
  map ApiResult.id (Page.batchResults (Page.afterRun 100 stoppedWorld 5)) = [1; 2].
Proof.
  assert (H1 : correctTestValues (testValues stoppedWorld) <> None)
    by (vm_compute; discriminate).
  assert (H2 : 1 <= 2 <= 5) by lia.
  assert (H3 : stoppedDuring stoppedWorld 2).
  { split; [reflexivity|]. split; [|reflexivity].
    intros id Hid. cbn. apply Z.eqb_neq. lia. }
  exact (proj1 (proj1
           (stop_ends_sequential_run_after_call_in_flight 100 5 stoppedWorld 5 2
              H1 H2 H3))).
Defined.

(** ** Parallel runs, batch by batch *)

Lemma Legacy_dispatch_keeps w :
  forall todo i promises st,
    Legacy.batchResults (snd (Legacy.dispatch w todo i promises st))
    = Legacy.batchResults st.
Proof.
  intros todo; induction todo as [|todo IH]; intros i promises st; cbn [Legacy.dispatch].
  - reflexivity.
  - destruct (Legacy.aborted st); [reflexivity|].
    destruct (Legacy.makeApiCall w (i + 2) st) as [r st1] eqn:Hcall.
    rewrite IH. unfold Legacy.makeApiCall, Legacy.issue in Hcall.
    injection Hcall as _ <-. reflexivity.
Qed.

Lemma Legacy_pushAll_results plot chunk :
  forall st,
    map ApiResult.id
      (Legacy.batchResults
         (fold_left (fun s apiResult => Legacy.push plot apiResult s) chunk st))
    = (map ApiResult.id (Legacy.batchResults st) ++ map ApiResult.id chunk)%list.
Proof.
  induction chunk as [|r chunk IH]; intros st; cbn [fold_left map].
  - now rewrite app_nil_r.
  - rewrite IH. cbn. rewrite map_app, <- app_assoc. reflexivity.
Qed.

(** The results of one batch: the ids of its calls, in issue order. *)
Lemma Legacy_batch_results K w remainingCalls batch st :
  Legacy.aborted st = false ->
  let ids :=
    idsFrom (batch * K + 2)
      (Z.to_nat (Z.min (batch * K + K) remainingCalls - batch * K)) in
  map ApiResult.id (Legacy.batchResults (Legacy_batch K w remainingCalls batch st))
  = (map ApiResult.id (Legacy.batchResults st) ++ ids)%list
  /\ Legacy.aborted (Legacy_batch K w remainingCalls batch st)
     = existsb (stopDuring w) ids.
Proof.
  intros Hab ids. unfold Legacy_batch.
  set (n := Z.to_nat (Z.min (batch * K + K) remainingCalls - batch * K)) in *.
  destruct (Legacy_dispatch_spec w n (batch * K) [] st Hab)
    as (calls & _ & _ & _ & Hch & Hab').
  pose proof (Legacy_dispatch_keeps w n (batch * K) [] st) as Hkeep.
  cbn [map app] in Hch.
  destruct (Legacy.dispatch w n (batch * K) [] st) as [chunk st1].
  cbn [fst snd] in *. cbn [Legacy.setStats Legacy.batchResults Legacy.aborted].
  rewrite Legacy_pushAll_results.
  destruct (Legacy_pushAll_events (Legacy.plotPoint w) chunk
              (Legacy.awaitAll w (map ApiResult.id chunk) st1)) as [_ Ha].
  rewrite Ha. cbn [Legacy.awaitAll Legacy.settle Legacy.batchResults Legacy.aborted].
  rewrite Hkeep, Hch, Hab'. split; reflexivity.
Qed.

Lemma existsb_never_stopped w ids :
  (forall id, stopDuring w id = false) -> existsb (stopDuring w) ids = false.
Proof.
  intros H. induction ids as [|id ids IH]; cbn; [reflexivity|]. now rewrite H, IH.
Qed.

(** Without a stop, [todo] batches from batch number [batch] on record the
    calls with the indices [batch * K .. min remainingCalls ((batch + todo) * K) - 1],
    in issue order. *)
Lemma Legacy_parallelLoop_uncancelled K w remainingCalls :
  1 <= K ->
  (forall id, stopDuring w id = false) ->
  forall todo batch st,
    Legacy.aborted st = false ->
    0 <= batch ->
    map ApiResult.id
      (Legacy.batchResults (Legacy.parallelLoop K w remainingCalls todo batch st))
    = (map ApiResult.id (Legacy.batchResults st)
       ++ idsFrom (batch * K + 2)
            (Z.to_nat (Z.min remainingCalls ((batch + Z.of_nat todo) * K) - batch * K)))%list.
Proof.
  intros HK Hstop todo; induction todo as [|todo IH]; intros batch st Hab Hb.
  - cbn [Legacy.parallelLoop].
    replace (Z.to_nat (Z.min remainingCalls ((batch + Z.of_nat 0) * K) - batch * K))
      with 0%nat by lia.
    cbn. now rewrite app_nil_r.
  - rewrite Legacy_parallelLoop_unfold, Hab.
    destruct (Legacy_batch_results K w remainingCalls batch st Hab) as [Hr Ha].
    rewrite existsb_never_stopped in Ha by exact Hstop.
    rewrite IH by (try exact Ha; lia). rewrite Hr, <- app_assoc. f_equal.
    destruct (Z.le_gt_cases (batch * K + K) remainingCalls) as [Hle|Hgt].
    + replace (Z.to_nat (Z.min (batch * K + K) remainingCalls - batch * K))
        with (Z.to_nat K) by lia.
      replace ((batch + 1) * K + 2) with (batch * K + 2 + Z.of_nat (Z.to_nat K)) by lia.
      rewrite idsFrom_app. f_equal. nia.
    + replace (Z.to_nat (Z.min remainingCalls ((batch + 1 + Z.of_nat todo) * K)
                         - (batch + 1) * K)) with 0%nat by nia.
      cbn [idsFrom seq map]. rewrite app_nil_r. f_equal. nia.
Qed.

Lemma ceilDiv_covers a b : 0 <= a -> 1 <= b -> a <= Legacy.ceilDiv a b * b.
Proof.
  intros Ha Hb. unfold Legacy.ceilDiv.
  pose proof (Z.div_mod (- a) b ltac:(lia)) as Hdm.
  pose proof (Z.mod_pos_bound (- a) b ltac:(lia)) as Hmod. nia.
Qed.

(** X2.  An uncancelled run in parallel mode records every call exactly
    once, and in issue order: with [threadCount >= 1] and [count >= 1], the
    ids of the recorded results are 1, 2, ..., [count] whatever the order
    in which the calls of a batch settle ([Promise.allSettled] keeps the
    order of the promises). *)
Theorem parallel_run_records_ids_in_issue_order :
  forall (threadCount : Z) (w : World) (count : Z),
    1 <= threadCount ->
    1 <= count ->
    correctTestValues (testValues w) <> None ->
    neverStopped w ->
    map ApiResult.id
      (Legacy.batchResults (Legacy.afterRun Legacy.parallel threadCount w count))
    = idsUpTo count.
Proof.
  intros K w count HK Hcount Hcfg [Hsetup Hstop].
  destruct (correctTestValues (testValues w)) as [[ds nin]|] eqn:Hc; [|congruence].
  unfold Legacy.afterRun, Legacy.runBatchCalls. rewrite Hc.
  cbn [Legacy.finally Legacy.batchResults].
  destruct (Legacy_firstCall_started Legacy.parallel w ds nin Hsetup) as (_ & Lr & La).
  rewrite Hstop in La.
  rewrite (Legacy_parallelLoop_uncancelled K w (count - 1) HK Hstop)
    by (try exact La; lia).
  rewrite Lr, (idsUpTo_split count Hcount). cbn [app]. do 2 f_equal.
  pose proof (ceilDiv_covers (count - 1) K ltac:(lia) HK).
  assert (0 <= Legacy.ceilDiv (count - 1) K) by nia.
  lia.
Qed.

Lemma parallel_run_records_ids_in_issue_order_witness :
  map ApiResult.id
    (Legacy.batchResults (Legacy.afterRun Legacy.parallel 2 exampleWorld 5))
  = [1; 2; 3; 4; 5].
Proof.
  apply (parallel_run_records_ids_in_issue_order 2 exampleWorld 5); try lia.
  - vm_compute. discriminate.
  - split; reflexivity.
Defined.

(** ** A run of at most one call *)

Lemma ceilDiv_nonpos a b : a <= 0 -> 1 <= b -> Legacy.ceilDiv a b <= 0.
Proof.
  intros Ha Hb. unfold Legacy.ceilDiv.
  pose proof (Z.div_pos (- a) b ltac:(lia) ltac:(lia)). lia.
Qed.

(** X3.  [runBatchCalls] always makes its first call: for every
    [count <= 1] (0 and negative numbers included) a run that is not
    stopped before its first call consists of exactly one call, the canary
    with id 1.  This holds for [app/page.tsx] and for both modes of the
    legacy page (with [threadCount >= 1]). *)
Theorem run_of_at_most_one_call_is_the_canary :
  forall (graphMaxPoints threadCount : Z) (batchMode : Legacy.BatchMode)
         (w : World) (count : Z),
    count <= 1 ->
    1 <= threadCount ->
    correctTestValues (testValues w) <> None ->
    stopDuringSetup w = false ->
    (map shape (Page.events (Page.afterRun graphMaxPoints w count)) = oneByOne [1]
     /\ map ApiResult.id (Page.batchResults (Page.afterRun graphMaxPoints w count)) = [1])
    /\ (map shape (Legacy.events (Legacy.afterRun batchMode threadCount w count))
        = oneByOne [1]
        /\ map ApiResult.id
             (Legacy.batchResults (Legacy.afterRun batchMode threadCount w count))
           = [1]).
Proof.
  intros gmp K batchMode w count Hcount HK Hcfg Hsetup.
  destruct (correctTestValues (testValues w)) as [[ds nin]|] eqn:Hc; [|congruence].
  unfold Page.afterRun, Page.runBatchCalls, Legacy.afterRun, Legacy.runBatchCalls.
  rewrite Hc.
  replace (Z.to_nat (count - 1)) with 0%nat by lia.
  replace (Z.to_nat (Legacy.ceilDiv (count - 1) K)) with 0%nat
    by (pose proof (ceilDiv_nonpos (count - 1) K ltac:(lia) HK); lia).
  destruct (Page_firstCall_started gmp w ds nin Hsetup) as (Pe & Pr & _).
  destruct (Legacy_firstCall_started batchMode w ds nin Hsetup) as (Le & Lr & _).
  split; [split; assumption|].
  destruct batchMode; split; assumption.
Qed.

Lemma run_of_at_most_one_call_is_the_canary_witness :
  map ApiResult.id (Page.batchResults (Page.afterRun 100 exampleWorld 0)) = [1].
Proof.
  refine (proj2 (proj1
            (run_of_at_most_one_call_is_the_canary 100 2 Legacy.parallel exampleWorld 0
               _ _ _ _))); try lia.
  - vm_compute. discriminate.
  - reflexivity.
Defined.

(** ** The graph of a run *)

Lemma pointsFrom_length seq results :
  List.length (pointsFrom seq results) = List.length results.
Proof.
  revert seq. induction results as [|r results IH]; intros seq; cbn; [reflexivity|].
  now rewrite IH.
Qed.

Lemma pointsFrom_snoc results r :
  forall seq,
    pointsFrom seq (results ++ [r])
    = (pointsFrom seq results
       ++ [Graph.point (seq + Z.of_nat (List.length results) + 1) r])%list.
Proof.
  induction results as [|r0 results IH]; intros seq; cbn [app pointsFrom List.length].
  - now rewrite Z.add_0_r.
  - rewrite IH. cbn [app]. do 4 f_equal. lia.
Qed.

Lemma slice_all {A : Type} (l : list A) (n : Z) :
  0 < n -> Z.of_nat (List.length l) <= n -> JS.slice l (- n) = l.
Proof.
  intros Hn Hl. unfold JS.slice.
  destruct (- n <? 0) eqn:E; [|apply Z.ltb_ge in E; lia].
  replace (Z.to_nat (Z.max (Z.of_nat (List.length l) + - n) 0)) with 0%nat by lia.
  reflexivity.
Qed.

Lemma updateUI_graphSequence twice gmp g :
  Graph.graphSequence (Graph.updateUI twice gmp g) = Graph.graphSequence g.
Proof. unfold Graph.updateUI. destruct (Graph.graphDataBuffer g); reflexivity. Qed.

Lemma updateUI_follows gmp g points :
  Z.of_nat (List.length points) <= gmp ->
  (Graph.responseTimeData g ++ Graph.graphDataBuffer g)%list = points ->
  (Graph.responseTimeData (Graph.updateUI false gmp g)
   ++ Graph.graphDataBuffer (Graph.updateUI false gmp g))%list = points
  /\ Graph.graphSequence (Graph.updateUI false gmp g) = Graph.graphSequence g.
Proof.
  intros Hlen Heq. unfold Graph.updateUI.
  destruct (Graph.graphDataBuffer g) as [|p buffer] eqn:Hbuf.
  - rewrite Hbuf. split; [exact Heq|reflexivity].
  - cbn [Graph.responseTimeData Graph.graphDataBuffer Graph.graphSequence
         Graph.seenByUpdater].
    rewrite <- Heq, length_app in Hlen.
    destruct (_ <=? gmp) eqn:E; [|apply Z.leb_gt in E; lia].
    rewrite app_nil_r. split; [exact Heq|reflexivity].
Qed.

Lemma Page_turn_graph_follows gmp w id st :
  updatersRunOnce w ->
  Page_graph_follows gmp st -> Page_graph_follows gmp (Page_turn gmp w id st).
Proof.
  intros Honce [Hseq Hpts].
  unfold Page_graph_follows, Page_turn, Page.makeApiCall, Page.call,
    Page.record. cbn [fst snd Page.batchResults Page.graph].
  rewrite (Honce id).
  set (r := Executor.makeApiCallWithParams _ _ _ _).
  rewrite length_app; cbn [List.length].
  assert (Hg : Graph.graphSequence
                 (if frameDuring w id then Graph.updateUI false gmp (Page.graph st)
                  else Page.graph st) = Graph.graphSequence (Page.graph st)).
  { destruct (frameDuring w id); [|reflexivity]. apply updateUI_graphSequence. }
  split.
  - cbn [Graph.addGraphDataPointToRef Graph.graphSequence]. rewrite Hg, Hseq. lia.
  - intros Hlen. specialize (Hpts ltac:(lia)).
    cbn [Graph.addGraphDataPointToRef Graph.responseTimeData Graph.graphDataBuffer].
    rewrite Hg, pointsFrom_snoc, app_assoc. f_equal; [|rewrite Hseq; reflexivity].
    destruct (frameDuring w id); [|exact Hpts].
    apply updateUI_follows; [|exact Hpts].
    rewrite pointsFrom_length. lia.
Qed.

Lemma Page_firstCall_graph_follows gmp w ds nin :
  Page_graph_follows gmp (Page.firstCall gmp w ds nin (Page.start w)).
Proof.
  unfold Page.firstCall, Page.start; cbn [Page.aborted].
  destruct (stopDuringSetup w).
  - split; [reflexivity|]. intros _. reflexivity.
  - unfold Page_graph_follows. cbn.
    destruct (frameDuring w 1); (split; [reflexivity|intros _; reflexivity]).
Qed.

Lemma Page_loop_graph_follows gmp w todo i st :
  updatersRunOnce w ->
  Page_graph_follows gmp st -> Page_graph_follows gmp (Page.loop gmp w todo i st).
Proof.
  intros Honce. apply (Page_loop_invariant (Page_graph_follows gmp)).
  intros id st0 H _. now apply Page_turn_graph_follows.
Qed.

(** The loop records at most one result per iteration. *)
Lemma Page_loop_results_bound gmp w :
  forall todo i st,
    (List.length (Page.batchResults (Page.loop gmp w todo i st))
     <= List.length (Page.batchResults st) + todo)%nat.
Proof.
  intros todo; induction todo as [|todo IH]; intros i st.
  - cbn. lia.
  - rewrite Page_loop_unfold. destruct (Page.aborted st); [lia|].
    specialize (IH (i + 1) (Page_turn gmp w (i + 2) st)).
    pose proof (f_equal (@List.length Z) (Page_turn_results gmp w (i + 2) st)) as Hl.
    rewrite length_map, length_app, length_map in Hl. cbn [List.length] in Hl. lia.
Qed.

Lemma Page_run_results_bound gmp w count :
  1 <= count ->
  Z.of_nat (List.length (Page.batchResults (Page.afterRun gmp w count))) <= count.
Proof.
  intros Hcount. unfold Page.afterRun, Page.runBatchCalls.
  destruct (correctTestValues (testValues w)) as [[ds nin]|]; [|cbn; lia].
  cbn [Page.finally Page.batchResults].
  pose proof (Page_loop_results_bound gmp w (Z.to_nat (count - 1)) 0
                (Page.firstCall gmp w ds nin (Page.start w))) as H.
  assert (H1 : (List.length
                  (Page.batchResults (Page.firstCall gmp w ds nin (Page.start w)))
                <= 1)%nat).
  { unfold Page.firstCall, Page.start; cbn [Page.aborted].
    destruct (stopDuringSetup w); cbn; lia. }
  lia.
Qed.

(** X4.  In [app/page.tsx], when every updater of the graph runs once (a
    production build), the graph loses nothing as long as the capacity is
    not reached: after a batch run of [count] calls with
    [1 <= count <= graphMaxPoints] and [count <= 100], whenever the UI was
    updated and whether or not the run was stopped, the graph shows one
    point per recorded result, in recording order, numbered 1, 2, ...;
    nothing is left in the buffer, and the sequence counter is the number
    of recorded results.  (With an updater that runs twice, buffered
    points are lost.) *)
Theorem page_graph_shows_every_result_below_capacity :
  forall (graphMaxPoints : Z) (w : World) (count : Z),
    updatersRunOnce w ->
    1 <= count <= graphMaxPoints ->
    count <= 100 ->
    let st := Page.afterRun graphMaxPoints w count in
    Graph.responseTimeData (Page.graph st) = pointsFrom 0 (Page.batchResults st)
    /\ Graph.graphDataBuffer (Page.graph st) = []
    /\ Graph.graphSequence (Page.graph st)
       = Z.of_nat (List.length (Page.batchResults st)).
Proof.
  intros gmp w count Honce Hcount H100 st.
  pose proof (Page_run_results_bound gmp w count ltac:(lia)) as Hbound. fold st in Hbound.
  subst st. revert Hbound. unfold Page.afterRun, Page.runBatchCalls.
  destruct (correctTestValues (testValues w)) as [[ds nin]|]; [|intros _; repeat split].
  cbn [Page.finally Page.batchResults Page.graph]. intros Hbound.
  destruct (Page_loop_graph_follows gmp w (Z.to_nat (count - 1)) 0 _ Honce
              (Page_firstCall_graph_follows gmp w ds nin)) as [Hseq Hpts].
  set (st := Page.loop gmp w (Z.to_nat (count - 1)) 0
               (Page.firstCall gmp w ds nin (Page.start w))) in *.
  specialize (Hpts ltac:(lia)).
  unfold Graph.finalFlush. rewrite (Honce 0).
  destruct (Graph.graphDataBuffer (Page.graph st)) as [|p buffer] eqn:Hbuf.
  - rewrite Hbuf. rewrite app_nil_r in Hpts. repeat split; assumption.
  - cbn [Graph.responseTimeData Graph.graphDataBuffer Graph.graphSequence
         Graph.seenByUpdater].
    rewrite Hpts. change (-100) with (- (100)).
    rewrite slice_all by (rewrite ?pointsFrom_length; lia).
    repeat split. exact Hseq.
Qed.

Lemma page_graph_shows_every_result_below_capacity_witness :
  Graph.responseTimeData (Page.graph (Page.afterRun 50 exampleWorld 12))
  = pointsFrom 0 (Page.batchResults (Page.afterRun 50 exampleWorld 12)).
Proof.
  exact (proj1 (page_graph_shows_every_result_below_capacity 50 exampleWorld 12
                  (fun id => eq_refl) ltac:(lia) ltac:(lia))).
Defined.

(** The invariants of the legacy page that depend on the mode. *)
Section LegacyInvariantByMode.

Variable batchMode : Legacy.BatchMode.
Variable P : Legacy.RunState -> Prop.
Variable w : World.

Hypothesis P_makeApiCall :
  forall id st, P st -> P (snd (Legacy.makeApiCall w id st)).
Hypothesis P_issue :
  forall id ds nin st, P st -> P (snd (Legacy.issue w id ds nin st)).
Hypothesis P_settle :
  forall ids order st, P st -> P (Legacy.settle w ids order st).
Hypothesis P_push :
  forall r st,
    P st ->
    P (Legacy.push
         (if Legacy.isSequential batchMode then Legacy.collectPoint
          else Legacy.plotPoint w)
         r st).
Hypothesis P_setStats : forall st, P st -> P (Legacy.setStats st).
Hypothesis P_start : P (Legacy.start w).

Lemma Legacy_firstCall_invariant_by_mode ds nin :
  P (Legacy.firstCall batchMode w ds nin (Legacy.start w)).
Proof.
  unfold Legacy.firstCall.
  destruct (Legacy.aborted (Legacy.start w)); [exact P_start|].
  pose proof (P_issue 1 ds nin (Legacy.start w) P_start) as H.
  destruct (Legacy.issue w 1 ds nin (Legacy.start w)) as [r st']. cbn [snd] in H.
  apply P_setStats. apply P_push. apply P_settle. exact H.
Qed.

Lemma Legacy_sequentialLoop_invariant_by_mode remainingCalls todo :
  batchMode = Legacy.sequential ->
  forall i st, P st -> P (Legacy.sequentialLoop w remainingCalls todo i st).
Proof.
  intros Hmode. rewrite Hmode in P_push. cbn [Legacy.isSequential] in P_push.
  induction todo as [|todo IH]; intros i st HP; cbn [Legacy.sequentialLoop];
    [exact HP|].
  destruct (Legacy.aborted st); [exact HP|].
  pose proof (P_makeApiCall (i + 2) st HP) as H.
  destruct (Legacy.makeApiCall w (i + 2) st) as [r st1]. cbn [snd] in H.
  apply IH.
  destruct (((i + 1) mod Legacy.updateInterval =? 0) || (i =? remainingCalls - 1));
    [apply P_setStats|]; apply P_push; apply P_settle; exact H.
Qed.

Lemma Legacy_parallelLoop_invariant_by_mode threadCount remainingCalls todo :
  batchMode = Legacy.parallel ->
  forall batch st,
    P st -> P (Legacy.parallelLoop threadCount w remainingCalls todo batch st).
Proof.
  intros Hmode. rewrite Hmode in P_push. cbn [Legacy.isSequential] in P_push.
  induction todo as [|todo IH]; intros batch st HP; cbn [Legacy.parallelLoop];
    [exact HP|].
  destruct (Legacy.aborted st); [exact HP|].
  match goal with
  | |- context [Legacy.dispatch w ?n ?i ?l st] =>
      pose proof (Legacy_dispatch_invariant P w P_makeApiCall n i l st HP) as Hd;
      destruct (Legacy.dispatch w n i l st) as [chunk st1]
  end.
  cbn [snd] in Hd. apply IH. apply P_setStats.
  assert (Hs : P (Legacy.awaitAll w (map ApiResult.id chunk) st1)) by now apply P_settle.
  revert Hs. generalize (Legacy.awaitAll w (map ApiResult.id chunk) st1).
  induction chunk as [|r chunk IHc]; intros st2 H2; cbn [fold_left]; [exact H2|].
  apply IHc. now apply P_push.
Qed.

End LegacyInvariantByMode.

Lemma slice_last {A : Type} (l : list A) (n : nat) :
  (0 < n)%nat -> JS.slice l (- Z.of_nat n) = skipn (List.length l - n) l.
Proof.
  intros Hn. unfold JS.slice.
  destruct (- Z.of_nat n <? 0) eqn:E; [|apply Z.ltb_ge in E; lia].
  f_equal. lia.
Qed.

(** Trimming to the last [n] elements after each addition gives the last
    [n] elements of everything added. *)
Lemma slice_last_snoc {A : Type} (l : list A) (x : A) (n : nat) :
  (0 < n)%nat ->
  JS.slice (JS.slice l (- Z.of_nat n) ++ [x]) (- Z.of_nat n)
  = JS.slice (l ++ [x]) (- Z.of_nat n).
Proof.
  intros Hn. rewrite !slice_last by exact Hn.
  rewrite !length_app, length_skipn. cbn [List.length].
  destruct (Nat.le_gt_cases (List.length l) n) as [Hle|Hgt].
  - replace (List.length l - n)%nat with 0%nat by lia. cbn [skipn].
    f_equal. lia.
  - replace (List.length l - (List.length l - n) + 1 - n)%nat with 1%nat by lia.
    replace (List.length l + 1 - n)%nat with (1 + (List.length l - n))%nat by lia.
    rewrite <- skipn_skipn.
    rewrite (skipn_app (List.length l - n) l [x]).
    replace (List.length l - n - List.length l)%nat with 0%nat by lia.
    reflexivity.
Qed.

Lemma Legacy_push_graph_follows batchMode w r st :
  batchMode = Legacy.sequential \/ updatersRunOnce w ->
  Legacy_graph_follows batchMode st ->
  Legacy_graph_follows batchMode
    (Legacy.push
       (if Legacy.isSequential batchMode then Legacy.collectPoint
        else Legacy.plotPoint w)
       r st).
Proof.
  intros Honce (Hseq & Hbuf & Htimer & Hmode). unfold Legacy_graph_follows.
  destruct batchMode; cbn [Legacy.isSequential] in *.
  - destruct Hmode as [Hrtd Hgdp]. cbn. rewrite length_app; cbn [List.length].
    repeat split; try assumption; [lia|].
    rewrite pointsFrom_snoc, Hgdp, Hseq. reflexivity.
  - destruct Honce as [Honce|Honce]; [discriminate|].
    destruct Hmode as [Hgdp Hrtd].
    unfold Legacy.push, Legacy.plotPoint, Graph.addGraphDataPoint.
    rewrite (Honce (ApiResult.id r)).
    cbn [Legacy.graph Legacy.batchResults Legacy.graphDataPoints fst snd
         Graph.seenByUpdater].
    rewrite Hbuf, Htimer. cbn [app List.length negb orb].
    replace ((5 <=? Z.of_nat 1) || true) with true by reflexivity.
    cbn [Graph.graphSequence Graph.graphDataBuffer Graph.graphUpdateTimer
         Graph.responseTimeData].
    rewrite length_app; cbn [List.length].
    repeat split; try assumption; [lia|].
    rewrite pointsFrom_snoc, Hrtd, Hseq. change (-100) with (- Z.of_nat 100).
    apply slice_last_snoc. lia.
Qed.

Lemma Legacy_loops_graph_follow batchMode threadCount w count ds nin :
  batchMode = Legacy.sequential \/ updatersRunOnce w ->
  Legacy_graph_follows batchMode
    match batchMode with
    | Legacy.sequential =>
        Legacy.sequentialLoop w (count - 1) (Z.to_nat (count - 1)) 0
          (Legacy.firstCall batchMode w ds nin (Legacy.start w))
    | Legacy.parallel =>
        Legacy.parallelLoop threadCount w (count - 1)
          (Z.to_nat (Legacy.ceilDiv (count - 1) threadCount)) 0
          (Legacy.firstCall batchMode w ds nin (Legacy.start w))
    end.
Proof.
  intros Honce.
  assert (Hkeep : forall st st' : Legacy.RunState,
             Legacy.batchResults st' = Legacy.batchResults st ->
             Legacy.graph st' = Legacy.graph st ->
             Legacy.graphDataPoints st' = Legacy.graphDataPoints st ->
             Legacy_graph_follows batchMode st -> Legacy_graph_follows batchMode st').
  { intros st st' H1 H2 H3. unfold Legacy_graph_follows. now rewrite H1, H2, H3. }
  assert (H1 : Legacy_graph_follows batchMode
                 (Legacy.firstCall batchMode w ds nin (Legacy.start w))).
  { apply (Legacy_firstCall_invariant_by_mode batchMode).
    - intros id ds0 nin0 st. now apply Hkeep.
    - intros ids order st. now apply Hkeep.
    - intros r st. now apply Legacy_push_graph_follows.
    - intros st. now apply Hkeep.
    - unfold Legacy_graph_follows, Legacy.start. destruct batchMode; cbn; repeat split. }
  destruct batchMode eqn:Hmode.
  - apply (Legacy_sequentialLoop_invariant_by_mode Legacy.sequential); try assumption;
      try reflexivity.
    + intros id st. now apply Hkeep.
    + intros ids order st. now apply Hkeep.
    + intros r st. now apply (Legacy_push_graph_follows Legacy.sequential).
    + intros st. now apply Hkeep.
  - apply (Legacy_parallelLoop_invariant_by_mode Legacy.parallel); try assumption;
      try reflexivity.
    + intros id st. now apply Hkeep.
    + intros ids order st. now apply Hkeep.
    + intros r st. now apply (Legacy_push_graph_follows Legacy.parallel).
    + intros st. now apply Hkeep.
Qed.

(** X5.  The legacy page keeps its capacity of 100 points exactly, in
    sequential mode always (its updater changes nothing but the state),
    and in parallel mode when every updater of the graph runs once (a
    production build): after a batch run of any length, stopped or not,
    the graph shows the points of the last 100 recorded results (of all of
    them when there are fewer), in recording order, numbered by their
    position in the run. *)
Theorem legacy_graph_shows_last_hundred_results :
  forall (batchMode : Legacy.BatchMode) (threadCount : Z) (w : World) (count : Z),
    batchMode = Legacy.sequential \/ updatersRunOnce w ->
    let st := Legacy.afterRun batchMode threadCount w count in
    let points := pointsFrom 0 (Legacy.batchResults st) in
    Graph.responseTimeData (Legacy.graph st)
    = skipn (List.length points - 100) points
    /\ withinCapacity 100 (Legacy.graph st).
Proof.
  intros batchMode K w count Honce st points.
  assert (H : Graph.responseTimeData (Legacy.graph st) = JS.slice points (-100)).
  { subst points st. unfold Legacy.afterRun, Legacy.runBatchCalls.
    destruct (correctTestValues (testValues w)) as [[ds nin]|]; [|reflexivity].
    pose proof (Legacy_loops_graph_follow batchMode K w count ds nin Honce)
      as (Hseq & Hbuf & Htimer & Hmode).
    destruct batchMode; cbn [Legacy.isSequential] in Hmode.
    - destruct Hmode as [Hrtd Hgdp].
      set (st := Legacy.sequentialLoop _ _ _ _ _) in *.
      cbn [Legacy.finally Legacy.mergeCollected Legacy.graph Legacy.batchResults].
      unfold Graph.finalFlush, Graph.setCollected.
      rewrite <- Hgdp.
      destruct (Legacy.graphDataPoints st) as [|p pts] eqn:Hp.
      + rewrite Hbuf, Hrtd. reflexivity.
      + cbn [Graph.graphDataBuffer Graph.responseTimeData]. rewrite Hbuf.
        cbn [Graph.responseTimeData]. rewrite Hrtd. reflexivity.
    - destruct Hmode as [Hgdp Hrtd].
      set (st := Legacy.parallelLoop _ _ _ _ _ _) in *.
      cbn [Legacy.finally Legacy.graph Legacy.batchResults].
      unfold Graph.finalFlush. rewrite Hbuf. exact Hrtd. }
  split.
  - rewrite H. change (-100) with (- Z.of_nat 100). apply slice_last. lia.
  - unfold withinCapacity. rewrite H.
    pose proof (slice_last_length points 100 ltac:(lia)) as Hl.
    cbn [Z.opp] in Hl. lia.
Qed.

Lemma legacy_graph_shows_last_hundred_results_witness :
  withinCapacity 100 (Legacy.graph (Legacy.afterRun Legacy.parallel 3 exampleWorld 7))
  /\ withinCapacity 100 (Legacy.graph (Legacy.afterRun Legacy.sequential 3 stoppedWorld 7)).
Proof.
  split.
  - exact (proj2 (legacy_graph_shows_last_hundred_results Legacy.parallel 3
                    exampleWorld 7 (or_intror (fun id => eq_refl)))).
  - exact (proj2 (legacy_graph_shows_last_hundred_results Legacy.sequential 3
                    stoppedWorld 7 (or_introl eq_refl))).
Defined.

(** ** The page and the proxy together *)

Lemma truthy_string_nonempty (s : string) : JS.truthy_string s = true <-> s <> "".
Proof. destruct s; cbn; split; congruence. Qed.

(** X6.  A call made through the proxy is recorded as a success exactly
    when both parameters are non-empty and the upstream API answers with a
    status between 200 and 299 (or with none, which the proxy reads as
    200).  Whenever the upstream answers, whatever its status, the outcome
    has no error message, carries the upstream status as its status code
    and the time measured by the proxy as its duration. *)
Theorem proxied_call_succeeds_iff_upstream_answers_2xx :
  forall (id : Z) (dateString nin : string) (upstream : ProxyRoute.Upstream),
    let result :=
      Executor.makeApiCallWithParams id dateString nin
        (ProxyRoute.GET dateString nin upstream) in
    (ApiResult.status result = success
     <-> dateString <> "" /\ nin <> ""
         /\ exists statusCode responseTime,
              upstream = ProxyRoute.Answered statusCode responseTime
              /\ (statusCode = 0 \/ 200 <= statusCode < 300))
    /\ (forall statusCode responseTime,
          dateString <> "" -> nin <> "" ->
          upstream = ProxyRoute.Answered statusCode responseTime ->
          ApiResult.error result = None
          /\ ApiResult.statusCode result
             = Some (if statusCode =? 0 then 200 else statusCode)
          /\ ApiResult.duration result
             = JS.or_duration (Some responseTime) (JS.of_int 0)).
Proof.
  intros id ds nin up result. subst result. unfold ProxyRoute.GET.
  destruct (JS.truthy_string ds) eqn:Hds; cbn [negb orb].
  2:{ split.
      - split; [intros H; discriminate H|].
        intros (H & _). apply truthy_string_nonempty in H. congruence.
      - intros sc t H. apply truthy_string_nonempty in H. congruence. }
  destruct (JS.truthy_string nin) eqn:Hnin; cbn [negb orb].
  2:{ split.
      - split; [intros H; discriminate H|].
        intros (_ & H & _). apply truthy_string_nonempty in H. congruence.
      - intros sc t _ H. apply truthy_string_nonempty in H. congruence. }
  apply truthy_string_nonempty in Hds, Hnin.
  destruct up as [sc t|e t].
  - unfold Proxy.GET_upstream_response, Executor.makeApiCallWithParams.
    cbn [Response.ok Response.status ProxyData.error ProxyData.ok ProxyData.status
         ProxyData.responseTime JS.truthy_string negb orb andb Z.leb Z.compare
         Pos.compare Pos.compare_cont].
    replace ((200 <=? 200) && (200 <=? 299)) with true by reflexivity.
    cbn [negb orb].
    assert (Hsc : JS.or_number
                    (Some (JS.or_number (Some (JS.or_number (Some sc) 200)) 200)) 500
                  = if sc =? 0 then 200 else sc).
    { unfold JS.or_number. destruct (sc =? 0) eqn:E; [reflexivity|].
      rewrite E. rewrite E. reflexivity. }
    rewrite Hsc. split.
    + cbn [ApiResult.status]. unfold JS.or_number.
      destruct (sc =? 0) eqn:E.
      * apply Z.eqb_eq in E. subst sc. cbn. split; [|reflexivity].
        intros _. repeat split; try assumption. exists 0, t. split; [reflexivity|lia].
      * apply Z.eqb_neq in E.
        destruct ((200 <=? sc) && (sc <? 300)) eqn:Hok.
        -- apply Bool.andb_true_iff in Hok. destruct Hok as [H1 H2].
           apply Z.leb_le in H1. apply Z.ltb_lt in H2.
           split; [|reflexivity]. intros _. repeat split; try assumption.
           exists sc, t. split; [reflexivity|lia].
        -- split; [intros H; discriminate H|].
           intros (_ & _ & sc' & t' & Heq & Hr). injection Heq as <- <-.
           apply Bool.andb_false_iff in Hok.
           destruct Hok as [H|H]; [apply Z.leb_gt in H|apply Z.ltb_ge in H]; lia.
    + intros sc' t' _ _ Heq. injection Heq as <- <-.
      destruct ((200 <=? JS.or_number (Some sc) 200)
                && (JS.or_number (Some sc) 200 <? 300)); repeat split.
  - unfold Proxy.GET_upstream_failure, Executor.makeApiCallWithParams.
    cbn [Response.ok Response.status ProxyData.error].
    replace ((200 <=? 500) && (500 <=? 299)) with false by reflexivity.
    cbn [negb orb ApiResult.status]. split.
    + split; [intros H; discriminate H|].
      intros (_ & _ & sc' & t' & Heq & _). discriminate Heq.
    + intros sc' t' _ _ Heq. discriminate Heq.
Qed.

Lemma proxied_call_succeeds_iff_upstream_answers_2xx_witness :
  ApiResult.status
    (Executor.makeApiCallWithParams 1 "1444-01" "1234567890"
       (ProxyRoute.GET "1444-01" "1234567890" (ProxyRoute.Answered 200 (JS.of_int 120))))
  = success
  /\ ApiResult.statusCode
       (Executor.makeApiCallWithParams 7 "1444-01" "1234567890"
          (ProxyRoute.GET "1444-01" "1234567890" (ProxyRoute.Answered 404 (JS.of_int 35))))
     = Some 404.
Proof.
  split.
  - apply (proj1 (proxied_call_succeeds_iff_upstream_answers_2xx
                    1 "1444-01" "1234567890" (ProxyRoute.Answered 200 (JS.of_int 120)))).
    split; [discriminate|]. split; [discriminate|].
    exists 200, (JS.of_int 120). split; [reflexivity|lia].
  - apply (proj2 (proxied_call_succeeds_iff_upstream_answers_2xx
                    7 "1444-01" "1234567890" (ProxyRoute.Answered 404 (JS.of_int 35)))
             404 (JS.of_int 35)); [discriminate|discriminate|reflexivity].
Defined.

(** ** The retry loop: backoff and exhaustion *)

Section RetryBackoff.

Context {T Env : Type}.
Variable fn : Env -> (T + Retry.ErrorObj) * Env.
Variable config : Retry.RetryConfig.

Lemma Retry_loop_backoff :
  forall todo attempt retryCount lastError attempts sleeps s,
    Z.of_nat todo = Retry.maxRetries config + 1 - attempt ->
    attempt = Z.of_nat (List.length attempts) ->
    sleeps = map (backoffDelay config) (seq 0 (List.length attempts)) ->
    (1 <= todo)%nat ->
    let run := Retry.loop fn config todo attempt retryCount lastError attempts sleeps s in
    Retry.sleeps run
    = map (backoffDelay config) (seq 0 (List.length (Retry.attempts run) - 1))
    /\ (1 <= List.length (Retry.attempts run))%nat.
Proof.
  induction todo as [|todo IH];
    intros attempt retryCount lastError attempts sleeps s Htodo Hatt Hsl Hpos run;
    [lia|].
  subst run. cbn [Retry.loop].
  assert (Hstop : forall r : T + Retry.ErrorObj,
             sleeps = map (backoffDelay config)
                        (seq 0 (List.length (attempts ++ [r]) - 1))
             /\ (1 <= List.length (attempts ++ [r]))%nat).
  { intros r. rewrite length_app; cbn [List.length].
    replace (List.length attempts + 1 - 1)%nat with (List.length attempts) by lia.
    split; [exact Hsl|lia]. }
  destruct (fn s) as [[result|e] s']; cbn [Retry.sleeps Retry.attempts].
  - apply Hstop.
  - destruct (Retry.maxRetries config <=? attempt) eqn:Hmax;
      cbn [Retry.sleeps Retry.attempts]; [apply Hstop|].
    destruct (Retry.isRetryable config e); cbn [negb Retry.sleeps Retry.attempts];
      [|apply Hstop].
    apply Z.leb_gt in Hmax. apply IH.
    + lia.
    + rewrite length_app; cbn [List.length]. lia.
    + rewrite length_app; cbn [List.length].
      rewrite Nat.add_1_r, seq_S, map_app, <- Hsl. cbn [map Nat.add].
      unfold backoffDelay. now rewrite <- Hatt.
    + lia.
Qed.

Lemma Retry_loop_exhausts :
  alwaysRetryable fn config ->
  forall todo attempt retryCount lastError attempts sleeps s,
    Z.of_nat todo = Retry.maxRetries config + 1 - attempt ->
    (1 <= todo)%nat ->
    let run := Retry.loop fn config todo attempt retryCount lastError attempts sleeps s in
    List.length (Retry.attempts run) = (List.length attempts + todo)%nat
    /\ exists before e,
         Retry.attempts run = (before ++ [inr e])%list
         /\ Retry.outcome run = Retry.Thrown (Some e).
Proof.
  intros Hfn. induction todo as [|todo IH];
    intros attempt retryCount lastError attempts sleeps s Htodo Hpos run; [lia|].
  subst run. cbn [Retry.loop].
  destruct (Hfn s) as (e & s' & Hs & He). rewrite Hs, He. cbn [negb].
  destruct (Retry.maxRetries config <=? attempt) eqn:Hmax.
  - apply Z.leb_le in Hmax. cbn [Retry.attempts Retry.outcome].
    rewrite length_app; cbn [List.length]. split; [lia|].
    exists attempts, e. split; reflexivity.
  - apply Z.leb_gt in Hmax.
    destruct (IH (attempt + 1) (retryCount + 1) (Some e) (attempts ++ [inr e])%list
                (sleeps ++ [Retry.retryDelay config * 2 ^ attempt])%list s')
      as (Hl & before & e' & Hb & Ho); [lia|lia|].
    split.
    + rewrite Hl, length_app; cbn [List.length]. lia.
    + exists before, e'. split; assumption.
Qed.

End RetryBackoff.

Lemma totalSleep_backoff (config : Retry.RetryConfig) (n : nat) :
  totalSleep (map (backoffDelay config) (seq 0 n))
  = Retry.retryDelay config * (2 ^ Z.of_nat n - 1).
Proof.
  induction n as [|n IH].
  - cbn. lia.
  - rewrite seq_S, map_app. unfold totalSleep in *.
    rewrite fold_right_app. cbn [map fold_right Nat.add].
    assert (Hshift : forall l a, fold_right Z.add a l = fold_right Z.add 0 l + a).
    { induction l as [|x l IHl]; intros a; cbn [fold_right]; [lia|].
      rewrite IHl. lia. }
    rewrite Hshift, IH. unfold backoffDelay.
    rewrite Nat2Z.inj_succ, Z.pow_succ_r by lia. lia.
Qed.

(** X7.  [withRetry] sleeps once between two successive attempts and never
    after the last one, and the delays double: the sleep after the failed
    attempt number [i] (from 0) lasts [retryDelay * 2^i].  This holds for
    every function, however the retries end. *)
Theorem withRetry_backs_off_exponentially :
  forall (T Env : Type) (fn : Env -> (T + Retry.ErrorObj) * Env)
         (config : Retry.RetryConfig) (s : Env),
    0 <= Retry.maxRetries config ->
    let run := Retry.withRetry fn config s in
    (1 <= List.length (Retry.attempts run))%nat
    /\ Retry.sleeps run
       = map (backoffDelay config) (seq 0 (List.length (Retry.attempts run) - 1)).
Proof.
  intros T Env fn config s Hmax run. subst run. unfold Retry.withRetry.
  destruct (Retry_loop_backoff fn config (Z.to_nat (Retry.maxRetries config + 1))
              0 0 None [] [] s) as [H1 H2]; try reflexivity; try lia.
  split; assumption.
Qed.

Lemma withRetry_backs_off_exponentially_witness :
  Retry.sleeps (Retry.withRetry unavailableFn Retry.DEFAULT_RETRY_CONFIG 0%nat)
  = map (backoffDelay Retry.DEFAULT_RETRY_CONFIG)
      (seq 0 (List.length
                (Retry.attempts
                   (Retry.withRetry unavailableFn Retry.DEFAULT_RETRY_CONFIG 0%nat)) - 1)).
Proof.
  exact (proj2 (withRetry_backs_off_exponentially nat nat unavailableFn
                  Retry.DEFAULT_RETRY_CONFIG 0%nat ltac:(cbn; lia))).
Defined.

(** X8.  When the function keeps failing with retryable errors,
    [withRetry] makes exactly [maxRetries + 1] attempts, throws the error
    of the last one, and has slept [retryDelay * (2^maxRetries - 1)]
    milliseconds in all (7 seconds with the default configuration). *)
Theorem withRetry_gives_up_after_max_retries :
  forall (T Env : Type) (fn : Env -> (T + Retry.ErrorObj) * Env)
         (config : Retry.RetryConfig) (s : Env),
    0 <= Retry.maxRetries config ->
    alwaysRetryable fn config ->
    let run := Retry.withRetry fn config s in
    Z.of_nat (List.length (Retry.attempts run)) = Retry.maxRetries config + 1
    /\ (exists before e,
          Retry.attempts run = (before ++ [inr e])%list
          /\ Retry.outcome run = Retry.Thrown (Some e))
    /\ totalSleep (Retry.sleeps run)
       = Retry.retryDelay config * (2 ^ Retry.maxRetries config - 1).
Proof.
  intros T Env fn config s Hmax Hfn run. subst run. unfold Retry.withRetry.
  destruct (Retry_loop_exhausts fn config Hfn (Z.to_nat (Retry.maxRetries config + 1))
              0 0 None [] [] s) as [Hl Hlast]; try lia.
  destruct (Retry_loop_backoff fn config (Z.to_nat (Retry.maxRetries config + 1))
              0 0 None [] [] s) as [Hs _]; try reflexivity; try lia.
  cbn [List.length Nat.add] in Hl.
  split; [rewrite Hl; lia|]. split; [exact Hlast|].
  rewrite Hs, Hl, totalSleep_backoff. f_equal. f_equal. f_equal. lia.
Qed.

Lemma withRetry_gives_up_after_max_retries_witness :
  Z.of_nat (List.length
              (Retry.attempts
                 (Retry.withRetry unavailableFn Retry.DEFAULT_RETRY_CONFIG 0%nat)))
  = 4
  /\ totalSleep (Retry.sleeps (Retry.withRetry unavailableFn Retry.DEFAULT_RETRY_CONFIG 0%nat))
     = 7000.
Proof.
  assert (Hmax : 0 <= Retry.maxRetries Retry.DEFAULT_RETRY_CONFIG) by (cbn; lia).
  assert (Hfn : alwaysRetryable unavailableFn Retry.DEFAULT_RETRY_CONFIG).
  { intros s. exists (Retry.mkError (Some 503) None), (S s). split; reflexivity. }
  pose proof (withRetry_gives_up_after_max_retries nat nat unavailableFn
                Retry.DEFAULT_RETRY_CONFIG 0%nat Hmax Hfn) as H.
  split; [exact (proj1 H)|exact (proj2 (proj2 H))].
Defined.

(** ** Digits and numbers *)

Lemma isDigit_digit_value (c : ascii) :
  JSString.isDigit c = true ->
  0 <= JSString.digit_value c < 10 /\ JS.digit_char (JSString.digit_value c) = c.
Proof.
  destruct c as [[] [] [] [] [] [] [] []]; intros H; try discriminate H;
    (split; [cbv; split; congruence|reflexivity]).
Qed.

Lemma isDigit_digit_char (d : Z) :
  0 <= d < 10 ->
  JSString.isDigit (JS.digit_char d) = true /\ JSString.digit_value (JS.digit_char d) = d.
Proof.
  intros H. rewrite <- (Z2Nat.id d) by lia.
  assert (Hk : (Z.to_nat d < 10)%nat) by lia. revert Hk.
  generalize (Z.to_nat d) as k. intros k Hk.
  do 10 (destruct k as [|k]; [split; reflexivity|]). lia.
Qed.

Lemma isDigit_not_whitespace (c : ascii) :
  JSString.isDigit c = true -> JSString.isWhiteSpace c = false.
Proof.
  destruct c as [[] [] [] [] [] [] [] []]; intros H; try discriminate H; reflexivity.
Qed.

Lemma isDigit_not_dash (c : ascii) :
  JSString.isDigit c = true -> Ascii.eqb c "-" = false.
Proof.
  destruct c as [[] [] [] [] [] [] [] []]; intros H; try discriminate H; reflexivity.
Qed.

Lemma string_app_nil_r (s : string) : s ++ "" = s.
Proof. induction s as [|c s IH]; cbn; [reflexivity|now rewrite IH]. Qed.

Lemma string_length_app (s t : string) :
  String.length (s ++ t) = (String.length s + String.length t)%nat.
Proof. induction s as [|c s IH]; cbn; [reflexivity|now rewrite IH]. Qed.

Lemma digits_app (s t : string) :
  JSString.digits (s ++ t) = JSString.digits s && JSString.digits t.
Proof.
  induction s as [|c s IH]; cbn; [reflexivity|]. rewrite IH. apply Bool.andb_assoc.
Qed.

Lemma fixed_width_length (w : nat) :
  forall n, String.length (Params.fixed_width w n) = w.
Proof.
  induction w as [|w IH]; intros n; cbn [Params.fixed_width]; [reflexivity|].
  rewrite string_length_app, IH. cbn. lia.
Qed.

Lemma fixed_width_digits (w : nat) :
  forall n, JSString.digits (Params.fixed_width w n) = true.
Proof.
  induction w as [|w IH]; intros n; cbn [Params.fixed_width]; [reflexivity|].
  rewrite digits_app, IH. cbn [JSString.digits andb].
  rewrite (proj1 (isDigit_digit_char (n mod 10) ltac:(apply Z.mod_pos_bound; lia))).
  reflexivity.
Qed.

(** Reading a string of digits after the digits already read. *)
Lemma Number_from_app (s t : string) :
  forall acc, JSString.Number_from acc (s ++ t)
              = JSString.Number_from (JSString.Number_from acc s) t.
Proof. induction s as [|c s IH]; intros acc; cbn; [reflexivity|apply IH]. Qed.

(** Printing with a fixed width, then reading, gives the number back. *)
Lemma Number_from_fixed_width (w : nat) :
  forall n acc,
    0 <= n < 10 ^ Z.of_nat w ->
    JSString.Number_from acc (Params.fixed_width w n) = acc * 10 ^ Z.of_nat w + n.
Proof.
  induction w as [|w IH]; intros n acc Hn.
  - cbn in *. lia.
  - cbn [Params.fixed_width]. rewrite Number_from_app.
    rewrite Nat2Z.inj_succ, Z.pow_succ_r in * by lia.
    rewrite IH by (split; [apply Z.div_pos; lia|apply Z.div_lt_upper_bound; lia]).
    cbn [JSString.Number_from].
    rewrite (proj2 (isDigit_digit_char (n mod 10) ltac:(apply Z.mod_pos_bound; lia))).
    pose proof (Z.div_mod n 10 ltac:(lia)). lia.
Qed.

(** Reading a string of digits, then printing with its width, gives the
    string back. *)
Lemma fixed_width_Number_from (s : string) :
  forall (w : nat) (acc : Z),
    JSString.digits s = true -> 0 <= acc ->
    0 <= JSString.Number_from acc s
    /\ Params.fixed_width (w + String.length s) (JSString.Number_from acc s)
       = Params.fixed_width w acc ++ s
    /\ JSString.Number_from acc s < (acc + 1) * 10 ^ Z.of_nat (String.length s).
Proof.
  induction s as [|c s IH]; intros w acc Hd Hacc.
  - cbn [JSString.Number_from String.length]. rewrite Nat.add_0_r, string_app_nil_r.
    split; [exact Hacc|]. split; [reflexivity|]. cbn. lia.
  - cbn [JSString.digits] in Hd. apply Bool.andb_true_iff in Hd. destruct Hd as [Hc Hd].
    destruct (isDigit_digit_value c Hc) as [Hv Hch].
    cbn [JSString.Number_from String.length].
    destruct (IH (S w) (10 * acc + JSString.digit_value c) Hd ltac:(lia))
      as (H0 & Hfw & Hlt).
    split; [exact H0|]. split.
    + replace (w + S (String.length s))%nat with (S w + String.length s)%nat by lia.
      rewrite Hfw. cbn [Params.fixed_width].
      replace ((10 * acc + JSString.digit_value c) / 10) with acc
        by (apply Z.div_unique with (r := JSString.digit_value c); lia).
      replace ((10 * acc + JSString.digit_value c) mod 10) with (JSString.digit_value c)
        by (apply Z.mod_unique with (q := acc); lia).
      rewrite Hch, string_app_assoc. reflexivity.
    + rewrite Nat2Z.inj_succ, Z.pow_succ_r by lia.
      assert (0 < 10 ^ Z.of_nat (String.length s)) by (apply Z.pow_pos_nonneg; lia).
      nia.
Qed.

Lemma digits_are_a_number (s : string) :
  JSString.digits s = true ->
  0 <= JSString.Number_ s < 10 ^ Z.of_nat (String.length s)
  /\ s = Params.fixed_width (String.length s) (JSString.Number_ s).
Proof.
  intros Hd. unfold JSString.Number_.
  destruct (fixed_width_Number_from s 0 0 Hd ltac:(lia)) as (H0 & Hfw & Hlt).
  cbn [Nat.add Params.fixed_width append] in Hfw. split; [lia|]. now symmetry.
Qed.

Lemma Number_fixed_width (w : nat) (n : Z) :
  0 <= n < 10 ^ Z.of_nat w -> JSString.Number_ (Params.fixed_width w n) = n.
Proof.
  intros Hn. unfold JSString.Number_. rewrite Number_from_fixed_width by exact Hn. lia.
Qed.

(** ** Trimming and splitting *)

Lemma trimEnd_noWhiteSpace (s : string) : noWhiteSpace s -> JSString.trimEnd s = s.
Proof.
  induction s as [|c s IH]; intros H; cbn [JSString.trimEnd]; [reflexivity|].
  rewrite IH by (intros c' Hc'; apply H; cbn; now right).
  destruct s; [|reflexivity].
  rewrite (H c) by (cbn; now left). reflexivity.
Qed.

Lemma trim_noWhiteSpace (s : string) : noWhiteSpace s -> JSString.trim s = s.
Proof.
  intros H. unfold JSString.trim.
  assert (Hs : JSString.trimStart s = s).
  { destruct s as [|c s]; [reflexivity|]. cbn [JSString.trimStart].
    rewrite (H c) by (cbn; now left). reflexivity. }
  rewrite Hs. now apply trimEnd_noWhiteSpace.
Qed.

Lemma digits_noWhiteSpace (s : string) : JSString.digits s = true -> noWhiteSpace s.
Proof.
  induction s as [|c s IH]; intros Hd c' Hin; cbn in Hin; [contradiction|].
  cbn [JSString.digits] in Hd. apply Bool.andb_true_iff in Hd. destruct Hd as [Hc Hd].
  destruct Hin as [<-|Hin]; [now apply isDigit_not_whitespace|now apply IH].
Qed.

Lemma noWhiteSpace_app (s t : string) :
  noWhiteSpace s -> noWhiteSpace t -> noWhiteSpace (s ++ t).
Proof.
  induction s as [|c s IH]; intros Hs Ht; cbn [append]; [exact Ht|].
  intros c' Hin. cbn in Hin. destruct Hin as [<-|Hin].
  - apply Hs. cbn. now left.
  - apply IH; [|exact Ht|exact Hin]. intros c'' Hc''. apply Hs. cbn. now right.
Qed.

Lemma split_digits (s : string) :
  JSString.digits s = true -> JSString.split "-" s = [s].
Proof.
  induction s as [|c s IH]; intros Hd; cbn [JSString.split]; [reflexivity|].
  cbn [JSString.digits] in Hd. apply Bool.andb_true_iff in Hd. destruct Hd as [Hc Hd].
  rewrite (isDigit_not_dash c Hc), (IH Hd). reflexivity.
Qed.

Lemma split_digits_dash (s t : string) :
  JSString.digits s = true ->
  JSString.split "-" (s ++ String "-" t) = s :: JSString.split "-" t.
Proof.
  induction s as [|c s IH]; intros Hd; cbn [append JSString.split].
  - reflexivity.
  - cbn [JSString.digits] in Hd. apply Bool.andb_true_iff in Hd. destruct Hd as [Hc Hd].
    rewrite (isDigit_not_dash c Hc), (IH Hd). reflexivity.
Qed.

Lemma trim_empty_of_empty (s : string) : s = "" -> JSString.trim s = "".
Proof. intros ->. reflexivity. Qed.

(** ** The validators *)

(** The strings that pass the date pattern. *)
Lemma DATE_STRING_PATTERN_spec (s : string) :
  Validation.DATE_STRING_PATTERN_test s = true
  <-> exists y m,
        s = y ++ "-" ++ m
        /\ JSString.digits y = true /\ String.length y = 4%nat
        /\ JSString.digits m = true /\ String.length m = 2%nat.
Proof.
  split.
  - destruct s as [|y1 [|y2 [|y3 [|y4 [|dash [|m1 [|m2 [|x s]]]]]]]]; try discriminate.
    cbn [Validation.DATE_STRING_PATTERN_test]. intros H.
    apply Bool.andb_true_iff in H; destruct H as [H Hm2].
    apply Bool.andb_true_iff in H; destruct H as [H Hm1].
    apply Bool.andb_true_iff in H; destruct H as [H Hdash].
    apply Bool.andb_true_iff in H; destruct H as [H Hy4].
    apply Bool.andb_true_iff in H; destruct H as [H Hy3].
    apply Bool.andb_true_iff in H; destruct H as [Hy1 Hy2].
    apply Ascii.eqb_eq in Hdash. subst dash.
    exists (String y1 (String y2 (String y3 (String y4 "")))), (String m1 (String m2 "")).
    cbn [JSString.digits]. rewrite Hy1, Hy2, Hy3, Hy4, Hm1, Hm2. repeat split.
  - intros (y & m & -> & Hy & Ly & Hm & Lm).
    destruct y as [|y1 [|y2 [|y3 [|y4 [|x y]]]]]; try discriminate Ly.
    destruct m as [|m1 [|m2 [|x m]]]; try discriminate Lm.
    cbn [JSString.digits] in Hy, Hm.
    apply Bool.andb_true_iff in Hy; destruct Hy as [Hy1 Hy].
    apply Bool.andb_true_iff in Hy; destruct Hy as [Hy2 Hy].
    apply Bool.andb_true_iff in Hy; destruct Hy as [Hy3 Hy].
    apply Bool.andb_true_iff in Hy; destruct Hy as [Hy4 _].
    apply Bool.andb_true_iff in Hm; destruct Hm as [Hm1 Hm].
    apply Bool.andb_true_iff in Hm; destruct Hm as [Hm2 _].
    cbn [append Validation.DATE_STRING_PATTERN_test].
    rewrite Hy1, Hy2, Hy3, Hy4, Hm1, Hm2. reflexivity.
Qed.

Lemma validateDateString_accepts (dateString : string) (year month : Z) :
  1400 <= year <= 1499 -> 1 <= month <= 12 ->
  JSString.trim dateString = Params.fixed_width 4 year ++ "-" ++ Params.fixed_width 2 month ->
  Validation.validateDateString dateString = Validation.mkResult true None.
Proof.
  intros Hy Hm Ht. unfold Validation.validateDateString.
  assert (Hne : JS.truthy_string dateString = true).
  { destruct dateString; [|reflexivity]. cbn in Ht. discriminate Ht. }
  rewrite Hne, Ht. cbn [negb orb].
  assert (Hp : Validation.DATE_STRING_PATTERN_test
                 (Params.fixed_width 4 year ++ "-" ++ Params.fixed_width 2 month) = true).
  { apply DATE_STRING_PATTERN_spec.
    exists (Params.fixed_width 4 year), (Params.fixed_width 2 month).
    rewrite !fixed_width_digits, !fixed_width_length. repeat split. }
  assert (Htr : JS.truthy_string
                  (Params.fixed_width 4 year ++ "-" ++ Params.fixed_width 2 month) = true).
  { apply DATE_STRING_PATTERN_spec in Hp. destruct Hp as (y & m & -> & _ & Ly & _).
    destruct y; [discriminate Ly|reflexivity]. }
  rewrite Htr, Hp. cbn [negb].
  change ("-" ++ Params.fixed_width 2 month) with (String "-" (Params.fixed_width 2 month)).
  rewrite split_digits_dash by apply fixed_width_digits.
  rewrite split_digits by apply fixed_width_digits.
  cbn [map nth].
  rewrite (Number_fixed_width 4 year) by (cbn; lia).
  rewrite (Number_fixed_width 2 month) by (cbn; lia).
  replace (year <? 1400) with false by (symmetry; apply Z.ltb_ge; lia).
  replace (year >? 1499) with false by (symmetry; rewrite Z.gtb_ltb; apply Z.ltb_ge; lia).
  replace (month <? 1) with false by (symmetry; apply Z.ltb_ge; lia).
  replace (month >? 12) with false by (symmetry; rewrite Z.gtb_ltb; apply Z.ltb_ge; lia).
  reflexivity.
Qed.

Lemma validateDateString_valid_inv (dateString : string) :
  Validation.valid (Validation.validateDateString dateString) = true ->
  exists year month,
    1400 <= year <= 1499 /\ 1 <= month <= 12
    /\ JSString.trim dateString
       = Params.fixed_width 4 year ++ "-" ++ Params.fixed_width 2 month.
Proof.
  unfold Validation.validateDateString.
  destruct (negb (JS.truthy_string dateString)
            || negb (JS.truthy_string (JSString.trim dateString))); [discriminate|].
  destruct (Validation.DATE_STRING_PATTERN_test (JSString.trim dateString)) eqn:Hp;
    [|discriminate].
  cbn [negb].
  apply DATE_STRING_PATTERN_spec in Hp. destruct Hp as (y & m & Ht & Hy & Ly & Hm & Lm).
  rewrite Ht.
  change ("-" ++ m) with (String "-" m).
  rewrite split_digits_dash by exact Hy. rewrite split_digits by exact Hm.
  cbn [map nth].
  destruct (digits_are_a_number y Hy) as [_ Hyv].
  destruct (digits_are_a_number m Hm) as [_ Hmv].
  rewrite Ly in Hyv. rewrite Lm in Hmv.
  destruct ((JSString.Number_ y <? 1400) || (JSString.Number_ y >? 1499)) eqn:Hyr;
    [discriminate|].
  destruct ((JSString.Number_ m <? 1) || (JSString.Number_ m >? 12)) eqn:Hmr;
    [discriminate|].
  intros _.
  apply Bool.orb_false_iff in Hyr, Hmr. destruct Hyr as [Hy1 Hy2], Hmr as [Hm1 Hm2].
  rewrite Z.gtb_ltb in Hy2, Hm2.
  apply Z.ltb_ge in Hy1, Hy2, Hm1, Hm2.
  exists (JSString.Number_ y), (JSString.Number_ m).
  split; [lia|]. split; [lia|]. now rewrite <- Hyv, <- Hmv.
Qed.

Lemma validateNIN_accepts (nin : string) (w : nat) (n : Z) :
  (w = 9 \/ w = 10)%nat ->
  JSString.trim nin = Params.fixed_width w n ->
  Validation.validateNIN nin = Validation.mkResult true None.
Proof.
  intros Hw Ht. unfold Validation.validateNIN.
  assert (Hne : JS.truthy_string nin = true).
  { destruct nin; [|reflexivity].
    pose proof (fixed_width_length w n) as Hl. rewrite <- Ht in Hl.
    cbn in Hl. destruct Hw; lia. }
  rewrite Hne, Ht. cbn [negb orb].
  assert (Hp : Validation.NIN_PATTERN_test (Params.fixed_width w n) = true).
  { unfold Validation.NIN_PATTERN_test.
    rewrite fixed_width_digits, fixed_width_length.
    destruct Hw as [-> | ->]; reflexivity. }
  assert (Htr : JS.truthy_string (Params.fixed_width w n) = true).
  { pose proof (fixed_width_length w n) as Hl.
    destruct (Params.fixed_width w n); [|reflexivity].
    cbn in Hl. destruct Hw; lia. }
  rewrite Htr, Hp. reflexivity.
Qed.

Lemma validateNIN_valid_inv (nin : string) :
  Validation.valid (Validation.validateNIN nin) = true ->
  exists (w : nat) (n : Z),
    (w = 9 \/ w = 10)%nat /\ 0 <= n < 10 ^ Z.of_nat w
    /\ JSString.trim nin = Params.fixed_width w n.
Proof.
  unfold Validation.validateNIN.
  destruct (negb (JS.truthy_string nin) || negb (JS.truthy_string (JSString.trim nin)));
    [discriminate|].
  destruct (Validation.NIN_PATTERN_test (JSString.trim nin)) eqn:Hp; [|discriminate].
  intros _. unfold Validation.NIN_PATTERN_test in Hp.
  apply Bool.andb_true_iff in Hp. destruct Hp as [Hp H10].
  apply Bool.andb_true_iff in Hp. destruct Hp as [Hd H9].
  apply Nat.leb_le in H9, H10.
  destruct (digits_are_a_number _ Hd) as [Hr Hs].
  exists (String.length (JSString.trim nin)), (JSString.Number_ (JSString.trim nin)).
  split; [lia|]. split; [exact Hr|exact Hs].
Qed.

(** X9.  [validateDateString] accepts a string exactly when, once trimmed,
    it is a year between 1400 and 1499 written with four digits, a dash,
    and a month between 1 and 12 written with two digits. *)
Theorem validateDateString_accepts_exactly_hijri_months :
  forall dateString : string,
    Validation.valid (Validation.validateDateString dateString) = true
    <-> exists year month,
          1400 <= year <= 1499 /\ 1 <= month <= 12
          /\ JSString.trim dateString
             = Params.fixed_width 4 year ++ "-" ++ Params.fixed_width 2 month.
Proof.
  intros dateString. split.
  - apply validateDateString_valid_inv.
  - intros (year & month & Hy & Hm & Ht).
    now rewrite (validateDateString_accepts dateString year month Hy Hm Ht).
Qed.

Lemma validateDateString_accepts_exactly_hijri_months_witness :
  Validation.valid (Validation.validateDateString "  1444-01 ") = true.
Proof.
  apply (proj2 (validateDateString_accepts_exactly_hijri_months "  1444-01 ")).
  exists 1444, 1. split; [lia|]. split; [lia|reflexivity].
Defined.

(** X10.  [validateNIN] accepts a string exactly when, once trimmed, it
    consists of nine or of ten decimal digits; leading zeros are accepted. *)
Theorem validateNIN_accepts_exactly_nine_or_ten_digits :
  forall nin : string,
    Validation.valid (Validation.validateNIN nin) = true
    <-> exists (w : nat) (n : Z),
          (w = 9 \/ w = 10)%nat /\ 0 <= n < 10 ^ Z.of_nat w
          /\ JSString.trim nin = Params.fixed_width w n.
Proof.
  intros nin. split.
  - apply validateNIN_valid_inv.
  - intros (w & n & Hw & _ & Ht). now rewrite (validateNIN_accepts nin w n Hw Ht).
Qed.

Lemma validateNIN_accepts_exactly_nine_or_ten_digits_witness :
  Validation.valid (Validation.validateNIN "0012345678") = true.
Proof.
  apply (proj2 (validateNIN_accepts_exactly_nine_or_ten_digits "0012345678")).
  exists 10%nat, 12345678. split; [now right|]. split; [cbn; lia|reflexivity].
Defined.

(** ** The generators against the validators *)

Lemma generateRandomDateString_shape (ry rm : spec_float) :
  JS.is_random_value ry = true -> JS.is_random_value rm = true ->
  exists year month,
    1400 <= year <= 1499 /\ 1 <= month <= 12
    /\ Params.generateRandomDateString ry rm
       = Params.fixed_width 4 year ++ "-" ++ Params.fixed_width 2 month.
Proof.
  intros Hy Hm.
  destruct (floor_of_scaled_random 100 46 7036874417766400 ry
              ltac:(lia) ltac:(lia) ltac:(reflexivity) ltac:(cbn; lia) Hy)
    as (ky & Hky & Hyr).
  destruct (floor_of_scaled_random 12 49 6755399441055744 rm
              ltac:(lia) ltac:(lia) ltac:(reflexivity) ltac:(cbn; lia) Hm)
    as (km & Hkm & Hmr).
  change (S754_finite false 7036874417766400 (- (46))) with (JS.of_int 100) in Hky.
  change (S754_finite false 6755399441055744 (- (49))) with (JS.of_int 12) in Hkm.
  exists (ky + 1400), (km + 1). split; [lia|]. split; [lia|].
  unfold Params.generateRandomDateString, Params.floor_scaled.
  rewrite Hky, Hkm. cbn [option_map Params.print].
  rewrite (String_fixed_width 3 (ky + 1400)) by (cbn; lia).
  rewrite (month_padded (km + 1)) by lia. reflexivity.
Qed.

Lemma generateRandomNIN_shape (rn : spec_float) :
  JS.is_random_value rn = true ->
  exists n,
    100000000 <= n <= 999999999
    /\ Params.generateRandomNIN rn = Params.fixed_width 9 n.
Proof.
  intros Hn.
  destruct (floor_of_scaled_random 900000000 23 7549747200000000 rn
              ltac:(lia) ltac:(lia) ltac:(reflexivity) ltac:(cbn; lia) Hn)
    as (kn & Hkn & Hnr).
  change (S754_finite false 7549747200000000 (- (23))) with (JS.of_int 900000000) in Hkn.
  exists (kn + 100000000). split; [lia|].
  unfold Params.generateRandomNIN, Params.floor_scaled.
  rewrite Hkn. cbn [option_map Params.print].
  apply (String_fixed_width 8). cbn; lia.
Qed.

Lemma dash_noWhiteSpace (s : string) : noWhiteSpace s -> noWhiteSpace ("-" ++ s).
Proof.
  intros H c Hin. cbn in Hin. destruct Hin as [<-|Hin]; [reflexivity|now apply H].
Qed.

(** X11.  The parameters the batch runner generates always pass the
    validators: whatever the random source returns, [validateApiParams]
    accepts the generated [dateString] and [nin] and reports no error. *)
Theorem generated_parameters_pass_validation :
  forall ry rm rn : spec_float,
    JS.is_random_value ry = true ->
    JS.is_random_value rm = true ->
    JS.is_random_value rn = true ->
    Validation.validateApiParams
      (Params.generateRandomDateString ry rm) (Params.generateRandomNIN rn)
    = Validation.mkParamsResult true [].
Proof.
  intros ry rm rn Hy Hm Hn.
  destruct (generateRandomDateString_shape ry rm Hy Hm) as (year & month & Hyr & Hmr & Hds).
  destruct (generateRandomNIN_shape rn Hn) as (n & Hnr & Hnin).
  unfold Validation.validateApiParams.
  rewrite (validateDateString_accepts _ year month Hyr Hmr).
  2:{ rewrite Hds. apply trim_noWhiteSpace. apply noWhiteSpace_app.
      - apply digits_noWhiteSpace, fixed_width_digits.
      - apply dash_noWhiteSpace, digits_noWhiteSpace, fixed_width_digits. }
  rewrite (validateNIN_accepts _ 9 n (or_introl eq_refl)).
  2:{ rewrite Hnin. apply trim_noWhiteSpace, digits_noWhiteSpace, fixed_width_digits. }
  reflexivity.
Qed.

Lemma generated_parameters_pass_validation_witness :
  Validation.validateApiParams
    (Params.generateRandomDateString
       (S754_finite false 4503599627370496 (-53)) (S754_zero false))
    (Params.generateRandomNIN (S754_finite false 9007199254740991 (-53)))
  = Validation.mkParamsResult true [].
Proof.
  exact (generated_parameters_pass_validation
           (S754_finite false 4503599627370496 (-53)) (S754_zero false)
           (S754_finite false 9007199254740991 (-53))
           ltac:(reflexivity) ltac:(reflexivity) ltac:(reflexivity)).
Defined.

(** ** The two notions of a retryable error *)

(** X12.  [isRetryableError] and the test made by [withRetry] under the
    default configuration agree on every error but one kind: an error
    with code ECONNREFUSED is retryable for [isRetryableError], while
    [withRetry] retries it only if its status code is a retryable one. *)
Theorem isRetryableError_differs_on_ECONNREFUSED_only :
  forall error : Retry.ErrorObj,
    Errors.isRetryableError error
    = Retry.isRetryable Retry.DEFAULT_RETRY_CONFIG error
      || match Retry.code error with
         | Some c => String.eqb c "ECONNREFUSED"
         | None => false
         end.
Proof.
  intros [statusCode code].
  unfold Errors.isRetryableError, Retry.isRetryable, JS.includes_string, JS.includes_number.
  cbn [Retry.code Retry.statusCode Retry.retryableStatusCodes Retry.DEFAULT_RETRY_CONFIG
       existsb].
  assert (Hs : match statusCode with
               | Some s =>
                   negb (s =? 0)
                   && ((s =? 500) || ((s =? 502) || ((s =? 503) || ((s =? 504)
                       || ((s =? 408) || false)))))
               | None => false
               end
               = (JS.or_number statusCode 0 =? 500)
                 || ((JS.or_number statusCode 0 =? 502)
                     || ((JS.or_number statusCode 0 =? 503)
                         || ((JS.or_number statusCode 0 =? 504)
                             || ((JS.or_number statusCode 0 =? 408) || false))))).
  { destruct statusCode as [s|]; [|reflexivity]. unfold JS.or_number.
    destruct (s =? 0) eqn:E; [|reflexivity].
    apply Z.eqb_eq in E. subst s. reflexivity. }
  rewrite Hs.
  set (status := (JS.or_number statusCode 0 =? 500) || _).
  destruct code as [c|].
  - destruct c as [|a c].
    + cbn. destruct status; reflexivity.
    + cbn [JS.truthy_string andb].
      destruct (String.eqb (String a c) "ETIMEDOUT"),
               (String.eqb (String a c) "ECONNRESET"),
               (String.eqb (String a c) "ENOTFOUND"),
               (String.eqb (String a c) "ECONNREFUSED"),
               status; reflexivity.
  - destruct status; reflexivity.
Qed.

(** ** Previews and time stamps *)

Lemma substring0_length (s : string) :
  forall n : nat, String.length (String.substring 0 n s) = Nat.min n (String.length s).
Proof.
  induction s as [|c s IH]; intros [|n]; cbn; try reflexivity. now rewrite IH.
Qed.

Lemma shorten_length (s : string) (maxLength : Z) :
  Z.of_nat (String.length (Format.shorten s maxLength)) <= Z.max 0 maxLength + 3.
Proof.
  unfold Format.shorten, Format.substring0.
  destruct (Z.of_nat (String.length s) >? maxLength) eqn:E.
  - rewrite string_length_app, substring0_length. cbn [String.length]. lia.
  - rewrite Z.gtb_ltb in E. apply Z.ltb_ge in E. lia.
Qed.

(** X13.  A preview is never longer than [maxLength] characters plus the
    three dots (three characters when [maxLength] is negative); with the
    default [maxLength] of 50, which [addApiLog] uses too, at most 53. *)
Theorem formatResponsePreview_length_bounded :
  forall (response : Format.Value) (maxLength : Z),
    Z.of_nat (String.length (Format.formatResponsePreview response maxLength))
    <= Z.max 0 maxLength + 3.
Proof.
  intros [|s|[responseStr|] printed|responseStr] maxLength;
    cbn [Format.formatResponsePreview]; try apply shorten_length.
  - cbn. lia.
  - unfold Format.substring0. rewrite substring0_length. lia.
Qed.

Lemma two_digits_padded (n : Z) :
  0 <= n <= 99 -> JS.padStart (JS.String_ n) 2 "0" = Params.fixed_width 2 n.
Proof.
  intros H. destruct (Z.lt_ge_cases n 10) as [Hlt|Hge].
  - rewrite <- (Z2Nat.id n) by lia.
    assert (Hk : (Z.to_nat n < 10)%nat) by lia. revert Hk.
    generalize (Z.to_nat n) as k. intros k Hk.
    do 10 (destruct k as [|k]; [reflexivity|]). lia.
  - rewrite (String_fixed_width 1 n) by (cbn; lia).
    unfold JS.padStart. rewrite fixed_width_length. reflexivity.
Qed.

(** X14.  For a time of day (hours 0 to 23, minutes and seconds 0 to 59)
    [formatTimeHHMMSS] returns six digits: the hours, the minutes and the
    seconds, each written with two digits. *)
Theorem formatTimeHHMMSS_six_digits :
  forall date : Format.Date,
    0 <= Format.getHours date <= 23 ->
    0 <= Format.getMinutes date <= 59 ->
    0 <= Format.getSeconds date <= 59 ->
    Format.formatTimeHHMMSS date
    = Params.fixed_width 2 (Format.getHours date)
      ++ Params.fixed_width 2 (Format.getMinutes date)
      ++ Params.fixed_width 2 (Format.getSeconds date)
    /\ String.length (Format.formatTimeHHMMSS date) = 6%nat
    /\ JSString.digits (Format.formatTimeHHMMSS date) = true.
Proof.
  intros date Hh Hm Hs. unfold Format.formatTimeHHMMSS.
  rewrite !two_digits_padded by lia.
  split; [reflexivity|].
  rewrite !string_length_app, !digits_app, !fixed_width_length, !fixed_width_digits.
  split; reflexivity.
Qed.

Lemma formatTimeHHMMSS_six_digits_witness :
  Format.formatTimeHHMMSS (Format.mkDate 9 5 37) = "090537".
Proof.
  exact (proj1 (formatTimeHHMMSS_six_digits (Format.mkDate 9 5 37)
                  ltac:(cbn; lia) ltac:(cbn; lia) ltac:(cbn; lia))).
Defined.

(** ** The manual runner *)

Lemma Manual_test_follows gmp w params tests st :
  Manual_follows gmp w tests st ->
  Manual_follows gmp w
    (tests ++ [(JSString.trim (Manual.dateString params),
                JSString.trim (Manual.nin params))])%list
    (Manual.test gmp w params st).
Proof.
  intros (Hpar & Hids & Hcall & Hstats & Hseq & Hpts).
  unfold Manual_follows, Manual.test.
  cbn [Manual.manualResults Manual.stats Manual.graph Manual.callId].
  set (r := Executor.makeApiCallWithParams _ _ _ _).
  assert (Hr : paramsOf r = (JSString.trim (Manual.dateString params),
                             JSString.trim (Manual.nin params))).
  { unfold paramsOf, r. destruct (makeApiCallWithParams_params
      (Manual.callId st) (JSString.trim (Manual.dateString params))
      (JSString.trim (Manual.nin params))
      (network w (Manual.callId st) (JSString.trim (Manual.dateString params))
         (JSString.trim (Manual.nin params)))) as [-> ->]. reflexivity. }
  assert (Hid : ApiResult.id r = Manual.callId st)
    by apply makeApiCallWithParams_id.
  assert (Hg : Graph.graphSequence
                 (if frameDuring w (Manual.callId st)
                  then Graph.updateUI (updaterTwice w (Manual.callId st)) gmp
                         (Manual.graph st)
                  else Manual.graph st) = Graph.graphSequence (Manual.graph st)).
  { destruct (frameDuring w (Manual.callId st)); [|reflexivity].
    apply updateUI_graphSequence. }
  rewrite !map_app, !length_app. cbn [map List.length].
  split; [now rewrite Hpar, Hr|]. split.
  { rewrite Hids, Hid, Hcall, <- idsFrom_app. cbn [idsFrom seq map].
    now rewrite Z.add_0_r. }
  split; [lia|]. split.
  { rewrite fold_left_app, <- Hstats. reflexivity. }
  split.
  { cbn [Graph.addGraphDataPointToRef Graph.graphSequence]. rewrite Hg, Hseq. lia. }
  intros Honce Hlen. specialize (Hpts Honce ltac:(lia)).
  cbn [Graph.addGraphDataPointToRef Graph.responseTimeData Graph.graphDataBuffer].
  rewrite Hg, pointsFrom_snoc, app_assoc. f_equal; [|rewrite Hseq; reflexivity].
  destruct (frameDuring w (Manual.callId st)); [|exact Hpts].
  rewrite (Honce (Manual.callId st)).
  apply updateUI_follows; [|exact Hpts].
  rewrite pointsFrom_length. lia.
Qed.

Lemma Manual_repeatLoop_follows gmp w params :
  forall todo tests st,
    Manual_follows gmp w tests st ->
    Manual_follows gmp w
      (tests ++ repeat (JSString.trim (Manual.dateString params),
                        JSString.trim (Manual.nin params)) todo)%list
      (Manual.repeatLoop gmp w params todo st).
Proof.
  induction todo as [|todo IH]; intros tests st H; cbn [Manual.repeatLoop repeat].
  - now rewrite app_nil_r.
  - rewrite (app_assoc tests [_] _ : (tests ++ _ :: _ = _)%list).
    apply IH. now apply Manual_test_follows.
Qed.

Lemma Manual_rows_follow gmp w manualRepeatCount :
  forall manualParams tests st,
    Manual_follows gmp w tests st ->
    Manual_follows gmp w (tests ++ plannedTests manualRepeatCount manualParams)%list
      (fold_left (Manual.row gmp w manualRepeatCount) manualParams st).
Proof.
  induction manualParams as [|params rows IH]; intros tests st H;
    cbn [fold_left plannedTests flat_map].
  - now rewrite app_nil_r.
  - fold (plannedTests manualRepeatCount rows). rewrite app_assoc. apply IH.
    unfold Manual.row. destruct (Manual.filled params).
    + now apply Manual_repeatLoop_follows.
    + now rewrite app_nil_r.
Qed.

Lemma Manual_run_follows gmp w manualRepeatCount manualParams :
  Manual_follows gmp w (plannedTests manualRepeatCount manualParams)
    (fold_left (Manual.row gmp w manualRepeatCount) manualParams Manual.initial).
Proof.
  apply (Manual_rows_follow gmp w manualRepeatCount manualParams [] Manual.initial).
  unfold Manual_follows. cbn. repeat split.
Qed.

Lemma plannedTests_length manualRepeatCount manualParams :
  List.length (plannedTests manualRepeatCount manualParams)
  = (Z.to_nat manualRepeatCount * List.length (filter Manual.filled manualParams))%nat.
Proof.
  induction manualParams as [|params rows IH]; cbn [plannedTests flat_map filter].
  - cbn. lia.
  - fold (plannedTests manualRepeatCount rows). rewrite length_app, IH.
    destruct (Manual.filled params); cbn [List.length]; [rewrite repeat_length|]; lia.
Qed.

(** X15.  A manual run tests the filled rows in the order of the form,
    each [manualRepeatCount] times in a row with its parameters trimmed,
    and skips the rows with a blank parameter; the calls are numbered
    consecutively from 1, and their number is the number of filled rows
    times [manualRepeatCount], the total the progress display expects. *)
Theorem manual_run_tests_filled_rows_in_order :
  forall (graphMaxPoints : Z) (w : World) (manualRepeatCount : Z)
         (manualParams : list Manual.ManualParams),
    let st := Manual.runManualTests graphMaxPoints w manualRepeatCount manualParams in
    map paramsOf (Manual.manualResults st) = plannedTests manualRepeatCount manualParams
    /\ map ApiResult.id (Manual.manualResults st)
       = idsUpTo (Z.of_nat (List.length (Manual.manualResults st)))
    /\ Z.of_nat (List.length (Manual.manualResults st))
       = Z.of_nat (List.length (filter Manual.filled manualParams))
         * Z.max 0 manualRepeatCount.
Proof.
  intros gmp w k rows st. subst st. unfold Manual.runManualTests.
  cbn [Manual.manualResults].
  destruct (Manual_run_follows gmp w k rows) as (Hpar & Hids & _).
  assert (Hlen : List.length
                   (Manual.manualResults
                      (fold_left (Manual.row gmp w k) rows Manual.initial))
                 = List.length (plannedTests k rows)).
  { rewrite <- Hpar. now rewrite length_map. }
  split; [exact Hpar|]. split.
  - rewrite Hids, idsUpTo_idsFrom, Hlen, Nat2Z.id. reflexivity.
  - rewrite Hlen, plannedTests_length. lia.
Qed.

Lemma fold_recordNext_consistent (results : list ApiResult.t) :
  forall s, consistent s -> consistent (fold_left Page.recordNext results s).
Proof.
  induction results as [|r results IH]; intros s Hs; cbn [fold_left]; [exact Hs|].
  apply IH. now apply recordNext_consistent.
Qed.

Lemma fold_recordNext_total (results : list ApiResult.t) :
  forall s, Stats.total (fold_left Page.recordNext results s)
            = Stats.total s + Z.of_nat (List.length results).
Proof.
  induction results as [|r results IH]; intros s; cbn [fold_left List.length]; [lia|].
  rewrite IH, recordNext_total. lia.
Qed.

Lemma fold_recordNext_counts (results : list ApiResult.t) :
  forall (done : list ApiResult.t) (s : Stats.t),
    counts done s ->
    counts (done ++ results) (fold_left Page.recordNext results s).
Proof.
  induction results as [|r results IH]; intros done s H; cbn [fold_left].
  - now rewrite app_nil_r.
  - rewrite (app_assoc done [r] results : (done ++ r :: results = _)%list).
    apply IH. apply (counts_snoc Page.recordNext); [reflexivity|exact H].
Qed.

(** The average of a manual run, which starts from the initial [0]. *)
Lemma fold_recordNext_zero_tolerance (results : list ApiResult.t) :
  Z.of_nat (List.length results) <= 2 ^ 40 ->
  usualDurations results = true ->
  withinTolerance (List.length results)
    (Stats.averageTime (fold_left Page.recordNext results Stats.zero))
    (mean (durationsOf results)).
Proof.
  intros Hn Hus. unfold withinTolerance.
  destruct results as [|first rest] eqn:Eres.
  - cbn. discriminate.
  - rewrite <- Eres in *.
    assert (Hlen : (1 <= List.length results)%nat) by (rewrite Eres; cbn; lia).
    clear Eres first rest.
    destruct (fold_recordNext_follows results Stats.zero 0%Q) as [_ F].
    + cbn. lia.
    + reflexivity.
    + cbn [Stats.total Stats.zero]. lia.
    + exact Hus.
    + cbn [Stats.total Stats.zero Stats.averageTime].
      split; [now left|]. split; [exact sumOf_zero|].
      unfold closeTo. cbn. split; discriminate.
    + cbn [Stats.total Stats.zero] in F. rewrite Z.add_0_l in F.
      destruct F as (_ & (_ & F2 & _) & F3).
      rewrite mean_durations.
      assert (E : (0 + sumQ (durationsOf results) == sumQ (durationsOf results))%Q) by ring.
      apply (closeTo_Qeq _ _ _ _ E) in F3. rewrite E in F2.
      apply (closeTo_tolerance (List.length results) _ _ _ Hlen F2
               (proj1 (roundoff_small (6 * Z.of_nat (List.length results)) ltac:(lia)))
               (Qle_refl _) F3).
Qed.

(** X16.  The statistics of a manual run cover all its results: the total
    is their number, the successes and the errors are the numbers of
    results with each status and add up to the total, and, for at most
    [2^40] results with usual durations, the average kept incrementally
    in binary64 arithmetic differs from the arithmetic mean of the
    durations by at most [6 * n * 2^-53] times the mean. *)
Theorem manual_run_statistics_cover_all_results :
  forall (graphMaxPoints : Z) (w : World) (manualRepeatCount : Z)
         (manualParams : list Manual.ManualParams),
    let st := Manual.runManualTests graphMaxPoints w manualRepeatCount manualParams in
    counts (Manual.manualResults st) (Manual.stats st)
    /\ consistent (Manual.stats st)
    /\ (usualDurations (Manual.manualResults st) = true ->
        Z.of_nat (List.length (Manual.manualResults st)) <= 2 ^ 40 ->
        withinTolerance (List.length (Manual.manualResults st))
          (Stats.averageTime (Manual.stats st))
          (mean (durationsOf (Manual.manualResults st)))).
Proof.
  intros gmp w k rows st. subst st. unfold Manual.runManualTests.
  cbn [Manual.manualResults Manual.stats].
  destruct (Manual_run_follows gmp w k rows) as (_ & _ & _ & Hstats & _).
  rewrite Hstats. split; [|split].
  - apply (fold_recordNext_counts _ [] Stats.zero). repeat split.
  - apply fold_recordNext_consistent. reflexivity.
  - intros Hus Hn. now apply fold_recordNext_zero_tolerance.
Qed.

(** X17.  When every updater of the graph runs once (a production build)
    and a manual run makes no more tests than [graphMaxPoints], the graph
    shows, once the run is over, one point per result, in the order of the
    results, and nothing is left in the buffer. *)
Theorem manual_graph_shows_every_result_below_capacity :
  forall (graphMaxPoints : Z) (w : World) (manualRepeatCount : Z)
         (manualParams : list Manual.ManualParams),
    updatersRunOnce w ->
    Z.of_nat (List.length (plannedTests manualRepeatCount manualParams))
    <= graphMaxPoints ->
    let st := Manual.runManualTests graphMaxPoints w manualRepeatCount manualParams in
    Graph.responseTimeData (Manual.graph st) = pointsFrom 0 (Manual.manualResults st)
    /\ Graph.graphDataBuffer (Manual.graph st) = [].
Proof.
  intros gmp w k rows Honce Hcap st. subst st. unfold Manual.runManualTests.
  cbn [Manual.manualResults Manual.graph].
  destruct (Manual_run_follows gmp w k rows) as (Hpar & _ & _ & _ & _ & Hpts).
  set (st := fold_left (Manual.row gmp w k) rows Manual.initial) in *.
  assert (Hlen : List.length (Manual.manualResults st) = List.length (plannedTests k rows))
    by (rewrite <- Hpar; now rewrite length_map).
  specialize (Hpts Honce ltac:(lia)).
  unfold Graph.updateUI. rewrite (Honce 0).
  destruct (Graph.graphDataBuffer (Manual.graph st)) as [|p buffer] eqn:Hbuf.
  - rewrite Hbuf. rewrite app_nil_r in Hpts. split; [exact Hpts|reflexivity].
  - cbn [Graph.responseTimeData Graph.graphDataBuffer Graph.seenByUpdater].
    assert (Hle : Z.of_nat (List.length (Graph.responseTimeData (Manual.graph st)))
                  + Z.of_nat (List.length (p :: buffer)) <= gmp).
    { rewrite <- Nat2Z.inj_add, <- length_app, Hpts, pointsFrom_length. lia. }
    apply Z.leb_le in Hle. rewrite Hle. split; [exact Hpts|reflexivity].
Qed.

Lemma manual_graph_shows_every_result_below_capacity_witness :
  Graph.responseTimeData
    (Manual.graph (Manual.runManualTests 50 exampleWorld 3 exampleRows))
  = pointsFrom 0 (Manual.manualResults (Manual.runManualTests 50 exampleWorld 3 exampleRows)).
Proof.
  exact (proj1 (manual_graph_shows_every_result_below_capacity 50 exampleWorld 3
                  exampleRows (fun id => eq_refl) ltac:(vm_compute; discriminate))).
Defined.

(** ** Stopping a parallel run *)

Lemma existsb_unstopped w ids :
  (forall id, In id ids -> stopDuring w id = false) -> existsb (stopDuring w) ids = false.
Proof.
  intros H. induction ids as [|id ids IH]; cbn [existsb]; [reflexivity|].
  rewrite (H id) by now left. rewrite IH; [reflexivity|].
  intros id' Hin. apply H. now right.
Qed.

(** As long as nobody presses stop during their calls, [todo] batches from
    batch number [batch] on record their calls in issue order, and the
    run goes on. *)
Lemma Legacy_parallelLoop_unstopped K w remainingCalls :
  1 <= K ->
  forall todo batch st,
    Legacy.aborted st = false ->
    0 <= batch ->
    (forall id,
        batch * K + 2 <= id
        < 2 + Z.min remainingCalls ((batch + Z.of_nat todo) * K) ->
        stopDuring w id = false) ->
    map ApiResult.id
      (Legacy.batchResults (Legacy.parallelLoop K w remainingCalls todo batch st))
    = (map ApiResult.id (Legacy.batchResults st)
       ++ idsFrom (batch * K + 2)
            (Z.to_nat (Z.min remainingCalls ((batch + Z.of_nat todo) * K) - batch * K)))%list
    /\ Legacy.aborted (Legacy.parallelLoop K w remainingCalls todo batch st) = false.
Proof.
  intros HK todo; induction todo as [|todo IH]; intros batch st Hab Hb Hstop.
  - cbn [Legacy.parallelLoop].
    replace (Z.to_nat (Z.min remainingCalls ((batch + Z.of_nat 0) * K) - batch * K))
      with 0%nat by lia.
    cbn. rewrite app_nil_r. split; [reflexivity|exact Hab].
  - rewrite Legacy_parallelLoop_unfold, Hab.
    destruct (Legacy_batch_results K w remainingCalls batch st Hab) as [Hr Ha].
    rewrite existsb_unstopped in Ha.
    2:{ intros id Hin. apply In_idsFrom in Hin. apply Hstop. nia. }
    destruct (IH (batch + 1) (Legacy_batch K w remainingCalls batch st) Ha ltac:(lia))
      as [Hr' Ha'].
    { intros id Hid. apply Hstop. nia. }
    split; [|exact Ha'].
    rewrite Hr', Hr, <- app_assoc. f_equal.
    destruct (Z.le_gt_cases (batch * K + K) remainingCalls) as [Hle|Hgt].
    + replace (Z.to_nat (Z.min (batch * K + K) remainingCalls - batch * K))
        with (Z.to_nat K) by lia.
      replace ((batch + 1) * K + 2) with (batch * K + 2 + Z.of_nat (Z.to_nat K)) by lia.
      rewrite idsFrom_app. f_equal. nia.
    + replace (Z.to_nat (Z.min remainingCalls ((batch + 1 + Z.of_nat todo) * K)
                         - (batch + 1) * K)) with 0%nat by nia.
      cbn [idsFrom seq map]. rewrite app_nil_r. f_equal. nia.
Qed.

Lemma Legacy_parallelLoop_split K w remainingCalls n m :
  forall batch st,
    Legacy.parallelLoop K w remainingCalls (n + m) batch st
    = Legacy.parallelLoop K w remainingCalls m (batch + Z.of_nat n)
        (Legacy.parallelLoop K w remainingCalls n batch st).
Proof.
  induction n as [|n IH]; intros batch st.
  - cbn [Nat.add Legacy.parallelLoop]. now rewrite Z.add_0_r.
  - cbn [Nat.add]. rewrite !Legacy_parallelLoop_unfold.
    destruct (Legacy.aborted st) eqn:Hab.
    + now rewrite Legacy_parallelLoop_aborted.
    + rewrite IH. f_equal. lia.
Qed.

(** X18.  Stopping a parallel run.  When the stop button is first pressed
    while call [k] (not the first one) is in flight, the batch of
    [threadCount] calls that [k] belongs to is completed and recorded in
    full, and no later batch is started: the results are the calls 1 to
    [1 + (b + 1) * threadCount], where [b] is the number of the batch of
    [k], or 1 to [count] if that is less. *)
Theorem parallel_stop_lets_the_batch_in_flight_finish :
  forall (threadCount : Z) (w : World) (count k : Z),
    1 <= threadCount ->
    correctTestValues (testValues w) <> None ->
    2 <= k <= count ->
    stoppedDuring w k ->
    map ApiResult.id
      (Legacy.batchResults (Legacy.afterRun Legacy.parallel threadCount w count))
    = idsUpTo (Z.min count (1 + ((k - 2) / threadCount + 1) * threadCount)).
Proof.
  intros K w count k HK Hcfg Hk (Hsetup & Hbefore & Hat).
  destruct (correctTestValues (testValues w)) as [[ds nin]|] eqn:Hc; [|congruence].
  unfold Legacy.afterRun, Legacy.runBatchCalls. rewrite Hc.
  cbn [Legacy.finally Legacy.batchResults].
  destruct (Legacy_firstCall_started Legacy.parallel w ds nin Hsetup) as (_ & Lr & La).
  rewrite (Hbefore 1) in La by lia.
  set (st1 := Legacy.firstCall Legacy.parallel w ds nin (Legacy.start w)) in *.
  set (b := (k - 2) / K).
  pose proof (Z.div_mod (k - 2) K ltac:(lia)) as Hdm.
  pose proof (Z.mod_pos_bound (k - 2) K ltac:(lia)) as Hmod.
  fold b in Hdm.
  assert (Hb0 : 0 <= b) by (apply Z.div_pos; lia).
  pose proof (ceilDiv_covers (count - 1) K ltac:(lia) HK) as Hcov.
  assert (Htot : b + 1 <= Legacy.ceilDiv (count - 1) K) by nia.
  replace (Z.to_nat (Legacy.ceilDiv (count - 1) K))
    with (Z.to_nat b + S (Z.to_nat (Legacy.ceilDiv (count - 1) K - b - 1)))%nat by lia.
  rewrite Legacy_parallelLoop_split.
  destruct (Legacy_parallelLoop_unstopped K w (count - 1) HK (Z.to_nat b) 0 st1 La
              ltac:(lia)) as [Hr Ha].
  { intros id Hid. apply Hbefore. nia. }
  set (st2 := Legacy.parallelLoop K w (count - 1) (Z.to_nat b) 0 st1) in *.
  rewrite Legacy_parallelLoop_unfold, Ha.
  destruct (Legacy_batch_results K w (count - 1) (0 + Z.of_nat (Z.to_nat b)) st2 Ha)
    as [Hr' Ha'].
  assert (Hstopped : Legacy.aborted
                       (Legacy_batch K w (count - 1) (0 + Z.of_nat (Z.to_nat b)) st2)
                     = true).
  { rewrite Ha'. apply existsb_exists. exists k. split; [|exact Hat].
    apply In_idsFrom. nia. }
  rewrite Legacy_parallelLoop_aborted by exact Hstopped.
  rewrite Hr', Hr, Lr, idsUpTo_idsFrom.
  replace (0 + Z.of_nat (Z.to_nat b)) with b by lia.
  replace (0 * K + 2) with (1 + Z.of_nat 1) by lia.
  change [1] with (idsFrom 1 1). rewrite idsFrom_app.
  replace (b * K + 2)
    with (1 + Z.of_nat (1 + Z.to_nat (Z.min (count - 1) (b * K) - 0 * K))) by nia.
  rewrite idsFrom_app. f_equal. nia.
Qed.

Lemma parallel_stop_lets_the_batch_in_flight_finish_witness :
  map ApiResult.id
    (Legacy.batchResults (Legacy.afterRun Legacy.parallel 3 stoppedWorld 9))
  = [1; 2; 3; 4].
Proof.
  assert (H1 : correctTestValues (testValues stoppedWorld) <> None)
    by (vm_compute; discriminate).
  assert (H3 : stoppedDuring stoppedWorld 2).
  { split; [reflexivity|]. split; [|reflexivity].
    intros id Hid. cbn. apply Z.eqb_neq. lia. }
  exact (parallel_stop_lets_the_batch_in_flight_finish 3 stoppedWorld 9 2
           ltac:(lia) H1 ltac:(lia) H3).
Defined.

(** ** The statistics shown by the legacy page *)

Lemma Legacy_setStats_shown st :
  Legacy.stats (Legacy.setStats st) = Legacy.counters (Legacy.setStats st).
Proof. reflexivity. Qed.

Lemma Legacy_parallelLoop_shown K w remainingCalls :
  forall todo batch st,
    Legacy.stats st = Legacy.counters st ->
    Legacy.stats (Legacy.parallelLoop K w remainingCalls todo batch st)
    = Legacy.counters (Legacy.parallelLoop K w remainingCalls todo batch st).
Proof.
  induction todo as [|todo IH]; intros batch st H; [exact H|].
  rewrite Legacy_parallelLoop_unfold. destruct (Legacy.aborted st); [exact H|].
  apply IH. unfold Legacy_batch. apply Legacy_setStats_shown.
Qed.

Lemma Legacy_firstCall_shown batchMode w ds nin :
  Legacy.stats (Legacy.firstCall batchMode w ds nin (Legacy.start w))
  = Legacy.counters (Legacy.firstCall batchMode w ds nin (Legacy.start w)).
Proof.
  unfold Legacy.firstCall, Legacy.start. cbn [Legacy.aborted].
  destruct (stopDuringSetup w); [reflexivity|]. apply Legacy_setStats_shown.
Qed.

(** The [stats] state is set after the last recording. *)
Lemma Legacy_run_shown (batchMode : Legacy.BatchMode) (threadCount : Z) (w : World)
    (count : Z) :
    batchMode = Legacy.parallel \/ neverStopped w ->
    let st := Legacy.afterRun batchMode threadCount w count in
    Legacy.stats st = Legacy.counters st.
Proof.
  revert batchMode threadCount w count.
  intros batchMode K w count Hmode st. subst st.
  unfold Legacy.afterRun, Legacy.runBatchCalls.
  destruct (correctTestValues (testValues w)) as [[ds nin]|]; [|reflexivity].
  pose proof (Legacy_firstCall_shown batchMode w ds nin) as H1.
  destruct batchMode.
  - destruct Hmode as [Hmode|[Hsetup Hstop]]; [discriminate Hmode|].
    cbn [Legacy.finally Legacy.mergeCollected Legacy.stats Legacy.counters
         Legacy.batchResults Legacy.successCount Legacy.errorCount Legacy.totalTime].
    fold (Legacy.counters
            (Legacy.sequentialLoop w (count - 1) (Z.to_nat (count - 1)) 0
               (Legacy.firstCall Legacy.sequential w ds nin (Legacy.start w)))).
    destruct (Z.to_nat (count - 1)) as [|n] eqn:Hn; [exact H1|].
    replace (S n) with (n + 1)%nat by lia.
    rewrite Legacy_sequentialLoop_split.
    destruct (Legacy_firstCall_started Legacy.sequential w ds nin Hsetup) as (_ & _ & La).
    rewrite Hstop in La.
    destruct (Legacy_sequentialLoop_unstopped w (count - 1) n 0 _ La
                ltac:(intros; apply Hstop)) as (_ & _ & Ha).
    rewrite Legacy_sequentialLoop_unfold, Ha. cbn [Legacy.sequentialLoop].
    unfold Legacy_turn.
    replace (0 + Z.of_nat n =? count - 1 - 1) with true by (symmetry; apply Z.eqb_eq; lia).
    rewrite Bool.orb_true_r. apply Legacy_setStats_shown.
  - cbn [Legacy.finally Legacy.stats Legacy.counters
         Legacy.batchResults Legacy.successCount Legacy.errorCount Legacy.totalTime].
    fold (Legacy.counters
            (Legacy.parallelLoop K w (count - 1)
               (Z.to_nat (Legacy.ceilDiv (count - 1) K)) 0
               (Legacy.firstCall Legacy.parallel w ds nin (Legacy.start w)))).
    now apply Legacy_parallelLoop_shown.
Qed.

(** The counters of a run are the summary of its results. *)
Lemma Legacy_run_counters_summary batchMode threadCount w count :
  let st := Legacy.afterRun batchMode threadCount w count in
  Legacy.counters st = summary (Legacy.batchResults st).
Proof.
  intros st.
  destruct (Legacy_run_counts_follow batchMode threadCount w count)
    as ((_ & Hs & He) & _).
  pose proof (Legacy_run_total_follows batchMode threadCount w count) as Ht.
  fold st in Hs, He, Ht. unfold Legacy_total_follows in Ht.
  unfold Legacy.counters, summary in *.
  cbn [Stats.success Stats.error] in Hs, He. now rewrite Hs, He, Ht.
Qed.

(** X19.  The statistics the legacy page shows when a run is over are
    those of all recorded results: [total] is their number, [success] and
    [error] are the numbers of successes and of errors among them, and
    [averageTime] is the binary64 quotient of the accumulated durations
    by their number ([|| 0]); in parallel mode always, and in sequential
    mode when the run was not stopped. *)
Theorem legacy_shown_statistics_are_final :
  forall (batchMode : Legacy.BatchMode) (threadCount : Z) (w : World) (count : Z),
    batchMode = Legacy.parallel \/ neverStopped w ->
    let st := Legacy.afterRun batchMode threadCount w count in
    Legacy.stats st = summary (Legacy.batchResults st)
    /\ Stats.total (Legacy.stats st) = Z.of_nat (List.length (Legacy.batchResults st))
    /\ Stats.success (Legacy.stats st) = countStatus success (Legacy.batchResults st)
    /\ Stats.error (Legacy.stats st) = countStatus error (Legacy.batchResults st)
    /\ Stats.averageTime (Legacy.stats st)
       = Legacy.averageOf (sumDurations (Legacy.batchResults st))
           (List.length (Legacy.batchResults st)).
Proof.
  intros batchMode K w count Hmode st.
  assert (H : Legacy.stats st = summary (Legacy.batchResults st)).
  { subst st. rewrite (Legacy_run_shown batchMode K w count Hmode).
    apply Legacy_run_counters_summary. }
  split; [exact H|]. rewrite H. repeat split.
Qed.

Lemma legacy_shown_statistics_are_final_witness :
  Legacy.stats (Legacy.afterRun Legacy.sequential 1 exampleWorld 7)
  = summary (Legacy.batchResults (Legacy.afterRun Legacy.sequential 1 exampleWorld 7)).
Proof.
  apply (legacy_shown_statistics_are_final Legacy.sequential 1 exampleWorld 7).
  right. split; reflexivity.
Defined.

(** ** What a UI update shows *)

(** X20.  As long as fewer points are buffered than the graph may hold, a
    UI update of [app/page.tsx] empties the buffer and keeps the graph
    within its capacity.  When React runs the updater once, the graph then
    shows the newest [graphMaxPoints] points of those shown before
    followed by those buffered (all of them when they fit).  When React
    runs the updater twice ([reactStrictMode], development build), the
    graph shows what it showed before: the buffered points are lost. *)
Theorem updateUI_shows_the_newest_points :
  forall (graphMaxPoints : Z) (g : Graph.t),
    withinCapacity graphMaxPoints g ->
    Z.of_nat (List.length (Graph.graphDataBuffer g)) < graphMaxPoints ->
    let points := (Graph.responseTimeData g ++ Graph.graphDataBuffer g)%list in
    (Graph.responseTimeData (Graph.updateUI false graphMaxPoints g)
     = skipn (List.length points - Z.to_nat graphMaxPoints) points
     /\ Graph.responseTimeData (Graph.updateUI true graphMaxPoints g)
        = Graph.responseTimeData g)
    /\ (forall twice,
          Graph.graphDataBuffer (Graph.updateUI twice graphMaxPoints g) = []
          /\ withinCapacity graphMaxPoints (Graph.updateUI twice graphMaxPoints g)).
Proof.
  intros gmp g Hcap Hbuf points.
  split; [split|intros twice; split; [|now apply updateUI_withinCapacity]].
  - subst points. unfold withinCapacity in Hcap. unfold Graph.updateUI.
    destruct (Graph.graphDataBuffer g) as [|p buffer] eqn:Hb.
    + rewrite app_nil_r.
      replace (List.length (Graph.responseTimeData g) - Z.to_nat gmp)%nat with 0%nat by lia.
      reflexivity.
    + cbn [Graph.responseTimeData Graph.seenByUpdater]. rewrite length_app.
      set (prev := Graph.responseTimeData g) in *.
      set (buf := p :: buffer) in *.
      destruct (_ <=? gmp) eqn:E.
      * apply Z.leb_le in E.
        replace (List.length prev + List.length buf - Z.to_nat gmp)%nat with 0%nat by lia.
        reflexivity.
      * apply Z.leb_gt in E. rewrite skipn_app.
        replace (List.length prev + List.length buf - Z.to_nat gmp - List.length prev)%nat
          with 0%nat by lia.
        cbn [skipn]. f_equal. unfold JS.slice.
        destruct (- (gmp - Z.of_nat (List.length buf)) <? 0) eqn:E';
          [|apply Z.ltb_ge in E'; lia].
        f_equal. lia.
  - unfold withinCapacity in Hcap. unfold Graph.updateUI.
    destruct (Graph.graphDataBuffer g) as [|p buffer] eqn:Hb; [reflexivity|].
    cbn [Graph.responseTimeData Graph.seenByUpdater List.length].
    replace (Z.of_nat (List.length (Graph.responseTimeData g)) + Z.of_nat 0 <=? gmp)
      with true by (symmetry; apply Z.leb_le; lia).
    apply app_nil_r.
  - unfold Graph.updateUI. destruct (Graph.graphDataBuffer g) eqn:Hb; [exact Hb|reflexivity].
Qed.

Lemma updateUI_shows_the_newest_points_witness :
  let g := Graph.make (pointsFrom 0 (Page.batchResults (Page.afterRun 100 exampleWorld 3)))
             (pointsFrom 3 (Page.batchResults (Page.afterRun 100 exampleWorld 2))) 5 false in
  List.length (Graph.responseTimeData (Graph.updateUI false 4 g)) = 4%nat.
Proof.
  intros g.
  destruct (updateUI_shows_the_newest_points 4 g) as ((H & _) & _).
  - unfold withinCapacity. vm_compute. discriminate.
  - vm_compute. reflexivity.
  - rewrite H. vm_compute. reflexivity.
Defined.

(** A run of twelve calls in which the updater of the UI update made
    while call 11 is awaited runs twice: the ten points buffered by then
    never reach the graph, which ends with the points 11 and 12. *)
Lemma rerun_updater_loses_buffered_points :
  map ResponseTimeData.time
    (Graph.responseTimeData (Page.graph (Page.afterRun 50 rerunWorld 12)))
  = ["11"; "12"]
  /\ List.length (Page.batchResults (Page.afterRun 50 rerunWorld 12)) = 12%nat.
Proof. split; vm_compute; reflexivity. Qed.
